(* ===== verification/_CoqProject ===== *)
-Q . S2P
Prelude.v
Bytes.v
Checksum.v
Proto.v
Net.v
Rewrite.v
NatTable.v
Io.v
Session.v
UdpGw.v
Utf8.v
Socks.v
SocksClient.v
SocksServer.v
Dns.v
DnsPacket.v
Stack.v
Text.v
Display.v
Addr.v
Obs.v
Http.v
Agreement.v
Tun.v
Engine.v
Client.v
Flow.v
Service.v
Delivery.v
EndToEnd.v
Fuzz.v
UnitTests.v
Lifecycle.v
Report.v
Ffi.v
Jni.v
Android.v
Config.v
Mcp.v
