(* ===== verification/Prelude.v ===== *)
(** * Gravital Share engine: a verification development

    Gravital Share lets one phone share its connection with another.  The
    phone that shares runs a SOCKS5 server and an HTTP CONNECT proxy; the
    phone that uses the connection runs a VPN service whose packets come out
    of a TUN device, are terminated by a userspace TCP stack and are carried
    to the SOCKS5 server.  The engine is the Rust workspace
    [src/engine/crates]; the Android application around it is Kotlin.  This
    library models the engine, and the part of the application that drives it,
    and proves what the parts promise each other.

    ** The parts, and where they are modelled

    The client side, in the order a packet meets it:
    - [Tun]: gravital-tun [device.rs], the read and write loops over the file
      descriptor, with the MTU check of [TunWriter]; [platform.rs], the system
      calls that open an interface.
    - [Engine], section [client_loop]: gravital-engine [runner.rs], the task
      that reads the device.  [classify] decides what a packet is, [tun_packet]
      acts on it, [dns_task] is the task spawned for a DNS query.  Also
      [config.rs] and [metrics.rs].
    - [Client]: the other tasks of [runner.rs].  [poll_turn] is a tick of the
      task that drives the stack; [relay_open], [app_to_up] and [up_to_app]
      are [relay_connection], which carries one connection over a tunnel.
    - [Flow]: the client made of all of these: one stack, any number of
      connections, and the relay of each ([client_step]).
    - [Service]: [service_socket] of [stack.rs] one operation at a time,
      interleaved with the relay of the connection.
    - [Delivery]: fair schedules of a relay's loops and the stack.
    - [Checksum], [Proto]: gravital-proto, the Internet checksum and the views
      over IPv4, IPv6, TCP, UDP and ICMP.
    - [DnsPacket]: the packet helpers of [runner.rs] that recognise a DNS query
      and build the packet with the answer.
    - [Dns]: gravital-dns, the resolver, the interceptor with its counters and
      the leak check.
    - [Rewrite], [NatTable], [Stack]: gravital-stack.  A TCP segment for any
      destination is rewritten to a virtual port of the stack's own address
      ([rewrite.rs]); the table of virtual ports is [nat.rs]; [stack.rs] feeds
      the segments to smoltcp, services the sockets and rewrites what smoltcp
      emits.  The record [Inner] is the struct behind the stack's mutex.
    - [Agreement]: the packet readers and checksum writers that [runner.rs] and
      [rewrite.rs] have of their own, against gravital-proto.
    - [Socks], [SocksClient]: gravital-socks [proto.rs] and [client.rs], the
      SOCKS5 messages and the opening of a tunnel with its retries.
    - [UdpGw]: gravital-udpgw, the framing of UDP over TCP and the association
      table.

    The sharing side:
    - [SocksServer]: gravital-socks [server.rs], the accept loop, the handlers
      of the three commands, the TCP relay and the UDP relay.
    - [Http]: gravital-http, the CONNECT proxy.
    - [EndToEnd]: the relay of the client joined to the handler of the SOCKS5
      server.

    Around both:
    - [Session]: gravital-engine [session.rs], the automaton of a session, the
      object that holds it with its listeners, and the interleavings of
      concurrent dispatches ([dispatch] takes its lock twice).
    - [Lifecycle]: the public calls of [runner.rs] ([start_server],
      [start_client], [stop], [shutdown]) and the tasks they spawn, as a
      transition system over the session, the shutdown channel, the tasks and
      the states reported to the listener.
    - [Report]: what [runner.rs] tells the outside: the JSON of a transition, of
      the state and of the counters ([metrics.rs]).
    - [Jni]: [jni_android.rs] and the process-wide engine of [runner.rs]
      ([Engine::init], [get], the event callback), over the record [Process];
      the error codes of [error.rs]; and the stubs of gravital-ffi
      [jni_api.rs].
    - [Android]: [SessionManager.kt], what the user interface shows, the
      handler of the engine's events, and the coroutines of the application
      over the process of [Jni].
    - [Config]: [config.rs], the deserialisation that serde derives, and the
      path of a configuration from the application to the engine.
    - [Ffi]: gravital-ffi [c_api.rs], the C interface.
    - [Obs]: gravital-obs [event.rs], [layer.rs], [sink.rs] and [lib.rs], from a
      tracing event to the line in a sink (class [Sink]).
    - [Mcp]: gravital-obs [mcp.rs], the local diagnostic endpoint with its
      session token.

    Beside them:
    - [UnitTests]: the tests of the crates, run on the model.
    - [Fuzz]: the fuzz targets and the benchmark.

    Below them, what the source uses of the language and its library:
    this file (results, panics, machine integers), [Bytes] (buffers), [Net]
    (addresses), [Io] (streams), [Utf8], [Text], [Display] and [Addr] (strings,
    and the printed form of numbers and addresses and its parser).

    ** How code becomes definitions

    A function that can fail is an [Outcome]: [Ok], [Err], or [Panic] where
    Rust panics, or [Diverge] where a loop has used up its fuel.  Every index,
    slice and checked arithmetic operation is a step that can panic.  The
    class [Build] says whether overflow checks and [debug_assert!] are on;
    the theorems hold for both profiles.  A [u8], [u16], [u32] or [u64] is a
    [Z] whose wrap-around or overflow is written out; a [&mut] argument is
    passed in and returned; a [HashMap] is a [gmap].  Code that runs on a
    stream is in the monad [IO], generic in the class [AsyncIo].  Shared
    channels (the two directions of a [VirtualConnection]) live in a store
    that both ends point into.  Concurrency is explicit: [Session], [Client],
    [Flow], [Lifecycle], [Jni] and [Android] quantify over the sequences of steps of
    threads and tasks.  A public call of the engine, a poll of the stack, an
    opening of a tunnel and a turn of a relay loop are single steps, except in
    [Service].

    ** Parameters

    Code outside the repository is an argument of the definitions that call
    it, with what the code relies on as hypotheses:
    - tokio's streams: class [AsyncIo], laws [AsyncIoLaws] (a stream read
      through its [view] is a script of what the peer sends and a record of
      what was written); the type [Stream] is an instance.
    - smoltcp: class [Smoltcp], laws [SmoltcpLaws]; the module
      [Stack.MiniTcp] is an instance, on which the witnesses run.
    - httparse: the function [httparse], with the hypothesis that it reports a
      partial request on each proper prefix of a complete one.
    - name resolution, outgoing connections, UDP sockets, the answers of the
      kernel to reads and writes of the device, the clock, the iteration order
      of a hash map (a permutation of the keys), serde_json's printer and reader,
      ULIDs, the hashes of the clock and the tokio runtime of [Engine::new].
    - the Java virtual machine: attaching a thread, making strings and global
      references ([Jni]); the module [Jni.Demo] has one that works.
    - serde_json's reader of objects ([Config]), with the hypothesis that it
      reads back members without escapes ([reads_objects]); [mini_read] is one.

    ** Fuel

    [CARRY_FUEL] = 3: folding the carries of a [u32] takes at most two
    additions ([carry_loop_spec]).  [SCAN_FUEL] = 50000: one round over the
    virtual ports 10000 to 59999 ([insert_loop_spec]).  [READ_FUEL] = 8193:
    every turn of the header loop reads a byte and 8192 is the limit
    ([read_header_returns]).  [dec]: 20 digits for a [u64] ([dec_loop_spec]);
    [hex]: 16 digits ([hex_loop_spec]).
    [mini_members], like [json_fields], uses a character per member.
    The UTF-8 decoder and [split_whitespace] consume a byte per turn, so the
    length is enough; the loops of [poll_turn] empty a queue and have its
    length.  The accept and packet loops run over the list of what
    arrives.

    ** What is shown

    - Packets: the checksum is the one's complement sum of RFC 1071 in both
      build profiles ([Checksum]); the parsers are total, accept exactly the
      well-formed headers, and the accessors read the fields of the standards,
      panicking in two cases that are stated ([Proto]); rewriting changes
      exactly one address or port and leaves both checksums valid ([Rewrite]);
      a DNS reply parses, is addressed back and has valid checksums
      ([DnsPacket]); the engine's and the stack's own readers and checksum
      writers compute what gravital-proto computes ([Agreement]).
    - NAT: the table refines an abstract injective assignment of ports to
      flows, operation by operation, and forward and reverse lookups are
      inverse after any run ([NatTable]).
    - Stack: no sequence of calls panics or breaks the invariant, whatever is
      fed and whatever smoltcp answers; each inbound segment, outbound segment
      and service of a socket is described on every branch, including the
      segments, bytes and ports that are lost ([Stack]).
    - Client tasks: a tick always ends with both queues empty and exact
      counters, and the relay of a connection carries both directions without
      loss, duplication or reordering under every interleaving with the stack,
      and ends when the stack drops the connection ([Client]); a poll of the
      whole stack is, for each channel, a sequence of the steps that relay was
      proved against, so in a client with any number of connections every
      relay is faithful and no step panics ([Flow]); the relay may also run in
      the middle of a service, which keeps the data right but can close the
      socket before the last chunk is sent ([Service]); under every fair
      schedule all that is sent arrives ([Delivery]).
    - Tunnels: a client and a server that run against each other carry the
      data unchanged in both directions, for SOCKS5 and for CONNECT; every
      error has the reply that is stated ([SocksServer], [Http]); the codecs
      round trip and reject truncated input ([Socks], [UdpGw]); the retries
      follow the capped exponential backoff ([SocksClient]); joined end to end,
      what the application sends reaches the address its packets carry, and the
      answer reaches the application ([EndToEnd]).
    - DNS: a query goes to the configured resolver only and always has an
      answer ([Dns], [Engine]).
    - Session and life cycle: the transition table; the invariant under every
      interleaving, with the lost update that two dispatches can produce;
      after stop or shutdown the tasks end within a bounded number of steps in
      any order, and after stop the session is Idle, Failed, or Stopping when
      there was nothing to stop; the listener is told the truth; a failed bind,
      a quick restart, a stopped client and a shutdown leave the engine in a
      state that is not what the session says ([Session], [Lifecycle]).
    - Interfaces: the code of every Java call in every reachable process; Java
      is called once for each state the session goes through, in order, with
      JSON that reads back as that state ([Jni], [Report]); handled in order,
      the events leave the user interface at the state of the session, and two
      runs in which it parts from it ([Android]); a configuration arrives as it
      was written or is replaced by the default ([Config]), since printed
      addresses are read back ([Addr]); the C functions
      never write past the caller's buffer ([Ffi]); the telemetry log holds the
      events since the first sink, in order and of the documented shape
      ([Obs]); the diagnostic endpoint serves loopback peers that know the
      token, 64 hexadecimal digits ([Mcp]); opening a TUN interface leaves its
      descriptor open only on success or for a name with a NUL ([Tun]).

    ** What is not modelled

    [packet_channel] of [device.rs], a call of tokio; the variant of [open_tun]
    for other systems, a constant; serde's derived printers; the macro
    [gs_event!], which calls [emit]; [smol_now], whose result is an argument of
    [poll]; the number of worker threads; logging; the test of [event.rs],
    which is about serde_json's printer; of the Android application the
    screens, services, settings and network discovery, which are calls of the
    Android framework. *)

From Stdlib Require Import ZArith Lia.
From stdpp Require Export base decidable list list_numbers numbers option.
#[export] Set Default Goal Selector "!".

(** ** Outcomes of Rust code

    [Ok] and [Err] are the two values of a [Result]; [Panic] is a panic
    (an index out of range, a failed [debug_assert!], an arithmetic overflow
    in a build with overflow checks, [unreachable!]); [Diverge] is a loop
    that used up its fuel, so a theorem that concludes [Ok] also states that
    the loops involved terminate. *)
Inductive Outcome (E A : Type) : Type :=
| Ok (a : A)
| Err (e : E)
| Panic
| Diverge.
Arguments Ok {E A} a.
Arguments Err {E A} e.
Arguments Panic {E A}.
Arguments Diverge {E A}.

Definition obind {E A B} (m : Outcome E A) (k : A → Outcome E B) : Outcome E B :=
  match m with
  | Ok a => k a
  | Err e => Err e
  | Panic => Panic
  | Diverge => Diverge
  end.

Declare Scope rust_scope.
Delimit Scope rust_scope with rust.
Notation "'let!' x ':=' m 'in' k" := (obind m (λ x, k))
  (at level 10, x pattern, m at level 100, k at level 200,
   format "'[v' 'let!'  x  ':='  m  'in' '/' k ']'") : rust_scope.
Notation "m ';;!' k" := (obind m (λ _, k))
  (at level 100, right associativity) : rust_scope.
Open Scope rust_scope.

(** [Result::map_err]. *)
Definition map_err {E F A} (f : E → F) (m : Outcome E A) : Outcome F A :=
  match m with
  | Ok a => Ok a
  | Err e => Err (f e)
  | Panic => Panic
  | Diverge => Diverge
  end.

(** The call came back: it neither panicked nor ran for ever. *)
Definition returned {E A} (m : Outcome E A) : Prop :=
  match m with Ok _ | Err _ => True | Panic | Diverge => False end.

Lemma obind_ok {E A B} (m : Outcome E A) (k : A → Outcome E B) b :
  obind m k = Ok b ↔ ∃ a, m = Ok a ∧ k a = Ok b.
Proof. destruct m; simpl; split; [eauto|by intros (? & [= ->] & ?)|..]; try done; by intros (? & ? & ?). Qed.

Lemma returned_obind {E A B} (m : Outcome E A) (k : A → Outcome E B) :
  returned m → (∀ a, m = Ok a → returned (k a)) → returned (obind m k).
Proof. destruct m; simpl; naive_solver. Qed.

(** ** The build profile

    Cargo's [dev] profile compiles [debug_assert!] and panics on arithmetic
    overflow, the [release] profile does neither (overflow wraps).  The
    model is parametric in the profile. *)
Class Build := { debug_assertions : bool }.
Definition dev : Build := {| debug_assertions := true |}.
Definition release : Build := {| debug_assertions := false |}.

Definition debug_assert {E} {B : Build} (b : bool) : Outcome E unit :=
  if debug_assertions && negb b then Panic else Ok tt.

(** ** Machine integers: [Z] at a width [w], unsigned *)
Definition uint (w : Z) (x : Z) : Prop := (0 ≤ x < 2 ^ w)%Z.
Abbreviation u8 := (uint 8).
Abbreviation u16 := (uint 16).
Abbreviation u32 := (uint 32).
Abbreviation u64 := (uint 64).

(** [x as uW]. *)
Definition cast (w : Z) (x : Z) : Z := (x mod 2 ^ w)%Z.

(** The result of an operator whose exact value is [x], at width [w]. *)
Definition arith {E} {B : Build} (w : Z) (x : Z) : Outcome E Z :=
  if ((0 <=? x) && (x <? 2 ^ w))%Z then Ok x
  else if debug_assertions then Panic else Ok (cast w x).

(** [!x] at width [w]. *)
Definition unot (w : Z) (x : Z) : Z := Z.land (Z.lnot x) (Z.ones w).

(** [u64::saturating_mul], [u64::saturating_pow] and [u32::saturating_sub]. *)
Definition saturating_mul64 (a b : Z) : Z := Z.min (a * b) (2 ^ 64 - 1).
Definition saturating_pow64 (a n : Z) : Z := Z.min (a ^ n) (2 ^ 64 - 1).
Definition saturating_sub32 (a b : Z) : Z := Z.max (a - b) 0.

Section machine.
Local Open Scope Z_scope.

Lemma arith_exact {E} {B : Build} w x :
  uint w x → arith (E := E) w x = Ok x.
Proof.
  intros [H1 H2]. unfold arith.
  by rewrite (proj2 (Z.leb_le _ _) H1), (proj2 (Z.ltb_lt _ _) H2).
Qed.

Lemma unot_16 x : u16 x → unot 16 x = 65535 - x.
Proof.
  intros [H1 H2]. unfold unot. rewrite Z.land_ones by lia.
  unfold Z.lnot. symmetry. apply Z.mod_unique_pos with (-1); lia.
Qed.

Lemma cast_small w x : uint w x → cast w x = x.
Proof. intros H. by apply Z.mod_small. Qed.

Lemma cast_uint w x : 0 ≤ w → uint w (cast w x).
Proof. intros H. apply Z.mod_pos_bound. lia. Qed.

(** The bit operations of the source, as arithmetic. *)
Lemma land_0xF x : Z.land x 15 = x mod 16.
Proof. change 15 with (Z.ones 4). by rewrite Z.land_ones by lia. Qed.
Lemma land_0xFF x : Z.land x 255 = x mod 256.
Proof. change 255 with (Z.ones 8). by rewrite Z.land_ones by lia. Qed.
Lemma land_0xFFFF x : Z.land x 65535 = x mod 65536.
Proof. change 65535 with (Z.ones 16). by rewrite Z.land_ones by lia. Qed.
Lemma shiftr_4 x : Z.shiftr x 4 = x / 16.
Proof. by rewrite Z.shiftr_div_pow2 by lia. Qed.
Lemma shiftr_16 x : Z.shiftr x 16 = x / 65536.
Proof. by rewrite Z.shiftr_div_pow2 by lia. Qed.
Lemma shiftl_8 x : Z.shiftl x 8 = x * 256.
Proof. by rewrite Z.shiftl_mul_pow2 by lia. Qed.
End machine.

Create HintDb rust discriminated.
Create Rewrite HintDb bits.
#[export] Hint Rewrite land_0xF land_0xFF land_0xFFFF shiftr_4 shiftr_16 shiftl_8 : bits.
