(* ===== verification/Bytes.v ===== *)
(** * Byte buffers

    [&[u8]], [Vec<u8>] and [BytesMut] are lists of [Z]; [is_bytes] says that
    every element is a [u8].  Indexing, slicing and [copy_from_slice] panic
    exactly where Rust does.  [l !!! i] is the byte at [i] (0 past the end),
    used in specifications only. *)

From Stdlib Require Import ZArith Lia.
From S2P Require Import Prelude.

Definition is_bytes (l : list Z) : Prop := Forall u8 l.

(** [l[i]]. *)
Definition idx {E} (l : list Z) (i : nat) : Outcome E Z :=
  match l !! i with Some b => Ok b | None => Panic end.

(** [&l[a..b]]. *)
Definition slice {E} (l : list Z) (a b : nat) : Outcome E (list Z) :=
  if (a <=? b)%nat && (b <=? length l)%nat then Ok (take (b - a) (drop a l)) else Panic.

(** [&l[a..]]. *)
Definition slice_from {E} (l : list Z) (a : nat) : Outcome E (list Z) :=
  slice l a (length l).

(** [l[i] = v]. *)
Definition set_idx {E} (l : list Z) (i : nat) (v : Z) : Outcome E (list Z) :=
  if (i <? length l)%nat then Ok (<[i := v]> l) else Panic.

(** [l[a..b].copy_from_slice(src)]. *)
Definition copy_from_slice {E} (l : list Z) (a b : nat) (src : list Z) : Outcome E (list Z) :=
  if (a <=? b)%nat && (b <=? length l)%nat && (length src =? b - a)%nat
  then Ok (list_inserts a src l) else Panic.

(** [u16::from_be_bytes], [u32::from_be_bytes] and the [to_be_bytes]. *)
Definition be16 (a b : Z) : Z := (a * 256 + b)%Z.
Definition be32 (a b c d : Z) : Z := (((a * 256 + b) * 256 + c) * 256 + d)%Z.
Definition to_be16 (v : Z) : list Z := [(v / 256) mod 256; v mod 256]%Z.
Definition to_be32 (v : Z) : list Z :=
  [(v / 16777216) mod 256; (v / 65536) mod 256; (v / 256) mod 256; v mod 256]%Z.

(** [chunks_exact(2)] and its [remainder()]. *)
Fixpoint chunks_exact2 (l : list Z) : list (Z * Z) :=
  match l with
  | a :: b :: r => (a, b) :: chunks_exact2 r
  | _ => []
  end.
Fixpoint chunks_remainder2 (l : list Z) : list Z :=
  match l with
  | _ :: _ :: r => chunks_remainder2 r
  | l => l
  end.

(** ** Length arithmetic *)
Create Rewrite HintDb len.
#[export] Hint Rewrite @length_app @length_take @length_drop @length_insert
  @length_inserts @length_replicate : len.
Ltac len := autorewrite with len; simpl length; lia.
Ltac len_in H := autorewrite with len in H; simpl length in H.

(** Index disequalities written [j ∉ [i1; ..; in]]. *)
Ltac notin :=
  rewrite ?not_elem_of_cons in *; destruct_and?; split_and?; try lia; try apply not_elem_of_nil.

(** Two-step list induction, the scheme of the [chunks_exact(2)] loops. *)
Lemma list_ind2 {A} (P : list A → Prop) :
  P [] → (∀ a, P [a]) → (∀ a b l, P l → P (a :: b :: l)) → ∀ l, P l.
Proof.
  intros H0 H1 H2. fix IH 1. intros [|a [|b l]]; [done|apply H1|apply H2, IH].
Qed.

(** ** Reading *)
Lemma idx_ok {E} l i : (i < length l)%nat → idx (E := E) l i = Ok (l !!! i).
Proof.
  intros H. unfold idx. by rewrite (list_lookup_lookup_total_lt l i H).
Qed.

Lemma idx_panic {E} l i : (length l ≤ i)%nat → idx (E := E) l i = Panic.
Proof. intros H. unfold idx. by rewrite (lookup_ge_None_2 l i H). Qed.

Lemma slice_ok {E} l a b :
  (a ≤ b)%nat → (b ≤ length l)%nat →
  slice (E := E) l a b = Ok (take (b - a) (drop a l)).
Proof.
  intros H1 H2. unfold slice.
  by rewrite (proj2 (Nat.leb_le _ _) H1), (proj2 (Nat.leb_le _ _) H2).
Qed.

Lemma slice_from_ok {E} l a :
  (a ≤ length l)%nat → slice_from (E := E) l a = Ok (drop a l).
Proof.
  intros H. unfold slice_from. rewrite slice_ok by lia.
  by rewrite take_ge by len.
Qed.

Lemma set_idx_ok {E} l i v :
  (i < length l)%nat → set_idx (E := E) l i v = Ok (<[i := v]> l).
Proof. intros H. unfold set_idx. by rewrite (proj2 (Nat.ltb_lt _ _) H). Qed.

Lemma copy_from_slice_ok {E} l a b src :
  (a ≤ b)%nat → (b ≤ length l)%nat → length src = (b - a)%nat →
  copy_from_slice (E := E) l a b src = Ok (list_inserts a src l).
Proof.
  intros H1 H2 H3. unfold copy_from_slice.
  by rewrite (proj2 (Nat.leb_le _ _) H1), (proj2 (Nat.leb_le _ _) H2), H3, Nat.eqb_refl.
Qed.

Lemma total_insert l i j (v : Z) :
  (i < length l)%nat →
  (<[i := v]> l) !!! j = if decide (i = j) then v else l !!! j.
Proof.
  intros H. case_decide as Hd; [subst; by apply list_lookup_total_insert_eq|].
  by apply list_lookup_total_insert_ne.
Qed.

Lemma total_inserts l i k j :
  (i + length k ≤ length l)%nat →
  (list_inserts i k l : list Z) !!! j =
    if decide (i ≤ j < i + length k)%nat then k !!! (j - i)%nat else l !!! j.
Proof.
  intros H. case_decide.
  - by apply list_lookup_total_inserts; lia.
  - destruct (decide (j < i)%nat).
    + by rewrite list_lookup_total_inserts_lt.
    + by rewrite list_lookup_total_inserts_ge by lia.
Qed.

Lemma inserts_split (l : list Z) i k :
  (i + length k ≤ length l)%nat →
  list_inserts i k l = take i l ++ k ++ drop (i + length k) l.
Proof.
  intros H. apply list_eq. intros j.
  destruct (decide (j < i)%nat) as [H1|H1].
  { rewrite list_lookup_inserts_lt by lia.
    rewrite lookup_app_l by len. by rewrite lookup_take_lt by lia. }
  rewrite lookup_app_r by len. rewrite length_take.
  destruct (decide (j < i + length k)%nat) as [H2|H2].
  - rewrite list_lookup_inserts by lia. rewrite lookup_app_l by lia.
    f_equal. lia.
  - rewrite list_lookup_inserts_ge by lia. rewrite lookup_app_r by lia.
    rewrite lookup_drop. f_equal. lia.
Qed.

(** Runs the buffer operations at the head of a goal whose bounds [len]
    proves. *)
Ltac run_bytes :=
  cbn [obind]; repeat (first
    [ rewrite idx_ok by len
    | rewrite set_idx_ok by len
    | rewrite copy_from_slice_ok by len
    | rewrite slice_from_ok by len
    | rewrite slice_ok by len ]; cbn [obind]).

(** Takes the passing branch of a length guard. *)
Ltac pass_guard := match goal with
  | |- context [if (?a <? ?b)%nat then _ else _] => destruct (Nat.ltb_spec a b); [lia|]
  | |- context [if (?a =? ?b)%nat then _ else _] => destruct (Nat.eqb_spec a b); [lia|]
  end.

(** Case analysis on a length guard. *)
Ltac split_guard := match goal with
  | |- context [if (?a <? ?b)%nat then _ else _] => destruct (Nat.ltb_spec a b)
  end.

(** Runs guards and buffer operations as far as the known lengths allow. *)
Ltac run_guards := repeat (first [pass_guard | progress run_bytes]).

Lemma take_total4 (l : list Z) i :
  (i + 4 ≤ length l)%nat →
  take 4 (drop i l) = [l !!! i; l !!! S i; l !!! S (S i); l !!! S (S (S i))].
Proof.
  intros H.
  rewrite (drop_S l (l !!! i) i) by (apply list_lookup_lookup_total_lt; lia).
  rewrite (drop_S l (l !!! S i)) by (apply list_lookup_lookup_total_lt; lia).
  rewrite (drop_S l (l !!! S (S i))) by (apply list_lookup_lookup_total_lt; lia).
  by rewrite (drop_S l (l !!! S (S (S i)))) by (apply list_lookup_lookup_total_lt; lia).
Qed.

(** ** Bytes stay bytes *)
Lemma is_bytes_total l i : is_bytes l → u8 (l !!! i).
Proof.
  intros H. destruct (decide (i < length l)%nat) as [Hi|Hi].
  - eapply Forall_lookup_1; [exact H|]. by apply list_lookup_lookup_total_lt.
  - rewrite list_lookup_total_alt, lookup_ge_None_2 by lia. split; simpl; lia.
Qed.
Lemma is_bytes_app l k : is_bytes (l ++ k) ↔ is_bytes l ∧ is_bytes k.
Proof. apply Forall_app. Qed.
Lemma is_bytes_take n l : is_bytes l → is_bytes (take n l).
Proof. apply Forall_take. Qed.
Lemma is_bytes_drop n l : is_bytes l → is_bytes (drop n l).
Proof. apply Forall_drop. Qed.
Lemma is_bytes_insert l i v : is_bytes l → u8 v → is_bytes (<[i := v]> l).
Proof. intros. by apply Forall_insert. Qed.
Lemma is_bytes_inserts l i k : is_bytes l → is_bytes k → is_bytes (list_inserts i k l).
Proof. intros. by apply Forall_inserts. Qed.
Lemma is_bytes_replicate n : is_bytes (replicate n 0%Z).
Proof. apply Forall_replicate. split; lia. Qed.
Lemma is_bytes_be16 v : is_bytes (to_be16 v).
Proof.
  repeat constructor; apply Z.mod_pos_bound; lia.
Qed.
Lemma is_bytes_be32 v : is_bytes (to_be32 v).
Proof.
  repeat constructor; apply Z.mod_pos_bound; lia.
Qed.
#[export] Hint Resolve is_bytes_take is_bytes_drop is_bytes_insert is_bytes_inserts
  is_bytes_replicate is_bytes_be16 is_bytes_be32 : rust.

(** ** Big-endian round trips *)
Lemma be16_u16 a b : u8 a → u8 b → u16 (be16 a b).
Proof. unfold uint, be16. intros [] []. lia. Qed.
#[export] Hint Resolve be16_u16 is_bytes_total : rust.

Lemma to_be16_be16 a b : u8 a → u8 b → to_be16 (be16 a b) = [a; b].
Proof.
  unfold uint, be16, to_be16. intros [] [].
  repeat f_equal; Z.div_mod_to_equations; lia.
Qed.

Lemma be16_to_be16 v : u16 v → be16 (to_be16 v !!! 0) (to_be16 v !!! 1) = v.
Proof.
  unfold uint, be16, to_be16. intros []. simpl. Z.div_mod_to_equations; lia.
Qed.

Lemma be32_to_be32 v : u32 v →
  be32 (to_be32 v !!! 0) (to_be32 v !!! 1) (to_be32 v !!! 2) (to_be32 v !!! 3) = v.
Proof.
  unfold uint, be32, to_be32. intros []. simpl. Z.div_mod_to_equations; lia.
Qed.

(** ** Storing a 16-bit field *)
Definition put16 (i : nat) (v : Z) (l : list Z) : list Z := list_inserts i (to_be16 v) l.

Lemma length_put16 i v l : length (put16 i v l) = length l.
Proof. apply length_inserts. Qed.
#[export] Hint Rewrite length_put16 : len.

Lemma is_bytes_put16 i v l : is_bytes l → is_bytes (put16 i v l).
Proof. intros. apply is_bytes_inserts; auto with rust. Qed.
#[export] Hint Resolve is_bytes_put16 : rust.

Lemma list_eq_total (l k : list Z) :
  length l = length k → (∀ j, (j < length l)%nat → l !!! j = k !!! j) → l = k.
Proof.
  intros Hl Hj. apply list_eq_same_length with (length l); [done..|].
  intros i x y Hi Hx Hy. apply list_lookup_total_correct in Hx as <-, Hy as <-. auto.
Qed.

Lemma put16_total i v l j :
  (i + 2 ≤ length l)%nat →
  put16 i v l !!! j =
    if decide (j = i) then ((v / 256) mod 256)%Z
    else if decide (j = S i) then (v mod 256)%Z else l !!! j.
Proof.
  intros H. unfold put16. rewrite total_inserts by (simpl; lia).
  repeat case_decide; try (simpl in *; lia); subst; try done.
  - by replace (i - i)%nat with 0%nat by lia.
  - by replace (S i - i)%nat with 1%nat by lia.
Qed.

Lemma put16_same i v l :
  (i + 2 ≤ length l)%nat → u16 v →
  be16 (put16 i v l !!! i) (put16 i v l !!! S i) = v.
Proof.
  intros H Hv. rewrite !put16_total by done.
  rewrite decide_True, decide_False, decide_True by lia.
  by apply be16_to_be16.
Qed.

Lemma put16_ne i v l j :
  (i + 2 ≤ length l)%nat → (j ≠ i)%nat → (j ≠ S i)%nat → put16 i v l !!! j = l !!! j.
Proof. intros. by rewrite put16_total, !decide_False by done. Qed.

Lemma put16_put16 i v w l : (i + 2 ≤ length l)%nat → put16 i v (put16 i w l) = put16 i v l.
Proof.
  intros H. apply list_eq_total; [len|]. intros j _.
  rewrite !put16_total by len. repeat case_decide; done.
Qed.

Lemma put16_comm i j v w l :
  (i + 2 ≤ length l)%nat → (j + 2 ≤ length l)%nat → (i + 2 ≤ j ∨ j + 2 ≤ i)%nat →
  put16 i v (put16 j w l) = put16 j w (put16 i v l).
Proof.
  intros Hi Hj H. apply list_eq_total; [len|]. intros k _.
  rewrite !put16_total by len. repeat case_decide; done || lia.
Qed.

(** [l[i] = 0; l[i + 1] = 0]. *)
Lemma zero_put16 i l :
  (i + 2 ≤ length l)%nat → <[S i := 0%Z]> (<[i := 0%Z]> l) = put16 i 0 l.
Proof.
  intros H. apply list_eq_total; [len|]. intros j _.
  rewrite put16_total, !total_insert by len. repeat case_decide; subst; done || lia.
Qed.

Lemma take_put16 n i v l :
  (i + 2 ≤ n)%nat → (n ≤ length l)%nat → take n (put16 i v l) = put16 i v (take n l).
Proof.
  intros Hi Hn. apply list_eq_total; [len|]. intros j Hj. len_in Hj.
  rewrite lookup_total_take_lt by lia. rewrite !put16_total by len.
  rewrite lookup_total_take_lt by lia. done.
Qed.

Lemma take_put16_ge n i v l :
  (n ≤ i)%nat → (i + 2 ≤ length l)%nat → take n (put16 i v l) = take n l.
Proof.
  intros Hi Hn. apply list_eq_total; [len|]. intros j Hj. len_in Hj.
  rewrite !lookup_total_take_lt by lia. apply put16_ne; lia.
Qed.

Lemma drop_put16 n i v l :
  (i + 2 ≤ length l)%nat → (n ≤ i)%nat → drop n (put16 i v l) = put16 (i - n) v (drop n l).
Proof.
  intros Hi Hn. apply list_eq_total; [len|]. intros j Hj.
  rewrite lookup_total_drop. rewrite !put16_total by len. rewrite lookup_total_drop.
  repeat case_decide; done || lia.
Qed.

Lemma drop_put16_ge n i v l :
  (i + 2 ≤ n)%nat → (i + 2 ≤ length l)%nat → drop n (put16 i v l) = drop n l.
Proof.
  intros Hi Hn. apply list_eq_total; [len|]. intros j Hj. len_in Hj.
  rewrite !lookup_total_drop. apply put16_ne; lia.
Qed.
