(* ===== verification/Checksum.v ===== *)
(** * gravital-proto/src/checksum.rs: the Internet checksum

    The three functions of the file, and the theory of the one's complement
    sum that the packet rewriting of gravital-stack and the DNS reply builder
    of gravital-engine share.  The reference definition is [ones_sum]: the
    residue in 1..65535 of the sum of the 16-bit words modulo 65535 (0 for
    the zero sum), RFC 1071's sum with end-around carry. *)

From Stdlib Require Import ZArith Lia.
From S2P Require Import Prelude Bytes.
Local Open Scope Z_scope.

(** ** The code *)
Section code.
Context {E : Type} {B : Build}.

(** [for chunk in chunks { sum += u32::from(u16::from_be_bytes(..)) }]. *)
Fixpoint sum_chunks (chunks : list (Z * Z)) (sum : Z) : Outcome E Z :=
  match chunks with
  | [] => Ok sum
  | (a, b) :: r =>
      let! sum := arith 32 (sum + be16 a b) in
      sum_chunks r sum
  end.

(** [while sum >> 16 != 0 { sum = (sum & 0xFFFF) + (sum >> 16) }]. *)
Fixpoint carry_loop (fuel : nat) (sum : Z) : Outcome E Z :=
  match fuel with
  | O => Diverge
  | S n =>
      if Z.shiftr sum 16 =? 0 then Ok sum
      else
        let! sum := arith 32 (Z.land sum 65535 + Z.shiftr sum 16) in
        carry_loop n sum
  end.

(** Fuel for [carry_loop]: a [u32] needs at most two additions and a last
    test of the condition ([carry_loop_spec]). *)
Definition CARRY_FUEL : nat := 3.

Definition internet_checksum (data : list Z) : Outcome E Z :=
  let! sum := sum_chunks (chunks_exact2 data) 0 in
  let! sum :=
    match chunks_remainder2 data with
    | odd :: _ => arith 32 (sum + be16 odd 0)
    | [] => Ok sum
    end in
  let! sum := carry_loop CARRY_FUEL sum in
  Ok (unot 16 (cast 16 sum)).

Definition pseudo_header_v4 (src dst : list Z) (proto len : Z) : Outcome E Z :=
  let! s0 := idx src 0 in
  let! s1 := idx src 1 in
  let! sum := arith 32 (0 + be16 s0 s1) in
  let! s2 := idx src 2 in
  let! s3 := idx src 3 in
  let! sum := arith 32 (sum + be16 s2 s3) in
  let! d0 := idx dst 0 in
  let! d1 := idx dst 1 in
  let! sum := arith 32 (sum + be16 d0 d1) in
  let! d2 := idx dst 2 in
  let! d3 := idx dst 3 in
  let! sum := arith 32 (sum + be16 d2 d3) in
  let! sum := arith 32 (sum + be16 0 proto) in
  arith 32 (sum + len).

Definition fold (acc : Z) : Outcome E Z :=
  let! acc := carry_loop CARRY_FUEL acc in
  Ok (unot 16 (cast 16 acc)).
End code.

(** ** The reference: one's complement sum *)
Definition ones_sum (s : Z) : Z :=
  if s =? 0 then 0 else (s - 1) mod 65535 + 1.

(** The plain sum of the 16-bit words, an odd last byte padded with 0. *)
Fixpoint words_sum (l : list Z) : Z :=
  match l with
  | a :: b :: r => be16 a b + words_sum r
  | [a] => be16 a 0
  | [] => 0
  end.

Lemma ones_sum_u16 s : 0 ≤ s → u16 (ones_sum s).
Proof.
  intros H. unfold ones_sum, uint. case_match; [lia|].
  pose proof (Z.mod_pos_bound (s - 1) 65535). lia.
Qed.

Lemma ones_sum_small s : 0 ≤ s < 65536 → ones_sum s = s.
Proof.
  intros H. unfold ones_sum. destruct (Z.eqb_spec s 0) as [->|]; [done|].
  rewrite Z.mod_small; lia.
Qed.

(** One end-around carry keeps the one's complement sum. *)
Lemma ones_sum_carry s :
  0 ≤ s → ones_sum (s mod 65536 + s / 65536) = ones_sum s.
Proof.
  intros H. unfold ones_sum.
  pose proof (Z.div_mod s 65536 ltac:(lia)) as Hs.
  pose proof (Z.mod_pos_bound s 65536 ltac:(lia)).
  pose proof (Z.div_pos s 65536 ltac:(lia) ltac:(lia)).
  set (q := s / 65536) in *. set (r := s mod 65536) in *.
  destruct (Z.eqb_spec (r + q) 0), (Z.eqb_spec s 0); try lia.
  f_equal. rewrite Hs at 1.
  replace (65536 * q + r - 1) with (r + q - 1 + q * 65535) by lia.
  by rewrite Z.mod_add by lia.
Qed.

(** The sum with its own complement is the all-ones word. *)
Lemma ones_sum_complement s :
  0 ≤ s → ones_sum (s + (65535 - ones_sum s)) = 65535.
Proof.
  intros H. unfold ones_sum at 2. destruct (Z.eqb_spec s 0) as [->|Hs]; [done|].
  pose proof (Z.div_mod (s - 1) 65535 ltac:(lia)) as Hd.
  pose proof (Z.mod_pos_bound (s - 1) 65535 ltac:(lia)).
  pose proof (Z.div_pos (s - 1) 65535 ltac:(lia) ltac:(lia)).
  set (q := (s - 1) / 65535) in *. set (r := (s - 1) mod 65535) in *.
  replace (s + (65535 - (r + 1))) with (65535 * (q + 1)) by lia.
  unfold ones_sum. destruct (Z.eqb_spec (65535 * (q + 1)) 0); [lia|].
  replace (65535 * (q + 1) - 1) with (65534 + q * 65535) by lia.
  rewrite Z.mod_add by lia. done.
Qed.

(** *** The word sum *)
Lemma words_sum_nonneg l : is_bytes l → 0 ≤ words_sum l.
Proof.
  induction l as [|a|a b l IH] using list_ind2; intros H; simpl; [lia|..].
  - inversion_clear H as [|? ? [Ha ?] ?]. unfold be16. lia.
  - inversion_clear H as [|? ? [Ha ?] H']. inversion_clear H' as [|? ? [Hb ?] Hl].
    specialize (IH Hl). unfold be16. lia.
Qed.

Lemma words_sum_le l :
  is_bytes l → 2 * words_sum l ≤ 65535 * (Z.of_nat (length l) + 1).
Proof.
  induction l as [|a|a b l IH] using list_ind2; intros H; simpl; [lia|..].
  - inversion_clear H as [|? ? [Ha Ha'] ?]. unfold be16. lia.
  - inversion_clear H as [|? ? [Ha Ha'] H']. inversion_clear H' as [|? ? [Hb Hb'] Hl].
    specialize (IH Hl). unfold be16. lia.
Qed.

Lemma words_sum_app l k :
  Nat.Even (length l) → words_sum (l ++ k) = words_sum l + words_sum k.
Proof.
  induction l as [|a|a b l IH] using list_ind2; intros He; simpl.
  - done.
  - destruct He as [n Hn]. simpl in Hn. lia.
  - rewrite IH; [lia|]. destruct He as [n Hn]. simpl in Hn. exists (n - 1)%nat. lia.
Qed.

(** Storing a 16-bit word at an even offset changes the sum by that word. *)
Lemma words_sum_inserts l i a b :
  Nat.Even i → (i + 2 ≤ length l)%nat →
  words_sum (list_inserts i [a; b] l) =
    words_sum l - be16 (l !!! i) (l !!! S i) + be16 a b.
Proof.
  intros He Hl.
  assert (length (take i l) = i) as Ht by len.
  rewrite inserts_split by (simpl; lia).
  rewrite !words_sum_app by (rewrite ?Ht; try done; by exists 1%nat).
  rewrite <- (take_drop i l) at 3.
  rewrite words_sum_app by by rewrite Ht.
  rewrite (drop_S l (l !!! i) i) by (apply list_lookup_lookup_total_lt; lia).
  rewrite (drop_S l (l !!! S i) (S i)) by (apply list_lookup_lookup_total_lt; lia).
  replace (i + length [a; b])%nat with (S (S i)) by (simpl; lia).
  cbn [words_sum]. lia.
Qed.

Lemma words_sum_put16 i v l :
  Nat.Even i → (i + 2 ≤ length l)%nat → u16 v →
  words_sum (put16 i v l) = words_sum l - be16 (l !!! i) (l !!! S i) + v.
Proof.
  intros He Hl Hv. unfold put16, to_be16. rewrite words_sum_inserts by done.
  f_equal. by apply be16_to_be16.
Qed.

(** Completing a zeroed field at an even offset with the complement of the
    sum makes the sum all ones; [p] is the sum of what precedes [l]. *)
Lemma ones_sum_fixed p i l :
  0 ≤ p → is_bytes l → Nat.Even i → (i + 2 ≤ length l)%nat →
  ones_sum (p + words_sum (put16 i (65535 - ones_sum (p + words_sum (put16 i 0 l))) l)) = 65535.
Proof.
  intros Hp Hb He Hl.
  assert (0 ≤ words_sum (put16 i 0 l)) by (apply words_sum_nonneg; auto with rust).
  pose proof (ones_sum_u16 (p + words_sum (put16 i 0 l)) ltac:(lia)) as [H1 H2].
  set (o := ones_sum (p + words_sum (put16 i 0 l))) in *.
  assert (words_sum (put16 i (65535 - o) l) = words_sum (put16 i 0 l) + (65535 - o)) as ->.
  { rewrite !words_sum_put16 by (done || unfold uint; lia). lia. }
  rewrite Z.add_assoc. by apply ones_sum_complement; lia.
Qed.

(** ** The code meets the reference *)
Section spec.
Context {E : Type} {B : Build}.

Lemma sum_chunks_ok l k :
  is_bytes l → 0 ≤ k →
  k + words_sum l < 2 ^ 32 →
  sum_chunks (E := E) (chunks_exact2 l) k =
    Ok (k + words_sum l - words_sum (chunks_remainder2 l)).
Proof.
  revert k. induction l as [|a|a b l IH] using list_ind2; intros k Hb Hk Hs; simpl.
  1,2: f_equal; lia.
  inversion_clear Hb as [|? ? Ha Hb']. inversion_clear Hb' as [|? ? Hb Hl].
  simpl in Hs.
  pose proof (words_sum_nonneg l Hl). pose proof (be16_u16 a b Ha Hb) as [? ?].
  rewrite arith_exact by (unfold uint; lia). simpl.
  rewrite IH by (done || lia). f_equal. lia.
Qed.

Lemma remainder2_cases l : chunks_remainder2 l = [] ∨ ∃ a, chunks_remainder2 l = [a].
Proof. induction l using list_ind2; simpl; eauto. Qed.

Lemma remainder2_le l :
  is_bytes l → is_bytes (chunks_remainder2 l) ∧ words_sum (chunks_remainder2 l) ≤ words_sum l.
Proof.
  induction l as [|a|a b l IH] using list_ind2; intros Hx; simpl; [done|done|].
  inversion_clear Hx as [|? ? Ha Hb']. inversion_clear Hb' as [|? ? Hb Hl].
  destruct (IH Hl). pose proof (be16_u16 a b Ha Hb) as [? ?]. split; [done|lia].
Qed.

(** The carry loop ends within [CARRY_FUEL] tests for every [u32], with the
    one's complement sum, and more fuel changes nothing. *)
Lemma carry_loop_spec fuel s :
  (CARRY_FUEL ≤ fuel)%nat → u32 s → carry_loop (E := E) fuel s = Ok (ones_sum s).
Proof.
  intros Hf [H1 H2]. unfold CARRY_FUEL in Hf.
  destruct fuel as [|[|[|fuel]]]; [lia..|].
  cbn [carry_loop]. rewrite !shiftr_16, land_0xFFFF.
  destruct (Z.eqb_spec (s / 65536) 0) as [Hz|Hz].
  { rewrite ones_sum_small; [done|]. Z.div_mod_to_equations; lia. }
  set (s1 := s mod 65536 + s / 65536).
  assert (0 ≤ s1 ≤ 131070) by (unfold s1; Z.div_mod_to_equations; lia).
  rewrite arith_exact by (unfold uint; lia). cbn [obind].
  rewrite !shiftr_16, land_0xFFFF.
  assert (ones_sum s1 = ones_sum s) as <- by (apply ones_sum_carry; lia).
  destruct (Z.eqb_spec (s1 / 65536) 0) as [Hz1|Hz1].
  { rewrite ones_sum_small; [done|]. Z.div_mod_to_equations; lia. }
  rewrite <- ones_sum_carry by lia.
  set (s2 := s1 mod 65536 + s1 / 65536).
  assert (0 ≤ s2 < 65536) by (unfold s2; Z.div_mod_to_equations; lia).
  rewrite arith_exact by (unfold uint; lia). cbn [obind].
  rewrite shiftr_16, Z.div_small by lia. simpl. by rewrite ones_sum_small.
Qed.

(** The tail of every checksum routine: fold the carries and complement. *)
Lemma fold_spec s : u32 s → fold (E := E) s = Ok (65535 - ones_sum s).
Proof.
  intros H. unfold fold. rewrite carry_loop_spec by done. cbn [obind].
  destruct H as [H1 H2]. pose proof (ones_sum_u16 s H1).
  by rewrite cast_small, unot_16.
Qed.

Lemma pseudo_header_v4_ok src dst proto len :
  is_bytes src → length src = 4%nat → is_bytes dst → length dst = 4%nat →
  u8 proto → u16 len →
  pseudo_header_v4 (E := E) src dst proto len =
    Ok (words_sum src + words_sum dst + proto + len).
Proof.
  intros Hs Hsl Hd Hdl Hp Hl.
  destruct src as [|s0 [|s1 [|s2 [|s3 [|??]]]]]; try done.
  destruct dst as [|d0 [|d1 [|d2 [|d3 [|??]]]]]; try done.
  repeat match goal with
  | H : is_bytes (_ :: _) |- _ => inversion_clear H
  | H : Forall _ (_ :: _) |- _ => inversion_clear H
  end.
  unfold pseudo_header_v4, uint in *. cbn [idx lookup list_lookup obind].
  unfold be16, words_sum.
  do 6 (rewrite arith_exact by (unfold uint, be16; lia); cbn [obind]).
  unfold be16. f_equal. lia.
Qed.
End spec.

Lemma internet_checksum_ok {E} {B : Build} (data : list Z)
    (Hb : is_bytes data) (Hl : Z.of_nat (length data) ≤ 131072) :
  internet_checksum (E := E) data = Ok (65535 - ones_sum (words_sum data)).
Proof.
  pose proof (words_sum_nonneg data Hb). pose proof (words_sum_le data Hb).
  pose proof (remainder2_le data Hb) as [Hr ?].
  pose proof (words_sum_nonneg _ Hr).
  unfold internet_checksum.
  rewrite sum_chunks_ok by (done || lia). cbn [obind].
  match goal with |- obind ?m _ = _ => assert (m = Ok (words_sum data)) as -> end.
  { destruct (remainder2_cases data) as [E0|[a E0]]; rewrite E0 in *.
    - f_equal; simpl; lia.
    - rewrite arith_exact; [f_equal|unfold uint]; simpl in *; lia. }
  cbn [obind]. apply fold_spec. unfold uint. lia.
Qed.

(** C28. RFC 1071, total and overflow free: on every byte string of at most
    131072 bytes (twice the largest IP datagram), in the dev and in the
    release profile, [internet_checksum] returns (no panic, its loops end)
    the complement of the one's complement sum of the data's big-endian
    16-bit words, an odd last byte padded with zero. *)
Theorem internet_checksum_spec {E} {B : Build} (data : list Z)
    (Hb : is_bytes data) (Hl : Z.of_nat (length data) ≤ 131072) :
  internet_checksum (E := E) data = Ok (65535 - ones_sum (words_sum data)).
Proof. by apply internet_checksum_ok. Qed.

Lemma internet_checksum_spec_witness :
  internet_checksum (E := unit) (B := dev) [0x00; 0x01; 0xf2; 0x03; 0xf4; 0xf5; 0xf6; 0xf7]
    = Ok 0x220d.
Proof.
  rewrite (@internet_checksum_spec unit dev); [reflexivity| |simpl; lia].
  repeat constructor; lia.
Defined.
