(* ===== verification/Proto.v ===== *)
(** * gravital-proto: zero-copy views over IP, TCP, UDP and ICMP

    Models [error.rs], [ip.rs], [tcp.rs], [udp.rs] and [icmp.rs].  A view is
    the borrowed buffer; [parse] checks the lengths once and the accessors
    index without further checks, so each accessor is an [Outcome] that may
    panic and the theorems say when it cannot. *)

From Stdlib Require Import ZArith Lia.
From S2P Require Import Prelude Bytes Checksum.
Local Open Scope Z_scope.

(** ** error.rs *)
Inductive ParseError :=
| TruncatedHeader (needed got : nat)
| InvalidVersion (v : Z)
| InvalidChecksum (expected got : Z)
| UnsupportedProtocol (p : Z)
| InvalidHeaderLength (l : Z)
| PacketTooLarge (n : nat).

(** ** ip.rs *)
Inductive IpProtocol := Icmp | Tcp | Udp | Ipv6Icmp | OtherProtocol (v : Z).
#[export] Instance IpProtocol_eq_dec : EqDecision IpProtocol.
Proof. solve_decision. Defined.

Definition IpProtocol_from (v : Z) : IpProtocol :=
  match v with
  | 1 => Icmp
  | 6 => Tcp
  | 17 => Udp
  | 58 => Ipv6Icmp
  | x => OtherProtocol x
  end.

Record Ipv4View := { ipv4_bytes : list Z }.
Record Ipv6View := { ipv6_bytes : list Z }.
Inductive IpView := V4 (v : Ipv4View) | V6 (v : Ipv6View).

Definition IPV4_MIN_HEADER : nat := 20.
Definition IPV6_HEADER_LEN : nat := 40.

(** [(byte & 0x0F) as usize * 4] and [(byte >> 4) as usize * 4]. *)
Definition low_nibble_words (b : Z) : nat := Z.to_nat (Z.land b 15) * 4.
Definition high_nibble_words (b : Z) : nat := Z.to_nat (Z.shiftr b 4) * 4.

Section ip.
Context {B : Build}.

Definition Ipv4View_parse (bytes : list Z) : Outcome ParseError Ipv4View :=
  if (length bytes <? IPV4_MIN_HEADER)%nat
  then Err (TruncatedHeader IPV4_MIN_HEADER (length bytes))
  else
    let! b0 := idx bytes 0 in
    let ihl := low_nibble_words b0 in
    if (ihl <? IPV4_MIN_HEADER)%nat
    then Err (InvalidHeaderLength (Z.land b0 15))
    else if (length bytes <? ihl)%nat
    then Err (TruncatedHeader ihl (length bytes))
    else Ok {| ipv4_bytes := bytes |}.

Definition Ipv6View_parse (bytes : list Z) : Outcome ParseError Ipv6View :=
  if (length bytes <? IPV6_HEADER_LEN)%nat
  then Err (TruncatedHeader IPV6_HEADER_LEN (length bytes))
  else Ok {| ipv6_bytes := bytes |}.

Definition IpView_parse (buf : list Z) : Outcome ParseError IpView :=
  if (length buf =? 0)%nat then Err (TruncatedHeader 1 0)
  else
    let! b0 := idx buf 0 in
    match Z.shiftr b0 4 with
    | 4 => let! v := Ipv4View_parse buf in Ok (V4 v)
    | 6 => let! v := Ipv6View_parse buf in Ok (V6 v)
    | v => Err (InvalidVersion v)
    end.

Section accessors.
Context {E : Type}.

Definition Ipv4View_ihl (v : Ipv4View) : Outcome E nat :=
  let! b0 := idx (ipv4_bytes v) 0 in
  Ok (low_nibble_words b0).

Definition Ipv4View_src (v : Ipv4View) : Outcome E (list Z) :=
  let! a := idx (ipv4_bytes v) 12 in
  let! b := idx (ipv4_bytes v) 13 in
  let! c := idx (ipv4_bytes v) 14 in
  let! d := idx (ipv4_bytes v) 15 in
  Ok [a; b; c; d].

Definition Ipv4View_dst (v : Ipv4View) : Outcome E (list Z) :=
  let! a := idx (ipv4_bytes v) 16 in
  let! b := idx (ipv4_bytes v) 17 in
  let! c := idx (ipv4_bytes v) 18 in
  let! d := idx (ipv4_bytes v) 19 in
  Ok [a; b; c; d].

Definition Ipv4View_protocol (v : Ipv4View) : Outcome E IpProtocol :=
  let! p := idx (ipv4_bytes v) 9 in
  Ok (IpProtocol_from p).

Definition Ipv4View_total_length (v : Ipv4View) : Outcome E Z :=
  let! a := idx (ipv4_bytes v) 2 in
  let! b := idx (ipv4_bytes v) 3 in
  Ok (be16 a b).

Definition Ipv4View_ttl (v : Ipv4View) : Outcome E Z := idx (ipv4_bytes v) 8.

Definition Ipv4View_payload (v : Ipv4View) : Outcome E (list Z) :=
  let! total := Ipv4View_total_length v in
  let e := Nat.min (Z.to_nat total) (length (ipv4_bytes v)) in
  let! ihl := Ipv4View_ihl v in
  slice (ipv4_bytes v) ihl e.

Definition Ipv4View_raw (v : Ipv4View) : list Z := ipv4_bytes v.

Definition Ipv6View_src (v : Ipv6View) : Outcome E (list Z) :=
  let! s := slice (ipv6_bytes v) 8 24 in
  copy_from_slice (replicate 16 0) 0 16 s.

Definition Ipv6View_dst (v : Ipv6View) : Outcome E (list Z) :=
  let! s := slice (ipv6_bytes v) 24 40 in
  copy_from_slice (replicate 16 0) 0 16 s.

Definition Ipv6View_protocol (v : Ipv6View) : Outcome E IpProtocol :=
  let! p := idx (ipv6_bytes v) 6 in
  Ok (IpProtocol_from p).

Definition Ipv6View_payload_length (v : Ipv6View) : Outcome E Z :=
  let! a := idx (ipv6_bytes v) 4 in
  let! b := idx (ipv6_bytes v) 5 in
  Ok (be16 a b).

Definition Ipv6View_payload (v : Ipv6View) : Outcome E (list Z) :=
  let! n := Ipv6View_payload_length v in
  let e := Nat.min (IPV6_HEADER_LEN + Z.to_nat n) (length (ipv6_bytes v)) in
  slice (ipv6_bytes v) IPV6_HEADER_LEN e.

Definition Ipv6View_raw (v : Ipv6View) : list Z := ipv6_bytes v.

Definition IpView_protocol (v : IpView) : Outcome E IpProtocol :=
  match v with
  | V4 v => Ipv4View_protocol v
  | V6 v => Ipv6View_protocol v
  end.

Definition IpView_payload (v : IpView) : Outcome E (list Z) :=
  match v with
  | V4 v => Ipv4View_payload v
  | V6 v => Ipv6View_payload v
  end.
End accessors.

Definition Ipv4View_verify_checksum (v : Ipv4View) : Outcome ParseError unit :=
  let! ihl := Ipv4View_ihl v in
  let! hdr := slice (ipv4_bytes v) 0 ihl in
  let! csum := internet_checksum hdr in
  if csum =? 0 then Ok tt
  else
    let! a := idx (ipv4_bytes v) 10 in
    let! b := idx (ipv4_bytes v) 11 in
    Err (InvalidChecksum 0 (be16 a b)).
End ip.

(** ** tcp.rs *)
Record TcpView := { tcp_bytes : list Z }.

(** [bitflags]: the union of the declared flags is [0x3F]. *)
Definition TCP_FIN : Z := 0x01.
Definition TCP_SYN : Z := 0x02.
Definition TCP_RST : Z := 0x04.
Definition TCP_PSH : Z := 0x08.
Definition TCP_ACK : Z := 0x10.
Definition TCP_URG : Z := 0x20.
Definition TcpFlags_from_bits_truncate (b : Z) : Z :=
  Z.land b (Z.lor TCP_FIN (Z.lor TCP_SYN (Z.lor TCP_RST (Z.lor TCP_PSH (Z.lor TCP_ACK TCP_URG))))).
Definition TcpFlags_contains (flags other : Z) : bool := Z.land flags other =? other.

Definition TCP_MIN_HEADER : nat := 20.

Definition TcpView_parse (bytes : list Z) : Outcome ParseError TcpView :=
  if (length bytes <? TCP_MIN_HEADER)%nat
  then Err (TruncatedHeader TCP_MIN_HEADER (length bytes))
  else
    let! b12 := idx bytes 12 in
    let data_offset := high_nibble_words b12 in
    if (data_offset <? TCP_MIN_HEADER)%nat
    then Err (InvalidHeaderLength (Z.shiftr b12 4))
    else if (length bytes <? data_offset)%nat
    then Err (TruncatedHeader data_offset (length bytes))
    else Ok {| tcp_bytes := bytes |}.

(** ** udp.rs and icmp.rs *)
Record UdpView := { udp_bytes : list Z }.
Definition UDP_HEADER_LEN : nat := 8.

Definition UdpView_parse (bytes : list Z) : Outcome ParseError UdpView :=
  if (length bytes <? UDP_HEADER_LEN)%nat
  then Err (TruncatedHeader UDP_HEADER_LEN (length bytes))
  else Ok {| udp_bytes := bytes |}.

Record IcmpView := { icmp_bytes : list Z }.
Definition ICMP_MIN_HEADER : nat := 4.

Definition IcmpView_parse (bytes : list Z) : Outcome ParseError IcmpView :=
  if (length bytes <? ICMP_MIN_HEADER)%nat
  then Err (TruncatedHeader ICMP_MIN_HEADER (length bytes))
  else Ok {| icmp_bytes := bytes |}.

Inductive IcmpType :=
| EchoReply
| EchoRequest
| DestinationUnreachable (code : Z)
| TimeExceeded (code : Z)
| OtherIcmp (t c : Z).

Section l4_accessors.
Context {E : Type}.

Definition TcpView_src_port (v : TcpView) : Outcome E Z :=
  let! a := idx (tcp_bytes v) 0 in
  let! b := idx (tcp_bytes v) 1 in
  Ok (be16 a b).

Definition TcpView_dst_port (v : TcpView) : Outcome E Z :=
  let! a := idx (tcp_bytes v) 2 in
  let! b := idx (tcp_bytes v) 3 in
  Ok (be16 a b).

Definition TcpView_seq_num (v : TcpView) : Outcome E Z :=
  let! a := idx (tcp_bytes v) 4 in
  let! b := idx (tcp_bytes v) 5 in
  let! c := idx (tcp_bytes v) 6 in
  let! d := idx (tcp_bytes v) 7 in
  Ok (be32 a b c d).

Definition TcpView_ack_num (v : TcpView) : Outcome E Z :=
  let! a := idx (tcp_bytes v) 8 in
  let! b := idx (tcp_bytes v) 9 in
  let! c := idx (tcp_bytes v) 10 in
  let! d := idx (tcp_bytes v) 11 in
  Ok (be32 a b c d).

Definition TcpView_flags (v : TcpView) : Outcome E Z :=
  let! b := idx (tcp_bytes v) 13 in
  Ok (TcpFlags_from_bits_truncate b).

Definition TcpView_window_size (v : TcpView) : Outcome E Z :=
  let! a := idx (tcp_bytes v) 14 in
  let! b := idx (tcp_bytes v) 15 in
  Ok (be16 a b).

Definition TcpView_header_len (v : TcpView) : Outcome E nat :=
  let! b := idx (tcp_bytes v) 12 in
  Ok (high_nibble_words b).

Definition TcpView_payload (v : TcpView) : Outcome E (list Z) :=
  let! h := TcpView_header_len v in
  slice_from (tcp_bytes v) h.

Definition UdpView_src_port (v : UdpView) : Outcome E Z :=
  let! a := idx (udp_bytes v) 0 in
  let! b := idx (udp_bytes v) 1 in
  Ok (be16 a b).

Definition UdpView_dst_port (v : UdpView) : Outcome E Z :=
  let! a := idx (udp_bytes v) 2 in
  let! b := idx (udp_bytes v) 3 in
  Ok (be16 a b).

Definition UdpView_length (v : UdpView) : Outcome E Z :=
  let! a := idx (udp_bytes v) 4 in
  let! b := idx (udp_bytes v) 5 in
  Ok (be16 a b).

Definition UdpView_checksum (v : UdpView) : Outcome E Z :=
  let! a := idx (udp_bytes v) 6 in
  let! b := idx (udp_bytes v) 7 in
  Ok (be16 a b).

Definition UdpView_payload (v : UdpView) : Outcome E (list Z) :=
  let! n := UdpView_length v in
  let e := Nat.min (Z.to_nat n) (length (udp_bytes v)) in
  slice (udp_bytes v) UDP_HEADER_LEN e.

Definition UdpView_is_dns (v : UdpView) : Outcome E bool :=
  let! p := UdpView_dst_port v in
  Ok (p =? 53).

Definition IcmpView_icmp_type (v : IcmpView) : Outcome E IcmpType :=
  let! t := idx (icmp_bytes v) 0 in
  let! c := idx (icmp_bytes v) 1 in
  Ok (match t, c with
      | 0, 0 => EchoReply
      | 8, 0 => EchoRequest
      | 3, code => DestinationUnreachable code
      | 11, code => TimeExceeded code
      | t, c => OtherIcmp t c
      end).

Definition IcmpView_checksum (v : IcmpView) : Outcome E Z :=
  let! a := idx (icmp_bytes v) 2 in
  let! b := idx (icmp_bytes v) 3 in
  Ok (be16 a b).

Definition IcmpView_payload (v : IcmpView) : Outcome E (list Z) :=
  slice_from (icmp_bytes v) ICMP_MIN_HEADER.
End l4_accessors.

(** ** Theorems *)

(** What [IpView::parse] accepts. *)
Definition ipv4_header_ok (buf : list Z) : Prop :=
  (20 ≤ low_nibble_words (buf !!! 0%nat) ≤ length buf)%nat.

Definition ip_accepts (buf : list Z) (v : IpView) : Prop :=
  match v with
  | V4 v => ipv4_bytes v = buf ∧ (buf !!! 0%nat) / 16 = 4 ∧ ipv4_header_ok buf
  | V6 v => ipv6_bytes v = buf ∧ (buf !!! 0%nat) / 16 = 6 ∧ (40 ≤ length buf)%nat
  end.

Lemma Ipv4View_parse_ok buf v :
  Ipv4View_parse buf = Ok v ↔ ipv4_bytes v = buf ∧ ipv4_header_ok buf.
Proof.
  unfold Ipv4View_parse, ipv4_header_ok, IPV4_MIN_HEADER.
  destruct (Nat.ltb_spec (length buf) 20).
  { split; [done|]. intros [_ ?]. lia. }
  run_bytes.
  destruct (Nat.ltb_spec (low_nibble_words (buf !!! 0%nat)) 20).
  { split; [done|]. intros [_ ?]. lia. }
  destruct (Nat.ltb_spec (length buf) (low_nibble_words (buf !!! 0%nat))).
  { split; [done|]. intros [_ ?]. lia. }
  split; [by intros [= <-]|]. intros [<- _]. by destruct v.
Qed.

Lemma Ipv4View_parse_returned buf : returned (Ipv4View_parse buf).
Proof.
  unfold Ipv4View_parse, IPV4_MIN_HEADER.
  destruct (Nat.ltb_spec (length buf) 20); [done|].
  run_bytes. by repeat case_match.
Qed.

Lemma IpView_parse_v4 buf v :
  IpView_parse buf = Ok (V4 v) ↔ (buf !!! 0%nat) / 16 = 4 ∧ Ipv4View_parse buf = Ok v.
Proof.
  unfold IpView_parse. destruct (Nat.eqb_spec (length buf) 0) as [Hl|Hl].
  { apply nil_length_inv in Hl as ->. split; [done|]. by intros [? _]. }
  rewrite idx_ok by lia. cbn [obind]. rewrite shiftr_4. split.
  - destruct ((buf !!! 0%nat) / 16) as [|q|q]; try done.
    do 3 (try destruct q as [q|q|]); try done; intros H; apply obind_ok in H as (v' & H & ?);
      by simplify_eq.
  - intros [-> Hv]. by rewrite Hv.
Qed.

Lemma Ipv6View_parse_ok buf v :
  Ipv6View_parse buf = Ok v ↔ ipv6_bytes v = buf ∧ (40 ≤ length buf)%nat.
Proof.
  unfold Ipv6View_parse, IPV6_HEADER_LEN.
  destruct (Nat.ltb_spec (length buf) 40).
  { split; [done|]. intros [_ ?]. lia. }
  split; [by intros [= <-]|]. intros [<- _]. by destruct v.
Qed.

(** [IpView::parse] never panics, whatever the buffer (the property its
    fuzz target tests), and it accepts exactly: version 4 with a header length
    of at least 20 bytes that fits the buffer, or version 6 with at least 40
    bytes; the view is the buffer itself. *)
Theorem IpView_parse_total (buf : list Z) :
  returned (IpView_parse buf) ∧
  ∀ v, IpView_parse buf = Ok v ↔ buf ≠ [] ∧ ip_accepts buf v.
Proof.
  unfold IpView_parse. destruct (Nat.eqb_spec (length buf) 0) as [Hl|Hl].
  { split; [done|]. intros v. split; [done|]. intros [Hn _].
    by apply nil_length_inv in Hl. }
  assert (buf ≠ []) as Hn by (by intros ->).
  run_bytes. rewrite shiftr_4.
  destruct (decide ((buf !!! 0%nat) / 16 = 4)) as [E4|N4].
  { rewrite E4. split.
    { apply returned_obind; [apply Ipv4View_parse_returned|done]. }
    intros v. rewrite obind_ok. unfold ip_accepts. split.
    - intros (w & [Hw1 Hw2]%Ipv4View_parse_ok & [= <-]). done.
    - intros [_ Hv]. destruct v as [v|v]; [|lia].
      destruct Hv as (<- & _ & Hh). exists v. by rewrite Ipv4View_parse_ok. }
  destruct (decide ((buf !!! 0%nat) / 16 = 6)) as [E6|N6].
  { rewrite E6. split.
    { unfold Ipv6View_parse. by case_match. }
    intros v. rewrite obind_ok. unfold ip_accepts. split.
    - intros (w & [Hw1 Hw2]%Ipv6View_parse_ok & [= <-]). done.
    - intros [_ Hv]. destruct v as [v|v]; [lia|].
      destruct Hv as (<- & _ & Hh). exists v. by rewrite Ipv6View_parse_ok. }
  assert (∀ (P : Outcome ParseError IpView → Prop) x y,
    (∀ e, P (Err (InvalidVersion e))) →
    P (match (buf !!! 0%nat) / 16 with 4 => x | 6 => y
       | v => Err (InvalidVersion v) end)) as Hcase.
  { intros P x y HP. destruct ((buf !!! 0%nat) / 16) as [|p|p]; [done| |done].
    do 3 (try destruct p as [p|p|]); try done; lia. }
  split; [by apply Hcase|].
  intros v. split.
  - apply (Hcase (λ o, o = Ok v → _)). done.
  - intros [_ Hv]. destruct v; destruct Hv as (_ & ? & _); lia.
Qed.

(** C30. The accessors of an accepted IPv4 packet: source, destination,
    protocol, total length and TTL are read without a panic from their RFC 791
    offsets.  [payload] is the bytes between the header and the smaller of the
    total length and the buffer, but it panics when the packet declares a
    total length smaller than its header, which [parse] does not reject. *)
Theorem Ipv4View_accessors {E} (buf : list Z) (v : Ipv4View)
    (Hp : Ipv4View_parse buf = Ok v) :
  let total := be16 (buf !!! 2%nat) (buf !!! 3%nat) in
  let ihl := low_nibble_words (buf !!! 0%nat) in
  Ipv4View_src (E := E) v = Ok (take 4 (drop 12 buf)) ∧
  Ipv4View_dst (E := E) v = Ok (take 4 (drop 16 buf)) ∧
  Ipv4View_protocol (E := E) v = Ok (IpProtocol_from (buf !!! 9%nat)) ∧
  Ipv4View_ttl (E := E) v = Ok (buf !!! 8%nat) ∧
  Ipv4View_total_length (E := E) v = Ok total ∧
  Ipv4View_payload (E := E) v =
    (if (Z.to_nat total <? ihl)%nat then Panic
     else Ok (take (Nat.min (Z.to_nat total) (length buf) - ihl) (drop ihl buf))).
Proof.
  apply Ipv4View_parse_ok in Hp as [Hb [H1 H2]].
  unfold Ipv4View_src, Ipv4View_dst, Ipv4View_protocol, Ipv4View_ttl,
    Ipv4View_payload, Ipv4View_total_length, Ipv4View_ihl.
  rewrite !Hb. cbv zeta. run_bytes. rewrite !take_total4 by lia.
  do 5 (split; [done|]).
  destruct (Nat.ltb_spec (Z.to_nat (be16 (buf !!! 2%nat) (buf !!! 3%nat)))
    (low_nibble_words (buf !!! 0%nat))).
  - unfold slice.
    destruct (Nat.leb_spec (low_nibble_words (buf !!! 0%nat))
      (Nat.min (Z.to_nat (be16 (buf !!! 2%nat) (buf !!! 3%nat))) (length buf))); [lia|done].
  - by run_bytes.
Qed.

(** An accepted header that declares a total length of zero. *)
Definition short_total_packet : list Z :=
  [0x45; 0; 0; 0; 0; 0; 0x40; 0; 0x40; 6; 0; 0; 192; 168; 1; 1; 192; 168; 1; 2].

Lemma Ipv4View_accessors_witness :
  Ipv4View_parse short_total_packet = Ok {| ipv4_bytes := short_total_packet |} ∧
  Ipv4View_src (E := unit) {| ipv4_bytes := short_total_packet |} = Ok [192; 168; 1; 1] ∧
  Ipv4View_payload (E := unit) {| ipv4_bytes := short_total_packet |} = Panic.
Proof.
  assert (Ipv4View_parse short_total_packet = Ok {| ipv4_bytes := short_total_packet |}) as Hp
    by reflexivity.
  destruct (Ipv4View_accessors (E := unit) short_total_packet _ Hp) as (H1 & _ & _ & _ & _ & H2).
  split; [exact Hp|]. split; [exact H1|exact H2].
Defined.

Lemma TcpView_parse_ok buf v :
  TcpView_parse buf = Ok v ↔
  tcp_bytes v = buf ∧ (20 ≤ length buf)%nat ∧
  (20 ≤ high_nibble_words (buf !!! 12%nat) ≤ length buf)%nat.
Proof.
  unfold TcpView_parse, TCP_MIN_HEADER.
  destruct (Nat.ltb_spec (length buf) 20).
  { split; [done|]. intros (_ & ? & _). lia. }
  run_bytes.
  destruct (Nat.ltb_spec (high_nibble_words (buf !!! 12%nat)) 20).
  { split; [done|]. intros (_ & _ & ?). lia. }
  destruct (Nat.ltb_spec (length buf) (high_nibble_words (buf !!! 12%nat))).
  { split; [done|]. intros (_ & _ & ?). lia. }
  split; [by intros [= <-]|]. intros [<- _]. by destruct v.
Qed.

(** Transport views: a segment that [TcpView::parse] accepts splits into
    its header and the payload the view returns, with the ports and the flag
    bits read from their offsets; a datagram that [UdpView::parse] accepts has
    the payload between the header and its declared length, and [payload]
    panics exactly when that length is below the header's eight bytes. *)
Theorem transport_views {E} (seg : list Z) :
  (∀ v, TcpView_parse seg = Ok v →
     ∃ hdr body, seg = hdr ++ body ∧ TcpView_payload (E := E) v = Ok body ∧
       TcpView_header_len (E := E) v = Ok (length hdr) ∧
       TcpView_src_port (E := E) v = Ok (be16 (seg !!! 0%nat) (seg !!! 1%nat)) ∧
       TcpView_dst_port (E := E) v = Ok (be16 (seg !!! 2%nat) (seg !!! 3%nat)) ∧
       TcpView_flags (E := E) v = Ok (Z.land (seg !!! 13%nat) 0x3F)) ∧
  (∀ v, UdpView_parse seg = Ok v →
     let n := Z.to_nat (be16 (seg !!! 4%nat) (seg !!! 5%nat)) in
     UdpView_payload (E := E) v =
       if (n <? 8)%nat then Panic else Ok (take (Nat.min n (length seg) - 8) (drop 8 seg))).
Proof.
  split.
  - intros v (Hb & H1 & H2)%TcpView_parse_ok.
    set (h := high_nibble_words (seg !!! 12%nat)) in *.
    exists (take h seg), (drop h seg). rewrite take_drop.
    unfold TcpView_payload, TcpView_header_len, TcpView_src_port, TcpView_dst_port, TcpView_flags.
    rewrite !Hb. run_bytes. fold h. run_bytes.
    rewrite length_take, Nat.min_l by lia. done.
  - intros v. unfold UdpView_parse, UDP_HEADER_LEN.
    destruct (Nat.ltb_spec (length seg) 8); [done|]. intros [= <-]. cbv zeta.
    set (n := Z.to_nat (be16 (seg !!! 4%nat) (seg !!! 5%nat))).
    unfold UdpView_payload, UdpView_length, UDP_HEADER_LEN. cbn [udp_bytes].
    run_bytes. fold n.
    destruct (Nat.ltb_spec n 8).
    + unfold slice. destruct (Nat.leb_spec 8 (Nat.min n (length seg))); [lia|done].
    + by run_bytes.
Qed.
