(* ===== verification/Net.v ===== *)
(** * std::net addresses

    [Ipv4Addr] and [Ipv6Addr] are their octets ([[u8; 4]] and [[u8; 16]]);
    [SocketAddrV6] also carries the flow information and the scope id, which
    [SocketAddr::new] sets to zero. *)

From Stdlib Require Import ZArith Lia.
From stdpp Require Import countable.
From S2P Require Import Prelude Bytes.
Local Open Scope Z_scope.

Inductive IpAddr := IpV4 (octets : list Z) | IpV6 (octets : list Z).

Inductive SocketAddr :=
| SockV4 (ip : list Z) (port : Z)
| SockV6 (ip : list Z) (port flowinfo scope_id : Z).

(** [SocketAddr::new], [ip] and [port]. *)
Definition SocketAddr_new (ip : IpAddr) (port : Z) : SocketAddr :=
  match ip with
  | IpV4 o => SockV4 o port
  | IpV6 o => SockV6 o port 0 0
  end.
Definition SocketAddr_ip (a : SocketAddr) : IpAddr :=
  match a with SockV4 o _ => IpV4 o | SockV6 o _ _ _ => IpV6 o end.
Definition SocketAddr_port (a : SocketAddr) : Z :=
  match a with SockV4 _ p => p | SockV6 _ p _ _ => p end.

(** ["0.0.0.0:0".parse()]. *)
Definition UNSPECIFIED : SocketAddr := SockV4 [0; 0; 0; 0] 0.

#[export] Instance IpAddr_eq_dec : EqDecision IpAddr.
Proof. solve_decision. Defined.
#[export] Instance SocketAddr_eq_dec : EqDecision SocketAddr.
Proof. solve_decision. Defined.
#[export] Instance SocketAddr_countable : Countable SocketAddr.
Proof.
  apply (inj_countable'
    (λ a, match a with
          | SockV4 o p => (o, p, None)
          | SockV6 o p f s => (o, p, Some (f, s))
          end)
    (λ '(o, p, x), match x with
                   | None => SockV4 o p
                   | Some (f, s) => SockV6 o p f s
                   end)).
  by intros [].
Defined.

(** Values of the Rust types: arrays of the right length, ports in range. *)
Definition octets_ok (n : nat) (o : list Z) : Prop := length o = n ∧ is_bytes o.
Definition sockaddr_ok (a : SocketAddr) : Prop :=
  match a with
  | SockV4 o p => octets_ok 4 o ∧ u16 p
  | SockV6 o p f s => octets_ok 16 o ∧ u16 p ∧ u32 f ∧ u32 s
  end.
