(* ===== verification/Rewrite.v ===== *)
(** * gravital-stack/src/rewrite.rs: packet rewriting for the virtual NAT

    A [&mut Vec<u8>] argument is threaded: the function returns the buffer it
    leaves behind. *)

From Stdlib Require Import ZArith Lia.
From S2P Require Import Prelude Bytes Net Checksum Proto.
Local Open Scope Z_scope.

Section code.
Context {E : Type} {B : Build}.

Definition checksum (data : list Z) : Outcome E Z :=
  let! sum := sum_chunks (chunks_exact2 data) 0 in
  let! sum :=
    match chunks_remainder2 data with
    | [tail] => arith 32 (sum + Z.shiftl tail 8)
    | _ => Ok sum
    end in
  let! sum := carry_loop CARRY_FUEL sum in
  Ok (unot 16 (cast 16 sum)).

Definition fix_ipv4_checksum (pkt : list Z) : Outcome E (list Z) :=
  let! _ := debug_assert (20 <=? length pkt)%nat in
  let! pkt := set_idx pkt 10 0 in
  let! pkt := set_idx pkt 11 0 in
  let! b0 := idx pkt 0 in
  let ihl := low_nibble_words b0 in
  let! hdr := slice pkt 0 ihl in
  let! csum := checksum hdr in
  copy_from_slice pkt 10 12 (to_be16 csum).

(** [a - b] on [usize], kept as a [Z]: the only use truncates it to 16 bits,
    so the width of a wrapped result does not matter. *)
Definition usize_sub (a b : nat) : Outcome E Z :=
  if (b <=? a)%nat then Ok (Z.of_nat (a - b))
  else if debug_assertions then Panic else Ok (Z.of_nat a - Z.of_nat b).

Definition fix_tcp_checksum (pkt : list Z) : Outcome E (list Z) :=
  let! b0 := idx pkt 0 in
  let ihl := low_nibble_words b0 in
  let! tcp_len := usize_sub (length pkt) ihl in
  let pseudo := replicate 12 0 in
  let! s := slice pkt 12 16 in
  let! pseudo := copy_from_slice pseudo 0 4 s in
  let! d := slice pkt 16 20 in
  let! pseudo := copy_from_slice pseudo 4 8 d in
  let! pseudo := set_idx pseudo 8 0 in
  let! pseudo := set_idx pseudo 9 6 in
  let! pseudo := copy_from_slice pseudo 10 12 (to_be16 (cast 16 tcp_len)) in
  let! pkt := set_idx pkt (ihl + 16) 0 in
  let! pkt := set_idx pkt (ihl + 17) 0 in
  let! sum := sum_chunks (chunks_exact2 pseudo) 0 in
  let! tcp_seg := slice_from pkt ihl in
  let! sum := sum_chunks (chunks_exact2 tcp_seg) sum in
  let! sum :=
    match chunks_remainder2 tcp_seg with
    | [tail] => arith 32 (sum + Z.shiftl tail 8)
    | _ => Ok sum
    end in
  let! sum := carry_loop CARRY_FUEL sum in
  let csum := unot 16 (cast 16 sum) in
  copy_from_slice pkt (ihl + 16) (ihl + 18) (to_be16 csum).

Definition rewrite_inbound (pkt : list Z) (vport : Z) : Outcome E (bool * list Z) :=
  if (length pkt <? 20)%nat then Ok (false, pkt) else
  let! b0 := idx pkt 0 in
  if negb (Z.shiftr b0 4 =? 4) then Ok (false, pkt) else
  let! proto := idx pkt 9 in
  if negb (proto =? 6) then Ok (false, pkt) else
  let ihl := low_nibble_words b0 in
  if (length pkt <? ihl + 20)%nat then Ok (false, pkt) else
  let! pkt := copy_from_slice pkt (ihl + 2) (ihl + 4) (to_be16 vport) in
  let! pkt := fix_tcp_checksum pkt in
  let! pkt := fix_ipv4_checksum pkt in
  Ok (true, pkt).

Definition rewrite_outbound (pkt real_dst_ip : list Z) (real_dst_port : Z)
    : Outcome E (bool * list Z) :=
  if (length pkt <? 20)%nat then Ok (false, pkt) else
  let! b0 := idx pkt 0 in
  if negb (Z.shiftr b0 4 =? 4) then Ok (false, pkt) else
  let! proto := idx pkt 9 in
  if negb (proto =? 6) then Ok (false, pkt) else
  let ihl := low_nibble_words b0 in
  if (length pkt <? ihl + 20)%nat then Ok (false, pkt) else
  let! pkt := copy_from_slice pkt 12 16 real_dst_ip in
  let! pkt := copy_from_slice pkt ihl (ihl + 2) (to_be16 real_dst_port) in
  let! pkt := fix_tcp_checksum pkt in
  let! pkt := fix_ipv4_checksum pkt in
  Ok (true, pkt).

Definition extract_tcp_addrs (pkt : list Z) : Outcome E (option (SocketAddr * SocketAddr)) :=
  if (length pkt <? 20)%nat then Ok None else
  let! b0 := idx pkt 0 in
  let! proto := idx pkt 9 in
  if negb (Z.shiftr b0 4 =? 4) || negb (proto =? 6) then Ok None else
  let ihl := low_nibble_words b0 in
  if (length pkt <? ihl + 20)%nat then Ok None else
  let! s0 := idx pkt 12 in let! s1 := idx pkt 13 in
  let! s2 := idx pkt 14 in let! s3 := idx pkt 15 in
  let! d0 := idx pkt 16 in let! d1 := idx pkt 17 in
  let! d2 := idx pkt 18 in let! d3 := idx pkt 19 in
  let! sp0 := idx pkt ihl in let! sp1 := idx pkt (ihl + 1) in
  let! dp0 := idx pkt (ihl + 2) in let! dp1 := idx pkt (ihl + 3) in
  Ok (Some (SockV4 [s0; s1; s2; s3] (be16 sp0 sp1), SockV4 [d0; d1; d2; d3] (be16 dp0 dp1))).

Definition is_tcp_syn (pkt : list Z) : Outcome E bool :=
  let! b0 := idx pkt 0 in
  let ihl := low_nibble_words b0 in
  if (length pkt <? ihl + 14)%nat then Ok false else
  let! flags := idx pkt (ihl + 13) in
  Ok (Z.land flags 0x12 =? 0x02).
End code.

(** ** Specification vocabulary *)

Definition ihl_of (pkt : list Z) : nat := low_nibble_words (pkt !!! 0%nat).

(** The guards of [rewrite_inbound]: an IPv4/TCP packet with room for the
    minimal TCP header after its IP header. *)
Definition is_tcp4 (pkt : list Z) : bool :=
  (20 <=? length pkt)%nat && ((pkt !!! 0%nat) / 16 =? 4) && (pkt !!! 9%nat =? 6) &&
  (ihl_of pkt + 20 <=? length pkt)%nat.

(** The addresses of a packet, in the terms of [extract_tcp_addrs]. *)
Definition src_of (pkt : list Z) : SocketAddr :=
  SockV4 (take 4 (drop 12 pkt)) (be16 (pkt !!! ihl_of pkt) (pkt !!! S (ihl_of pkt))).
Definition dst_of (pkt : list Z) : SocketAddr :=
  SockV4 (take 4 (drop 16 pkt))
    (be16 (pkt !!! (ihl_of pkt + 2)%nat) (pkt !!! S (ihl_of pkt + 2))).

(** RFC 791: the checksum over the header is zero.  RFC 793: the checksum
    over the pseudo-header and the segment is zero. *)
Definition ipv4_checksum_valid {B : Build} (pkt : list Z) : Prop :=
  internet_checksum (E := ParseError) (take (ihl_of pkt) pkt) = Ok 0.
Definition tcp_pseudo_header (pkt : list Z) : list Z :=
  take 4 (drop 12 pkt) ++ take 4 (drop 16 pkt) ++ [0; 6] ++
  to_be16 (Z.of_nat (length pkt - ihl_of pkt)).
Definition tcp_checksum_valid {B : Build} (pkt : list Z) : Prop :=
  internet_checksum (E := ParseError) (tcp_pseudo_header pkt ++ drop (ihl_of pkt) pkt) = Ok 0.

(** ** The checksum routines *)
Section checksums.
Context {E : Type} {B : Build}.

(** The three copies of the RFC 1071 routine in the code base agree. *)
Lemma checksum_internet data : checksum (E := E) data = internet_checksum data.
Proof.
  unfold checksum, internet_checksum.
  destruct (sum_chunks (chunks_exact2 data) 0) as [s| | |]; try done. cbn [obind].
  destruct (remainder2_cases data) as [->|[a ->]]; [done|].
  unfold be16. by rewrite shiftl_8, Z.add_0_r.
Qed.

Lemma ihl_put16 i v pkt : (1 ≤ i)%nat → (i + 2 ≤ length pkt)%nat → ihl_of (put16 i v pkt) = ihl_of pkt.
Proof. intros. unfold ihl_of. by rewrite put16_ne by lia. Qed.

Lemma ihl_even pkt : Nat.Even (ihl_of pkt).
Proof. unfold ihl_of, low_nibble_words. exists (Z.to_nat (Z.land (pkt !!! 0%nat) 15) * 2)%nat. lia. Qed.

Definition ipv4_csum (pkt : list Z) : Z :=
  65535 - ones_sum (words_sum (take (ihl_of pkt) (put16 10 0 pkt))).

Lemma fix_ipv4_ok pkt :
  is_bytes pkt → (20 ≤ length pkt)%nat → (ihl_of pkt ≤ length pkt)%nat →
  Z.of_nat (length pkt) ≤ 65535 →
  fix_ipv4_checksum (E := E) pkt = Ok (put16 10 (ipv4_csum pkt) pkt).
Proof.
  intros Hb H1 H2 H3. unfold fix_ipv4_checksum, debug_assert.
  rewrite (proj2 (Nat.leb_le _ _) H1), andb_false_r. cbn [obind].
  run_bytes. rewrite zero_put16 by lia. fold (ihl_of (put16 10 0 pkt)).
  rewrite ihl_put16 by lia. run_bytes.
  rewrite drop_0, Nat.sub_0_r, checksum_internet.
  rewrite internet_checksum_ok; [|auto with rust|len].
  cbn [obind]. fold (ipv4_csum pkt).
  rewrite copy_from_slice_ok by len. fold (put16 10 (ipv4_csum pkt) (put16 10 0 pkt)).
  by rewrite put16_put16 by lia.
Qed.

Definition tcp_csum (pkt : list Z) : Z :=
  65535 - ones_sum (words_sum (tcp_pseudo_header pkt) +
                    words_sum (drop (ihl_of pkt) (put16 (ihl_of pkt + 16) 0 pkt))).

Lemma length_tcp_pseudo pkt : (20 ≤ length pkt)%nat → length (tcp_pseudo_header pkt) = 12%nat.
Proof. intros. unfold tcp_pseudo_header. len. Qed.

Lemma is_bytes_tcp_pseudo pkt : is_bytes pkt → is_bytes (tcp_pseudo_header pkt).
Proof.
  intros. unfold tcp_pseudo_header. rewrite !is_bytes_app.
  repeat split; auto with rust. repeat constructor; lia.
Qed.

(** The [while] and [for] loops after the pseudo-header is built. *)
Lemma tcp_sum_ok seg k :
  is_bytes seg → 0 ≤ k → k + words_sum seg < 2 ^ 32 →
  (let! sum := sum_chunks (E := E) (chunks_exact2 seg) k in
   match chunks_remainder2 seg with
   | [tail] => arith 32 (sum + Z.shiftl tail 8)
   | _ => Ok sum
   end) = Ok (k + words_sum seg).
Proof.
  intros Hb Hk Hs. rewrite sum_chunks_ok by done. cbn [obind].
  pose proof (remainder2_le seg Hb) as [Hr ?]. pose proof (words_sum_nonneg _ Hr).
  destruct (remainder2_cases seg) as [E0|[a E0]]; rewrite E0 in *.
  - f_equal. simpl. lia.
  - rewrite shiftl_8. simpl in *. unfold be16 in *.
    rewrite arith_exact; [f_equal|unfold uint]; lia.
Qed.

Lemma seg_csum_ok {A} seg k (K : Z → Outcome E A) :
  is_bytes seg → 0 ≤ k → k + words_sum seg < 2 ^ 32 →
  (let! sum := sum_chunks (chunks_exact2 seg) k in
   let! sum :=
     match chunks_remainder2 seg with
     | [tail] => arith 32 (sum + Z.shiftl tail 8)
     | _ => Ok sum
     end in
   let! sum := carry_loop CARRY_FUEL sum in
   K (unot 16 (cast 16 sum))) = K (65535 - ones_sum (k + words_sum seg)).
Proof.
  intros Hb Hk Hs. pose proof (tcp_sum_ok seg k Hb Hk Hs) as Hsum.
  pose proof (words_sum_nonneg _ Hb).
  destruct (sum_chunks (chunks_exact2 seg) k) as [s| | |]; try done.
  cbn [obind] in Hsum |- *. rewrite Hsum. cbn [obind].
  pose proof (fold_spec (E := E) (k + words_sum seg) ltac:(unfold uint; lia)) as Hfold.
  unfold fold in Hfold. destruct (carry_loop CARRY_FUEL _) as [f| | |]; try done.
  cbn [obind] in Hfold |- *. by injection Hfold as ->.
Qed.

Lemma fix_tcp_ok pkt :
  is_bytes pkt → (20 ≤ length pkt)%nat → (ihl_of pkt + 20 ≤ length pkt)%nat →
  Z.of_nat (length pkt) ≤ 65535 →
  fix_tcp_checksum (E := E) pkt = Ok (put16 (ihl_of pkt + 16) (tcp_csum pkt) pkt).
Proof.
  intros Hb H1 H2 H3. unfold fix_tcp_checksum. run_bytes. fold (ihl_of pkt).
  unfold usize_sub. rewrite (proj2 (Nat.leb_le _ _)) by lia. cbn [obind].
  rewrite cast_small by (unfold uint; lia). run_bytes.
  pose proof (length_tcp_pseudo pkt H1) as Hpl.
  pose proof (is_bytes_tcp_pseudo pkt Hb) as Hpb.
  assert (list_inserts 10 (to_be16 (Z.of_nat (length pkt - ihl_of pkt)))
    (<[9%nat := 6]> (<[8%nat := 0]> (list_inserts 4 (take (20 - 16) (drop 16 pkt))
      (list_inserts 0 (take (16 - 12) (drop 12 pkt)) (replicate 12 0)))))
    = tcp_pseudo_header pkt) as Hpseudo.
  { unfold tcp_pseudo_header. change (16 - 12)%nat with 4%nat. change (20 - 16)%nat with 4%nat.
    by rewrite !take_total4 by lia. }
  rewrite Hpseudo. clear Hpseudo.
  replace (ihl_of pkt + 17)%nat with (S (ihl_of pkt + 16)) by lia.
  rewrite zero_put16 by lia.
  pose proof (words_sum_nonneg _ Hpb). pose proof (words_sum_le _ Hpb) as Hple.
  rewrite Hpl in Hple.
  rewrite sum_chunks_ok by (done || lia). cbn [obind].
  assert (words_sum (chunks_remainder2 (tcp_pseudo_header pkt)) = 0) as ->.
  { destruct (tcp_pseudo_header pkt) as [|? [|? [|? [|? [|? [|? [|? [|? [|? [|? [|? [|? [|??]]]]]]]]]]]]];
      by try (simpl in Hpl; lia). }
  rewrite Z.sub_0_r, Z.add_0_l.
  set (seg := drop (ihl_of pkt) (put16 (ihl_of pkt + 16) 0 pkt)).
  assert (is_bytes seg) as Hsb by (unfold seg; auto with rust).
  assert (Z.of_nat (length seg) ≤ 65535) as Hsl by (unfold seg; len).
  pose proof (words_sum_nonneg _ Hsb). pose proof (words_sum_le _ Hsb).
  rewrite (seg_csum_ok seg _ (λ csum, copy_from_slice _ _ _ (to_be16 csum))) by (done || lia).
  unfold seg. fold (tcp_csum pkt).
  rewrite copy_from_slice_ok by len.
  fold (put16 (ihl_of pkt + 16) (tcp_csum pkt) (put16 (ihl_of pkt + 16) 0 pkt)).
  by rewrite put16_put16 by lia.
Qed.
End checksums.

(** ** Valid checksums after the fix-ups *)
Section fixed.
Context {B : Build}.

Lemma ipv4_csum_valid pkt :
  is_bytes pkt → (20 ≤ ihl_of pkt ≤ length pkt)%nat → Z.of_nat (length pkt) ≤ 65535 →
  ipv4_checksum_valid (put16 10 (ipv4_csum pkt) pkt).
Proof.
  intros Hb Hi Hl. unfold ipv4_checksum_valid. rewrite ihl_put16 by lia.
  rewrite internet_checksum_ok by (auto with rust; len).
  rewrite take_put16 by lia. unfold ipv4_csum. rewrite take_put16 by lia.
  do 2 f_equal.
  pose proof (ones_sum_fixed 0 10 (take (ihl_of pkt) pkt) ltac:(lia) ltac:(auto with rust)
    ltac:(by exists 5%nat) ltac:(len)) as Hf.
  rewrite !Z.add_0_l in Hf. by rewrite Hf.
Qed.

Lemma addr_bytes_put16 i v pkt k :
  (k + 4 ≤ length pkt)%nat → (i + 2 ≤ length pkt)%nat → (i + 2 ≤ k ∨ k + 4 ≤ i)%nat →
  take 4 (drop k (put16 i v pkt)) = take 4 (drop k pkt).
Proof.
  intros. rewrite !take_total4 by len. by rewrite !put16_ne by lia.
Qed.

Lemma tcp_pseudo_put16 i v pkt :
  (20 ≤ length pkt)%nat → (1 ≤ i)%nat → (i + 2 ≤ length pkt)%nat → (i + 2 ≤ 12 ∨ 20 ≤ i)%nat →
  tcp_pseudo_header (put16 i v pkt) = tcp_pseudo_header pkt.
Proof.
  intros. unfold tcp_pseudo_header.
  by rewrite !addr_bytes_put16, length_put16, ihl_put16 by lia.
Qed.

Lemma tcp_csum_valid pkt :
  is_bytes pkt → (20 ≤ ihl_of pkt)%nat → (ihl_of pkt + 20 ≤ length pkt)%nat →
  Z.of_nat (length pkt) ≤ 65535 →
  tcp_checksum_valid (put16 (ihl_of pkt + 16) (tcp_csum pkt) pkt).
Proof.
  intros Hb Hi Ht Hl. unfold tcp_checksum_valid.
  rewrite ihl_put16, tcp_pseudo_put16 by lia.
  pose proof (length_tcp_pseudo pkt ltac:(lia)) as Hpl.
  pose proof (is_bytes_tcp_pseudo pkt Hb) as Hpb.
  rewrite internet_checksum_ok; [|rewrite is_bytes_app; auto with rust|rewrite length_app, Hpl; len].
  rewrite words_sum_app by (rewrite Hpl; by exists 6%nat).
  unfold tcp_csum. rewrite !drop_put16 by lia.
  replace (ihl_of pkt + 16 - ihl_of pkt)%nat with 16%nat by lia.
  rewrite ones_sum_fixed; [done|by apply words_sum_nonneg|auto with rust|by exists 8%nat|len].
Qed.

(** Rewriting bytes 10-11 keeps the TCP checksum. *)
Lemma tcp_valid_put10 v pkt :
  (20 ≤ ihl_of pkt ≤ length pkt)%nat →
  tcp_checksum_valid pkt → tcp_checksum_valid (put16 10 v pkt).
Proof.
  intros Hi Hv. unfold tcp_checksum_valid.
  by rewrite ihl_put16, tcp_pseudo_put16, drop_put16_ge by lia.
Qed.

(** What the two fix-ups leave behind. *)
Definition fixed_checksums (pkt : list Z) : list Z :=
  let p1 := put16 (ihl_of pkt + 16) (tcp_csum pkt) pkt in
  put16 10 (ipv4_csum p1) p1.

Lemma fix_both_ok {E} pkt :
  is_bytes pkt → (20 ≤ length pkt)%nat → (ihl_of pkt + 20 ≤ length pkt)%nat →
  Z.of_nat (length pkt) ≤ 65535 →
  (let! p := fix_tcp_checksum (E := E) pkt in
   let! p := fix_ipv4_checksum p in Ok (true, p)) = Ok (true, fixed_checksums pkt).
Proof.
  intros Hb H1 H2 H3. rewrite fix_tcp_ok by done. cbn [obind].
  assert (ihl_of (put16 (ihl_of pkt + 16) (tcp_csum pkt) pkt) ≤ length pkt)%nat.
  { rewrite ihl_put16 by lia. lia. }
  rewrite fix_ipv4_ok by (auto with rust; len). done.
Qed.

Lemma fixed_checksums_valid pkt :
  is_bytes pkt → (20 ≤ ihl_of pkt)%nat → (ihl_of pkt + 20 ≤ length pkt)%nat →
  Z.of_nat (length pkt) ≤ 65535 →
  ipv4_checksum_valid (fixed_checksums pkt) ∧ tcp_checksum_valid (fixed_checksums pkt).
Proof.
  intros Hb Hi Ht Hl. unfold fixed_checksums.
  assert (ihl_of (put16 (ihl_of pkt + 16) (tcp_csum pkt) pkt) = ihl_of pkt) as Hih
    by (apply ihl_put16; lia).
  split.
  - apply ipv4_csum_valid; [auto with rust|rewrite Hih; len|len].
  - apply tcp_valid_put10; [rewrite Hih; len|]. by apply tcp_csum_valid.
Qed.

Lemma fixed_checksums_frame pkt j :
  (20 ≤ length pkt)%nat → (ihl_of pkt + 20 ≤ length pkt)%nat →
  j ∉ [10; 11; ihl_of pkt + 16; ihl_of pkt + 17]%nat →
  fixed_checksums pkt !!! j = pkt !!! j.
Proof.
  intros H1 H2 Hj. rewrite !not_elem_of_cons in Hj. destruct Hj as (? & ? & ? & ? & _).
  unfold fixed_checksums. by rewrite !put16_ne by len.
Qed.

Lemma length_fixed pkt : length (fixed_checksums pkt) = length pkt.
Proof. unfold fixed_checksums. len. Qed.

Lemma ihl_fixed pkt :
  (20 ≤ length pkt)%nat → (ihl_of pkt + 20 ≤ length pkt)%nat →
  ihl_of (fixed_checksums pkt) = ihl_of pkt.
Proof. intros. unfold fixed_checksums. by rewrite !ihl_put16 by len. Qed.
End fixed.
#[export] Hint Rewrite @length_fixed : len.

(** The guards of the two rewriting functions and of [extract_tcp_addrs]. *)
Lemma is_tcp4_spec pkt :
  is_tcp4 pkt = true ↔
  (20 ≤ length pkt)%nat ∧ (pkt !!! 0%nat) / 16 = 4 ∧ pkt !!! 9%nat = 6 ∧
  (ihl_of pkt + 20 ≤ length pkt)%nat.
Proof.
  unfold is_tcp4. rewrite !andb_true_iff, !Nat.leb_le, !Z.eqb_eq. tauto.
Qed.

Lemma tcp4_guards {E A} pkt (no : Outcome E A) (yes : nat → Outcome E A) :
  (if (length pkt <? 20)%nat then no else
   let! b0 := idx pkt 0 in
   if negb (Z.shiftr b0 4 =? 4) then no else
   let! proto := idx pkt 9 in
   if negb (proto =? 6) then no else
   if (length pkt <? low_nibble_words b0 + 20)%nat then no else yes (low_nibble_words b0))
  = if is_tcp4 pkt then yes (ihl_of pkt) else no.
Proof.
  unfold is_tcp4, ihl_of. rewrite !Nat.leb_antisym.
  destruct (Nat.ltb_spec (length pkt) 20); [done|]. cbn [negb andb].
  run_bytes. rewrite shiftr_4.
  destruct (_ =? 4); [cbn [negb andb]|done].
  run_bytes. destruct (_ =? 6); [cbn [negb andb]|done].
  by destruct (_ <? _)%nat.
Qed.

(** [extract_tcp_addrs] on every buffer. *)
Lemma extract_tcp_addrs_eq {E} pkt :
  extract_tcp_addrs (E := E) pkt =
    Ok (if is_tcp4 pkt then Some (src_of pkt, dst_of pkt) else None).
Proof.
  unfold extract_tcp_addrs.
  destruct (is_tcp4 pkt) eqn:Ht.
  - apply is_tcp4_spec in Ht as (H1 & H2 & H3 & H4).
    destruct (Nat.ltb_spec (length pkt) 20); [lia|]. run_bytes.
    rewrite shiftr_4, H2, H3. cbn [Z.eqb Pos.eqb negb orb].
    fold (ihl_of pkt). destruct (Nat.ltb_spec (length pkt) (ihl_of pkt + 20)); [lia|].
    run_bytes. unfold src_of, dst_of. rewrite !take_total4 by lia.
    rewrite Nat.add_1_r. repeat f_equal. lia.
  - unfold is_tcp4, ihl_of in Ht. rewrite !Nat.leb_antisym in Ht.
    destruct (Nat.ltb_spec (length pkt) 20); [done|]. run_bytes. rewrite shiftr_4.
    destruct (_ =? 4); [|done]. destruct (_ =? 6); [|done].
    cbn [negb orb andb] in *. by destruct (_ <? _)%nat.
Qed.

(** ** Theorems *)
Section theorems.
Context {E : Type} {B : Build}.

Lemma rewrite_inbound_eq pkt vport :
  is_bytes pkt → Z.of_nat (length pkt) ≤ 65535 →
  rewrite_inbound (E := E) pkt vport =
    Ok (if is_tcp4 pkt then (true, fixed_checksums (put16 (ihl_of pkt + 2) vport pkt))
        else (false, pkt)).
Proof.
  intros Hb Hl. unfold rewrite_inbound.
  rewrite (tcp4_guards pkt _ (λ ihl,
    let! pkt := copy_from_slice pkt (ihl + 2) (ihl + 4) (to_be16 vport) in
    let! pkt := fix_tcp_checksum pkt in
    let! pkt := fix_ipv4_checksum pkt in
    Ok (true, pkt))).
  destruct (is_tcp4 pkt) eqn:Ht; [|done].
  apply is_tcp4_spec in Ht as (H1 & H2 & H3 & H4).
  rewrite copy_from_slice_ok by len. cbn [obind]. fold (put16 (ihl_of pkt + 2) vport pkt).
  rewrite fix_both_ok; [done|auto with rust|len|rewrite ihl_put16 by lia; len|len].
Qed.

Lemma rewrite_outbound_eq pkt ip port :
  is_bytes pkt → Z.of_nat (length pkt) ≤ 65535 → octets_ok 4 ip → ihl_of pkt ≠ 0%nat →
  rewrite_outbound (E := E) pkt ip port =
    Ok (if is_tcp4 pkt
        then (true, fixed_checksums (put16 (ihl_of pkt) port (list_inserts 12 ip pkt)))
        else (false, pkt)).
Proof.
  intros Hb Hl [Hil Hib] Hz. unfold rewrite_outbound.
  rewrite (tcp4_guards pkt _ (λ ihl,
    let! pkt := copy_from_slice pkt 12 16 ip in
    let! pkt := copy_from_slice pkt ihl (ihl + 2) (to_be16 port) in
    let! pkt := fix_tcp_checksum pkt in
    let! pkt := fix_ipv4_checksum pkt in
    Ok (true, pkt))).
  destruct (is_tcp4 pkt) eqn:Ht; [|done].
  apply is_tcp4_spec in Ht as (H1 & H2 & H3 & H4).
  do 2 (rewrite copy_from_slice_ok by len; cbn [obind]).
  fold (put16 (ihl_of pkt) port (list_inserts 12 ip pkt)).
  rewrite fix_both_ok; [done|auto with rust|len| |len].
  autorewrite with len.
  rewrite ihl_put16 by len. unfold ihl_of at 1. rewrite total_inserts by lia.
  rewrite decide_False by lia. fold (ihl_of pkt). lia.
Qed.

(** The fields that the two rewrites write and the others keep. *)
Lemma fixed_put16_addr p k :
  (20 ≤ length p)%nat → (20 ≤ ihl_of p)%nat → (ihl_of p + 20 ≤ length p)%nat →
  (12 ≤ k ≤ 16)%nat → take 4 (drop k (fixed_checksums p)) = take 4 (drop k p).
Proof.
  intros. unfold fixed_checksums. by rewrite !addr_bytes_put16 by len.
Qed.

Lemma rewrite_inbound_ok pkt vport
    (Hb : is_bytes pkt) (Hv : u16 vport) (Ht : is_tcp4 pkt = true)
    (Hi : (20 ≤ ihl_of pkt)%nat) (Hl : Z.of_nat (length pkt) ≤ 65535) :
  ∃ pkt', rewrite_inbound (E := E) pkt vport = Ok (true, pkt') ∧
    extract_tcp_addrs (E := E) pkt' =
      Ok (Some (src_of pkt, SockV4 (take 4 (drop 16 pkt)) vport)) ∧
    ipv4_checksum_valid pkt' ∧ tcp_checksum_valid pkt' ∧ length pkt' = length pkt ∧
    ∀ j, j ∉ [10; 11; ihl_of pkt + 2; ihl_of pkt + 3; ihl_of pkt + 16; ihl_of pkt + 17]%nat →
      pkt' !!! j = pkt !!! j.
Proof.
  rewrite rewrite_inbound_eq, Ht by done.
  apply is_tcp4_spec in Ht as (H1 & H2 & H3 & H4).
  set (p := put16 (ihl_of pkt + 2) vport pkt).
  assert (ihl_of p = ihl_of pkt) as Hp by (apply ihl_put16; lia).
  assert (length p = length pkt) as Hpl by (unfold p; len).
  assert (∀ j, j ∉ [10; 11; ihl_of pkt + 2; ihl_of pkt + 3; ihl_of pkt + 16; ihl_of pkt + 17]%nat →
    fixed_checksums p !!! j = pkt !!! j) as Hframe.
  { intros j Hj. rewrite fixed_checksums_frame by (rewrite ?Hpl, ?Hp; notin).
    unfold p. by rewrite put16_ne by notin. }
  eexists. split; [reflexivity|].
  destruct (fixed_checksums_valid p) as [Hv4 Hvt]; [unfold p; auto with rust|lia..|].
  split_and!; [|done|done|by rewrite length_fixed|done].
  rewrite extract_tcp_addrs_eq, (proj2 (is_tcp4_spec _)).
  2:{ rewrite ihl_fixed, length_fixed, Hp, Hpl, !Hframe by (lia || notin). done. }
  unfold src_of, dst_of. rewrite ihl_fixed, Hp, !fixed_put16_addr by lia.
  do 3 f_equal.
  - f_equal; [by apply addr_bytes_put16; lia|by rewrite !Hframe by notin].
  - f_equal; [by apply addr_bytes_put16; lia|].
    rewrite !fixed_checksums_frame by (rewrite ?Hpl, ?Hp; notin).
    apply put16_same; [lia|done].
Qed.

(** C2. Inbound rewriting (TUN to smoltcp): an IPv4/TCP packet of at most
    65535 bytes comes out, without a panic in either profile, with the virtual
    port as its destination port, the same source and the same destination
    address, a valid IPv4 header checksum and a valid TCP checksum, and with
    every byte outside those three 16-bit fields unchanged. *)
Theorem rewrite_inbound_spec pkt vport
    (Hb : is_bytes pkt) (Hv : u16 vport) (Ht : is_tcp4 pkt = true)
    (Hi : (20 ≤ ihl_of pkt)%nat) (Hl : Z.of_nat (length pkt) ≤ 65535) :
  ∃ pkt', rewrite_inbound (E := E) pkt vport = Ok (true, pkt') ∧
    extract_tcp_addrs (E := E) pkt' =
      Ok (Some (src_of pkt, SockV4 (take 4 (drop 16 pkt)) vport)) ∧
    ipv4_checksum_valid pkt' ∧ tcp_checksum_valid pkt' ∧ length pkt' = length pkt ∧
    ∀ j, j ∉ [10; 11; ihl_of pkt + 2; ihl_of pkt + 3; ihl_of pkt + 16; ihl_of pkt + 17]%nat →
      pkt' !!! j = pkt !!! j.
Proof. by apply rewrite_inbound_ok. Qed.

Lemma rewrite_outbound_ok pkt ip port
    (Hb : is_bytes pkt) (Hip : octets_ok 4 ip) (Hv : u16 port) (Ht : is_tcp4 pkt = true)
    (Hi : (20 ≤ ihl_of pkt)%nat) (Hl : Z.of_nat (length pkt) ≤ 65535) :
  ∃ pkt', rewrite_outbound (E := E) pkt ip port = Ok (true, pkt') ∧
    extract_tcp_addrs (E := E) pkt' = Ok (Some (SockV4 ip port, dst_of pkt)) ∧
    ipv4_checksum_valid pkt' ∧ tcp_checksum_valid pkt' ∧ length pkt' = length pkt ∧
    ∀ j, j ∉ [10; 11; 12; 13; 14; 15; ihl_of pkt; ihl_of pkt + 1;
              ihl_of pkt + 16; ihl_of pkt + 17]%nat →
      pkt' !!! j = pkt !!! j.
Proof.
  rewrite rewrite_outbound_eq, Ht by (done || lia). destruct Hip as [Hil Hib].
  apply is_tcp4_spec in Ht as (H1 & H2 & H3 & H4).
  set (q := list_inserts 12 ip pkt). set (p := put16 (ihl_of pkt) port q).
  assert (length q = length pkt) as Hql by (unfold q; len).
  assert (ihl_of q = ihl_of pkt) as Hq.
  { unfold ihl_of, q. by rewrite total_inserts, decide_False by lia. }
  assert (ihl_of p = ihl_of pkt) as Hp by (unfold p; rewrite ihl_put16; [done|lia..]).
  assert (length p = length pkt) as Hpl by (unfold p; len).
  assert (∀ j, j ∉ [10; 11; 12; 13; 14; 15; ihl_of pkt; ihl_of pkt + 1;
                    ihl_of pkt + 16; ihl_of pkt + 17]%nat →
    fixed_checksums p !!! j = pkt !!! j) as Hframe.
  { intros j Hj. rewrite fixed_checksums_frame by (rewrite ?Hpl, ?Hp; notin).
    unfold p. rewrite put16_ne by notin. unfold q.
    rewrite total_inserts, decide_False by notin. done. }
  eexists. split; [reflexivity|].
  destruct (fixed_checksums_valid p) as [Hv4 Hvt];
    [unfold p, q; auto with rust|lia..|].
  split_and!; [|done|done|by rewrite length_fixed|done].
  rewrite extract_tcp_addrs_eq, (proj2 (is_tcp4_spec _)).
  2:{ rewrite ihl_fixed, length_fixed, Hp, Hpl, !Hframe by (lia || notin). done. }
  unfold src_of, dst_of. rewrite ihl_fixed, Hp, !fixed_put16_addr by lia.
  do 3 f_equal.
  - f_equal.
    + unfold p. rewrite addr_bytes_put16 by lia. unfold q.
      rewrite inserts_split, drop_app_length', take_app_length' by len. done.
    + rewrite !fixed_checksums_frame by (rewrite ?Hpl, ?Hp; notin).
      apply put16_same; [lia|done].
  - f_equal; [|by rewrite !Hframe by notin].
    rewrite !take_total4 by lia. by rewrite <- !Hframe, !fixed_checksums_frame
      by (rewrite ?Hpl, ?Hp; notin).
Qed.

(** C3. Outbound rewriting (smoltcp to TUN): the packet comes out with the
    real remote address and port as its source, the destination unchanged,
    valid IPv4 and TCP checksums, and every byte outside the source address,
    the source port and the two checksums unchanged. *)
Theorem rewrite_outbound_spec pkt ip port
    (Hb : is_bytes pkt) (Hip : octets_ok 4 ip) (Hv : u16 port) (Ht : is_tcp4 pkt = true)
    (Hi : (20 ≤ ihl_of pkt)%nat) (Hl : Z.of_nat (length pkt) ≤ 65535) :
  ∃ pkt', rewrite_outbound (E := E) pkt ip port = Ok (true, pkt') ∧
    extract_tcp_addrs (E := E) pkt' = Ok (Some (SockV4 ip port, dst_of pkt)) ∧
    ipv4_checksum_valid pkt' ∧ tcp_checksum_valid pkt' ∧ length pkt' = length pkt ∧
    ∀ j, j ∉ [10; 11; 12; 13; 14; 15; ihl_of pkt; ihl_of pkt + 1;
              ihl_of pkt + 16; ihl_of pkt + 17]%nat →
      pkt' !!! j = pkt !!! j.
Proof. by apply rewrite_outbound_ok. Qed.
End theorems.

(** The packet of the source's own tests: a SYN from 10.42.0.2:54321 to
    8.8.8.8:443. *)
Definition syn_packet : list Z :=
  [0x45; 0; 0; 40; 0; 0; 0; 0; 64; 6; 0; 0; 10; 42; 0; 2; 8; 8; 8; 8;
   212; 49; 1; 187; 0; 0; 0; 0; 0; 0; 0; 0; 0x50; 0x02; 0; 0; 0; 0; 0; 0].

Lemma rewrite_inbound_spec_witness :
  ∃ pkt', rewrite_inbound (E := unit) (B := dev) syn_packet 12345 = Ok (true, pkt') ∧
    extract_tcp_addrs (E := unit) pkt' =
      Ok (Some (SockV4 [10; 42; 0; 2] 54321, SockV4 [8; 8; 8; 8] 12345)).
Proof.
  destruct (@rewrite_inbound_spec unit dev syn_packet 12345) as (p & H1 & H2 & _).
  - repeat constructor; lia.
  - split; lia.
  - reflexivity.
  - vm_compute. lia.
  - simpl. lia.
  - exists p. split; [exact H1|exact H2].
Defined.

Lemma rewrite_outbound_spec_witness :
  ∃ pkt', rewrite_outbound (E := unit) (B := release) syn_packet [1; 1; 1; 1] 80 = Ok (true, pkt') ∧
    extract_tcp_addrs (E := unit) pkt' =
      Ok (Some (SockV4 [1; 1; 1; 1] 80, SockV4 [8; 8; 8; 8] 443)).
Proof.
  destruct (@rewrite_outbound_spec unit release syn_packet [1; 1; 1; 1] 80) as (p & H1 & H2 & _).
  - repeat constructor; lia.
  - split; [reflexivity|repeat constructor; lia].
  - split; lia.
  - reflexivity.
  - vm_compute. lia.
  - simpl. lia.
  - exists p. split; [exact H1|exact H2].
Defined.
