(* ===== verification/NatTable.v ===== *)
(** * gravital-stack/src/nat.rs: the virtual-port NAT table

    [HashMap]s are [gmap]s.  [insert] is the source's scan for a free virtual
    port, with fuel [SCAN_FUEL] for its loop (one round over the port range;
    [insert_loop_spec] shows that it is enough). *)

From Stdlib Require Import ZArith Lia.
From stdpp Require Import gmap.
From S2P Require Import Prelude Bytes Net.
Local Open Scope Z_scope.

Abbreviation flow := (SocketAddr * SocketAddr)%type.

Record NatTable := {
  forward : gmap flow Z;
  reverse : gmap Z flow;
  next : Z;
}.

Definition BASE_PORT : Z := 10000.
Definition PORT_RANGE : Z := 50000.
Definition SCAN_FUEL : nat := Z.to_nat PORT_RANGE.

Definition NatTable_new : NatTable :=
  {| forward := ∅; reverse := ∅; next := BASE_PORT |}.

Section code.
Context {E : Type} {B : Build}.

(** [BASE_PORT + (self.next - BASE_PORT + 1) % PORT_RANGE], in [u16]. *)
Definition next_port (n : Z) : Outcome E Z :=
  let! a := arith 16 (n - BASE_PORT) in
  let! a := arith 16 (a + 1) in
  arith 16 (BASE_PORT + a mod PORT_RANGE).

Fixpoint insert_loop (fuel : nat) (start : Z) (key : flow) (t : NatTable)
    : Outcome E (option Z * NatTable) :=
  match fuel with
  | O => Diverge
  | S fuel =>
      let vp := next t in
      let! n := next_port (next t) in
      match reverse t !! vp with
      | None =>
          Ok (Some vp, {| forward := <[key := vp]> (forward t);
                          reverse := <[vp := key]> (reverse t); next := n |})
      | Some _ =>
          let t := {| forward := forward t; reverse := reverse t; next := n |} in
          if n =? start then Ok (None, t) else insert_loop fuel start key t
      end
  end.

Definition NatTable_insert (t : NatTable) (src real_dst : SocketAddr)
    : Outcome E (option Z * NatTable) :=
  match forward t !! (src, real_dst) with
  | Some vp => Ok (Some vp, t)
  | None => insert_loop SCAN_FUEL (next t) (src, real_dst) t
  end.
End code.

Definition lookup_forward (t : NatTable) (src real_dst : SocketAddr) : option Z :=
  forward t !! (src, real_dst).

Definition lookup_reverse (t : NatTable) (vport : Z) : option flow := reverse t !! vport.

Definition remove_by_vport (t : NatTable) (vport : Z) : NatTable :=
  match reverse t !! vport with
  | Some key => {| forward := delete key (forward t);
                   reverse := delete vport (reverse t); next := next t |}
  | None => t
  end.

(** ** The invariant: the two maps are inverse, ports are in range *)
Definition vport_range (vp : Z) : Prop := BASE_PORT ≤ vp < BASE_PORT + PORT_RANGE.

Record nat_wf (t : NatTable) : Prop := {
  wf_inverse : ∀ key vp, forward t !! key = Some vp ↔ reverse t !! vp = Some key;
  wf_range : ∀ vp key, reverse t !! vp = Some key → vport_range vp;
  wf_next : vport_range (next t);
}.

Definition nat_full (t : NatTable) : Prop :=
  ∀ vp, vport_range vp → is_Some (reverse t !! vp).

Lemma NatTable_new_wf : nat_wf NatTable_new.
Proof. split; simpl; [by intros|by intros|unfold vport_range, BASE_PORT, PORT_RANGE; lia]. Qed.

Lemma remove_by_vport_wf t vp : nat_wf t → nat_wf (remove_by_vport t vp).
Proof.
  intros [Hinv Hr Hn]. unfold remove_by_vport.
  destruct (reverse t !! vp) as [key|] eqn:Hk; [|done].
  split; simpl; [|intros v k Hv|done].
  - intros k v. rewrite !lookup_delete. apply Hinv in Hk.
    repeat case_decide; subst; [done|..].
    + split; [done|]. intros Hv%Hinv. congruence.
    + split; [|done]. intros Hv%Hinv. apply Hinv in Hk. congruence.
    + apply Hinv.
  - rewrite lookup_delete in Hv. case_decide; [done|]. by eapply Hr.
Qed.

Lemma fresh_insert_wf t key vp n :
  nat_wf t → forward t !! key = None → reverse t !! vp = None →
  vport_range vp → vport_range n →
  nat_wf {| forward := <[key := vp]> (forward t); reverse := <[vp := key]> (reverse t); next := n |}.
Proof.
  intros [Hinv Hr Hn] Hf Hv Hvp Hnn. split; simpl; [|intros v k Hk|done].
  - intros k v. rewrite !lookup_insert.
    repeat case_decide; subst; [done|..|apply Hinv].
    + split; [by intros [= ->]|]. intros Hk%Hinv. congruence.
    + split; [|by intros [= ->]]. intros Hk%Hinv. congruence.
  - rewrite lookup_insert in Hk. case_decide; [by subst|]. by eapply Hr.
Qed.

(** ** The scan *)
Section scan.
Context {E : Type} {B : Build}.

(** The [k]-th port that a scan from [start] looks at. *)
Definition scan_port (start k : Z) : Z :=
  BASE_PORT + (start - BASE_PORT + k) mod PORT_RANGE.

Lemma scan_port_range start k : vport_range (scan_port start k).
Proof.
  unfold vport_range, scan_port.
  pose proof (Z.mod_pos_bound (start - BASE_PORT + k) PORT_RANGE).
  unfold BASE_PORT, PORT_RANGE in *. lia.
Qed.

Lemma next_port_ok n :
  vport_range n →
  next_port (E := E) n = Ok (BASE_PORT + (n - BASE_PORT + 1) mod PORT_RANGE).
Proof.
  unfold vport_range, next_port, BASE_PORT, PORT_RANGE. intros H.
  pose proof (Z.mod_pos_bound (n - 10000 + 1) 50000).
  do 2 (rewrite arith_exact by (unfold uint; lia); cbn [obind]).
  by rewrite arith_exact by (unfold uint; lia).
Qed.

Lemma scan_port_next start k :
  next_port (E := E) (scan_port start k) = Ok (scan_port start (k + 1)).
Proof.
  rewrite next_port_ok by apply scan_port_range. unfold scan_port. f_equal. f_equal.
  replace (BASE_PORT + (start - BASE_PORT + k) mod PORT_RANGE - BASE_PORT + 1)
    with ((start - BASE_PORT + k) mod PORT_RANGE + 1) by lia.
  rewrite Zplus_mod_idemp_l. f_equal. lia.
Qed.

Lemma scan_port_start start : vport_range start → scan_port start 0 = start.
Proof.
  unfold vport_range, scan_port. intros H. rewrite Z.add_0_r, Z.mod_small by lia. lia.
Qed.

(** The scan is back at its start only after a whole round. *)
Lemma scan_port_wrap start k :
  vport_range start → 0 < k ≤ PORT_RANGE → scan_port start k = start → k = PORT_RANGE.
Proof.
  unfold vport_range, scan_port, BASE_PORT, PORT_RANGE. intros H Hk He.
  Z.div_mod_to_equations. lia.
Qed.

(** A whole round looks at every port. *)
Lemma scan_port_covers start vp :
  vport_range start → vport_range vp → ∃ k, 0 ≤ k < PORT_RANGE ∧ scan_port start k = vp.
Proof.
  intros Hs Hv. exists ((vp - start) mod PORT_RANGE).
  split; [apply Z.mod_pos_bound; done|].
  unfold scan_port. rewrite Zplus_mod_idemp_r.
  unfold vport_range in Hv. replace (start - BASE_PORT + (vp - start)) with (vp - BASE_PORT) by lia.
  rewrite Z.mod_small by lia. lia.
Qed.

Lemma insert_loop_spec fuel start key t k :
  vport_range start → 0 ≤ k → Z.of_nat fuel + k = PORT_RANGE → k < PORT_RANGE →
  next t = scan_port start k →
  (∀ j, 0 ≤ j < k → is_Some (reverse t !! scan_port start j)) →
  (∃ vp n, insert_loop (E := E) fuel start key t =
      Ok (Some vp, {| forward := <[key := vp]> (forward t);
                      reverse := <[vp := key]> (reverse t); next := n |}) ∧
    reverse t !! vp = None ∧ vport_range vp ∧ vport_range n) ∨
  (insert_loop (E := E) fuel start key t =
     Ok (None, {| forward := forward t; reverse := reverse t; next := start |}) ∧ nat_full t).
Proof.
  revert t k. induction fuel as [|fuel IH]; intros t k Hs Hk Hf Hlt Hn Hocc; [lia|].
  cbn [insert_loop]. rewrite Hn, scan_port_next. cbn [obind].
  destruct (reverse t !! scan_port start k) as [key'|] eqn:Hr.
  - assert (∀ j, 0 ≤ j < k + 1 → is_Some (reverse t !! scan_port start j)) as Hocc'.
    { intros j Hj. destruct (decide (j = k)) as [->|]; [by eexists|]. apply Hocc. lia. }
    destruct (Z.eqb_spec (scan_port start (k + 1)) start) as [He|He].
    + right. rewrite He. split; [done|].
      assert (k + 1 = PORT_RANGE) as Hk1 by (eapply scan_port_wrap; [done|lia|done]).
      intros vp Hvp. destruct (scan_port_covers start vp Hs Hvp) as (j & Hj & <-).
      apply Hocc'. lia.
    + assert (k + 1 ≠ PORT_RANGE).
      { intros Heq. apply He. unfold scan_port. rewrite Heq.
        rewrite <- Zplus_mod_idemp_r, Z.mod_same, Z.add_0_r by done.
        unfold vport_range in Hs. rewrite Z.mod_small by lia. lia. }
      apply (IH {| forward := forward t; reverse := reverse t; next := scan_port start (k + 1) |}
        (k + 1)); simpl; done || lia.
  - left. do 2 eexists. split; [done|]. auto using scan_port_range.
Qed.
End scan.

(** ** The abstract NAT: a finite assignment of ports to flows *)
Inductive nat_op := OpInsert (src real_dst : SocketAddr) | OpRemove (vport : Z).

Inductive nat_spec : gmap flow Z → nat_op → option Z → gmap flow Z → Prop :=
| spec_hit m src dst vp :
    m !! (src, dst) = Some vp → nat_spec m (OpInsert src dst) (Some vp) m
| spec_alloc m src dst vp :
    m !! (src, dst) = None → vport_range vp → (∀ key, m !! key ≠ Some vp) →
    nat_spec m (OpInsert src dst) (Some vp) (<[(src, dst) := vp]> m)
| spec_full m src dst :
    m !! (src, dst) = None → Z.of_nat (size m) = PORT_RANGE →
    nat_spec m (OpInsert src dst) None m
| spec_remove m key vp :
    m !! key = Some vp → nat_spec m (OpRemove vp) None (delete key m)
| spec_remove_free m vp :
    (∀ key, m !! key ≠ Some vp) → nat_spec m (OpRemove vp) None m.

Definition nat_exec {E} {B : Build} (t : NatTable) (op : nat_op)
    : Outcome E (option Z * NatTable) :=
  match op with
  | OpInsert src dst => NatTable_insert t src dst
  | OpRemove vp => Ok (None, remove_by_vport t vp)
  end.

Fixpoint nat_run {E} {B : Build} (t : NatTable) (ops : list nat_op) : Outcome E NatTable :=
  match ops with
  | [] => Ok t
  | op :: ops =>
      let! r := nat_exec t op in
      nat_run r.2 ops
  end.

Lemma forward_size_reverse t : nat_wf t → size (forward t) = size (dom (reverse t)).
Proof.
  intros Hwf.
  assert (list_to_set (map_to_list (forward t)).*2 = (dom (reverse t) : gset Z)) as <-.
  { apply set_eq. intros vp. rewrite elem_of_list_to_set, list_elem_of_fmap, elem_of_dom. split.
    - intros ([k v] & -> & Hk%elem_of_map_to_list). apply Hwf in Hk. by eexists.
    - intros [k Hk]. apply Hwf in Hk. exists (k, vp). by rewrite elem_of_map_to_list. }
  rewrite size_list_to_set; [by rewrite length_fmap, length_map_to_list|].
  apply NoDup_fmap_2_strong; [|apply NoDup_map_to_list].
  intros [k1 v1] [k2 v2] H1%elem_of_map_to_list H2%elem_of_map_to_list Hv. simpl in Hv. subst.
  apply Hwf in H1, H2. congruence.
Qed.

Lemma nat_full_size t : nat_wf t → nat_full t → Z.of_nat (size (forward t)) = PORT_RANGE.
Proof.
  intros Hwf Hfull. rewrite forward_size_reverse by done.
  assert (dom (reverse t) = (list_to_set (seqZ BASE_PORT PORT_RANGE) : gset Z)) as ->.
  { apply set_eq. intros vp. rewrite elem_of_list_to_set, elem_of_seqZ, elem_of_dom.
    fold (vport_range vp). split; [|apply Hfull]. intros [k Hk]. by eapply wf_range. }
  rewrite size_list_to_set by apply NoDup_seqZ. by rewrite length_seqZ, Z2Nat.id.
Qed.

(** The three outcomes of [insert]. *)
Lemma NatTable_insert_cases {E} {B : Build} t src dst :
  nat_wf t →
  ∃ r t', NatTable_insert (E := E) t src dst = Ok (r, t') ∧ nat_wf t' ∧
    match r with
    | Some vp =>
        (forward t !! (src, dst) = Some vp ∧ t' = t) ∨
        (forward t !! (src, dst) = None ∧ reverse t !! vp = None ∧ vport_range vp ∧
         forward t' = <[(src, dst) := vp]> (forward t) ∧
         reverse t' = <[vp := (src, dst)]> (reverse t))
    | None => forward t !! (src, dst) = None ∧ nat_full t ∧ t' = t
    end.
Proof.
  intros Hwf. unfold NatTable_insert.
  destruct (forward t !! (src, dst)) as [vp|] eqn:Hf; [naive_solver|].
  destruct (insert_loop_spec (E := E) SCAN_FUEL (next t) (src, dst) t 0)
    as [(vp & n & -> & Hr & Hvp & Hn)|[-> Hfull]]; [apply Hwf|done| |done| |lia|..].
  - unfold SCAN_FUEL. rewrite Z2Nat.id by done. lia.
  - rewrite scan_port_start; [done|apply Hwf].
  - do 2 eexists. split; [done|]. split; [by apply fresh_insert_wf|]. by right.
  - exists None, t. destruct t; naive_solver.
Qed.

(** C1. The NAT table refines the abstract port assignment: from a well-formed
    table every operation returns (no overflow in the [u16] arithmetic, the
    scan ends), keeps the table well formed (the two maps stay inverse), and
    does what the specification allows: [insert] repeats the port of a known
    flow, or takes a port in 10000..59999 that no flow has, and refuses only
    when 50000 flows are live; [remove_by_vport] frees exactly that flow. *)
Theorem NatTable_refines {E} {B : Build} (t : NatTable) (op : nat_op) (Hwf : nat_wf t) :
  ∃ r t', nat_exec (E := E) t op = Ok (r, t') ∧ nat_wf t' ∧
    nat_spec (forward t) op r (forward t').
Proof.
  destruct op as [src dst|vp]; simpl.
  - destruct (NatTable_insert_cases (E := E) t src dst Hwf) as (r & t' & -> & Hwf' & Hr).
    exists r, t'. split; [done|]. split; [done|].
    destruct r as [vp|]; [destruct Hr as [[Hf ->]|(Hf & Hr & Hvp & -> & _)]|destruct Hr as (Hf & Hfull & ->)].
    + by constructor.
    + constructor; [done..|]. intros key Hk. apply Hwf in Hk. congruence.
    + constructor; [done|]. by apply nat_full_size.
  - do 2 eexists. split; [done|]. split; [by apply remove_by_vport_wf|].
    unfold remove_by_vport. destruct (reverse t !! vp) as [key|] eqn:Hr; simpl.
    + constructor. by apply Hwf.
    + constructor. intros key Hk. apply Hwf in Hk. congruence.
Qed.

Definition flow1 : flow := (SockV4 [10; 42; 0; 2] 54321, SockV4 [8; 8; 8; 8] 443).

Lemma NatTable_refines_witness :
  ∃ r t', nat_exec (E := unit) (B := dev) NatTable_new (OpInsert flow1.1 flow1.2) = Ok (r, t') ∧
    nat_spec ∅ (OpInsert flow1.1 flow1.2) r (forward t').
Proof.
  destruct (@NatTable_refines unit dev NatTable_new (OpInsert flow1.1 flow1.2) NatTable_new_wf)
    as (r & t' & H1 & _ & H2).
  exists r, t'. split; [exact H1|exact H2].
Defined.

Lemma nat_run_wf {E} {B : Build} ops t :
  nat_wf t → ∃ t', nat_run (E := E) t ops = Ok t' ∧ nat_wf t'.
Proof.
  revert t. induction ops as [|[src dst|vp] ops IH]; intros t Hwf; simpl; [by exists t|..].
  - destruct (NatTable_insert_cases (E := E) t src dst Hwf) as (r & t' & -> & Hwf' & _).
    by apply IH.
  - by apply IH, remove_by_vport_wf.
Qed.

(** Any sequence of insertions and removals on a new table runs without a
    panic and ends in a table whose lookups are inverse to each other, so that
    no two flows share a virtual port, with every port in 10000..59999. *)
Theorem nat_run_bijective {E} {B : Build} (ops : list nat_op) :
  ∃ t, nat_run (E := E) NatTable_new ops = Ok t ∧
    (∀ src dst vp, lookup_forward t src dst = Some vp ↔ lookup_reverse t vp = Some (src, dst)) ∧
    (∀ src dst src' dst' vp, lookup_forward t src dst = Some vp →
       lookup_forward t src' dst' = Some vp → (src, dst) = (src', dst')) ∧
    (∀ src dst vp, lookup_forward t src dst = Some vp → 10000 ≤ vp ≤ 59999).
Proof.
  destruct (nat_run_wf (E := E) ops NatTable_new NatTable_new_wf) as (t & Hr & Hwf).
  exists t. split; [done|]. unfold lookup_forward, lookup_reverse. split_and!.
  - intros. apply Hwf.
  - intros src dst src' dst' vp H1%(wf_inverse _ Hwf) H2%(wf_inverse _ Hwf). congruence.
  - intros src dst vp H1%(wf_inverse _ Hwf). apply (wf_range _ Hwf) in H1.
    unfold vport_range, BASE_PORT, PORT_RANGE in H1. lia.
Qed.
