(* ===== verification/Io.v ===== *)
(** * Byte streams: std::io::ErrorKind and tokio's AsyncReadExt, AsyncWriteExt

    The protocol code is generic in the stream it runs on, as the source is
    ([R: AsyncReadExt + Unpin]).  The class [AsyncIo] has the operations the
    code calls; tokio implements them, outside the repository.
    [AsyncIoLaws] states what the code relies on: seen through [view], a
    stream behaves like a [Stream], the record of what the peer sends during
    the run and of what has been written so far.  [Stream] is itself an
    instance, so the laws can hold and the code can be run. *)

From Stdlib Require Import ZArith Lia.
From S2P Require Import Prelude Bytes.
Local Open Scope Z_scope.

Inductive IoErrorKind :=
| ConnectionRefusedKind | TimedOutKind | UnexpectedEofKind | WouldBlockKind
| UnsupportedKind | OtherKind (code : Z).

#[export] Instance IoErrorKind_eq_dec : EqDecision IoErrorKind.
Proof. solve_decision. Defined.

(** ** Effects: a stream threaded through fallible code *)
Definition IO (S E A : Type) : Type := S → Outcome E A * S.

Section monad.
Context {S E : Type}.

Definition iret {A} (a : A) : IO S E A := λ s, (Ok a, s).
Definition ithrow {A} (e : E) : IO S E A := λ s, (Err e, s).
Definition ilift {A} (m : Outcome E A) : IO S E A := λ s, (m, s).
Definition ibind {A B} (m : IO S E A) (k : A → IO S E B) : IO S E B := λ s,
  match m s with
  | (Ok a, s') => k a s'
  | (Err e, s') => (Err e, s')
  | (Panic, s') => (Panic, s')
  | (Diverge, s') => (Diverge, s')
  end.
Definition imap_err {F A} (f : E → F) (m : IO S E A) : IO S F A := λ s,
  let '(r, s') := m s in (map_err f r, s').
End monad.

(** The question-mark operator. *)
Notation "'let?' x ':=' m 'in' k" := (ibind m (λ x, k))
  (at level 10, x pattern, m at level 100, k at level 200,
   format "'[v' 'let?'  x  ':='  m  'in' '/' k ']'") : rust_scope.

(** ** The interface *)
Class AsyncIo (S : Type) := {
  (** [read_exact(&mut [0; n])] *)
  read_exact : nat → IO S IoErrorKind (list Z);
  (** [read(&mut buf)] with [buf.len() = n]: the bytes read *)
  io_read : nat → IO S IoErrorKind (list Z);
  (** [write_all] *)
  write_all : list Z → IO S IoErrorKind unit;
  (** [tokio::io::copy] from the first stream to the second *)
  io_copy : S → S → Outcome IoErrorKind Z * (S * S)
}.

(** [read_u8] and [read_u16] (big endian). *)
Definition read_u8 {S} `{AsyncIo S} : IO S IoErrorKind Z :=
  let? b := read_exact 1 in iret (b !!! 0%nat).
Definition read_u16 {S} `{AsyncIo S} : IO S IoErrorKind Z :=
  let? b := read_exact 2 in iret (be16 (b !!! 0%nat) (b !!! 1%nat)).

(** ** What a stream does during a run

    [rx] is what the peer sends, after which it closes ([rx_end = None]) or
    reading fails; [chunks] are the sizes in which [read] delivers it (at
    least one byte; all of it once the list is used up); [tx] is what has
    been written; [tx_room = Some (n, e)] when writing fails with [e] after
    [n] more bytes. *)
Record Stream := {
  rx : list Z; rx_end : option IoErrorKind; chunks : list nat;
  tx : list Z; tx_room : option (nat * IoErrorKind)
}.

Definition set_rx (l : list Z) (s : Stream) : Stream :=
  {| rx := l; rx_end := rx_end s; chunks := chunks s; tx := tx s; tx_room := tx_room s |}.

Definition end_error (s : Stream) : IoErrorKind := default UnexpectedEofKind (rx_end s).

Definition stream_read_exact (n : nat) : IO Stream IoErrorKind (list Z) := λ s,
  if (n <=? length (rx s))%nat then (Ok (take n (rx s)), set_rx (drop n (rx s)) s)
  else (Err (end_error s), set_rx [] s).

Definition chunk_size (n : nat) (s : Stream) : nat :=
  match chunks s with
  | [] => Nat.min n (length (rx s))
  | c :: _ => Nat.min (Nat.min n (length (rx s))) (Nat.max 1 c)
  end.

Definition stream_read (n : nat) : IO Stream IoErrorKind (list Z) := λ s,
  match n, rx s, rx_end s with
  | O, _, _ => (Ok [], s)
  | _, [], None => (Ok [], s)
  | _, [], Some e => (Err e, s)
  | _, l, _ =>
      let k := chunk_size n s in
      (Ok (take k l), {| rx := drop k l; rx_end := rx_end s; chunks := tail (chunks s);
                         tx := tx s; tx_room := tx_room s |})
  end.

Definition stream_write_all (buf : list Z) : IO Stream IoErrorKind unit := λ s,
  let wrote b room := {| rx := rx s; rx_end := rx_end s; chunks := chunks s;
                         tx := tx s ++ b; tx_room := room |} in
  match tx_room s with
  | None => (Ok tt, wrote buf None)
  | Some (n, e) =>
      if (length buf <=? n)%nat then (Ok tt, wrote buf (Some ((n - length buf)%nat, e)))
      else (Err e, wrote (take n buf) (Some (0%nat, e)))
  end.

Definition stream_copy (a b : Stream) : Outcome IoErrorKind Z * (Stream * Stream) :=
  let '(r, b') := stream_write_all (rx a) b in
  let a' := set_rx [] a in
  match r, rx_end a with
  | Ok _, None => (Ok (Z.of_nat (length (rx a))), (a', b'))
  | Ok _, Some e => (Err e, (a', b'))
  | Err e, _ => (Err e, (a', b'))
  | Panic, _ => (Panic, (a', b'))
  | Diverge, _ => (Diverge, (a', b'))
  end.

#[export] Instance Stream_AsyncIo : AsyncIo Stream := {|
  read_exact := stream_read_exact;
  io_read := stream_read;
  write_all := stream_write_all;
  io_copy := stream_copy
|}.

(** ** The laws *)
Class AsyncIoLaws (S : Type) `{AsyncIo S} := {
  view : S → Stream;
  read_exact_law n s : prod_map id view (read_exact n s) = stream_read_exact n (view s);
  io_read_law n s : prod_map id view (io_read n s) = stream_read n (view s);
  write_all_law l s : prod_map id view (write_all l s) = stream_write_all l (view s);
  (** only of copies on which nothing fails *)
  io_copy_law a b :
    rx_end (view a) = None → tx_room (view b) = None →
    prod_map id (prod_map view view) (io_copy a b) = stream_copy (view a) (view b)
}.

Lemma prod_map_id {A B} (p : A * B) : prod_map id id p = p.
Proof. by destruct p. Qed.

#[export] Instance Stream_laws : AsyncIoLaws Stream.
Proof.
  refine {| view := id |}; intros; try apply prod_map_id.
  change (prod_map id (prod_map id id) (stream_copy a b) = stream_copy a b).
  by destruct (stream_copy a b) as [? []].
Defined.

(** ** Simulation: generic code does on [S] what it does on the view *)
Section sim.
Context {S : Type} `{AsyncIoLaws S}.

Definition sim {E A} (m : IO S E A) (m' : IO Stream E A) : Prop :=
  ∀ s, prod_map id view (m s) = m' (view s).

Lemma sim_ret {E A} (a : A) : sim (E := E) (iret a) (iret a).
Proof. done. Qed.
Lemma sim_throw {E A} (e : E) : sim (A := A) (ithrow e) (ithrow e).
Proof. done. Qed.
Lemma sim_lift {E A} (m : Outcome E A) : sim (ilift m) (ilift m).
Proof. done. Qed.
Lemma sim_bind {E A B} (m : IO S E A) m' (k : A → IO S E B) k' :
  sim m m' → (∀ a, sim (k a) (k' a)) → sim (ibind m k) (ibind m' k').
Proof.
  intros Hm Hk s. unfold ibind. specialize (Hm s). rewrite <- Hm.
  destruct (m s) as [[a|e| |] s']; simpl; [apply Hk|done..].
Qed.
Lemma sim_map_err {E F A} (f : E → F) (m : IO S E A) m' :
  sim m m' → sim (imap_err f m) (imap_err f m').
Proof.
  intros Hm s. unfold imap_err. specialize (Hm s). rewrite <- Hm. by destruct (m s).
Qed.
Lemma sim_read_exact n : sim (read_exact n) (read_exact n).
Proof. intros s. apply read_exact_law. Qed.
Lemma sim_io_read n : sim (io_read n) (io_read n).
Proof. intros s. apply io_read_law. Qed.
Lemma sim_write_all l : sim (write_all l) (write_all l).
Proof. intros s. apply write_all_law. Qed.
Lemma sim_if {E A} (b : bool) (m1 m2 : IO S E A) m1' m2' :
  sim m1 m1' → sim m2 m2' → sim (if b then m1 else m2) (if b then m1' else m2').
Proof. by destruct b. Qed.

Lemma sim_run {E A} (m : IO S E A) m' s r t :
  sim m m' → m' (view s) = (r, t) → ∃ s', m s = (r, s') ∧ view s' = t.
Proof.
  intros Hm Hr. specialize (Hm s). rewrite Hr in Hm.
  destruct (m s) as [r' s']. simplify_eq/=. eauto.
Qed.
End sim.

#[export] Hint Resolve sim_ret sim_throw sim_lift sim_bind sim_map_err sim_read_exact
  sim_io_read sim_write_all sim_if : rust.
(** Code made of the interface's operations simulates itself. *)
Ltac sim := repeat first
  [ progress intros | apply sim_bind | apply sim_map_err | apply sim_ret | apply sim_throw
  | apply sim_lift | apply sim_read_exact | apply sim_io_read | apply sim_write_all | apply sim_if
  | solve [auto with rust] ].

Lemma sim_read_u8 {S} `{AsyncIoLaws S} : sim read_u8 read_u8.
Proof. unfold read_u8. sim. Qed.
Lemma sim_read_u16 {S} `{AsyncIoLaws S} : sim read_u16 read_u16.
Proof. unfold read_u16. sim. Qed.
#[export] Hint Resolve sim_read_u8 sim_read_u16 : rust.

(** ** Running code on a [Stream] *)

(** The stream whose peer sends [l], and which accepts every write. *)
Definition feeding (l : list Z) (s : Stream) : Prop := rx s = l ∧ tx_room s = None.

Definition mk (l : list Z) (s : Stream) (out : list Z) : Stream :=
  {| rx := l; rx_end := rx_end s; chunks := chunks s; tx := tx s ++ out; tx_room := None |}.

Lemma feeding_mk l s : feeding l s → s = mk l s [].
Proof. destruct s. intros [<- Hr]. unfold mk. simpl in *. by rewrite Hr, app_nil_r. Qed.

Lemma read_exact_mk n a l s out :
  length a = n → stream_read_exact n (mk (a ++ l) s out) = (Ok a, mk l s out).
Proof.
  intros <-. unfold stream_read_exact. cbn [rx mk]. rewrite length_app.
  destruct (Nat.leb_spec (length a) (length a + length l)); [|lia].
  by rewrite take_app_length, drop_app_length.
Qed.

Lemma read_u8_mk a l s out : read_u8 (mk (a :: l) s out) = (Ok a, mk l s out).
Proof.
  unfold read_u8, ibind. cbn [read_exact Stream_AsyncIo].
  by rewrite (read_exact_mk 1 [a] l s out eq_refl : stream_read_exact 1 (mk (a :: l) s out) = _).
Qed.

Lemma read_u16_mk a b l s out :
  read_u16 (mk (a :: b :: l) s out) = (Ok (be16 a b), mk l s out).
Proof.
  unfold read_u16, ibind. cbn [read_exact Stream_AsyncIo].
  by rewrite (read_exact_mk 2 [a; b] l s out eq_refl : stream_read_exact 2 (mk (a :: b :: l) s out) = _).
Qed.

Lemma write_all_mk l s out b :
  stream_write_all b (mk l s out) = (Ok tt, mk l s (out ++ b)).
Proof. unfold stream_write_all. cbn [mk tx_room]. by unfold mk; cbn; rewrite app_assoc. Qed.

Lemma ibind_step {S E A B} (m : IO S E A) (k : A → IO S E B) s a s' :
  m s = (Ok a, s') → ibind m k s = k a s'.
Proof. intros H. unfold ibind. by rewrite H. Qed.
Lemma ibind_err {S E A B} (m : IO S E A) (k : A → IO S E B) s e s' :
  m s = (Err e, s') → ibind m k s = (Err e, s').
Proof. intros H. unfold ibind. by rewrite H. Qed.
Lemma imap_err_ok {S E F A} (f : E → F) (m : IO S E A) s a s' :
  m s = (Ok a, s') → imap_err f m s = (Ok a, s').
Proof. intros H. unfold imap_err. by rewrite H. Qed.

(** Runs the next operation of a goal [(let? x := m in k) (mk ..) = _]. *)
Ltac io_step := erewrite ibind_step; cycle 1;
  [ try apply imap_err_ok;
    first [ apply read_u8_mk | apply read_u16_mk | apply write_all_mk
          | apply read_exact_mk; try done; len | reflexivity ]
  | ].

(** Same stream, but for what is left to read. *)
Definition same_but_rx (s s' : Stream) : Prop :=
  rx_end s' = rx_end s ∧ tx s' = tx s ∧ tx_room s' = tx_room s.

Lemma stream_read_some n s :
  (0 < n)%nat → rx s ≠ [] →
  ∃ k s', stream_read n s = (Ok (take k (rx s)), s') ∧ (1 ≤ k ≤ n)%nat ∧
    (k ≤ length (rx s))%nat ∧ rx s' = drop k (rx s) ∧ same_but_rx s s'.
Proof.
  intros Hn Hr. unfold stream_read. destruct n as [|n]; [lia|].
  destruct (rx s) as [|b l] eqn:Hl; [done|].
  exists (chunk_size (S n) s). eexists. split; [reflexivity|].
  unfold chunk_size. rewrite Hl. simpl length.
  split; [destruct (chunks s); lia|]. split; [destruct (chunks s); lia|]. by split.
Qed.

Lemma stream_read_returns n s :
  ∃ r s', stream_read n s = (r, s') ∧ returned r.
Proof. unfold stream_read. repeat case_match; do 2 eexists; split; done. Qed.

Lemma stream_write_returns l s :
  ∃ r s', stream_write_all l s = (r, s') ∧ returned r.
Proof. unfold stream_write_all. repeat case_match; do 2 eexists; split; done. Qed.

(** ** Code that comes back *)
Definition io_returns {S E A} (m : IO S E A) : Prop := ∀ s, returned (m s).1.

Lemma io_returns_bind {S E A B} (m : IO S E A) (k : A → IO S E B) :
  io_returns m → (∀ a, io_returns (k a)) → io_returns (ibind m k).
Proof.
  intros Hm Hk s. unfold ibind. specialize (Hm s). destruct (m s) as [[] s']; try done. apply Hk.
Qed.
Lemma io_returns_map_err {S E F A} (f : E → F) (m : IO S E A) :
  io_returns m → io_returns (imap_err f m).
Proof. intros Hm s. unfold imap_err. specialize (Hm s). by destruct (m s) as [[] s']. Qed.
Lemma io_returns_ret {S E A} (a : A) : io_returns (S := S) (E := E) (iret a).
Proof. done. Qed.
Lemma io_returns_throw {S E A} (e : E) : io_returns (S := S) (A := A) (ithrow e).
Proof. done. Qed.
Lemma io_returns_lift {S E A} (m : Outcome E A) : returned m → io_returns (S := S) (ilift m).
Proof. by intros ? ?. Qed.

Section returns.
Context {S : Type} `{AsyncIoLaws S}.
Lemma io_returns_sim {E A} (m : IO S E A) m' : sim m m' → io_returns m' → io_returns m.
Proof.
  intros Hm Hr s. specialize (Hm s). specialize (Hr (view s)). rewrite <- Hm in Hr.
  by destruct (m s).
Qed.
Lemma io_returns_write_all l : io_returns (S := S) (write_all l).
Proof.
  eapply io_returns_sim; [apply sim_write_all|]. intros s. cbn [write_all Stream_AsyncIo].
  by destruct (stream_write_returns l s) as (r & s' & -> & Hr).
Qed.
Lemma io_returns_read n : io_returns (S := S) (io_read n).
Proof.
  eapply io_returns_sim; [apply sim_io_read|]. intros s. cbn [io_read Stream_AsyncIo].
  by destruct (stream_read_returns n s) as (r & s' & -> & Hr).
Qed.
Lemma io_returns_read_exact n : io_returns (S := S) (read_exact n).
Proof.
  eapply io_returns_sim; [apply sim_read_exact|]. intros s. cbn. unfold stream_read_exact.
  by case_match.
Qed.
End returns.
#[export] Hint Resolve io_returns_bind io_returns_map_err io_returns_ret io_returns_throw
  io_returns_lift io_returns_write_all io_returns_read io_returns_read_exact : rust.
