(* ===== verification/Session.v ===== *)
(** * gravital-engine/src/session.rs: the session automaton

    The transition function, the [Session] object with its listeners, the
    reconnection backoff, and the interleavings of concurrent [dispatch]
    calls ([dispatch] reads the state under one lock acquisition and writes it
    under another).  A [String] is its UTF-8 bytes. *)

From Stdlib Require Import ZArith Lia.
From stdpp Require Import relations.
From S2P Require Import Prelude Bytes Net Io.
Local Open Scope Z_scope.

(** ** error.rs *)
Inductive EngineError :=
| AlreadyInitialized
| NotInitialized
| EngineConfigInvalid (msg : list Z)
| InvalidFd
| InvalidTransition
| EngineIo (e : IoErrorKind)
| EnginePanic (msg : list Z).

(** ** State and events *)
Inductive SessionMode := Client | Server.

Inductive StopReason := StopUserRequest | StopFatalError | StopShutdown.

Inductive FailureKind :=
| PermissionDenied | ConfigInvalid | ProxyUnreachable | DnsResolveFailed
| TunOpenFailed | EngineCrashed | UpstreamVpnDown | Unknown.

Definition is_recoverable (k : FailureKind) : bool :=
  match k with ProxyUnreachable | DnsResolveFailed => true | _ => false end.

Record PeerInfo := { proxy_addr : SocketAddr }.

Inductive SessionState :=
| Idle
| Preparing (mode : SessionMode)
| Connecting (mode : SessionMode) (attempt : Z)
| Connected (mode : SessionMode) (peer : PeerInfo)
| Reconnecting (mode : SessionMode) (attempt : Z) (last_error : option (list Z))
| Stopping (mode : SessionMode) (reason : StopReason)
| Failed (mode : SessionMode) (error : FailureKind) (recoverable : bool).

#[export] Instance SessionMode_eq_dec : EqDecision SessionMode.
Proof. solve_decision. Defined.
#[export] Instance StopReason_eq_dec : EqDecision StopReason.
Proof. solve_decision. Defined.
#[export] Instance FailureKind_eq_dec : EqDecision FailureKind.
Proof. solve_decision. Defined.
#[export] Instance PeerInfo_eq_dec : EqDecision PeerInfo.
Proof. solve_decision. Defined.
#[export] Instance SessionState_eq_dec : EqDecision SessionState.
Proof. solve_decision. Defined.

Definition state_mode (s : SessionState) : option SessionMode :=
  match s with
  | Idle => None
  | Preparing m | Connecting m _ | Connected m _ | Reconnecting m _ _
  | Stopping m _ | Failed m _ _ => Some m
  end.

Definition is_active (s : SessionState) : bool :=
  match s with Connected _ _ => true | _ => false end.

Inductive SessionEvent :=
| UserStart (mode : SessionMode)
| UserStop
| UserAcknowledge
| EnginePrepared
| EngineReady
| EngineStopped
| ProxyConnected (peer : PeerInfo)
| ProxyDisconnected (msg : option (list Z))
| NetworkLost
| NetworkRestored
| FatalError (kind : FailureKind)
| Shutdown.

(** ** The transition function *)
Definition transition (s : SessionState) (e : SessionEvent) : Outcome EngineError SessionState :=
  match e with
  | FatalError kind =>
      let mode := default Client (state_mode s) in
      Ok (Failed mode kind (is_recoverable kind))
  | Shutdown =>
      let mode := default Client (state_mode s) in
      Ok (Stopping mode StopShutdown)
  | _ =>
      match s, e with
      | Idle, UserStart mode => Ok (Preparing mode)
      | Preparing mode, EngineReady => Ok (Connecting mode 1)
      | Preparing mode, EnginePrepared => Ok (Preparing mode)
      | Connecting mode _, ProxyConnected peer => Ok (Connected mode peer)
      | Connecting mode attempt, (NetworkLost | ProxyDisconnected _) =>
          Ok (Reconnecting mode attempt None)
      | Connected mode _, (NetworkLost | ProxyDisconnected _) => Ok (Reconnecting mode 1 None)
      | Connected mode _, UserStop => Ok (Stopping mode StopUserRequest)
      | Reconnecting mode _ _, ProxyConnected peer => Ok (Connected mode peer)
      | Reconnecting mode _ _, UserStop => Ok (Stopping mode StopUserRequest)
      | Stopping _ _, EngineStopped => Ok Idle
      | Failed _ _ _, UserAcknowledge => Ok Idle
      | _, _ => Err InvalidTransition
      end
  end.

(** ** The session object

    A listener is a callback; what the model keeps of a call is which
    listener ran and the state it was given. *)
Record Session (L : Type) := { state : SessionState; listeners : list L }.
Arguments state {L} s.
Arguments listeners {L} s.

Section object.
Context {L : Type}.

Definition Session_new : Session L := {| state := Idle; listeners := [] |}.

Definition force_idle (s : Session L) : Session L :=
  {| state := Idle; listeners := listeners s |}.

Definition add_listener (s : Session L) (f : L) : Session L :=
  {| state := state s; listeners := listeners s ++ [f] |}.

(** The result of the call, the session it leaves and the listener calls. *)
Definition dispatch (s : Session L) (event : SessionEvent)
    : Outcome EngineError unit * Session L * list (L * SessionState) :=
  let current := state s in
  match transition current event with
  | Ok nxt =>
      if decide (nxt = current) then (Ok tt, s, [])
      else (Ok tt, {| state := nxt; listeners := listeners s |},
            (λ f, (f, nxt)) <$> listeners s)
  | Err e => (Err e, s, [])
  | Panic => (Panic, s, [])
  | Diverge => (Diverge, s, [])
  end.
End object.

(** ** Backoff *)
(** In milliseconds. *)
Definition backoff_delay (attempt : Z) : Z :=
  let ms := saturating_mul64 250 (saturating_pow64 2 (saturating_sub32 attempt 1)) in
  Z.min ms 30000.

(** ** The documented automaton

    The rows of the table of valid transitions in
    docs/02-architecture/05-session-state-machine.md. *)
Inductive doc_row : SessionState → SessionEvent → SessionState → Prop :=
| row_start m : doc_row Idle (UserStart m) (Preparing m)
| row_ready m : doc_row (Preparing m) EngineReady (Connecting m 1)
| row_connected m n p : doc_row (Connecting m n) (ProxyConnected p) (Connected m p)
| row_connecting_lost m n : doc_row (Connecting m n) NetworkLost (Reconnecting m n None)
| row_lost m p : doc_row (Connected m p) NetworkLost (Reconnecting m 1 None)
| row_stop m p : doc_row (Connected m p) UserStop (Stopping m StopUserRequest)
| row_reconnected m n l p : doc_row (Reconnecting m n l) (ProxyConnected p) (Connected m p)
| row_abort m n l : doc_row (Reconnecting m n l) UserStop (Stopping m StopUserRequest)
| row_stopped m r : doc_row (Stopping m r) EngineStopped Idle
| row_ack m k r : doc_row (Failed m k r) UserAcknowledge Idle
| row_fatal s k :
    doc_row s (FatalError k) (Failed (default Client (state_mode s)) k (is_recoverable k))
| row_shutdown s : doc_row s Shutdown (Stopping (default Client (state_mode s)) StopShutdown).

(** What the code accepts besides. *)
Inductive extra_row : SessionState → SessionEvent → SessionState → Prop :=
| extra_prepared m : extra_row (Preparing m) EnginePrepared (Preparing m)
| extra_connecting m n x :
    extra_row (Connecting m n) (ProxyDisconnected x) (Reconnecting m n None)
| extra_connected m p x :
    extra_row (Connected m p) (ProxyDisconnected x) (Reconnecting m 1 None).

#[local] Hint Constructors doc_row extra_row : core.


(** ** Runs *)

(** A sequence of calls whose results are dropped ([let _ = dispatch(..)]). *)
Fixpoint dispatch_all {L} (s : Session L) (es : list SessionEvent)
    : Session L * list (L * SessionState) :=
  match es with
  | [] => (s, [])
  | e :: es =>
      let '(_, s, calls) := dispatch s e in
      let '(s, calls') := dispatch_all s es in
      (s, calls ++ calls')
  end.

(** The state after the events, without the listeners. *)
Definition step_state (s : SessionState) (e : SessionEvent) : SessionState :=
  match transition s e with Ok s' => s' | _ => s end.
Definition run_states (s : SessionState) (es : list SessionEvent) : SessionState :=
  foldl step_state s es.

Lemma dispatch_state {L} (s : Session L) e :
  state (dispatch s e).1.2 = step_state (state s) e ∧
  listeners (dispatch s e).1.2 = listeners s ∧
  (dispatch s e).2 =
    (if decide (step_state (state s) e = state s) then []
     else (λ f, (f, step_state (state s) e)) <$> listeners s).
Proof.
  unfold dispatch, step_state. destruct (transition (state s) e) as [s'| | |]; simpl;
    rewrite ?decide_True by done; try done.
  case_decide as Hd; simpl; [by rewrite Hd|done].
Qed.

Lemma dispatch_all_state {L} (s : Session L) es :
  state (dispatch_all s es).1 = run_states (state s) es.
Proof.
  revert s. induction es as [|e es IH]; intros s; simpl; [done|].
  destruct (dispatch_state s e) as [Hs _]. destruct (dispatch s e) as [[? s'] calls].
  simpl in Hs. specialize (IH s'). destruct (dispatch_all s' es) as [s'' calls'].
  simpl in *. by rewrite IH, Hs.
Qed.

(** The states that a running session goes through carry the mode it was
    started in; [Connected] carries the peer of the event that led to it. *)
Definition started (h : list SessionEvent) (s : SessionState) : Prop :=
  match s with
  | Preparing m | Connecting m _ | Reconnecting m _ _ => UserStart m ∈ h
  | Connected m p =>
      ∃ h1 h2, h = h1 ++ ProxyConnected p :: h2 ∧ UserStart m ∈ h1 ∧
        Forall (λ e, transition (Connected m p) e = Err InvalidTransition) h2
  | _ => True
  end.

Lemma started_step h s e : started h s → started (h ++ [e]) (step_state s e).
Proof.
  intros H. unfold step_state.
  destruct (transition s e) as [s'|err| |] eqn:Ht.
  - destruct s, e; simplify_eq/=; try done; try (apply elem_of_app; set_solver).
    all: try (destruct H as (h1 & h2 & -> & Hin & _); set_solver).
    all: exists h, []; done.
  - destruct s; simpl in *; try (apply elem_of_app; by left); try done.
    destruct H as (h1 & h2 & -> & Hin & Hrej). exists h1, (h2 ++ [e]).
    rewrite <- app_assoc. split; [done|]. split; [done|].
    apply Forall_app. split; [done|]. constructor; [|done]. by destruct e; simplify_eq/=.
  - by destruct s, e.
  - by destruct s, e.
Qed.

Lemma started_run h s es : started h s → started (h ++ es) (run_states s es).
Proof.
  revert h s. induction es as [|e es IH]; intros h s H; simpl; [by rewrite app_nil_r|].
  rewrite cons_middle, app_assoc. by apply IH, started_step.
Qed.

(** No connection out of nowhere: when a new session, whatever events it
    is given, is Connected in mode [m] to peer [p], then a ProxyConnected for
    [p] came after a UserStart in mode [m], and every later event was rejected. *)
Theorem connected_history {L} (es : list SessionEvent) (m : SessionMode) (p : PeerInfo)
    (Hc : state (dispatch_all (Session_new (L := L)) es).1 = Connected m p) :
  ∃ es1 es2, es = es1 ++ ProxyConnected p :: es2 ∧ UserStart m ∈ es1 ∧
    Forall (λ e, transition (Connected m p) e = Err InvalidTransition) es2.
Proof.
  rewrite dispatch_all_state in Hc.
  pose proof (started_run [] Idle es I) as H. simpl in Hc, H. by rewrite Hc in H.
Qed.

Lemma connected_history_witness :
  let p := {| proxy_addr := SockV4 [127; 0; 0; 1] 1080 |} in
  ∃ es1 es2, [UserStart Client; EngineReady; ProxyConnected p; EngineStopped]
      = es1 ++ ProxyConnected p :: es2 ∧ UserStart Client ∈ es1 ∧
    Forall (λ e, transition (Connected Client p) e = Err InvalidTransition) es2.
Proof. apply (@connected_history unit). reflexivity. Defined.

(** ** Interleaved dispatches

    [dispatch] copies the state under a read lock, computes the transition
    with no lock held, and stores the result under a write lock; [force_idle]
    stores under a write lock.  Each thread runs one call. *)
Inductive pc :=
| PStart (e : SessionEvent)
| PRead (current : SessionState) (e : SessionEvent)
| PForceIdle
| PDone (r : Outcome EngineError unit).

Inductive dstep : SessionState * list pc → SessionState * list pc → Prop :=
| dstep_read s ts i e :
    ts !! i = Some (PStart e) → dstep (s, ts) (s, <[i := PRead s e]> ts)
| dstep_reject s ts i cur e x :
    ts !! i = Some (PRead cur e) → transition cur e = Err x →
    dstep (s, ts) (s, <[i := PDone (Err x)]> ts)
| dstep_same s ts i cur e :
    ts !! i = Some (PRead cur e) → transition cur e = Ok cur →
    dstep (s, ts) (s, <[i := PDone (Ok tt)]> ts)
| dstep_write s ts i cur e nxt :
    ts !! i = Some (PRead cur e) → transition cur e = Ok nxt → nxt ≠ cur →
    dstep (s, ts) (nxt, <[i := PDone (Ok tt)]> ts)
| dstep_force s ts i :
    ts !! i = Some PForceIdle → dstep (s, ts) (Idle, <[i := PDone (Ok tt)]> ts).

(** What holds of every state whatever the interleaving: the attempt counter
    never leaves 1, no error message is kept, and the recoverable flag is the
    one of the failure. *)
Definition state_inv (s : SessionState) : Prop :=
  match s with
  | Connecting _ n => n = 1
  | Reconnecting _ n le => n = 1 ∧ le = None
  | Failed _ k r => r = is_recoverable k
  | _ => True
  end.

Definition pc_inv (t : pc) : Prop :=
  match t with PRead cur _ => state_inv cur | _ => True end.

Lemma transition_inv s e s' : state_inv s → transition s e = Ok s' → state_inv s'.
Proof. destruct s, e; intros; simplify_eq/=; done. Qed.

Lemma dstep_inv c c' :
  dstep c c' → state_inv c.1 ∧ Forall pc_inv c.2 → state_inv c'.1 ∧ Forall pc_inv c'.2.
Proof.
  intros Hstep [Hs Hts]. destruct Hstep as [s ts i e Hi|s ts i cur e x Hi|s ts i cur e Hi
    |s ts i cur e nxt Hi Ht Hn|s ts i Hi]; simpl in *;
    (split; [|by apply Forall_insert]); try done.
  pose proof (Forall_lookup_1 _ _ _ _ Hts Hi) as Hcur. by eapply transition_inv.
Qed.



(** C35. [dispatch] is not atomic: when a connected session gets UserStop and
    a fatal error from two threads, there is an interleaving in which both
    calls return Ok and the session ends Stopping with the failure forgotten,
    while both sequential orders end in Failed. *)
Theorem dispatch_race (m : SessionMode) (p : PeerInfo) (k : FailureKind) :
  rtc dstep (Connected m p, [PStart UserStop; PStart (FatalError k)])
            (Stopping m StopUserRequest, [PDone (Ok tt); PDone (Ok tt)]) ∧
  run_states (Connected m p) [UserStop; FatalError k] = Failed m k (is_recoverable k) ∧
  run_states (Connected m p) [FatalError k; UserStop] = Failed m k (is_recoverable k).
Proof.
  split; [|done].
  eapply rtc_l; [by apply (dstep_read _ _ 0 UserStop)|].
  eapply rtc_l; [by apply (dstep_read _ _ 1 (FatalError k))|].
  eapply rtc_l; [by apply (dstep_write _ _ 1 (Connected m p) (FatalError k)
    (Failed m k (is_recoverable k)))|].
  eapply rtc_l; [by apply (dstep_write _ _ 0 (Connected m p) UserStop
    (Stopping m StopUserRequest))|].
  apply rtc_refl.
Qed.

(** ** Liveness and backoff *)

(** A session can always be brought back to Idle, whatever state it is
    in: Shutdown followed by EngineStopped, and each of the two calls tells
    every listener the new state, in registration order. *)
Theorem shutdown_reaches_idle {L} (s : Session L) :
  let '(s', calls) := dispatch_all s [Shutdown; EngineStopped] in
  state s' = Idle ∧ listeners s' = listeners s ∧
  ∃ c, calls = c ++ ((λ f, (f, Idle)) <$> listeners s) ∧
    (c = [] ∨ ∃ m, c = (λ f, (f, Stopping m StopShutdown)) <$> listeners s).
Proof.
  destruct s as [st ls]. unfold dispatch_all, dispatch.
  cbn [state listeners transition].
  case_decide as Hd; cbn [state listeners transition].
  - destruct st as [| | | | |m r|]; try discriminate Hd.
    cbn. split; [done|]. split; [done|]. exists []. rewrite app_nil_r. by eauto.
  - cbn. split; [done|]. split; [done|]. rewrite app_nil_r. eauto.
Qed.

(** The backoff: 250 ms doubled per attempt, capped at 30 s, without
    overflow for every [u32] attempt (attempt 0 counts as 1); so it never
    decreases, stays within 250..30000 and is 30 s from the eighth attempt
    on. *)
Theorem backoff_delay_spec (attempt : Z) (Ha : u32 attempt) :
  backoff_delay attempt = Z.min (250 * 2 ^ (Z.max attempt 1 - 1)) 30000 ∧
  250 ≤ backoff_delay attempt ≤ 30000 ∧
  backoff_delay attempt ≤ backoff_delay (attempt + 1) ∧
  (8 ≤ attempt → backoff_delay attempt = 30000).
Proof.
  assert (∀ a, 0 ≤ a → backoff_delay a = Z.min (250 * 2 ^ (Z.max a 1 - 1)) 30000) as Hf.
  { intros a H. unfold backoff_delay, saturating_mul64, saturating_pow64, saturating_sub32.
    replace (Z.max (a - 1) 0) with (Z.max a 1 - 1) by lia.
    pose proof (Z.pow_pos_nonneg 2 (Z.max a 1 - 1)). lia. }
  destruct Ha as [H0 _]. rewrite !Hf by lia.
  pose proof (Z.pow_pos_nonneg 2 (Z.max attempt 1 - 1)).
  pose proof (Z.pow_le_mono_r 2 (Z.max attempt 1 - 1) (Z.max (attempt + 1) 1 - 1)).
  split; [done|]. split; [lia|]. split; [lia|]. intros H8.
  pose proof (Z.pow_le_mono_r 2 7 (Z.max attempt 1 - 1)). lia.
Qed.

Lemma backoff_delay_spec_witness :
  backoff_delay 3 = 1000 ∧ backoff_delay 10 = 30000.
Proof.
  destruct (backoff_delay_spec 3 ltac:(split; lia)) as [H3 _].
  destruct (backoff_delay_spec 10 ltac:(split; lia)) as (_ & _ & _ & H10).
  split; [exact H3|apply H10; lia].
Defined.
