(* ===== verification/UdpGw.v ===== *)
(** * gravital-udpgw: UDP over TCP framing and the association table

    Models [frame.rs], [error.rs] and [mux.rs]. *)

From Stdlib Require Import ZArith Lia.
From stdpp Require Import gmap.
From S2P Require Import Prelude Bytes Net Io.
Local Open Scope Z_scope.

Inductive UdpGwError :=
| UdpGwIo (e : IoErrorKind)
| FrameTooLarge (n : nat)
| UdpGwInvalidVersion (v : Z)
| UdpGwTruncated
| UdpGwClosed.

Definition UDPGW_VERSION : Z := 1.

(** [bitflags]: IPV6 = 0x01, KEEPALIVE = 0x02. *)
Definition UDPGW_IPV6 : Z := 0x01.
Definition UDPGW_KEEPALIVE : Z := 0x02.
Definition UdpGwFlags_from_bits_truncate (b : Z) : Z := Z.land b (Z.lor UDPGW_IPV6 UDPGW_KEEPALIVE).

Record UdpGwFrame := {
  client_id : Z;
  flags : Z;
  remote_addr : SocketAddr;
  payload : list Z;
}.

Definition encode (f : UdpGwFrame) : list Z :=
  let buf := [UDPGW_VERSION] ++ [flags f] ++ to_be32 (client_id f) in
  let buf := buf ++
    match SocketAddr_ip (remote_addr f) with
    | IpV4 ip => [0x01] ++ ip
    | IpV6 ip => [0x04] ++ ip
    end in
  let buf := buf ++ to_be16 (SocketAddr_port (remote_addr f)) in
  let buf := buf ++ to_be16 (cast 16 (Z.of_nat (length (payload f)))) in
  buf ++ payload f.

Definition decode (data : list Z) : Outcome UdpGwError UdpGwFrame :=
  if (length data =? 0)%nat then Err UdpGwTruncated else
  let! b0 := idx data 0 in
  if negb (b0 =? UDPGW_VERSION) then Err (UdpGwInvalidVersion b0) else
  if (length data <? 8)%nat then Err UdpGwTruncated else
  let! b1 := idx data 1 in
  let fl := UdpGwFlags_from_bits_truncate b1 in
  let! b2 := idx data 2 in let! b3 := idx data 3 in
  let! b4 := idx data 4 in let! b5 := idx data 5 in
  let cid := be32 b2 b3 b4 b5 in
  let! addr_type := idx data 6 in
  let offset := 7%nat in
  let! (ip, offset) :=
    match addr_type with
    | 0x01 =>
        if (length data <? offset + 4)%nat then Err UdpGwTruncated else
        let! a := idx data offset in let! b := idx data (offset + 1) in
        let! c := idx data (offset + 2) in let! d := idx data (offset + 3) in
        Ok (IpV4 [a; b; c; d], (offset + 4)%nat)
    | 0x04 =>
        if (length data <? offset + 16)%nat then Err UdpGwTruncated else
        let! s := slice data offset (offset + 16) in
        let! b := copy_from_slice (replicate 16 0) 0 16 s in
        Ok (IpV6 b, (offset + 16)%nat)
    | _ => Err UdpGwTruncated
    end in
  if (length data <? offset + 4)%nat then Err UdpGwTruncated else
  let! p0 := idx data offset in let! p1 := idx data (offset + 1) in
  let port := be16 p0 p1 in
  let! l0 := idx data (offset + 2) in let! l1 := idx data (offset + 3) in
  let payload_len := Z.to_nat (be16 l0 l1) in
  let offset := (offset + 4)%nat in
  if (length data <? offset + payload_len)%nat then Err UdpGwTruncated else
  let! p := slice data offset (offset + payload_len) in
  Ok {| client_id := cid; flags := fl; remote_addr := SocketAddr_new ip port; payload := p |}.

(** ** Frames as values of the Rust type *)
Record frame_ok (f : UdpGwFrame) : Prop := {
  frame_id : u32 (client_id f);
  frame_flags : Z.land (flags f) 3 = flags f;
  frame_addr : sockaddr_ok (remote_addr f);
  frame_payload : is_bytes (payload f);
}.

(** The frame that the length field can describe: the flow information and
    the scope of a [SocketAddrV6] are not on the wire, nor is a payload beyond
    its length modulo 2^16. *)
Definition wire_frame (f : UdpGwFrame) : UdpGwFrame :=
  {| client_id := client_id f; flags := flags f;
     remote_addr := SocketAddr_new (SocketAddr_ip (remote_addr f)) (SocketAddr_port (remote_addr f));
     payload := take (Z.to_nat (cast 16 (Z.of_nat (length (payload f))))) (payload f) |}.

(** [decode] on a buffer long enough for its address type and length field. *)
Lemma decode_v4 data n :
  (15 + n ≤ length data)%nat → data !!! 0%nat = 1 → data !!! 6%nat = 1 →
  n = Z.to_nat (be16 (data !!! 13%nat) (data !!! 14%nat)) →
  decode data = Ok {|
    client_id := be32 (data !!! 2%nat) (data !!! 3%nat) (data !!! 4%nat) (data !!! 5%nat);
    flags := UdpGwFlags_from_bits_truncate (data !!! 1%nat);
    remote_addr := SockV4 [data !!! 7%nat; data !!! 8%nat; data !!! 9%nat; data !!! 10%nat]
                     (be16 (data !!! 11%nat) (data !!! 12%nat));
    payload := take n (drop 15 data) |}.
Proof.
  intros Hl H0 H6 Hn. unfold decode. run_guards. rewrite H0.
  cbn [Z.eqb negb UDPGW_VERSION Pos.eqb]. run_guards. rewrite H6. run_guards.
  cbn [obind Init.Nat.add]. run_guards. rewrite <- Hn. run_guards. cbn [Init.Nat.add]. do 2 f_equal. f_equal. lia.
Qed.

Lemma decode_v6 data n :
  (27 + n ≤ length data)%nat → data !!! 0%nat = 1 → data !!! 6%nat = 4 →
  n = Z.to_nat (be16 (data !!! 25%nat) (data !!! 26%nat)) →
  decode data = Ok {|
    client_id := be32 (data !!! 2%nat) (data !!! 3%nat) (data !!! 4%nat) (data !!! 5%nat);
    flags := UdpGwFlags_from_bits_truncate (data !!! 1%nat);
    remote_addr := SockV6 (take 16 (drop 7 data)) (be16 (data !!! 23%nat) (data !!! 24%nat)) 0 0;
    payload := take n (drop 27 data) |}.
Proof.
  intros Hl H0 H6 Hn. unfold decode. run_guards. rewrite H0.
  cbn [Z.eqb negb UDPGW_VERSION Pos.eqb]. run_guards. rewrite H6. run_guards.
  cbn [obind Init.Nat.add]. run_guards. rewrite <- Hn. run_guards. cbn [Init.Nat.add]. do 2 f_equal.
  - cbn [SocketAddr_new]. f_equal. rewrite inserts_split by len.
    rewrite (drop_ge (replicate 16 0)) by len. cbn [take app]. by rewrite app_nil_r.
  - f_equal. lia.
Qed.

(** The two shapes of an encoded frame. *)
Lemma encode_v4 cid fl a b c d port p :
  encode {| client_id := cid; flags := fl; remote_addr := SockV4 [a; b; c; d] port; payload := p |} =
  [1; fl] ++ to_be32 cid ++ [1; a; b; c; d] ++ to_be16 port ++
    to_be16 (cast 16 (Z.of_nat (length p))) ++ p.
Proof. done. Qed.

Lemma encode_v6 cid fl o port fi sc p :
  encode {| client_id := cid; flags := fl; remote_addr := SockV6 o port fi sc; payload := p |} =
  ([1; fl] ++ to_be32 cid ++ [4]) ++ o ++ to_be16 port ++
    to_be16 (cast 16 (Z.of_nat (length p))) ++ p.
Proof. unfold encode. simpl. by rewrite <- !app_assoc. Qed.

Lemma cast_len_le n : (Z.to_nat (cast 16 (Z.of_nat n)) ≤ n)%nat.
Proof.
  unfold cast. pose proof (Z.mod_le (Z.of_nat n) (2 ^ 16)). lia.
Qed.

Lemma len_field n :
  Z.to_nat (be16 ((cast 16 n / 256) mod 256) (cast 16 n mod 256)) = Z.to_nat (cast 16 n).
Proof.
  pose proof (be16_to_be16 (cast 16 n) (cast_uint 16 n ltac:(lia))) as H.
  cbn in H. by rewrite H.
Qed.

Lemma be16_port p : u16 p → be16 ((p / 256) mod 256) (p mod 256) = p.
Proof. exact (be16_to_be16 p). Qed.

Lemma be32_id c : u32 c →
  be32 ((c / 16777216) mod 256) ((c / 65536) mod 256) ((c / 256) mod 256) (c mod 256) = c.
Proof. exact (be32_to_be32 c). Qed.

(** Case analysis on the address type byte. *)
Lemma addr_type_cases {A} (t : Z) (x y z : A) :
  match t with 0x01 => x | 0x04 => y | _ => z end =
  if decide (t = 1) then x else if decide (t = 4) then y else z.
Proof.
  repeat case_decide; subst; try done.
  destruct t as [|t|t]; [done| |done]. do 3 (try destruct t as [t|t|]); done.
Qed.

Lemma decode_returned data : returned (decode data).
Proof.
  unfold decode. destruct (Nat.eqb_spec (length data) 0); [done|]. run_bytes.
  destruct (negb _); [done|].
  destruct (Nat.ltb_spec (length data) 8); [done|]. run_bytes. rewrite addr_type_cases.
  repeat case_decide; [| |done].
  - destruct (Nat.ltb_spec (length data) (7 + 4)); [done|]. run_bytes.
    destruct (Nat.ltb_spec (length data) (7 + 4 + 4)); [done|]. run_bytes.
    split_guard; [done|]. by run_bytes.
  - destruct (Nat.ltb_spec (length data) (7 + 16)); [done|]. run_bytes.
    destruct (Nat.ltb_spec (length data) (7 + 16 + 4)); [done|]. run_bytes.
    split_guard; [done|]. by run_bytes.
Qed.

(** A buffer that ends before the frame it announces. *)
Lemma decode_short data alen at_ :
  (0 < length data)%nat → data !!! 0%nat = 1 →
  ((7 ≤ length data)%nat → data !!! 6%nat = at_) →
  (at_ = 1 ∧ alen = 4%nat) ∨ (at_ = 4 ∧ alen = 16%nat) →
  ((7 + alen + 4 ≤ length data)%nat →
   (length data < 7 + alen + 4 + Z.to_nat (be16 (data !!! (7 + alen + 2)%nat)
                                                (data !!! (7 + alen + 3)%nat)))%nat) →
  decode data = Err UdpGwTruncated.
Proof.
  intros H0 Hv Ht Ha Hlen. unfold decode. pass_guard. run_bytes. rewrite Hv. cbn [negb Z.eqb UDPGW_VERSION Pos.eqb].
  destruct (Nat.ltb_spec (length data) 8); [done|]. run_bytes.
  rewrite Ht, addr_type_cases by lia. destruct Ha as [[-> ->]|[-> ->]];
    [rewrite decide_True by done|rewrite decide_False, decide_True by done].
  - destruct (Nat.ltb_spec (length data) (7 + 4)); [done|]. run_bytes.
    destruct (Nat.ltb_spec (length data) (7 + 4 + 4)); [done|]. run_bytes.
    split_guard; [done|]. specialize (Hlen ltac:(lia)). lia.
  - destruct (Nat.ltb_spec (length data) (7 + 16)); [done|]. run_bytes.
    destruct (Nat.ltb_spec (length data) (7 + 16 + 4)); [done|]. run_bytes.
    split_guard; [done|]. specialize (Hlen ltac:(lia)). lia.
Qed.

(** C27. The udpgw codec round trip: decoding an encoded frame, whatever
    follows it on the stream, gives the frame back: same client, flags and
    address, and the payload when it has at most 65535 bytes.  A longer one is
    silently cut to its length modulo 65536, and an IPv6 flow label or scope
    is not transmitted. *)
Theorem decode_encode (f : UdpGwFrame) (rest : list Z) (Hf : frame_ok f) :
  decode (encode f ++ rest) = Ok (wire_frame f) ∧
  (Z.of_nat (length (payload f)) ≤ 65535 →
   (∀ o p fi sc, remote_addr f = SockV6 o p fi sc → fi = 0 ∧ sc = 0) →
   wire_frame f = f).
Proof.
  destruct f as [cid fl addr p]. destruct Hf as [Hid Hfl Ha Hp].
  cbn [client_id flags remote_addr payload] in *. split.
  - pose proof (cast_len_le (length p)) as Hcl.
    destruct addr as [o port|o port fi sc]; destruct Ha as [[Hol Hob] Ha].
    + destruct o as [|a [|b [|c [|d [|??]]]]]; try done.
      rewrite encode_v4, <- !app_assoc. cbn [app to_be32 to_be16].
      rewrite (decode_v4 _ (Z.to_nat (cast 16 (Z.of_nat (length p)))));
        cbn [lookup_total list_lookup_total length skipn].
      * unfold UdpGwFlags_from_bits_truncate, wire_frame.
        change (Z.lor UDPGW_IPV6 UDPGW_KEEPALIVE) with 3.
        cbn [client_id flags remote_addr payload SocketAddr_ip SocketAddr_port SocketAddr_new].
        by rewrite Hfl, be32_id, be16_port, drop_0, take_app_le by done.
      * rewrite length_app. lia.
      * done.
      * done.
      * by rewrite len_field.
    + destruct Ha as (Hport & _).
      do 16 (destruct o as [|? o]; [done|]). destruct o as [|??]; [|done].
      rewrite encode_v6, <- !app_assoc. cbn [app to_be32 to_be16].
      rewrite (decode_v6 _ (Z.to_nat (cast 16 (Z.of_nat (length p)))));
        cbn [lookup_total list_lookup_total length skipn].
      * unfold UdpGwFlags_from_bits_truncate, wire_frame.
        change (Z.lor UDPGW_IPV6 UDPGW_KEEPALIVE) with 3.
        cbn [client_id flags remote_addr payload SocketAddr_ip SocketAddr_port SocketAddr_new].
        by rewrite Hfl, be32_id, be16_port, drop_0, take_app_le by done.
      * rewrite length_app. lia.
      * done.
      * done.
      * by rewrite len_field.
  - intros Hl Hz. unfold wire_frame. simpl. f_equal.
    + destruct addr as [|o port fi sc]; [done|]. by destruct (Hz _ _ _ _ eq_refl) as [-> ->].
    + rewrite cast_small by (unfold uint; lia). rewrite take_ge by lia. done.
Qed.

Definition dns_frame : UdpGwFrame :=
  {| client_id := 42; flags := 0; remote_addr := SockV4 [8; 8; 8; 8] 53;
     payload := [104; 101; 108; 108; 111] |}.

Lemma decode_encode_witness : decode (encode dns_frame ++ [7; 7]) = Ok dns_frame.
Proof.
  apply (decode_encode dns_frame [7; 7]). split.
  - split; simpl; lia.
  - reflexivity.
  - split; [|split; lia]. split; [reflexivity|]. repeat constructor; lia.
  - repeat constructor; lia.
Defined.

(** Robust decoding: [UdpGwFrame::decode] never panics, whatever it is
    given, and it answers Truncated on every proper prefix of an encoded frame
    (so a reader that has not yet received the whole frame can tell). *)
Theorem decode_prefix (data : list Z) (f : UdpGwFrame) (n : nat)
    (Hf : frame_ok f) (Hl : Z.of_nat (length (payload f)) ≤ 65535)
    (Hn : (n < length (encode f))%nat) :
  returned (decode data) ∧ decode (take n (encode f)) = Err UdpGwTruncated.
Proof.
  split; [apply decode_returned|].
  destruct f as [cid fl addr p]. destruct Hf as [Hid Hfl Ha Hp].
  cbn [client_id flags remote_addr payload] in *.
  destruct (decide (n = 0)%nat) as [->|]; [done|].
  assert (Z.to_nat (cast 16 (Z.of_nat (length p))) = length p) as Hc
    by (rewrite cast_small by (unfold uint; lia); lia).
  assert (∀ l (i : nat), (i < n)%nat → take n l !!! i = (l !!! i : Z)) as Ht
    by (intros; by apply lookup_total_take_lt).
  destruct addr as [o port|o port fi sc]; destruct Ha as [[Hol Hob] Ha].
  - destruct o as [|a [|b [|c [|d [|??]]]]]; try done.
    rewrite encode_v4 in *. cbn [app to_be32 to_be16 length] in *.
    apply (decode_short _ 4 1); [rewrite length_take; simpl; lia|rewrite Ht by lia; done|..].
    + intros H7. rewrite length_take in H7. rewrite Ht by lia. done.
    + by left.
    + rewrite length_take. intros H15. rewrite !Ht by lia.
      cbn [lookup_total list_lookup_total Init.Nat.add length] in *. rewrite len_field, Hc. lia.
  - do 16 (destruct o as [|? o]; [done|]). destruct o as [|??]; [|done].
    rewrite encode_v6 in *. cbn [app to_be32 to_be16 length] in *.
    apply (decode_short _ 16 4); [rewrite length_take; simpl; lia|rewrite Ht by lia; done|..].
    + intros H7. rewrite length_take in H7. rewrite Ht by lia. done.
    + by right.
    + rewrite length_take. intros H15. rewrite !Ht by lia.
      cbn [lookup_total list_lookup_total Init.Nat.add length] in *. rewrite len_field, Hc. lia.
Qed.

Lemma decode_prefix_witness :
  returned (decode [1; 2]) ∧ decode (take 19 (encode dns_frame)) = Err UdpGwTruncated.
Proof.
  apply decode_prefix; [|simpl; lia|simpl; lia]. split.
  - split; simpl; lia.
  - reflexivity.
  - split; [|split; lia]. split; [reflexivity|]. repeat constructor; lia.
  - repeat constructor; lia.
Defined.

(** ** mux.rs: the association table

    [fetch_add] wraps at 2^32 in every profile. *)
Record UdpGwMux := { next_id : Z; associations : gmap Z SocketAddr }.

Definition UdpGwMux_new : UdpGwMux := {| next_id := 1; associations := ∅ |}.

Definition allocate_id (m : UdpGwMux) (client_addr : SocketAddr) : Z * UdpGwMux :=
  let id := next_id m in
  (id, {| next_id := cast 32 (id + 1); associations := <[id := client_addr]> (associations m) |}).

Definition mux_lookup (m : UdpGwMux) (id : Z) : option SocketAddr := associations m !! id.

Definition release (m : UdpGwMux) (id : Z) : UdpGwMux :=
  {| next_id := next_id m; associations := delete id (associations m) |}.

Definition active_count (m : UdpGwMux) : nat := size (associations m).

Inductive mux_op := MuxAllocate (a : SocketAddr) | MuxRelease (id : Z).

Definition mux_step (m : UdpGwMux) (o : mux_op) : UdpGwMux :=
  match o with
  | MuxAllocate a => (allocate_id m a).2
  | MuxRelease id => release m id
  end.

Definition is_allocate (o : mux_op) : bool :=
  match o with MuxAllocate _ => true | MuxRelease _ => false end.

(** How many identifiers a history has handed out. *)
Definition allocations (ops : list mux_op) : Z :=
  Z.of_nat (length (List.filter is_allocate ops)).

Lemma mux_history ops :
  let m := foldl mux_step UdpGwMux_new ops in
  next_id m = cast 32 (1 + allocations ops) ∧
  ∀ id a, associations m !! id = Some a → ∃ j, 0 ≤ j < allocations ops ∧ id = cast 32 (1 + j).
Proof.
  induction ops as [|o ops IH] using rev_ind; [done|].
  cbv zeta in *. rewrite foldl_app. cbn [foldl]. destruct IH as [IHn IHa].
  unfold allocations in *. rewrite filter_app, length_app.
  destruct o as [a|id]; cbn -[cast].
  - rewrite IHn. split.
    + unfold cast. rewrite Zplus_mod_idemp_l. f_equal. lia.
    + intros id x. rewrite lookup_insert. case_decide as Hd.
      * intros _. eexists. split; [|symmetry; exact Hd]. lia.
      * intros (j & Hj & ->)%IHa. exists j. split; [lia|done].
  - rewrite Nat.add_0_r. split; [done|].
    intros i x. rewrite lookup_delete. case_decide; [done|]. apply IHa.
Qed.

(** Association identifiers are never handed out twice among the first
    2^32 allocations, whatever is released in between: the new identifier is
    free, it maps to the client that asked, no other association changes, and
    the count grows by one. *)
Theorem allocate_id_fresh (ops : list mux_op) (client : SocketAddr)
    (Hn : allocations ops < 2 ^ 32) :
  let m := foldl mux_step UdpGwMux_new ops in
  let '(id, m') := allocate_id m client in
  mux_lookup m id = None ∧ mux_lookup m' id = Some client ∧
  (∀ id', id' ≠ id → mux_lookup m' id' = mux_lookup m id') ∧
  active_count m' = S (active_count m).
Proof.
  destruct (mux_history ops) as [Hid Ha]. cbv zeta in *.
  set (m := foldl mux_step UdpGwMux_new ops) in *. unfold allocate_id, mux_lookup, active_count.
  cbn [associations].
  assert (associations m !! next_id m = None) as Hfree.
  { destruct (associations m !! next_id m) as [a|] eqn:E; [|done].
    apply Ha in E as (j & Hj & Heq). rewrite Hid in Heq. unfold cast in Heq.
    Z.div_mod_to_equations. lia. }
  split; [done|]. split; [apply lookup_insert_eq|]. split.
  - intros id' Hne. by rewrite lookup_insert_ne.
  - by apply map_size_insert_None.
Qed.

Lemma allocate_id_fresh_witness :
  mux_lookup (allocate_id (foldl mux_step UdpGwMux_new
    [MuxAllocate UNSPECIFIED; MuxRelease 1]) UNSPECIFIED).2 2 = Some UNSPECIFIED.
Proof.
  apply (allocate_id_fresh [MuxAllocate UNSPECIFIED; MuxRelease 1] UNSPECIFIED). reflexivity.
Defined.
