(* ===== verification/Utf8.v ===== *)
(** * String::from_utf8_lossy

    The standard library's lossy decoder, as the code uses it on domain names
    from the wire: a [String] is its UTF-8 bytes, an ill-formed sequence (the
    maximal prefix of a well-formed one) is replaced by U+FFFD. *)

From Stdlib Require Import ZArith Lia.
From S2P Require Import Prelude Bytes.
Local Open Scope Z_scope.

(** [safe_get]: 0 past the end. *)
Definition safe_get (l : list Z) (i : nat) : Z := default 0 (l !! i).

Definition within (lo x hi : Z) : bool := (lo <=? x) && (x <=? hi).
Definition is_cont (x : Z) : bool := within 0x80 x 0xBF.

(** The width table for lead bytes: 0 for a byte that starts nothing. *)
Definition utf8_char_width (b : Z) : nat :=
  if within 0 b 0x7F then 1
  else if within 0xC2 b 0xDF then 2
  else if within 0xE0 b 0xEF then 3
  else if within 0xF0 b 0xF4 then 4 else 0.

(** The second byte allowed after a three- or four-byte lead. *)
Definition second_ok (b x : Z) : bool :=
  if b =? 0xE0 then within 0xA0 x 0xBF
  else if b =? 0xED then within 0x80 x 0x9F
  else if b =? 0xF0 then within 0x90 x 0xBF
  else if b =? 0xF4 then within 0x80 x 0x8F
  else is_cont x.

(** One turn of the decoder, on the lead byte and the three bytes after it (0
    past the end): is the sequence well formed, and how many bytes it has (or
    its ill-formed prefix). *)
Definition utf8_seq (b x y z : Z) : bool * nat :=
  match utf8_char_width b with
  | 1%nat => (true, 1%nat)
  | 2%nat => if is_cont x then (true, 2%nat) else (false, 1%nat)
  | 3%nat =>
      if second_ok b x then if is_cont y then (true, 3%nat) else (false, 2%nat)
      else (false, 1%nat)
  | 4%nat =>
      if second_ok b x
      then if is_cont y
           then if is_cont z then (true, 4%nat) else (false, 3%nat)
           else (false, 2%nat)
      else (false, 1%nat)
  | _ => (false, 1%nat)
  end.
Definition utf8_step (l : list Z) : bool * nat :=
  utf8_seq (safe_get l 0) (safe_get l 1) (safe_get l 2) (safe_get l 3).

Definition REPLACEMENT : list Z := [0xEF; 0xBF; 0xBD].

(** Fuel: every turn consumes at least one byte. *)
Fixpoint lossy_loop (fuel : nat) (l : list Z) : list Z :=
  match fuel, l with
  | S n, _ :: _ =>
      let '(good, k) := utf8_step l in
      (if good then take k l else REPLACEMENT) ++ lossy_loop n (drop k l)
  | _, _ => []
  end.
Definition from_utf8_lossy (l : list Z) : list Z := lossy_loop (length l) l.

(** [str::from_utf8(l).is_ok()]. *)
Fixpoint utf8_loop (fuel : nat) (l : list Z) : bool :=
  match fuel, l with
  | S n, _ :: _ =>
      let '(good, k) := utf8_step l in good && utf8_loop n (drop k l)
  | _, _ => true
  end.
Definition is_utf8 (l : list Z) : bool := utf8_loop (length l) l.

(** ** Facts *)
Lemma utf8_step_pos l : (1 ≤ (utf8_step l).2)%nat.
Proof. unfold utf8_step, utf8_seq. repeat case_match; simpl; lia. Qed.

Lemma is_cont_get l i : is_cont (safe_get l i) = true → (i < length l)%nat.
Proof.
  unfold safe_get. destruct (l !! i) eqn:Hi; [by intros _; apply lookup_lt_Some in Hi|done].
Qed.

Lemma second_ok_cont b x : second_ok b x = true → is_cont x = true.
Proof.
  unfold second_ok, is_cont, within. rewrite !andb_true_iff, !Z.leb_le.
  repeat case_match; rewrite ?andb_true_iff, ?Z.leb_le in *; lia.
Qed.

Lemma utf8_step_len l :
  l ≠ [] → ((utf8_step l).2 ≤ length l)%nat.
Proof.
  intros Hn. assert (0 < length l)%nat by (destruct l; simpl; [done|lia]).
  unfold utf8_step, utf8_seq.
  repeat case_match; simpl; repeat match goal with
    | H : second_ok _ _ = true |- _ => apply second_ok_cont in H
    | H : is_cont (safe_get _ _) = true |- _ => apply is_cont_get in H
    end; lia.
Qed.

(** A well-formed sequence is one whatever follows it. *)
Lemma utf8_seq_prefix b x y z x' y' z' k :
  utf8_seq b x y z = (true, k) →
  ((2 ≤ k)%nat → x' = x) → ((3 ≤ k)%nat → y' = y) → ((4 ≤ k)%nat → z' = z) →
  utf8_seq b x' y' z' = (true, k).
Proof.
  unfold utf8_seq. destruct (utf8_char_width b) as [|[|[|[|[|?]]]]]; try done.
  - destruct (is_cont x) eqn:?; [|done]. intros [= <-] Hx _ _.
    rewrite Hx by lia. by case_match.
  - destruct (second_ok b x) eqn:?, (is_cont y) eqn:?; try done. intros [= <-] Hx Hy _.
    rewrite Hx, Hy by lia. by repeat case_match.
  - destruct (second_ok b x) eqn:?, (is_cont y) eqn:?, (is_cont z) eqn:?; try done.
    intros [= <-] Hx Hy Hz. rewrite Hx, Hy, Hz by lia. by repeat case_match.
Qed.

Lemma utf8_step_prefix l r k :
  l ≠ [] → utf8_step l = (true, k) → utf8_step (take k l ++ r) = (true, k).
Proof.
  intros Hn Hs. pose proof (utf8_step_len l Hn) as Hlen. pose proof (utf8_step_pos l) as Hpos.
  rewrite Hs in Hlen, Hpos. simpl in Hlen, Hpos.
  assert (∀ i, (i < k)%nat → safe_get (take k l ++ r) i = safe_get l i) as Hget.
  { intros i Hi. unfold safe_get. rewrite lookup_app_l by len. by rewrite lookup_take_lt. }
  unfold utf8_step in *. rewrite Hget by lia.
  eapply utf8_seq_prefix; [exact Hs|intros; apply Hget; lia..].
Qed.

Lemma lossy_loop_fuel n m l :
  (length l ≤ n)%nat → (length l ≤ m)%nat → lossy_loop n l = lossy_loop m l.
Proof.
  revert m l. induction n as [|n IH]; intros m l Hn Hm.
  { destruct l; [by destruct m|simpl in *; lia]. }
  destruct l as [|b l]; [by destruct m|]. destruct m as [|m]; [simpl in *; lia|].
  cbn [lossy_loop]. pose proof (utf8_step_pos (b :: l)).
  destruct (utf8_step (b :: l)) as [good k]. simpl in *. f_equal.
  apply IH; len.
Qed.

Lemma utf8_loop_fuel n m l :
  (length l ≤ n)%nat → (length l ≤ m)%nat → utf8_loop n l = utf8_loop m l.
Proof.
  revert m l. induction n as [|n IH]; intros m l Hn Hm.
  { destruct l; [by destruct m|simpl in *; lia]. }
  destruct l as [|b l]; [by destruct m|]. destruct m as [|m]; [simpl in *; lia|].
  cbn [utf8_loop]. pose proof (utf8_step_pos (b :: l)).
  destruct (utf8_step (b :: l)) as [good k]. simpl in *. f_equal.
  apply IH; len.
Qed.

(** Valid UTF-8 is left alone. *)
Lemma lossy_id l : is_utf8 l = true → from_utf8_lossy l = l.
Proof.
  unfold is_utf8, from_utf8_lossy. generalize (Nat.le_refl (length l)).
  generalize (length l) at 2 3 4. intros n. revert l.
  induction n as [|n IH]; intros l Hl H; [destruct l; [done|simpl in *; lia]|].
  destruct l as [|b l]; [done|]. cbn [lossy_loop utf8_loop] in *.
  pose proof (utf8_step_pos (b :: l)). destruct (utf8_step (b :: l)) as [good k]. simpl in *.
  apply andb_true_iff in H as [-> H]. rewrite IH; [apply take_drop|len|done].
Qed.

Lemma utf8_cons_step l r k :
  (1 ≤ k ≤ length l)%nat → utf8_step (take k l ++ r) = (true, k) →
  is_utf8 (take k l ++ r) = is_utf8 r.
Proof.
  intros Hk Hs. unfold is_utf8.
  assert (length (take k l ++ r) = S (k - 1 + length r)) as -> by len.
  destruct (take k l ++ r) as [|b t] eqn:E.
  { apply (f_equal length) in E. len_in E. lia. }
  cbn [utf8_loop]. rewrite Hs. cbn [andb]. rewrite <- E, drop_app_length' by len.
  apply utf8_loop_fuel; lia.
Qed.

(** The result is always valid UTF-8, as a [String] must be. *)
Lemma lossy_is_utf8 l : is_utf8 (from_utf8_lossy l) = true.
Proof.
  unfold from_utf8_lossy. generalize (length l). intros n. revert l.
  induction n as [|n IH]; intros l; [done|].
  destruct l as [|b l]; [done|]. cbn [lossy_loop].
  pose proof (utf8_step_pos (b :: l)) as Hp.
  pose proof (utf8_step_len (b :: l) ltac:(done)) as Hlen.
  destruct (utf8_step (b :: l)) as [[] k] eqn:Hs; simpl in Hp, Hlen.
  - rewrite utf8_cons_step; [apply IH|simpl; lia|].
    by apply utf8_step_prefix.
  - change REPLACEMENT with (take 3 REPLACEMENT).
    rewrite utf8_cons_step; [apply IH|simpl; lia|done].
Qed.
