(* ===== verification/Socks.v ===== *)
(** * gravital-socks/src/proto.rs and error.rs: the SOCKS5 codec

    The messages of RFC 1928 as the client and the server read and write
    them.  A [String] is its UTF-8 bytes. *)

From Stdlib Require Import ZArith Lia.
From S2P Require Import Prelude Bytes Net Io Utf8.
Local Open Scope Z_scope.

(** ** error.rs *)
Inductive SocksError :=
| SocksIo (e : IoErrorKind)
| InvalidVersion (v : Z)
| NoAcceptableMethod
| AuthRejected
| HostUnreachable
| ConnectionRefused
| CommandNotSupported (c : Z)
| AddressTypeNotSupported (t : Z)
| Upstream (e : IoErrorKind)
| ServerReply (r : Z)
| PrematureEof
| SocksTimeout.

(** ** proto.rs *)
Definition VERSION : Z := 0x05.
Definition METHOD_NO_AUTH : Z := 0x00.
Definition METHOD_USERPASS : Z := 0x02.
Definition METHOD_NONE_ACCEPTABLE : Z := 0xFF.

Inductive Cmd := Connect | Bind | UdpAssociate.

Definition Cmd_try_from (v : Z) : Outcome SocksError Cmd :=
  match v with
  | 0x01 => Ok Connect
  | 0x02 => Ok Bind
  | 0x03 => Ok UdpAssociate
  | x => Err (CommandNotSupported x)
  end.

Inductive Rep :=
| RepSucceeded | RepGeneralFailure | RepNotAllowed | RepNetUnreachable | RepHostUnreachable
| RepConnectionRefused | RepTtlExpired | RepCommandNotSupported | RepAddrTypeNotSupported.

(** [rep as u8]. *)
Definition Rep_code (r : Rep) : Z :=
  match r with
  | RepSucceeded => 0x00
  | RepGeneralFailure => 0x01
  | RepNotAllowed => 0x02
  | RepNetUnreachable => 0x03
  | RepHostUnreachable => 0x04
  | RepConnectionRefused => 0x05
  | RepTtlExpired => 0x06
  | RepCommandNotSupported => 0x07
  | RepAddrTypeNotSupported => 0x08
  end.

Inductive AddrSpec :=
| AddrIpv4 (ip : list Z)
| AddrIpv6 (ip : list Z)
| AddrDomain (host : list Z).

#[export] Instance AddrSpec_eq_dec : EqDecision AddrSpec.
Proof. solve_decision. Defined.

(** [lookup_host] is tokio's resolver. *)
Definition to_socket_addr (lookup_host : list Z → Z → Outcome IoErrorKind (list SocketAddr))
    (a : AddrSpec) (port : Z) : Outcome SocksError SocketAddr :=
  match a with
  | AddrIpv4 ip => Ok (SocketAddr_new (IpV4 ip) port)
  | AddrIpv6 ip => Ok (SocketAddr_new (IpV6 ip) port)
  | AddrDomain host =>
      let! addrs := map_err SocksIo (lookup_host host port) in
      match addrs with
      | a :: _ => Ok a
      | [] => Err HostUnreachable
      end
  end.

Record Request := { req_cmd : Cmd; req_addr : AddrSpec; req_port : Z }.

Definition map_eof (e : IoErrorKind) : SocksError :=
  if decide (e = UnexpectedEofKind) then PrematureEof else SocksIo e.

Section codec.
Context {S : Type} `{AsyncIo S}.

(** The address of a request, by its type byte. *)
Definition read_addr (atyp : Z) : IO S SocksError AddrSpec :=
  match atyp with
  | 0x01 =>
      let? ip := imap_err map_eof (read_exact 4) in
      iret (AddrIpv4 ip)
  | 0x03 =>
      let? len := imap_err map_eof read_u8 in
      let? domain := imap_err map_eof (read_exact (Z.to_nat len)) in
      iret (AddrDomain (from_utf8_lossy domain))
  | 0x04 =>
      let? ip := imap_err map_eof (read_exact 16) in
      iret (AddrIpv6 ip)
  | x => ithrow (AddressTypeNotSupported x)
  end.

Definition read_request : IO S SocksError Request :=
  let? hdr := imap_err map_eof (read_exact 4) in
  if negb (hdr !!! 0%nat =? VERSION) then ithrow (InvalidVersion (hdr !!! 0%nat))
  else
    let? cmd := ilift (Cmd_try_from (hdr !!! 1%nat)) in
    let atyp := hdr !!! 3%nat in
    let? addr := read_addr atyp in
    let? port := imap_err map_eof read_u16 in
    iret {| req_cmd := cmd; req_addr := addr; req_port := port |}.

(** Appends to [buf]. *)
Definition encode_address (addr : AddrSpec) (port : Z) (buf : list Z) : list Z :=
  let buf := match addr with
    | AddrIpv4 ip => (buf ++ [0x01]) ++ ip
    | AddrIpv6 ip => (buf ++ [0x04]) ++ ip
    | AddrDomain d => ((buf ++ [0x03]) ++ [cast 8 (Z.of_nat (length d))]) ++ d
    end in
  buf ++ to_be16 port.

Definition send_reply (rep : Rep) (bind_addr : SocketAddr) : IO S SocksError unit :=
  let buf := [VERSION; Rep_code rep; 0x00] in
  let buf := match SocketAddr_ip bind_addr with
    | IpV4 ip => (buf ++ [0x01]) ++ ip
    | IpV6 ip => (buf ++ [0x04]) ++ ip
    end in
  let buf := buf ++ to_be16 (SocketAddr_port bind_addr) in
  imap_err SocksIo (write_all buf).

Definition negotiate_method (server_auth_enabled : bool) : IO S SocksError Z :=
  let? hdr := imap_err map_eof (read_exact 2) in
  if negb (hdr !!! 0%nat =? VERSION) then ithrow (InvalidVersion (hdr !!! 0%nat))
  else
    let nmethods := Z.to_nat (hdr !!! 1%nat) in
    let? methods := imap_err map_eof (read_exact nmethods) in
    let reject :=
      let? _ := imap_err SocksIo (write_all [VERSION; METHOD_NONE_ACCEPTABLE]) in
      ithrow NoAcceptableMethod in
    let accept chosen :=
      let? _ := imap_err SocksIo (write_all [VERSION; chosen]) in
      iret chosen in
    if decide (METHOD_NO_AUTH ∈ methods) then accept METHOD_NO_AUTH
    else if server_auth_enabled && bool_decide (METHOD_USERPASS ∈ methods)
    then accept METHOD_USERPASS
    else reject.

Definition skip_bound_address (atyp : Z) : IO S SocksError unit :=
  let skip (addr_len : nat) :=
    let? _ := imap_err map_eof (read_exact (addr_len + 2)) in iret tt in
  match atyp with
  | 0x01 => skip 4%nat
  | 0x03 =>
      let? len := imap_err map_eof read_u8 in
      skip (Z.to_nat len)
  | 0x04 => skip 16%nat
  | _ => iret tt
  end.
End codec.

(** ** UDP ASSOCIATE datagrams *)
Record UdpHeader := { frag : Z; udp_addr : AddrSpec; udp_port : Z; payload_offset : nat }.

Definition parse_udp_datagram (buf : list Z) : Outcome SocksError UdpHeader :=
  if (length buf <? 4)%nat then Err PrematureEof
  else
    let! frag := idx buf 2 in
    let! atyp := idx buf 3 in
    let! (addr, offset) :=
      match atyp with
      | 0x01 =>
          if (length buf <? 4 + 4)%nat then Err PrematureEof
          else
            let! a := idx buf 4 in
            let! b := idx buf 5 in
            let! c := idx buf 6 in
            let! d := idx buf 7 in
            Ok (AddrIpv4 [a; b; c; d], 8%nat)
      | 0x03 =>
          if (length buf <? 4 + 1)%nat then Err PrematureEof
          else
            let! len := idx buf 4 in
            let len := Z.to_nat len in
            if (length buf <? 5 + len)%nat then Err PrematureEof
            else
              let! domain := slice buf 5 (5 + len) in
              Ok (AddrDomain (from_utf8_lossy domain), 5 + len)%nat
      | 0x04 =>
          if (length buf <? 4 + 16)%nat then Err PrematureEof
          else
            let! ip := slice buf 4 20 in
            Ok (AddrIpv6 ip, 20%nat)
      | x => Err (AddressTypeNotSupported x)
      end in
    if (length buf <? offset + 2)%nat then Err PrematureEof
    else
      let! hi := idx buf offset in
      let! lo := idx buf (offset + 1) in
      Ok {| frag := frag; udp_addr := addr; udp_port := be16 hi lo;
            payload_offset := (offset + 2)%nat |}.

(** ** Simulation *)
Section sim.
Context {S : Type} `{AsyncIoLaws S}.

Lemma sim_read_addr atyp : sim (read_addr atyp) (read_addr atyp).
Proof. unfold read_addr. repeat case_match; sim. Qed.
Lemma sim_read_request : sim read_request read_request.
Proof. unfold read_request. sim. apply sim_read_addr. Qed.
Lemma sim_send_reply r a : sim (send_reply r a) (send_reply r a).
Proof. unfold send_reply. sim. Qed.
Lemma sim_negotiate b : sim (negotiate_method b) (negotiate_method b).
Proof. unfold negotiate_method. sim. case_decide; sim. Qed.
Lemma sim_skip atyp : sim (skip_bound_address atyp) (skip_bound_address atyp).
Proof. unfold skip_bound_address. repeat case_match; sim. Qed.
End sim.
#[export] Hint Resolve sim_read_request sim_send_reply sim_negotiate sim_skip : rust.

(** ** Values of the Rust types that survive the wire *)
Definition spec_ok (a : AddrSpec) : Prop :=
  match a with
  | AddrIpv4 ip => octets_ok 4 ip
  | AddrIpv6 ip => octets_ok 16 ip
  | AddrDomain d => is_utf8 d = true ∧ is_bytes d ∧ (length d ≤ 255)%nat
  end.

Definition Cmd_code (c : Cmd) : Z :=
  match c with Connect => 1 | Bind => 2 | UdpAssociate => 3 end.

(** The bytes of a request, as the client builds them: any reserved byte. *)
Definition wire_request (cmd : Cmd) (rsv : Z) (a : AddrSpec) (port : Z) : list Z :=
  encode_address a port [VERSION; Cmd_code cmd; rsv].

(** The type byte and the body of an encoded address. *)
Definition atyp_of (a : AddrSpec) : Z :=
  match a with AddrIpv4 _ => 1 | AddrIpv6 _ => 4 | AddrDomain _ => 3 end.
Definition body_of (a : AddrSpec) : list Z :=
  match a with
  | AddrIpv4 ip | AddrIpv6 ip => ip
  | AddrDomain d => cast 8 (Z.of_nat (length d)) :: d
  end.

Lemma encode_address_eq a p buf :
  encode_address a p buf = buf ++ atyp_of a :: body_of a ++ to_be16 p.
Proof. destruct a; unfold encode_address; simpl; by rewrite <- !app_assoc. Qed.

Lemma read_addr_mk a rest s out :
  spec_ok a →
  read_addr (atyp_of a) (mk (body_of a ++ rest) s out) = (Ok a, mk rest s out).
Proof.
  destruct a as [ip|ip|d]; simpl; intros Ha.
  - destruct Ha as [Hl _]. by io_step.
  - destruct Ha as [Hl _]. by io_step.
  - destruct Ha as (Hu & Hb & Hl). io_step. rewrite cast_small by (unfold uint; lia).
    rewrite Nat2Z.id. io_step. by rewrite lossy_id.
Qed.

Lemma read_port_mk p rest s out :
  u16 p → read_u16 (mk (to_be16 p ++ rest) s out) = (Ok p, mk rest s out).
Proof.
  intros Hp. unfold to_be16. cbn [app]. rewrite read_u16_mk. f_equal. f_equal.
  exact (be16_to_be16 p Hp).
Qed.

Lemma Cmd_try_from_code c : Cmd_try_from (Cmd_code c) = Ok c.
Proof. by destruct c. Qed.

Lemma read_request_mk cmd rsv a p rest s out :
  spec_ok a → u16 p →
  read_request (mk (wire_request cmd rsv a p ++ rest) s out)
    = (Ok {| req_cmd := cmd; req_addr := a; req_port := p |}, mk rest s out).
Proof.
  intros Ha Hp. unfold wire_request, read_request. rewrite encode_address_eq, <- app_assoc.
  cbn [app]. rewrite <- app_assoc.
  change (VERSION :: Cmd_code cmd :: rsv :: atyp_of a :: ?l) with
    ([VERSION; Cmd_code cmd; rsv; atyp_of a] ++ l).
  io_step. cbn [lookup_total list_lookup_total negb VERSION Z.eqb Pos.eqb].
  erewrite ibind_step by (unfold ilift; by rewrite Cmd_try_from_code).
  erewrite ibind_step by (by apply read_addr_mk).
  erewrite ibind_step by (by apply imap_err_ok, read_port_mk). done.
Qed.

(** C23. Request round trip: on any stream that starts with a request as the
    client encodes it (an address that fits the wire format, any reserved
    byte), [read_request] returns exactly that command, address and port,
    writes nothing, and leaves the stream at the first byte after the
    request. *)
Theorem read_request_encode {S} `{AsyncIoLaws S}
    (cmd : Cmd) (rsv : Z) (a : AddrSpec) (port : Z) (rest : list Z) (s : S)
    (Ha : spec_ok a) (Hp : u16 port)
    (Hs : feeding (wire_request cmd rsv a port ++ rest) (view s)) :
  ∃ s', read_request s = (Ok {| req_cmd := cmd; req_addr := a; req_port := port |}, s') ∧
        feeding rest (view s') ∧ tx (view s') = tx (view s).
Proof.
  destruct (sim_run read_request read_request s
    (Ok {| req_cmd := cmd; req_addr := a; req_port := port |}) (mk rest (view s) []))
    as (s' & Hr & Hv); [apply sim_read_request| |].
  - rewrite (feeding_mk _ _ Hs) at 1. by apply read_request_mk.
  - exists s'. rewrite Hv. split_and!; [done|done|]. apply app_nil_r.
Qed.

(** The stream a test peer feeds. *)
Definition from_peer (l : list Z) : Stream :=
  {| rx := l; rx_end := None; chunks := []; tx := []; tx_room := None |}.

Lemma read_request_encode_witness :
  ∃ s', read_request (from_peer (wire_request Connect 0 (AddrDomain [97; 46; 98]) 443 ++ [9]))
    = (Ok {| req_cmd := Connect; req_addr := AddrDomain [97; 46; 98]; req_port := 443 |}, s') ∧
      feeding [9] (view s') ∧ tx (view s') = [].
Proof.
  refine (read_request_encode Connect 0 (AddrDomain [97; 46; 98]) 443 [9]
    (from_peer (wire_request Connect 0 (AddrDomain [97; 46; 98]) 443 ++ [9])) _ _ _);
    [|split; lia|done].
  split; [reflexivity|]. split; [repeat constructor; lia|simpl; lia].
Defined.

(** ** Method negotiation *)

(** Method negotiation: the server answers every well-formed greeting
    with exactly two bytes. It picks NO AUTH when the client offers it, else
    USERNAME/PASSWORD when the client offers it and the server has
    authentication enabled, and otherwise answers 0xFF and fails with
    NoAcceptableMethod; so it never selects a method that was not offered, and
    the stream is left at the byte after the greeting. *)
Theorem negotiate_method_spec {S} `{AsyncIoLaws S}
    (auth : bool) (methods rest : list Z) (s : S)
    (Hm : (length methods ≤ 255)%nat)
    (Hs : feeding (VERSION :: Z.of_nat (length methods) :: methods ++ rest) (view s)) :
  ∃ r reply s', negotiate_method auth s = (r, s') ∧
    feeding rest (view s') ∧ tx (view s') = tx (view s) ++ [VERSION; reply] ∧
    (METHOD_NO_AUTH ∈ methods → r = Ok METHOD_NO_AUTH ∧ reply = METHOD_NO_AUTH) ∧
    (METHOD_NO_AUTH ∉ methods → auth = true → METHOD_USERPASS ∈ methods →
       r = Ok METHOD_USERPASS ∧ reply = METHOD_USERPASS) ∧
    (METHOD_NO_AUTH ∉ methods → auth = false ∨ METHOD_USERPASS ∉ methods →
       r = Err NoAcceptableMethod ∧ reply = METHOD_NONE_ACCEPTABLE) ∧
    (∀ chosen, r = Ok chosen → chosen ∈ methods ∧ reply = chosen).
Proof.
  set (c := if decide (METHOD_NO_AUTH ∈ methods) then METHOD_NO_AUTH
            else if auth && bool_decide (METHOD_USERPASS ∈ methods) then METHOD_USERPASS
            else METHOD_NONE_ACCEPTABLE).
  set (r := if decide (c = METHOD_NONE_ACCEPTABLE) then Err NoAcceptableMethod else Ok c).
  destruct (sim_run (negotiate_method auth) (negotiate_method auth) s r
    (mk rest (view s) [VERSION; c])) as (s' & Hr & Hv); [apply sim_negotiate| |].
  - rewrite (feeding_mk _ _ Hs) at 1. unfold negotiate_method.
    change (VERSION :: ?n :: ?l) with ([VERSION; n] ++ l). io_step.
    cbn [lookup_total list_lookup_total negb VERSION Z.eqb Pos.eqb].
    rewrite Nat2Z.id. io_step. subst r c.
    destruct (decide (METHOD_NO_AUTH ∈ methods)); [by io_step|].
    destruct (auth && bool_decide (METHOD_USERPASS ∈ methods)); by io_step.
  - exists r, c, s'. rewrite Hv. do 3 (split; [done|]). subst r c. clear Hr Hv.
    destruct (decide (METHOD_NO_AUTH ∈ methods)), auth; simpl;
      try case_bool_decide; naive_solver.
Qed.

Lemma negotiate_method_spec_witness :
  ∃ r reply s', negotiate_method false (from_peer [5; 2; 2; 0; 5]) = (r, s') ∧
    feeding [5] (view s') ∧ tx (view s') = [VERSION; reply] ∧
    (METHOD_NO_AUTH ∈ [2; 0] → r = Ok METHOD_NO_AUTH ∧ reply = METHOD_NO_AUTH) ∧
    (METHOD_NO_AUTH ∉ [2; 0] → false = true → METHOD_USERPASS ∈ [2; 0] →
       r = Ok METHOD_USERPASS ∧ reply = METHOD_USERPASS) ∧
    (METHOD_NO_AUTH ∉ [2; 0] → false = false ∨ METHOD_USERPASS ∉ [2; 0] →
       r = Err NoAcceptableMethod ∧ reply = METHOD_NONE_ACCEPTABLE) ∧
    (∀ chosen, r = Ok chosen → chosen ∈ [2; 0] ∧ reply = chosen).
Proof.
  refine (negotiate_method_spec false [2; 0] [5] (from_peer [5; 2; 2; 0; 5]) _ _);
    [simpl; lia|done].
Defined.

(** ** UDP datagrams *)
Lemma parse_udp_datagram_safe buf :
  returned (parse_udp_datagram buf) ∧
  ∀ h, parse_udp_datagram buf = Ok h → (payload_offset h ≤ length buf)%nat.
Proof.
  unfold parse_udp_datagram. destruct (Nat.ltb_spec (length buf) 4); [done|]. run_bytes.
  repeat (split_guard || case_match || run_bytes || pass_guard);
    split; try done; intros; simplify_eq/=; lia.
Qed.

(** The datagram that carries [payload] to an address. *)
Definition wire_datagram (fr : Z) (a : AddrSpec) (port : Z) (payload : list Z) : list Z :=
  encode_address a port [0; 0; fr] ++ payload.

Lemma parse_udp_datagram_encode fr a port payload :
  spec_ok a → u16 port →
  parse_udp_datagram (wire_datagram fr a port payload) =
    Ok {| frag := fr; udp_addr := a; udp_port := port;
          payload_offset := (6 + length (body_of a))%nat |}.
Proof.
  intros Ha Hp. unfold wire_datagram. rewrite encode_address_eq.
  cbn [app]. rewrite <- app_assoc. unfold parse_udp_datagram.
  pose proof (be16_to_be16 port Hp) as Hport.
  destruct a as [ip|ip|d]; cbn [atyp_of body_of spec_ok] in *.
  - destruct Ha as [Hl _]. destruct ip as [|? [|? [|? [|? [|??]]]]]; try done.
    by rewrite <- Hport at 3.
  - destruct Ha as [Hl _]. do 16 (destruct ip as [|? ip]; [done|]). destruct ip; [|done].
    by rewrite <- Hport at 3.
  - destruct Ha as (Hu & Hb & Hl). cbn [app].
    rewrite cast_small by (unfold uint; lia).
    set (buf := 0 :: 0 :: fr :: 3 :: Z.of_nat (length d) :: d ++ to_be16 port ++ payload).
    assert (length buf = 7 + length d + length payload)%nat as Hbuf
      by (subst buf; simpl; rewrite !length_app; simpl; lia).
    assert (drop 5 buf = d ++ to_be16 port ++ payload) as Hd by done.
    assert (∀ i, buf !!! (5 + i)%nat = (d ++ to_be16 port ++ payload) !!! i) as Hi by done.
    assert (buf !!! 2%nat = fr ∧ buf !!! 3%nat = 3 ∧ buf !!! 4%nat = Z.of_nat (length d))
      as (H2 & H3 & H4) by done.
    clearbody buf. run_guards. rewrite H3. run_guards. rewrite H4, Nat2Z.id. run_guards.
    replace (5 + length d - 5)%nat with (length d) by lia.
    rewrite Hd, take_app_length, lossy_id, H2 by done. f_equal. f_equal; [|simpl; lia].
    rewrite <- Nat.add_assoc, !Hi.
    rewrite (lookup_total_app_r d _ (length d)), (lookup_total_app_r d _ (length d + 1)) by lia.
    replace (length d - length d)%nat with 0%nat by lia.
    replace (length d + 1 - length d)%nat with 1%nat by lia. exact Hport.
Qed.

(** SOCKS UDP datagrams: [parse_udp_datagram] never panics and never
    points past the buffer, whatever it is given; and on a datagram built with
    [encode_address] it returns the fragment byte, address and port, and an
    offset at which exactly the payload starts. *)
Theorem parse_udp_datagram_spec (buf : list Z) (fr : Z) (a : AddrSpec) (port : Z)
    (payload : list Z) (Ha : spec_ok a) (Hp : u16 port) :
  returned (parse_udp_datagram buf) ∧
  (∀ h, parse_udp_datagram buf = Ok h → (payload_offset h ≤ length buf)%nat) ∧
  ∃ h, parse_udp_datagram (wire_datagram fr a port payload) = Ok h ∧
    frag h = fr ∧ udp_addr h = a ∧ udp_port h = port ∧
    drop (payload_offset h) (wire_datagram fr a port payload) = payload.
Proof.
  split; [apply parse_udp_datagram_safe|]. split; [apply parse_udp_datagram_safe|].
  eexists. split; [by apply parse_udp_datagram_encode|]. cbn. split_and!; [done..|].
  unfold wire_datagram. apply drop_app_length'. rewrite encode_address_eq. simpl.
  rewrite length_app. simpl. lia.
Qed.

Lemma parse_udp_datagram_spec_witness :
  returned (parse_udp_datagram [0; 0; 0; 1; 8]) ∧
  (∀ h, parse_udp_datagram [0; 0; 0; 1; 8] = Ok h → (payload_offset h ≤ 5)%nat) ∧
  ∃ h, parse_udp_datagram (wire_datagram 0 (AddrIpv4 [8; 8; 8; 8]) 53 [1; 2]) = Ok h ∧
    frag h = 0 ∧ udp_addr h = AddrIpv4 [8; 8; 8; 8] ∧ udp_port h = 53 ∧
    drop (payload_offset h) (wire_datagram 0 (AddrIpv4 [8; 8; 8; 8]) 53 [1; 2]) = [1; 2].
Proof.
  apply (parse_udp_datagram_spec [0; 0; 0; 1; 8] 0 (AddrIpv4 [8; 8; 8; 8]) 53 [1; 2]);
    [|split; lia]. split; [reflexivity|repeat constructor; lia].
Defined.
