(* ===== verification/SocksClient.v ===== *)
(** * gravital-socks/src/client.rs: opening a tunnel through the proxy

    [dial] is the result of [TcpStream::connect] to the proxy, one per
    attempt. *)

From Stdlib Require Import ZArith Lia.
From S2P Require Import Prelude Bytes Net Io Utf8 Socks.
Local Open Scope Z_scope.

Record ClientConfig := { cfg_proxy_addr : SocketAddr; max_backoff_ms : Z }.

Section client.
Context {S : Type} `{AsyncIo S}.

(** The two phases of [connect], on the open connection. *)
Definition client_handshake (target : AddrSpec) (port : Z) : IO S SocksError unit :=
  let? _ := imap_err SocksIo (write_all [0x05; 0x01; METHOD_NO_AUTH]) in
  let? resp := imap_err map_eof (read_exact 2) in
  if negb (resp !!! 0%nat =? 0x05) then ithrow (InvalidVersion (resp !!! 0%nat))
  else if negb (resp !!! 1%nat =? METHOD_NO_AUTH) then ithrow AuthRejected
  else
    let req := encode_address target port [0x05; 0x01; 0x00] in
    let? _ := imap_err SocksIo (write_all req) in
    let? hdr := imap_err map_eof (read_exact 4) in
    if negb (hdr !!! 1%nat =? 0x00) then ithrow (ServerReply (hdr !!! 1%nat))
    else
      let? _ := skip_bound_address (hdr !!! 3%nat) in
      iret tt.

Definition SocksClient_connect (dial : Outcome IoErrorKind S) (target : AddrSpec) (port : Z)
    : Outcome SocksError S :=
  let! sock := map_err SocksIo dial in
  match client_handshake target port sock with
  | (Ok _, sock) => Ok sock
  | (Err e, _) => Err e
  | (Panic, _) => Panic
  | (Diverge, _) => Diverge
  end.

(** In milliseconds. *)
Definition SocksClient_backoff_delay (attempt : Z) : Z :=
  let ms := saturating_mul64 250 (saturating_pow64 2 (saturating_sub32 attempt 1)) in
  Z.min ms 30000.

(** [for attempt in 1..=max_attempts], over the attempts that are left; the
    second component is the delays slept.  Past the loop is [unreachable!]. *)
Fixpoint retry_loop (dial : Z → Outcome IoErrorKind S) (target : AddrSpec) (port : Z)
    (max_attempts : Z) (attempts : list Z) : Outcome SocksError S * list Z :=
  match attempts with
  | [] => (Panic, [])
  | attempt :: rest =>
      match SocksClient_connect (dial attempt) target port with
      | Ok stream => (Ok stream, [])
      | Err e =>
          if attempt =? max_attempts then (Err e, [])
          else
            let delay := SocksClient_backoff_delay attempt in
            let '(r, delays) := retry_loop dial target port max_attempts rest in
            (r, delay :: delays)
      | Panic => (Panic, [])
      | Diverge => (Diverge, [])
      end
  end.

Definition connect_with_retry (dial : Z → Outcome IoErrorKind S) (target : AddrSpec) (port : Z)
    (max_attempts : Z) : Outcome SocksError S * list Z :=
  retry_loop dial target port max_attempts (seqZ 1 max_attempts).
End client.

(** ** The handshake on streams *)
Lemma sim_client_handshake {S} `{AsyncIoLaws S} a p :
  sim (client_handshake a p) (client_handshake a p).
Proof. unfold client_handshake. sim. Qed.

(** The bytes of a reply. *)
Definition wire_reply (r : Rep) (a : SocketAddr) : list Z :=
  [VERSION; Rep_code r; 0] ++
  match SocketAddr_ip a with IpV4 ip => 1 :: ip | IpV6 ip => 4 :: ip end ++
  to_be16 (SocketAddr_port a).

Lemma send_reply_mk r a rest s out :
  send_reply r a (mk rest s out) = (Ok tt, mk rest s (out ++ wire_reply r a)).
Proof.
  unfold send_reply. apply imap_err_ok. cbn [write_all Stream_AsyncIo]. rewrite write_all_mk.
  unfold wire_reply. by destruct a.
Qed.

Lemma skip_bound_mk (a : SocketAddr) rest s out :
  sockaddr_ok a →
  ∃ h body, wire_reply RepSucceeded a = [5; 0; 0; h] ++ body ∧
    skip_bound_address h (mk (body ++ rest) s out) = (Ok tt, mk rest s out).
Proof.
  destruct a as [ip p|ip p f c]; intros [[Hl _] _].
  - exists 1, (ip ++ to_be16 p). split; [done|]. unfold skip_bound_address. by io_step.
  - exists 4, (ip ++ to_be16 p). split; [done|]. unfold skip_bound_address. by io_step.
Qed.

(** What the client sends before and after the method reply. *)
Definition client_greeting : list Z := [0x05; 0x01; METHOD_NO_AUTH].

Lemma client_handshake_mk a p bnd rest s out :
  sockaddr_ok bnd →
  client_handshake a p (mk ([VERSION; METHOD_NO_AUTH] ++ wire_reply RepSucceeded bnd ++ rest) s out)
    = (Ok tt, mk rest s (out ++ client_greeting ++ wire_request Connect 0 a p)).
Proof.
  intros Hb. destruct (skip_bound_mk bnd rest s (out ++ client_greeting ++ wire_request Connect 0 a p))
    as (h & body & Hw & Hskip); [done|].
  rewrite Hw, <- !app_assoc. unfold client_handshake. io_step. io_step.
  cbn [lookup_total list_lookup_total negb VERSION METHOD_NO_AUTH Z.eqb Pos.eqb].
  io_step. io_step. cbn [lookup_total list_lookup_total negb Z.eqb].
  erewrite ibind_step; [|rewrite <- app_assoc; exact Hskip]. done.
Qed.

Lemma client_refused_mk a p r bnd rest s out :
  r ≠ RepSucceeded → sockaddr_ok bnd →
  ∃ t, client_handshake a p (mk ([VERSION; METHOD_NO_AUTH] ++ wire_reply r bnd ++ rest) s out)
    = (Err (ServerReply (Rep_code r)), t).
Proof.
  intros Hr Hb.
  assert (∃ h body, wire_reply r bnd = [5; Rep_code r; 0; h] ++ body) as (h & body & ->)
    by (destruct bnd; repeat eexists).
  eexists. unfold client_handshake. io_step. io_step.
  cbn [lookup_total list_lookup_total negb VERSION METHOD_NO_AUTH Z.eqb Pos.eqb].
  io_step.
  rewrite <- app_assoc. io_step. cbn [lookup_total list_lookup_total].
  destruct r; [done|reflexivity..].
Qed.

(** ** Retrying *)
Section retry.
Context {S : Type} `{AsyncIo S} (dial : Z → Outcome IoErrorKind S) (target : AddrSpec) (port : Z).

Definition attempt_fails (j : Z) : Prop := ∃ e, SocksClient_connect (dial j) target port = Err e.

Lemma retry_loop_fail max k n l :
  (∀ j, k ≤ j < k + Z.of_nat n → attempt_fails j) → k + Z.of_nat n ≤ max →
  retry_loop dial target port max (seqZ k (Z.of_nat n) ++ l) =
    let '(r, ds) := retry_loop dial target port max l in
    (r, (SocksClient_backoff_delay <$> seqZ k (Z.of_nat n)) ++ ds).
Proof.
  revert k. induction n as [|n IH]; intros k Hf Hmax.
  { simpl. by destruct (retry_loop _ _ _ _ _). }
  rewrite Nat2Z.inj_succ, seqZ_cons by lia. rewrite Z.pred_succ. cbn [app retry_loop fmap list_fmap].
  destruct (Hf k) as [e ->]; [lia|]. destruct (Z.eqb_spec k max); [lia|].
  rewrite (IH (Z.succ k)) by (intros; try apply Hf; lia).
  by destruct (retry_loop _ _ _ _ l).
Qed.

(** C33. Connecting with retries: the first attempt that succeeds is returned
    after the exponential delays of the failed ones; when all of the
    [max_attempts] attempts fail, the error of the last one is returned and no
    delay follows it; with [max_attempts = 0] the call panics in
    [unreachable!] without trying. *)
Theorem connect_with_retry_spec (max_attempts : Z) (Hmax : u32 max_attempts) :
  (∀ k s, 1 ≤ k ≤ max_attempts → SocksClient_connect (dial k) target port = Ok s →
     (∀ j, 1 ≤ j < k → attempt_fails j) →
     connect_with_retry dial target port max_attempts
       = (Ok s, SocksClient_backoff_delay <$> seqZ 1 (k - 1))) ∧
  (∀ e, 1 ≤ max_attempts → (∀ j, 1 ≤ j < max_attempts → attempt_fails j) →
     SocksClient_connect (dial max_attempts) target port = Err e →
     connect_with_retry dial target port max_attempts
       = (Err e, SocksClient_backoff_delay <$> seqZ 1 (max_attempts - 1))) ∧
  (max_attempts = 0 → connect_with_retry dial target port max_attempts = (Panic, [])).
Proof.
  assert (∀ k, 1 ≤ k ≤ max_attempts →
    seqZ 1 max_attempts = seqZ 1 (k - 1) ++ k :: seqZ (k + 1) (max_attempts - k)) as Hsplit.
  { intros k Hk. replace max_attempts with (k - 1 + (1 + (max_attempts - k))) at 1 by lia.
    rewrite seqZ_app by lia. f_equal. rewrite seqZ_cons by lia. f_equal; [lia|].
    f_equal; lia. }
  unfold connect_with_retry. split; [|split].
  - intros k s Hk Hok Hf. rewrite (Hsplit k) by done.
    rewrite <- (Z2Nat.id (k - 1)) at 1 by lia.
    rewrite retry_loop_fail; [|intros; apply Hf; lia|lia]. cbn [retry_loop].
    by rewrite Hok, app_nil_r, Z2Nat.id by lia.
  - intros e H1 Hf He. rewrite (Hsplit max_attempts) by lia.
    rewrite <- (Z2Nat.id (max_attempts - 1)) at 1 by lia.
    rewrite retry_loop_fail; [|intros; apply Hf; lia|lia]. cbn [retry_loop].
    by rewrite He, Z.eqb_refl, app_nil_r, Z2Nat.id by lia.
  - by intros ->.
Qed.
End retry.

(** The proxy is down for two attempts. *)
Definition flaky_dial (j : Z) : Outcome IoErrorKind Stream :=
  if j <? 3 then Err ConnectionRefusedKind
  else Ok (from_peer ([5; 0] ++ wire_reply RepSucceeded (SockV4 [10; 0; 0; 1] 4000) ++ [42])).

Lemma connect_with_retry_spec_witness :
  ∃ s, connect_with_retry flaky_dial (AddrIpv4 [1; 1; 1; 1]) 443 5 = (Ok s, [250; 500]).
Proof.
  destruct (connect_with_retry_spec flaky_dial (AddrIpv4 [1; 1; 1; 1]) 443 5 ltac:(split; lia))
    as [Hok _].
  eexists. refine (Hok 3 _ _ eq_refl _); [lia|].
  intros j Hj. exists (SocksIo ConnectionRefusedKind). unfold flaky_dial.
  by destruct (Z.ltb_spec j 3); [|lia].
Defined.
