(* ===== verification/SocksServer.v ===== *)
(** * gravital-socks/src/server.rs: the SOCKS5 server

    The accept loop, the request handlers and the UDP relay.  The parameters
    are tokio's: name resolution, outgoing TCP connections and UDP sockets. *)

From Stdlib Require Import ZArith Lia.
From stdpp Require Import gmap.
From S2P Require Import Prelude Bytes Net Io Utf8 Socks SocksClient.
Local Open Scope Z_scope.

Record ServerConfig := {
  bind_addr : SocketAddr; auth_enabled : bool; handshake_timeout_secs : Z
}.
Definition ServerConfig_default : ServerConfig :=
  {| bind_addr := SockV4 [0; 0; 0; 0] 1080; auth_enabled := false; handshake_timeout_secs := 30 |}.

(** ** The accept loop *)

(** What [tokio::select!] wakes up for, one per turn. *)
Inductive AcceptEvent (S : Type) :=
| Accepted (stream : S) (peer : SocketAddr)
| AcceptErr (e : IoErrorKind)
| ShutdownChanged (value : bool).
Arguments Accepted {S} stream peer.
Arguments AcceptErr {S} e.
Arguments ShutdownChanged {S} value.

(** Whether the loop has ended, and the connections handed to a new task. *)
Fixpoint accept_loop {S} (events : list (AcceptEvent S)) : bool * list (S * SocketAddr) :=
  match events with
  | [] => (false, [])
  | Accepted stream peer :: events =>
      let '(ended, tasks) := accept_loop events in (ended, (stream, peer) :: tasks)
  | AcceptErr _ :: events => accept_loop events
  | ShutdownChanged value :: events =>
      if value then (true, []) else accept_loop events
  end.

(** [None]: still waiting for an event. *)
Definition SocksServer_run {S} (bind : Outcome IoErrorKind unit) (events : list (AcceptEvent S))
    : option (Outcome SocksError unit) * list (S * SocketAddr) :=
  match bind with
  | Ok _ =>
      let '(ended, tasks) := accept_loop events in
      (if ended then Some (Ok tt) else None, tasks)
  | r => (Some (map_err SocksIo r), [])
  end.

Section server.
Context {S : Type} `{AsyncIo S}.
(** [lookup_host], [TcpStream::connect] and [local_addr]; [UdpSocket::bind]
    and its [local_addr]; whether the [n]-th outgoing UDP socket can be bound. *)
Variable lookup_host : list Z → Z → Outcome IoErrorKind (list SocketAddr).
Variable tcp_connect : SocketAddr → Outcome IoErrorKind S.
Variable local_addr : S → Outcome IoErrorKind SocketAddr.
Variable udp_bind : Outcome IoErrorKind SocketAddr.
Variable udp_out_bind : nat → bool.

(** Both directions are copied until they end; the results are dropped. *)
Definition relay_bidirectional (a b : S) : Outcome SocksError unit * S * S :=
  let '(_, (a, b)) := io_copy a b in
  let '(_, (b, a)) := io_copy b a in
  (Ok tt, a, b).

Definition connect_rep (e : IoErrorKind) : Rep :=
  match e with
  | ConnectionRefusedKind => RepConnectionRefused
  | TimedOutKind => RepTtlExpired
  | _ => RepHostUnreachable
  end.

(** The result, the client's stream and the upstream one, if opened. *)
Definition handle_connect (client : S) (req : Request)
    : Outcome SocksError unit * S * option S :=
  match to_socket_addr lookup_host (req_addr req) (req_port req) with
  | Ok target =>
      match tcp_connect target with
      | Ok upstream =>
          match map_err SocksIo (local_addr upstream) with
          | Ok local =>
              match send_reply RepSucceeded local client with
              | (Ok _, client) =>
                  let '(r, client, upstream) := relay_bidirectional client upstream in
                  (r, client, Some upstream)
              | (r, client) => (r, client, Some upstream)
              end
          | Err e => (Err e, client, Some upstream)
          | Panic => (Panic, client, Some upstream)
          | Diverge => (Diverge, client, Some upstream)
          end
      | Err e =>
          match send_reply (connect_rep e) UNSPECIFIED client with
          | (Ok _, client) => (Err (Upstream e), client, None)
          | (r, client) => (r, client, None)
          end
      | Panic => (Panic, client, None)
      | Diverge => (Diverge, client, None)
      end
  | Err e => (Err e, client, None)
  | Panic => (Panic, client, None)
  | Diverge => (Diverge, client, None)
  end.

(** ** UDP relay: the associations and the datagrams sent *)
Record UdpRelay := {
  assocs : gmap SocketAddr SocketAddr;
  sent : list (list Z * SocketAddr)
}.

Inductive UdpEvent :=
| Recv (datagram : list Z) (peer : SocketAddr)
| RecvErr (e : IoErrorKind)
| Notified.

(** One datagram, the [n]-th received. *)
Definition relay_datagram (n : nat) (datagram : list Z) (peer : SocketAddr) (st : UdpRelay)
    : Outcome SocksError UdpRelay :=
  let! hdr := parse_udp_datagram datagram in
  if negb (frag hdr =? 0) then Ok st
  else
    let! target := to_socket_addr lookup_host (udp_addr hdr) (udp_port hdr) in
    let! payload := slice datagram (payload_offset hdr) (length datagram) in
    Ok {| assocs := <[target := peer]> (assocs st);
          sent := sent st ++ if udp_out_bind n then [(payload, target)] else [] |}.

(** [None]: still waiting for an event. *)
Fixpoint relay_udp (n : nat) (events : list UdpEvent) (st : UdpRelay)
    : option (Outcome SocksError unit) * UdpRelay :=
  match events with
  | [] => (None, st)
  | Recv datagram peer :: events =>
      match relay_datagram n datagram peer st with
      | Ok st => relay_udp (1 + n) events st
      | Err e => (Some (Err e), st)
      | Panic => (Some Panic, st)
      | Diverge => (Some Diverge, st)
      end
  | RecvErr e :: _ => (Some (Err (SocksIo e)), st)
  | Notified :: _ => (Some (Ok tt), st)
  end.

Definition relay_start : UdpRelay := {| assocs := ∅; sent := [] |}.

(** The relay task has run on [events] when the control connection closes and
    it is notified; its result is dropped. *)
Definition handle_udp_associate (events : list UdpEvent) (client : S)
    : Outcome SocksError unit * S * UdpRelay :=
  match map_err SocksIo udp_bind with
  | Ok local =>
      match send_reply RepSucceeded local client with
      | (Ok _, client) =>
          let '(_, client) := io_read 1 client in
          let '(_, st) := relay_udp 0 (events ++ [Notified]) relay_start in
          (Ok tt, client, st)
      | (r, client) => (r, client, relay_start)
      end
  | Err e => (Err e, client, relay_start)
  | Panic => (Panic, client, relay_start)
  | Diverge => (Diverge, client, relay_start)
  end.

(** [handle_connection]: the result, the client's stream, the upstream one. *)
Definition handle_connection (cfg : ServerConfig) (events : list UdpEvent) (sock : S)
    : Outcome SocksError unit * S * option S :=
  match (let? _ := negotiate_method (auth_enabled cfg) in read_request) sock with
  | (Ok req, sock) =>
      match req_cmd req with
      | Connect => handle_connect sock req
      | UdpAssociate =>
          let '(r, sock, _) := handle_udp_associate events sock in (r, sock, None)
      | Bind =>
          let '(r, sock) := send_reply RepCommandNotSupported UNSPECIFIED sock in
          (r, sock, None)
      end
  | (Err e, sock) => (Err e, sock, None)
  | (Panic, sock) => (Panic, sock, None)
  | (Diverge, sock) => (Diverge, sock, None)
  end.
End server.

(** ** The server against the client *)
Lemma negotiate_mk auth rest s out :
  negotiate_method auth (mk (client_greeting ++ rest) s out)
    = (Ok METHOD_NO_AUTH, mk rest s (out ++ [VERSION; METHOD_NO_AUTH])).
Proof.
  unfold negotiate_method, client_greeting.
  change ([5; 1; METHOD_NO_AUTH] ++ rest) with ([5; 1] ++ [METHOD_NO_AUTH] ++ rest).
  io_step. cbn [lookup_total list_lookup_total negb VERSION Z.eqb Pos.eqb].
  io_step. rewrite decide_True by set_solver. by io_step.
Qed.

Section agreement.
Context {S : Type} `{AsyncIoLaws S}.
Variable lookup_host : list Z → Z → Outcome IoErrorKind (list SocketAddr).
Variable tcp_connect : SocketAddr → Outcome IoErrorKind S.
Variable local_addr : S → Outcome IoErrorKind SocketAddr.
Variable udp_bind : Outcome IoErrorKind SocketAddr.
Variable udp_out_bind : nat → bool.
Abbreviation serve := (handle_connection lookup_host tcp_connect local_addr udp_bind udp_out_bind).

(** What a client of this crate sends to open a tunnel, with [data] behind. *)
Definition client_sends (cmd : Cmd) (a : AddrSpec) (port : Z) (data : list Z) : list Z :=
  client_greeting ++ wire_request cmd 0 a port ++ data.

Lemma read_client auth cmd a port data (sock : S) :
  spec_ok a → u16 port → feeding (client_sends cmd a port data) (view sock) →
  ∃ sock', (let? _ := negotiate_method auth in read_request) sock
             = (Ok {| req_cmd := cmd; req_addr := a; req_port := port |}, sock') ∧
           view sock' = mk data (view sock) [VERSION; METHOD_NO_AUTH].
Proof.
  intros Ha Hp Hs. eapply sim_run; [apply sim_bind; [apply sim_negotiate|intros ?; apply sim_read_request]|].
  rewrite (feeding_mk _ _ Hs) at 1. unfold client_sends.
  erewrite ibind_step by apply negotiate_mk. by apply read_request_mk.
Qed.

Lemma send_reply_view r bnd (c : S) rest s out :
  view c = mk rest s out →
  ∃ c', send_reply r bnd c = (Ok tt, c') ∧ view c' = mk rest s (out ++ wire_reply r bnd).
Proof.
  intros Hv. eapply sim_run; [apply sim_send_reply|]. rewrite Hv. apply send_reply_mk.
Qed.

Lemma io_copy_view (a b : S) :
  rx_end (view a) = None → tx_room (view b) = None →
  ∃ a' b', io_copy a b = (Ok (Z.of_nat (length (rx (view a)))), (a', b')) ∧
    view a' = set_rx [] (view a) ∧ view b' = mk (rx (view b)) (view b) (rx (view a)).
Proof.
  intros Ha Hb. pose proof (io_copy_law a b Ha Hb) as Hl. unfold stream_copy, stream_write_all in Hl.
  rewrite Ha, Hb in Hl. destruct (io_copy a b) as [r [a' b']]. simpl in Hl.
  injection Hl as -> Hva Hvb. exists a', b'. done.
Qed.

Lemma client_opens (a : AddrSpec) (port : Z) bnd resp (c : S) :
  sockaddr_ok bnd →
  feeding ([VERSION; METHOD_NO_AUTH] ++ wire_reply RepSucceeded bnd ++ resp) (view c) →
  ∃ c', SocksClient_connect (Ok c) a port = Ok c' ∧ feeding resp (view c') ∧
    tx (view c') = tx (view c) ++ client_greeting ++ wire_request Connect 0 a port ∧
    rx_end (view c') = rx_end (view c).
Proof.
  intros Hb Hc. edestruct (sim_run (client_handshake a port) (client_handshake a port) c)
    as (c' & Hr & Hv); [apply sim_client_handshake| |].
  - rewrite (feeding_mk _ _ Hc) at 1. by apply client_handshake_mk.
  - exists c'. unfold SocksClient_connect. cbn [map_err obind]. rewrite Hr, Hv. by split_and!.
Qed.

(** The server's half of the tunnel. *)
Lemma server_tunnels cfg events a port dst local data resp (sock up : S) :
  spec_ok a → u16 port → to_socket_addr lookup_host a port = Ok dst →
  tcp_connect dst = Ok up → local_addr up = Ok local →
  feeding (client_sends Connect a port data) (view sock) → rx_end (view sock) = None →
  feeding resp (view up) → rx_end (view up) = None →
  ∃ sock' up', serve cfg events sock = (Ok tt, sock', Some up') ∧
    tx (view up') = tx (view up) ++ data ∧
    tx (view sock') = tx (view sock) ++ [VERSION; METHOD_NO_AUTH] ++ wire_reply RepSucceeded local ++ resp.
Proof.
  intros Ha Hp Hdst Hconn Hlocal Hs Hse Hu Hue.
  unfold handle_connection.
  destruct (read_client (auth_enabled cfg) Connect a port data sock) as (s1 & -> & Hv1); [done..|].
  cbn [req_cmd]. unfold handle_connect. cbn [req_addr req_port]. rewrite Hdst, Hconn, Hlocal. cbn [map_err].
  destruct (send_reply_view RepSucceeded local s1 _ _ _ Hv1) as (s2 & -> & Hv2).
  destruct Hu as [Hur Hut]. unfold relay_bidirectional.
  destruct (io_copy_view s2 up) as (s3 & u3 & -> & Hvs3 & Hvu3); [by rewrite Hv2|done|].
  rewrite Hv2 in Hvs3, Hvu3. cbn [mk set_rx rx tx rx_end chunks tx_room] in Hvs3, Hvu3.
  destruct (io_copy_view u3 s3) as (u4 & s4 & -> & Hvu4 & Hvs4);
    [by rewrite Hvu3|by rewrite Hvs3|].
  exists s4, u4. split; [done|]. rewrite Hvu4, Hvs4, Hvu3, Hvs3.
  cbn [mk set_rx rx tx].
  rewrite Hur. split; [done|]. by rewrite <- !app_assoc.
Qed.

(** C7. The tunnel is transparent: when a client of this crate sends its
    greeting and a CONNECT request and then [data], and the target can be
    reached and answers [resp], the server writes [data], all of it and
    nothing else, to the target, and answers the method choice, the reply and
    then [resp]; a client that receives that answer has written exactly the
    greeting and the request, and gets a stream positioned at the first byte
    of [resp]. *)
Theorem tunnel_transparent (cfg : ServerConfig) (events : list UdpEvent)
    (a : AddrSpec) (port : Z) (dst local : SocketAddr) (data resp : list Z) (sock up : S)
    (Ha : spec_ok a) (Hp : u16 port) (Hlok : sockaddr_ok local)
    (Hdst : to_socket_addr lookup_host a port = Ok dst)
    (Hconn : tcp_connect dst = Ok up) (Hlocal : local_addr up = Ok local)
    (Hs : feeding (client_sends Connect a port data) (view sock)) (Hse : rx_end (view sock) = None)
    (Hu : feeding resp (view up)) (Hue : rx_end (view up) = None) :
  (∃ sock' up', serve cfg events sock = (Ok tt, sock', Some up') ∧
     tx (view up') = tx (view up) ++ data ∧
     tx (view sock') = tx (view sock) ++ [VERSION; METHOD_NO_AUTH]
                         ++ wire_reply RepSucceeded local ++ resp) ∧
  ∀ c : S, feeding ([VERSION; METHOD_NO_AUTH] ++ wire_reply RepSucceeded local ++ resp) (view c) →
    ∃ c', SocksClient_connect (Ok c) a port = Ok c' ∧ feeding resp (view c') ∧
      tx (view c') = tx (view c) ++ client_greeting ++ wire_request Connect 0 a port.
Proof.
  split; [by apply (server_tunnels cfg events a port dst)|].
  intros c Hc; destruct (client_opens a port local resp c) as (c' & ? & ? & ? & _); by eauto.
Qed.

Lemma client_refused (a : AddrSpec) (port : Z) r bnd rest (c : S) :
  r ≠ RepSucceeded → sockaddr_ok bnd →
  feeding ([VERSION; METHOD_NO_AUTH] ++ wire_reply r bnd ++ rest) (view c) →
  SocksClient_connect (Ok c) a port = Err (ServerReply (Rep_code r)).
Proof.
  intros Hr Hb Hc. destruct (client_refused_mk a port r bnd rest (view c) []) as [t Ht]; [done..|].
  edestruct (sim_run (client_handshake a port) (client_handshake a port) c)
    as (c' & Hrun & Hv); [apply sim_client_handshake| |].
  - rewrite (feeding_mk _ _ Hc) at 1. exact Ht.
  - unfold SocksClient_connect. cbn [map_err obind]. by rewrite Hrun.
Qed.

Lemma unspecified_ok : sockaddr_ok UNSPECIFIED.
Proof. split; [split; [done|repeat constructor; lia]|split; lia]. Qed.

End agreement.

(** A run: the target answers [7; 7]. *)
Lemma tunnel_transparent_witness :
  let a := AddrIpv4 [1; 1; 1; 1] in
  let local := SockV4 [10; 0; 0; 1] 4000 in
  ∃ sock' up', handle_connection (λ _ _, Ok []) (λ _, Ok (from_peer [7; 7])) (λ _, Ok local)
      (Ok local) (λ _, true) ServerConfig_default [] (from_peer (client_sends Connect a 443 [1; 2; 3]))
    = (Ok tt, sock', Some up') ∧ tx up' = [1; 2; 3] ∧
      tx sock' = [5; 0; 5; 0; 0; 1; 10; 0; 0; 1; 15; 160; 7; 7].
Proof.
  destruct (tunnel_transparent (λ _ _, Ok []) (λ _, Ok (from_peer [7; 7]))
    (λ _, Ok (SockV4 [10; 0; 0; 1] 4000)) (Ok (SockV4 [10; 0; 0; 1] 4000)) (λ _, true)
    ServerConfig_default [] (AddrIpv4 [1; 1; 1; 1]) 443 (SockV4 [1; 1; 1; 1] 443)
    (SockV4 [10; 0; 0; 1] 4000) [1; 2; 3] [7; 7]
    (from_peer (client_sends Connect (AddrIpv4 [1; 1; 1; 1]) 443 [1; 2; 3])) (from_peer [7; 7]))
    as [H _]; try done.
  - split; [reflexivity|repeat constructor; lia].
  - split; [split; [reflexivity|repeat constructor; lia]|split; lia].
Defined.


(** ** The UDP relay *)
Section udp_relay.
Variable lookup_host : list Z → Z → Outcome IoErrorKind (list SocketAddr).
Variable udp_out_bind : nat → bool.

(** A datagram of a client, and where it goes. *)
Record Dgram := { d_addr : AddrSpec; d_port : Z; d_payload : list Z; d_peer : SocketAddr }.
Definition recv_of (d : Dgram) : UdpEvent :=
  Recv (wire_datagram 0 (d_addr d) (d_port d) (d_payload d)) (d_peer d).
Definition goes_to (d : Dgram) (target : SocketAddr) : Prop :=
  spec_ok (d_addr d) ∧ u16 (d_port d) ∧
  to_socket_addr lookup_host (d_addr d) (d_port d) = Ok target.

Lemma relay_datagram_encode n d target st :
  goes_to d target →
  relay_datagram lookup_host udp_out_bind n
    (wire_datagram 0 (d_addr d) (d_port d) (d_payload d)) (d_peer d) st =
  Ok {| assocs := <[target := d_peer d]> (assocs st);
        sent := sent st ++ if udp_out_bind n then [(d_payload d, target)] else [] |}.
Proof.
  intros (Ha & Hp & Ht). unfold relay_datagram.
  rewrite parse_udp_datagram_encode by done. cbn [obind frag udp_addr udp_port payload_offset negb Z.eqb].
  rewrite Ht. cbn [obind].
  assert (length (encode_address (d_addr d) (d_port d) [0; 0; 0]%Z) = 6 + length (body_of (d_addr d)))%nat
    as Hlen by (rewrite encode_address_eq; simpl; rewrite length_app; simpl; lia).
  rewrite slice_ok by (unfold wire_datagram; rewrite ?length_app; lia). cbn [obind].
  rewrite take_ge by (rewrite length_drop; lia).
  unfold wire_datagram. by rewrite drop_app_length' by done.
Qed.

Lemma relay_udp_encode n ds targets events st :
  Forall2 goes_to ds targets → (∀ i, udp_out_bind i = true) →
  ∃ st', relay_udp lookup_host udp_out_bind n (map recv_of ds ++ events) st
           = relay_udp lookup_host udp_out_bind (length ds + n) events st' ∧
    sent st' = sent st ++ zip (d_payload <$> ds) targets.
Proof.
  intros Hd Hout. revert n st. induction Hd as [|d target ds targets Hd _ IH]; intros n st.
  { exists st. simpl. by rewrite app_nil_r. }
  cbn [map app recv_of relay_udp]. unfold recv_of at 1.
  rewrite (relay_datagram_encode _ _ target) by done. rewrite Hout.
  edestruct (IH (1 + n)%nat) as (st' & -> & Hs). exists st'.
  replace (length (d :: ds) + n)%nat with (length ds + (1 + n))%nat by (simpl; lia).
  split; [done|]. rewrite Hs. simpl. by rewrite <- app_assoc.
Qed.

(** C32. The UDP relay forwards every datagram of a well-behaved client, in
    order, payload only, to the address in its header, and ends normally when
    the control connection closes; but the first datagram that does not parse
    ends the whole association with that error: nothing received after it is
    forwarded. *)
Theorem relay_udp_spec (ds : list Dgram) (targets : list SocketAddr)
    (bad : list Z) (peer : SocketAddr) (e : SocksError) (later : list UdpEvent)
    (Hd : Forall2 goes_to ds targets) (Hout : ∀ i, udp_out_bind i = true)
    (Hbad : parse_udp_datagram bad = Err e) :
  let run events := relay_udp lookup_host udp_out_bind 0 (map recv_of ds ++ events) relay_start in
  (run [Notified]).1 = Some (Ok tt) ∧
  sent (run [Notified]).2 = zip (d_payload <$> ds) targets ∧
  (run (Recv bad peer :: later)).1 = Some (Err e) ∧
  sent (run (Recv bad peer :: later)).2 = zip (d_payload <$> ds) targets.
Proof.
  cbv zeta.
  destruct (relay_udp_encode 0 ds targets [Notified] relay_start) as (st & -> & Hs); [done..|].
  destruct (relay_udp_encode 0 ds targets (Recv bad peer :: later) relay_start)
    as (st' & -> & Hs'); [done..|].
  cbn [relay_udp]. unfold relay_datagram. by rewrite Hbad.
Qed.
End udp_relay.

Lemma relay_udp_spec_witness :
  let d := {| d_addr := AddrIpv4 [8; 8; 8; 8]; d_port := 53; d_payload := [1; 2];
              d_peer := UNSPECIFIED |} in
  (relay_udp (λ _ _, Ok []) (λ _, true) 0 ([recv_of d] ++ [Recv [0] UNSPECIFIED; recv_of d])
     relay_start).1 = Some (Err PrematureEof).
Proof.
  set (d := {| d_addr := AddrIpv4 [8; 8; 8; 8]; d_port := 53; d_payload := [1; 2];
               d_peer := UNSPECIFIED |}).
  refine (proj1 (proj2 (proj2 (relay_udp_spec (λ _ _, Ok []) (λ _, true) [d]
    [SockV4 [8; 8; 8; 8] 53] [0] UNSPECIFIED PrematureEof [recv_of d] _ _ _)))); [|done|done].
  constructor; [|done]. split; [split; [reflexivity|repeat constructor; lia]|].
  split; [split; simpl; lia|reflexivity].
Defined.
