(* ===== verification/Dns.v ===== *)
(** * gravital-dns: the protected resolver, the interceptor and the leak check

    The answers of the network to one query ([UdpSocket::bind], [connect],
    [send], and [recv] under the timeout) are a parameter; what the code sends
    and to whom is part of the result. *)

From Stdlib Require Import ZArith Lia.
From stdpp Require Import sets.
From S2P Require Import Prelude Bytes Net Io.
Local Open Scope Z_scope.

(** ** error.rs *)
Inductive DnsError :=
| DnsIo (e : IoErrorKind)
| ResolveFailed (host reason : list Z)
| LeakDetected
| InvalidPacket
| DnsTimeout (what : list Z).

(** ** resolver.rs *)
Definition DEFAULT_RESOLVER : list Z := [1; 1; 1; 1].
Definition DNS_PORT : Z := 53.

Record DnsResolver := { server : SocketAddr }.

Definition DnsResolver_new (ip : IpAddr) : DnsResolver :=
  {| server := SocketAddr_new ip DNS_PORT |}.
Definition DnsResolver_with_default : DnsResolver := DnsResolver_new (IpV4 DEFAULT_RESOLVER).
Definition server_addr (r : DnsResolver) : SocketAddr := server r.

(** What the network answers; [net_recv = None]: nothing before the timeout. *)
Record UdpNet := {
  net_bind : Outcome IoErrorKind unit;
  net_connect : Outcome IoErrorKind unit;
  net_send : Outcome IoErrorKind unit;
  net_recv : option (Outcome IoErrorKind (list Z))
}.

(** ["query"]. *)
Definition QUERY : list Z := [113; 117; 101; 114; 121].

(** The response, at most the 4096 bytes of the buffer; and the datagrams
    handed to the network. *)
Definition forward_raw (net : UdpNet) (r : DnsResolver) (query : list Z)
    : Outcome DnsError (list Z) * list (SocketAddr * list Z) :=
  match
    (let! _ := map_err DnsIo (net_bind net) in map_err DnsIo (net_connect net))
  with
  | Ok _ =>
      (let! _ := map_err DnsIo (net_send net) in
       match net_recv net with
       | None => Err (DnsTimeout QUERY)
       | Some m =>
           let! datagram := map_err DnsIo m in
           Ok (take 4096 datagram)
       end,
       [(server r, query)])
  | Err e => (Err e, [])
  | Panic => (Panic, [])
  | Diverge => (Diverge, [])
  end.

(** ** interceptor.rs *)
Record DnsInterceptor := {
  resolver : DnsResolver; metrics_dns_queries : Z; metrics_dns_failures : Z
}.

Definition DnsInterceptor_new (r : DnsResolver) : DnsInterceptor :=
  {| resolver := r; metrics_dns_queries := 0; metrics_dns_failures := 0 |}.

Definition build_servfail (query : list Z) : Outcome DnsError (list Z) :=
  if (length query <? 2)%nat then Ok []
  else
    let resp := query in
    if (4 <=? length resp)%nat then
      let! resp := set_idx resp 2 0x81 in
      set_idx resp 3 0x82
    else Ok resp.

(** [fetch_add] wraps. *)
Definition incr64 (n : Z) : Z := cast 64 (n + 1).

Definition handle_query (net : UdpNet) (query_payload : list Z) (d : DnsInterceptor)
    : Outcome DnsError (list Z) * list (SocketAddr * list Z) * DnsInterceptor :=
  let d := {| resolver := resolver d; metrics_dns_queries := incr64 (metrics_dns_queries d);
              metrics_dns_failures := metrics_dns_failures d |} in
  match forward_raw net (resolver d) query_payload with
  | (Ok resp, sent) => (Ok resp, sent, d)
  | (Err _, sent) =>
      (build_servfail query_payload, sent,
       {| resolver := resolver d; metrics_dns_queries := metrics_dns_queries d;
          metrics_dns_failures := incr64 (metrics_dns_failures d) |})
  | (Panic, sent) => (Panic, sent, d)
  | (Diverge, sent) => (Diverge, sent, d)
  end.

Definition dns_queries_total (d : DnsInterceptor) : Z := metrics_dns_queries d.
Definition dns_failures_total (d : DnsInterceptor) : Z := metrics_dns_failures d.

(** ** leak_check.rs *)
Definition build_canary_query : list Z :=
  [0xDE; 0xAD; 0x01; 0x00; 0x00; 0x01; 0x00; 0x00; 0x00; 0x00; 0x00; 0x00;
   0x03; 111; 110; 101; 0x03; 111; 110; 101; 0x03; 111; 110; 101; 0x03; 111; 110; 101; 0x00;
   0x00; 0x01; 0x00; 0x01].

(** [timed_out]: the outer eight seconds elapsed first. *)
Definition LeakCheck_run (net : UdpNet) (timed_out : bool) (r : DnsResolver) : Outcome DnsError unit :=
  let query := build_canary_query in
  if timed_out then Err LeakDetected
  else match (forward_raw net r query).1 with
       | Ok (_ :: _) => Ok tt
       | Ok [] | Err _ => Err LeakDetected
       | Panic => Panic
       | Diverge => Diverge
       end.

(** ** Properties *)

(** What the network may answer: tokio's calls return. *)
Record net_ok (net : UdpNet) : Prop := {
  bind_ok : returned (net_bind net);
  connect_ok : returned (net_connect net);
  send_ok : returned (net_send net);
  recv_ok : ∀ m, net_recv net = Some m → returned m
}.

Lemma forward_raw_returned net r q : net_ok net → returned (forward_raw net r q).1.
Proof.
  intros [Hb Hc Hs Hr]. unfold forward_raw.
  destruct (net_bind net), (net_connect net), (net_send net); try done.
  simpl. destruct (net_recv net) as [m|] eqn:Hm; [|done].
  specialize (Hr m eq_refl). by destruct m.
Qed.

Lemma forward_raw_sent net r q a q' : (a, q') ∈ (forward_raw net r q).2 → a = server r ∧ q' = q.
Proof.
  unfold forward_raw. destruct (net_bind net), (net_connect net); simpl; set_solver.
Qed.

Lemma build_servfail_eq query :
  build_servfail query =
    Ok (if (length query <? 2)%nat then []
        else if (4 <=? length query)%nat then <[3%nat := 0x82]> (<[2%nat := 0x81]> query) else query).
Proof.
  unfold build_servfail. destruct (_ <? 2)%nat; [done|].
  destruct (Nat.leb_spec 4 (length query)); [|done].
  rewrite set_idx_ok by lia. cbn [obind]. by rewrite set_idx_ok by len.
Qed.

(** C19. No DNS leak: [handle_query] always answers. Whatever the network
    does, the query is sent to no server but the configured one, port 53, and
    unchanged; a response from it is passed on (its first 4096 bytes); and
    every failure (socket, send, receive or timeout) is answered with SERVFAIL,
    that is the query with its flags replaced by QR, RD, RA and RCODE 2 (same
    transaction id and question, for a query of at least a DNS header's flags),
    and is counted. *)
Theorem handle_query_spec (net : UdpNet) (ip : IpAddr) (query : list Z) (d : DnsInterceptor)
    (Hn : net_ok net) (Hd : resolver d = DnsResolver_new ip) :
  let '(answer, sent, d') := handle_query net query d in
  (∀ a q, (a, q) ∈ sent → a = SocketAddr_new ip 53 ∧ q = query) ∧
  metrics_dns_queries d' = incr64 (metrics_dns_queries d) ∧ resolver d' = resolver d ∧
  match (forward_raw net (DnsResolver_new ip) query).1 with
  | Ok resp => answer = Ok resp ∧ metrics_dns_failures d' = metrics_dns_failures d
  | _ =>
      metrics_dns_failures d' = incr64 (metrics_dns_failures d) ∧
      ∃ resp, answer = Ok resp ∧
        ((length query < 2)%nat → resp = []) ∧
        ((4 ≤ length query)%nat →
           length resp = length query ∧ resp !!! 2%nat = 0x81 ∧ resp !!! 3%nat = 0x82 ∧
           ∀ i, i ∉ [2; 3]%nat → resp !!! i = query !!! i)
  end.
Proof.
  unfold handle_query. cbn [resolver]. rewrite Hd.
  pose proof (forward_raw_returned net (DnsResolver_new ip) query Hn) as Hret.
  pose proof (forward_raw_sent net (DnsResolver_new ip) query) as Hsent.
  destruct (forward_raw net (DnsResolver_new ip) query) as [r sent]. simpl in Hret, Hsent.
  destruct r as [resp|e| |]; try done. cbn [fst].
  do 3 (split; [done|]). split; [done|]. rewrite build_servfail_eq.
  eexists. split; [reflexivity|]. split.
  - intros Hl. by rewrite (proj2 (Nat.ltb_lt _ _) Hl).
  - intros Hl. destruct (Nat.ltb_spec (length query) 2); [lia|].
    rewrite (proj2 (Nat.leb_le _ _) Hl). split; [len|].
    rewrite !total_insert by len. split; [done|]. split; [done|].
    intros i Hi. rewrite !total_insert by len. rewrite !decide_False by notin. done.
Qed.

(** The resolver does not answer. *)
Definition net_silent : UdpNet :=
  {| net_bind := Ok tt; net_connect := Ok tt; net_send := Ok tt; net_recv := None |}.

Lemma handle_query_spec_witness :
  net_ok net_silent ∧
  (handle_query net_silent build_canary_query (DnsInterceptor_new DnsResolver_with_default)).1.2
    = [(SockV4 [1; 1; 1; 1] 53, build_canary_query)] ∧
  metrics_dns_failures
    (handle_query net_silent build_canary_query (DnsInterceptor_new DnsResolver_with_default)).2 = 1.
Proof.
  assert (net_ok net_silent) as Hn by (split; done).
  split; [exact Hn|]. split; [reflexivity|].
  exact (proj1 (proj2 (proj2 (proj2 (handle_query_spec net_silent (IpV4 [1; 1; 1; 1]) build_canary_query
    (DnsInterceptor_new DnsResolver_with_default) Hn eq_refl))))).
Defined.
