(* ===== verification/DnsPacket.v ===== *)
(** * gravital-engine/src/runner.rs, the DNS packet helpers

    Recognising a DNS query in a packet from the TUN device, and building the
    packet that carries the response back. *)

From Stdlib Require Import ZArith Lia.
From S2P Require Import Prelude Bytes Net Checksum Proto Rewrite.
Local Open Scope Z_scope.

Section code.
Context {E : Type} {B : Build}.

Definition udp_dst_port (p : list Z) : Outcome E (option Z) :=
  if (length p <? 20)%nat then Ok None else
  let! b0 := idx p 0 in
  if negb (Z.shiftr b0 4 =? 4) then Ok None else
  let! proto := idx p 9 in
  if negb (proto =? 17) then Ok None else
  let ihl := low_nibble_words b0 in
  if (length p <? ihl + 8)%nat then Ok None else
  let! hi := idx p (ihl + 2) in
  let! lo := idx p (ihl + 3) in
  Ok (Some (be16 hi lo)).

Definition extract_udp_payload (p : list Z) : Outcome E (option (list Z)) :=
  if (length p <? 20)%nat then Ok None else
  let! b0 := idx p 0 in
  if negb (Z.shiftr b0 4 =? 4) then Ok None else
  let! proto := idx p 9 in
  if negb (proto =? 17) then Ok None else
  let ihl := low_nibble_words b0 in
  if (length p <? ihl + 8)%nat then Ok None else
  let! hi := idx p (ihl + 4) in
  let! lo := idx p (ihl + 5) in
  let udp_len := Z.to_nat (be16 hi lo) in
  if (udp_len <? 8)%nat || (length p <? ihl + udp_len)%nat then Ok None else
  let! payload := slice p (ihl + 8) (ihl + udp_len) in
  Ok (Some payload).

Definition rfc1071 (data : list Z) : Outcome E Z :=
  let! sum := sum_chunks (chunks_exact2 data) 0 in
  let! sum :=
    match chunks_remainder2 data with
    | [t] => arith 32 (sum + Z.shiftl t 8)
    | _ => Ok sum
    end in
  let! sum := carry_loop CARRY_FUEL sum in
  Ok (unot 16 (cast 16 sum)).

Definition fix_ip4_checksum (pkt : list Z) : Outcome E (list Z) :=
  let! pkt := set_idx pkt 10 0 in
  let! pkt := set_idx pkt 11 0 in
  let! hdr := slice pkt 0 20 in
  let! c := rfc1071 hdr in
  copy_from_slice pkt 10 12 (to_be16 c).

Definition fix_udp_checksum (pkt : list Z) : Outcome E (list Z) :=
  let! b0 := idx pkt 0 in
  let ihl := low_nibble_words b0 in
  let! udp_len := usize_sub (length pkt) ihl in
  let! pkt := set_idx pkt (ihl + 6) 0 in
  let! pkt := set_idx pkt (ihl + 7) 0 in
  let! s := slice pkt 12 16 in
  let! sum := sum_chunks (chunks_exact2 s) 0 in
  let! d := slice pkt 16 20 in
  let! sum := sum_chunks (chunks_exact2 d) sum in
  let! sum := arith 32 (sum + 17) in
  let! sum := arith 32 (sum + cast 32 udp_len) in
  let! seg := slice_from pkt ihl in
  let! sum := sum_chunks (chunks_exact2 seg) sum in
  let! sum :=
    match chunks_remainder2 seg with
    | [t] => arith 32 (sum + Z.shiftl t 8)
    | _ => Ok sum
    end in
  let! sum := carry_loop CARRY_FUEL sum in
  let csum := unot 16 (cast 16 sum) in
  copy_from_slice pkt (ihl + 6) (ihl + 8) (to_be16 csum).

Definition build_udp_reply (p dns_resp : list Z) : Outcome E (option (list Z)) :=
  if (length p <? 28)%nat then Ok None else
  let! b0 := idx p 0 in
  if negb (Z.shiftr b0 4 =? 4) then Ok None else
  let! proto := idx p 9 in
  if negb (proto =? 17) then Ok None else
  let ihl := low_nibble_words b0 in
  let! src_ip := slice p 12 16 in
  let! dst_ip := slice p 16 20 in
  let! src_port := slice p ihl (ihl + 2) in
  let! dst_port := slice p (ihl + 2) (ihl + 4) in
  let udp_len := cast 16 (8 + Z.of_nat (length dns_resp)) in
  let total := (20 + Z.to_nat udp_len)%nat in
  let out := replicate total 0 in
  let! out := set_idx out 0 0x45 in
  let! out := copy_from_slice out 2 4 (to_be16 (cast 16 (Z.of_nat total))) in
  let! out := set_idx out 8 64 in
  let! out := set_idx out 9 17 in
  let! out := copy_from_slice out 12 16 dst_ip in
  let! out := copy_from_slice out 16 20 src_ip in
  let! out := copy_from_slice out 20 22 dst_port in
  let! out := copy_from_slice out 22 24 src_port in
  let! out := copy_from_slice out 24 26 (to_be16 udp_len) in
  let! out := copy_from_slice out 28 (length out) dns_resp in
  let! out := fix_ip4_checksum out in
  let! out := fix_udp_checksum out in
  Ok (Some out).
End code.

(** ** Specification vocabulary *)

(** The guards of the helpers: an IPv4/UDP packet with room for the UDP
    header after the IP header. *)
Definition is_udp4 (p : list Z) : bool :=
  (20 <=? length p)%nat && ((p !!! 0%nat) / 16 =? 4) && (p !!! 9%nat =? 17) &&
  (ihl_of p + 8 <=? length p)%nat.

Definition udp_len_of (p : list Z) : nat :=
  Z.to_nat (be16 (p !!! (ihl_of p + 4)%nat) (p !!! (ihl_of p + 5)%nat)).

Definition udp_pseudo_header (pkt : list Z) : list Z :=
  take 4 (drop 12 pkt) ++ take 4 (drop 16 pkt) ++ [0; 17] ++
  to_be16 (Z.of_nat (length pkt - ihl_of pkt)).

(** RFC 768: the checksum over pseudo header and datagram. *)
Definition udp_checksum_valid {B : Build} (pkt : list Z) : Prop :=
  internet_checksum (E := ParseError) (udp_pseudo_header pkt ++ drop (ihl_of pkt) pkt) = Ok 0.

Definition udp_csum (pkt : list Z) : Z :=
  65535 - ones_sum (words_sum (udp_pseudo_header pkt) +
                    words_sum (drop (ihl_of pkt) (put16 (ihl_of pkt + 6) 0 pkt))).

(** ** The helpers, computed *)
Section lemmas.
Context {E : Type} {B : Build}.

Lemma is_udp4_spec p :
  is_udp4 p = true ↔
  (20 ≤ length p)%nat ∧ (p !!! 0%nat) / 16 = 4 ∧ p !!! 9%nat = 17 ∧ (ihl_of p + 8 ≤ length p)%nat.
Proof. unfold is_udp4. rewrite !andb_true_iff, !Nat.leb_le, !Z.eqb_eq. tauto. Qed.

Lemma udp4_guards {A} p (no : Outcome E A) (yes : nat → Outcome E A) :
  (if (length p <? 20)%nat then no else
   let! b0 := idx p 0 in
   if negb (Z.shiftr b0 4 =? 4) then no else
   let! proto := idx p 9 in
   if negb (proto =? 17) then no else
   if (length p <? low_nibble_words b0 + 8)%nat then no else yes (low_nibble_words b0))
  = if is_udp4 p then yes (ihl_of p) else no.
Proof.
  unfold is_udp4, ihl_of. rewrite !Nat.leb_antisym.
  destruct (Nat.ltb_spec (length p) 20); [done|]. cbn [negb andb].
  run_bytes. rewrite shiftr_4.
  destruct (_ =? 4); [cbn [negb andb]|done].
  run_bytes. destruct (_ =? 17); [cbn [negb andb]|done].
  by destruct (_ <? _)%nat.
Qed.

Lemma udp_dst_port_eq p :
  udp_dst_port (E := E) p =
    Ok (if is_udp4 p then Some (be16 (p !!! (ihl_of p + 2)%nat) (p !!! (ihl_of p + 3)%nat)) else None).
Proof.
  unfold udp_dst_port.
  rewrite (udp4_guards p _ (λ ihl, let! hi := idx p (ihl + 2) in let! lo := idx p (ihl + 3) in
    Ok (Some (be16 hi lo)))).
  destruct (is_udp4 p) eqn:Hu; [|done]. apply is_udp4_spec in Hu as (? & _ & _ & ?). by run_bytes.
Qed.

Lemma extract_udp_payload_eq p :
  extract_udp_payload (E := E) p =
    Ok (if is_udp4 p && (8 <=? udp_len_of p)%nat && (ihl_of p + udp_len_of p <=? length p)%nat
        then Some (take (udp_len_of p - 8) (drop (ihl_of p + 8) p)) else None).
Proof.
  unfold extract_udp_payload.
  rewrite (udp4_guards p _ (λ ihl, let! hi := idx p (ihl + 4) in let! lo := idx p (ihl + 5) in
    let udp_len := Z.to_nat (be16 hi lo) in
    if (udp_len <? 8)%nat || (length p <? ihl + udp_len)%nat then Ok None else
    let! payload := slice p (ihl + 8) (ihl + udp_len) in Ok (Some payload))).
  destruct (is_udp4 p) eqn:Hu; [|done]. apply is_udp4_spec in Hu as (? & _ & _ & ?). run_bytes.
  fold (udp_len_of p). rewrite !Nat.leb_antisym.
  destruct (Nat.ltb_spec (udp_len_of p) 8); [done|].
  destruct (Nat.ltb_spec (length p) (ihl_of p + udp_len_of p)); [done|]. cbn [orb negb andb].
  run_bytes. by replace (ihl_of p + udp_len_of p - (ihl_of p + 8))%nat with (udp_len_of p - 8)%nat by lia.
Qed.

Lemma rfc1071_ok data :
  is_bytes data → Z.of_nat (length data) ≤ 131072 →
  rfc1071 (E := E) data = Ok (65535 - ones_sum (words_sum data)).
Proof.
  intros. change (rfc1071 data) with (checksum (E := E) data).
  by rewrite checksum_internet, internet_checksum_ok.
Qed.

Lemma fix_ip4_ok pkt :
  is_bytes pkt → (20 ≤ length pkt)%nat → ihl_of pkt = 20%nat →
  fix_ip4_checksum (E := E) pkt = Ok (put16 10 (ipv4_csum pkt) pkt).
Proof.
  intros Hb Hl Hi. unfold fix_ip4_checksum. run_bytes. rewrite zero_put16 by lia.
  rewrite rfc1071_ok by (auto with rust; len). cbn [obind]. rewrite drop_0.
  rewrite copy_from_slice_ok by len. unfold ipv4_csum. rewrite Hi.
  change (20 - 0)%nat with 20%nat.
  set (c := 65535 - _). fold (put16 10 c (put16 10 0 pkt)). by rewrite put16_put16 by lia.
Qed.

Lemma addr_sum_ok l k :
  is_bytes l → length l = 4%nat → 0 ≤ k → k < 2 ^ 20 →
  sum_chunks (E := E) (chunks_exact2 l) k = Ok (k + words_sum l) ∧ 0 ≤ words_sum l < 2 ^ 18.
Proof.
  intros Hb Hl Hk Hk'. pose proof (words_sum_nonneg _ Hb). pose proof (words_sum_le _ Hb) as Hle.
  rewrite Hl in Hle. split; [|lia]. rewrite sum_chunks_ok by (done || lia).
  destruct l as [|? [|? [|? [|? [|??]]]]]; try done. cbn [chunks_remainder2 words_sum]. f_equal. lia.
Qed.

Lemma words_sum_udp_pseudo pkt :
  (20 ≤ length pkt)%nat → Z.of_nat (length pkt) ≤ 65535 →
  words_sum (udp_pseudo_header pkt) =
    words_sum (take 4 (drop 12 pkt)) + words_sum (take 4 (drop 16 pkt)) + 17
    + Z.of_nat (length pkt - ihl_of pkt).
Proof.
  intros H1 H2. unfold udp_pseudo_header.
  rewrite words_sum_app by (rewrite length_take, length_drop; exists 2%nat; lia).
  rewrite words_sum_app by (rewrite length_take, length_drop; exists 2%nat; lia).
  unfold to_be16. cbn [app words_sum].
  pose proof (be16_to_be16 (Z.of_nat (length pkt - ihl_of pkt)) ltac:(unfold uint; lia)) as Hb.
  cbn [to_be16 lookup_total list_lookup_total] in Hb. rewrite Hb. unfold be16. lia.
Qed.

Lemma fix_udp_ok pkt :
  is_bytes pkt → (20 ≤ ihl_of pkt)%nat → (ihl_of pkt + 8 ≤ length pkt)%nat →
  Z.of_nat (length pkt) ≤ 65535 →
  fix_udp_checksum (E := E) pkt = Ok (put16 (ihl_of pkt + 6) (udp_csum pkt) pkt).
Proof.
  intros Hb H1 H2 H3. unfold fix_udp_checksum. run_bytes. fold (ihl_of pkt).
  unfold usize_sub. rewrite (proj2 (Nat.leb_le _ _)) by lia. cbn [obind].
  run_bytes. replace (ihl_of pkt + 7)%nat with (S (ihl_of pkt + 6)) by lia.
  rewrite zero_put16 by lia. change (16 - 12)%nat with 4%nat. change (20 - 16)%nat with 4%nat.
  rewrite !addr_bytes_put16 by len.
  destruct (addr_sum_ok (take 4 (drop 12 pkt)) 0) as [-> Hs]; [auto with rust|len|lia..|].
  cbn [obind].
  destruct (addr_sum_ok (take 4 (drop 16 pkt)) (0 + words_sum (take 4 (drop 12 pkt)))) as [-> Hd];
    [auto with rust|len|lia..|].
  cbn [obind]. rewrite cast_small by (unfold uint; lia).
  rewrite arith_exact by (unfold uint; lia). cbn [obind].
  rewrite arith_exact by (unfold uint; lia). cbn [obind].
  set (seg := drop (ihl_of pkt) (put16 (ihl_of pkt + 6) 0 pkt)).
  assert (is_bytes seg) as Hsb by (unfold seg; auto with rust).
  assert (Z.of_nat (length seg) ≤ 65535) as Hsl by (unfold seg; len).
  pose proof (words_sum_nonneg _ Hsb). pose proof (words_sum_le _ Hsb).
  rewrite (seg_csum_ok seg _ (λ csum, copy_from_slice _ _ _ (to_be16 csum))) by (done || lia).
  rewrite Z.add_0_l, <- words_sum_udp_pseudo by lia. unfold seg. fold (udp_csum pkt).
  rewrite copy_from_slice_ok by len.
  fold (put16 (ihl_of pkt + 6) (udp_csum pkt) (put16 (ihl_of pkt + 6) 0 pkt)).
  by rewrite put16_put16 by lia.
Qed.

Lemma udp_pseudo_put16 i v pkt :
  (20 ≤ length pkt)%nat → (1 ≤ i)%nat → (i + 2 ≤ length pkt)%nat → (i + 2 ≤ 12 ∨ 20 ≤ i)%nat →
  udp_pseudo_header (put16 i v pkt) = udp_pseudo_header pkt.
Proof.
  intros. unfold udp_pseudo_header.
  by rewrite !addr_bytes_put16, ihl_put16, length_put16 by lia.
Qed.

Lemma udp_csum_valid pkt :
  is_bytes pkt → (20 ≤ ihl_of pkt)%nat → (ihl_of pkt + 8 ≤ length pkt)%nat →
  Z.of_nat (length pkt) ≤ 65535 →
  udp_checksum_valid (put16 (ihl_of pkt + 6) (udp_csum pkt) pkt).
Proof.
  intros Hb Hi Ht Hl. unfold udp_checksum_valid.
  rewrite ihl_put16, udp_pseudo_put16 by lia.
  assert (length (udp_pseudo_header pkt) = 12%nat) as Hpl by (unfold udp_pseudo_header; len).
  assert (is_bytes (udp_pseudo_header pkt)) as Hpb.
  { unfold udp_pseudo_header. rewrite !is_bytes_app. repeat split; auto with rust.
    repeat constructor; lia. }
  rewrite internet_checksum_ok; [|rewrite is_bytes_app; auto with rust|rewrite length_app, Hpl; len].
  rewrite words_sum_app by (rewrite Hpl; by exists 6%nat).
  unfold udp_csum. rewrite !drop_put16 by lia.
  replace (ihl_of pkt + 6 - ihl_of pkt)%nat with 6%nat by lia.
  rewrite ones_sum_fixed; [done|by apply words_sum_nonneg|auto with rust|by exists 3%nat|len].
Qed.
End lemmas.

(** ** The reply *)

(** Two bytes at [i]. *)
Definition two (p : list Z) (i : nat) : list Z := [p !!! i; p !!! S i].

Lemma take_total2 (l : list Z) i : (i + 2 ≤ length l)%nat → take 2 (drop i l) = two l i.
Proof.
  intros H. unfold two.
  rewrite (drop_S l (l !!! i) i) by (apply list_lookup_lookup_total_lt; lia).
  by rewrite (drop_S l (l !!! S i)) by (apply list_lookup_lookup_total_lt; lia).
Qed.

(** The reply before its checksums: addresses and ports swapped. *)
Definition reply_base (p resp : list Z) : list Z :=
  [0x45; 0] ++ to_be16 (28 + Z.of_nat (length resp)) ++ [0; 0; 0; 0; 64; 17; 0; 0] ++
  take 4 (drop 16 p) ++ take 4 (drop 12 p) ++
  two p (ihl_of p + 2) ++ two p (ihl_of p) ++ to_be16 (8 + Z.of_nat (length resp)) ++ [0; 0] ++ resp.

Lemma length_reply_base p resp : (20 ≤ length p)%nat → length (reply_base p resp) = (28 + length resp)%nat.
Proof. intros. unfold reply_base. rewrite !take_total4 by lia. simpl. lia. Qed.

Lemma is_bytes_reply_base p resp :
  is_bytes p → is_bytes resp → is_bytes (reply_base p resp).
Proof.
  intros Hp Hr. unfold reply_base, two. rewrite !is_bytes_app.
  repeat split; auto with rust; repeat constructor; lia || (by apply is_bytes_total).
Qed.

Lemma inserts_all (l k : list Z) : length l = length k → list_inserts 0 k l = k.
Proof.
  intros H. rewrite inserts_split by lia. simpl. rewrite drop_ge by lia. apply app_nil_r.
Qed.

Lemma inserts_28 (h l k : list Z) :
  length h = 28%nat → length l = length k → list_inserts 28 k (h ++ l) = h ++ k.
Proof.
  intros Hh Hl. rewrite inserts_split by (rewrite length_app; lia).
  rewrite take_app_length' by done. rewrite (drop_ge (h ++ l)) by (rewrite length_app; lia).
  by rewrite app_nil_r.
Qed.

Section reply.
Context {E : Type} {B : Build}.

(** Everything but the checksums. *)
Lemma build_udp_reply_base p resp :
  is_udp4 p = true → (20 ≤ ihl_of p)%nat → Z.of_nat (length resp) ≤ 65507 →
  build_udp_reply (E := E) p resp =
    let! out := fix_ip4_checksum (reply_base p resp) in
    let! out := fix_udp_checksum out in
    Ok (Some out).
Proof.
  intros Hu Hi Hr. apply is_udp4_spec in Hu as (H1 & H2 & H3 & H4).
  unfold build_udp_reply. destruct (Nat.ltb_spec (length p) 28); [lia|]. run_bytes.
  rewrite shiftr_4, H2. cbn [Z.eqb Pos.eqb negb]. run_bytes. rewrite H3. cbn [Z.eqb Pos.eqb negb].
  fold (ihl_of p). run_bytes.
  replace (ihl_of p + 2 - ihl_of p)%nat with 2%nat by lia.
  replace (ihl_of p + 4 - (ihl_of p + 2))%nat with 2%nat by lia.
  change (16 - 12)%nat with 4%nat. change (20 - 16)%nat with 4%nat.
  rewrite !take_total2, !take_total4 by lia.
  rewrite (cast_small 16 (8 + _)) by (unfold uint; lia).
  replace (Z.to_nat (8 + Z.of_nat (length resp))) with (8 + length resp)%nat by lia.
  rewrite cast_small by (unfold uint; lia).
  replace (Z.of_nat (20 + (8 + length resp))) with (28 + Z.of_nat (length resp)) by lia.
  change (20 + (8 + length resp))%nat with (28 + length resp)%nat.
  run_bytes. do 2 f_equal.
  rewrite replicate_add. unfold reply_base. rewrite !take_total4 by lia.
  set (z := replicate (length resp) 0).
  assert (length z = length resp) as Hz by (unfold z; by rewrite length_replicate).
  clearbody z. unfold two.
  cbn [replicate app list_inserts insert list_insert to_be16 Nat.add].
  match goal with |- list_inserts 28 resp ?l = _ => 
     change l with (take 28 l ++ z) end.
  rewrite inserts_28 by done. reflexivity.
Qed.

Definition reply_of (p resp : list Z) : list Z :=
  let b := reply_base p resp in
  let p1 := put16 10 (ipv4_csum b) b in
  put16 26 (udp_csum p1) p1.

Lemma reply_ihl p resp v :
  ihl_of (reply_base p resp) = 20%nat ∧ ihl_of (put16 10 v (reply_base p resp)) = 20%nat.
Proof. done. Qed.

Lemma build_udp_reply_ok p resp :
  is_bytes p → is_bytes resp → is_udp4 p = true → (20 ≤ ihl_of p)%nat →
  Z.of_nat (length resp) ≤ 65507 →
  build_udp_reply (E := E) p resp = Ok (Some (reply_of p resp)).
Proof.
  intros Hb Hr Hu Hi Hl. pose proof Hu as (H1 & _ & _ & H4)%is_udp4_spec.
  rewrite build_udp_reply_base by done.
  pose proof (is_bytes_reply_base p resp Hb Hr) as Hbb.
  pose proof (length_reply_base p resp H1) as Hbl.
  destruct (reply_ihl p resp (ipv4_csum (reply_base p resp))) as [Hi0 Hi1].
  rewrite fix_ip4_ok by (done || lia). cbn [obind].
  rewrite fix_udp_ok; [by rewrite Hi1|auto with rust|rewrite Hi1; lia|rewrite Hi1, length_put16; lia|rewrite length_put16; lia].
Qed.

Lemma reply_of_valid p resp :
  is_bytes p → is_bytes resp → (20 ≤ length p)%nat → Z.of_nat (length resp) ≤ 65507 →
  ipv4_checksum_valid (reply_of p resp) ∧ udp_checksum_valid (reply_of p resp).
Proof.
  intros Hb Hr H1 Hl. pose proof (is_bytes_reply_base p resp Hb Hr) as Hbb.
  pose proof (length_reply_base p resp H1) as Hbl.
  destruct (reply_ihl p resp (ipv4_csum (reply_base p resp))) as [Hi0 Hi1].
  unfold reply_of. set (p1 := put16 10 _ (reply_base p resp)) in *.
  assert (length p1 = 28 + length resp)%nat as Hl1 by (unfold p1; rewrite length_put16; lia).
  split.
  - unfold ipv4_checksum_valid. rewrite ihl_put16, take_put16_ge by lia.
    apply ipv4_csum_valid; [done|lia|lia].
  - pose proof (udp_csum_valid p1) as Hv. rewrite Hi1 in Hv.
    apply Hv; [unfold p1; auto with rust|lia..].
Qed.

(** Away from the two checksums, the reply is its base. *)
Lemma reply_of_frame p resp j :
  (20 ≤ length p)%nat → j ∉ [10; 11; 26; 27]%nat → reply_of p resp !!! j = reply_base p resp !!! j.
Proof.
  intros H1 Hj. pose proof (length_reply_base p resp H1). unfold reply_of.
  rewrite !not_elem_of_cons in Hj. destruct Hj as (? & ? & ? & ? & _).
  by rewrite !put16_ne by (rewrite ?length_put16; lia).
Qed.

Lemma length_reply_of p resp : (20 ≤ length p)%nat → length (reply_of p resp) = (28 + length resp)%nat.
Proof. intros H1. unfold reply_of. by rewrite !length_put16, length_reply_base. Qed.

Lemma reply_of_addrs p resp :
  (20 ≤ length p)%nat →
  take 4 (drop 12 (reply_of p resp)) = take 4 (drop 16 p) ∧
  take 4 (drop 16 (reply_of p resp)) = take 4 (drop 12 p) ∧
  two (reply_of p resp) 20 = two p (ihl_of p + 2) ∧
  two (reply_of p resp) 22 = two p (ihl_of p) ∧ drop 28 (reply_of p resp) = resp.
Proof.
  intros H1. pose proof (length_reply_of p resp H1). pose proof (length_reply_base p resp H1).
  assert (drop 28 (reply_of p resp) = resp) as Hd.
  { unfold reply_of. rewrite !drop_put16_ge by (rewrite ?length_put16; lia). unfold reply_base. by rewrite !take_total4 by lia. }
  split_and!; [..|done]; rewrite ?(take_total4 (reply_of p resp)) by lia; unfold two;
    rewrite !reply_of_frame by (done || notin); unfold reply_base; rewrite !take_total4 by lia; done.
Qed.

Lemma reply_of_header p resp :
  (20 ≤ length p)%nat → Z.of_nat (length resp) ≤ 65507 →
  let out := reply_of p resp in
  out !!! 0%nat = 0x45 ∧ out !!! 9%nat = 17 ∧ ihl_of out = 20%nat ∧
  be16 (out !!! 2%nat) (out !!! 3%nat) = 28 + Z.of_nat (length resp) ∧
  udp_len_of out = (8 + length resp)%nat.
Proof.
  intros H1 Hl. cbv zeta.
  assert (∀ j, j ∉ [10; 11; 26; 27]%nat → reply_of p resp !!! j = reply_base p resp !!! j) as Hf
    by (intros; by apply reply_of_frame).
  assert (reply_of p resp !!! 0%nat = 0x45 ∧ reply_of p resp !!! 9%nat = 17) as [Hv0 Hv9]
    by (rewrite !Hf by notin; done).
  unfold udp_len_of, ihl_of. rewrite Hv0. change (low_nibble_words 69) with 20%nat.
  rewrite !Hf by notin. unfold reply_base. rewrite !take_total4 by lia.
  split_and!; try done.
  - apply (be16_to_be16 (28 + Z.of_nat (length resp))). unfold uint; lia.
  - rewrite <- (Nat2Z.id (8 + length resp)), Nat2Z.inj_add. f_equal.
    apply (be16_to_be16 (8 + Z.of_nat (length resp))). unfold uint; lia.
Qed.

Lemma reply_of_payload p resp :
  (20 ≤ length p)%nat → Z.of_nat (length resp) ≤ 65507 →
  extract_udp_payload (E := E) (reply_of p resp) = Ok (Some resp).
Proof.
  intros H1 Hl. destruct (reply_of_header p resp H1 Hl) as (Hv0 & Hv9 & Hih & _ & Hul).
  destruct (reply_of_addrs p resp H1) as (_ & _ & _ & _ & Hpay).
  pose proof (length_reply_of p resp H1) as Hlen.
  rewrite extract_udp_payload_eq, Hul, Hih.
  assert (is_udp4 (reply_of p resp) = true) as ->
    by (apply is_udp4_spec; rewrite Hv0, Hv9, Hih; split_and!; done || lia).
  rewrite !(proj2 (Nat.leb_le _ _)) by lia. cbn [andb Nat.add]. by rewrite Hpay, take_ge by lia.
Qed.

(** The addresses an [Ipv4View] reports. *)
Lemma Ipv4View_addrs buf :
  (20 ≤ length buf)%nat →
  Ipv4View_src (E := E) {| ipv4_bytes := buf |} = Ok (take 4 (drop 12 buf)) ∧
  Ipv4View_dst (E := E) {| ipv4_bytes := buf |} = Ok (take 4 (drop 16 buf)).
Proof.
  intros H. unfold Ipv4View_src, Ipv4View_dst. cbn [ipv4_bytes]. rewrite !take_total4 by lia.
  split; by run_bytes.
Qed.

(** C11. The DNS response gets back to the application: for every IPv4/UDP
    packet that [IpView::parse] accepts and that [udp_dst_port] recognises, and
    every response of at most 65507 bytes, [build_udp_reply] returns, without
    a panic in either profile, an IPv4 packet that parses, whose source and
    destination addresses and ports are the request's swapped, whose total
    length is its length, whose UDP payload (as [extract_udp_payload] reads
    it) is exactly the response, and whose IPv4 header and UDP checksums are
    both valid. *)
Theorem build_udp_reply_spec (p resp : list Z) (v : Ipv4View) (port : Z)
    (Hb : is_bytes p) (Hr : is_bytes resp) (Hl : Z.of_nat (length resp) ≤ 65507)
    (Hv : IpView_parse p = Ok (V4 v)) (Hport : udp_dst_port (E := E) p = Ok (Some port)) :
  ∃ out, build_udp_reply (E := E) p resp = Ok (Some out) ∧
    let v' := {| ipv4_bytes := out |} in
    IpView_parse out = Ok (V4 v') ∧
    Ipv4View_src (E := E) v' = Ipv4View_dst v ∧ Ipv4View_dst (E := E) v' = Ipv4View_src v ∧
    Ipv4View_protocol (E := E) v' = Ok Udp ∧
    Ipv4View_total_length (E := E) v' = Ok (Z.of_nat (length out)) ∧
    length out = (28 + length resp)%nat ∧
    be16 (out !!! 20%nat) (out !!! 21%nat) = port ∧
    two out 22 = two p (ihl_of p) ∧
    extract_udp_payload (E := E) out = Ok (Some resp) ∧
    ipv4_checksum_valid out ∧ udp_checksum_valid out.
Proof.
  rewrite udp_dst_port_eq in Hport. destruct (is_udp4 p) eqn:Hu; [|done].
  injection Hport as Hport. pose proof Hu as (H1 & H2 & H3 & H4)%is_udp4_spec.
  apply IpView_parse_v4 in Hv as [_ Hv]. apply Ipv4View_parse_ok in Hv as [Hvb [Hi _]].
  destruct v as [vb]. simpl in Hvb. subst vb.
  fold (ihl_of p) in Hi. exists (reply_of p resp). split; [by apply build_udp_reply_ok|].
  pose proof (length_reply_of p resp H1) as Hlen.
  destruct (reply_of_header p resp H1 Hl) as (Hv0 & Hv9 & Hih & Htot & _).
  destruct (reply_of_addrs p resp H1) as (Hsrc & Hdst & Hsp & Hdp & _).
  destruct (Ipv4View_addrs p H1) as [Hps Hpd].
  destruct (Ipv4View_addrs (reply_of p resp)) as [Hos Hod]; [lia|].
  cbv zeta. rewrite Hps, Hpd, Hos, Hod, Hsrc, Hdst.
  split; [|do 2 (split; [done|]); split; [|split; [|split; [done|split; [|split; [done|split]]]]]].
  - apply IpView_parse_v4. rewrite Hv0. split; [done|]. apply Ipv4View_parse_ok. split; [done|].
    unfold ipv4_header_ok. fold (ihl_of (reply_of p resp)). lia.
  - unfold Ipv4View_protocol. cbn [ipv4_bytes]. rewrite idx_ok by lia. cbn [obind]. by rewrite Hv9.
  - unfold Ipv4View_total_length. cbn [ipv4_bytes]. rewrite !idx_ok by lia. cbn [obind].
    rewrite Htot, Hlen. f_equal. lia.
  - rewrite <- Hport. replace (ihl_of p + 3)%nat with (S (ihl_of p + 2)) by lia.
    exact (f_equal (λ l : list Z, be16 (l !!! 0%nat) (l !!! 1%nat)) Hsp).
  - by apply reply_of_payload.
  - by apply reply_of_valid.
Qed.
End reply.

(** A query to 1.1.1.1:53 from 10.0.0.2:4660. *)
Definition query_packet : list Z :=
  [0x45; 0; 0; 32; 0; 0; 0; 0; 64; 17; 0; 0; 10; 0; 0; 2; 1; 1; 1; 1;
   0x12; 0x34; 0; 53; 0; 12; 0; 0; 1; 2; 3; 4].

Lemma build_udp_reply_spec_witness :
  ∃ out, build_udp_reply (E := unit) (B := dev) query_packet [9; 8; 7] = Ok (Some out) ∧
    extract_udp_payload (E := unit) out = Ok (Some [9; 8; 7]) ∧
    Ipv4View_dst (E := unit) {| ipv4_bytes := out |} = Ok [10; 0; 0; 2].
Proof.
  destruct (@build_udp_reply_spec unit dev query_packet [9; 8; 7] {| ipv4_bytes := query_packet |} 53)
    as (out & Hb & _ & _ & Hd & _ & _ & _ & _ & _ & He & _);
    [repeat constructor; lia|repeat constructor; lia|simpl; lia|reflexivity|reflexivity|].
  exists out. split; [exact Hb|]. split; [exact He|]. exact Hd.
Defined.
