(* ===== verification/Stack.v ===== *)
(** * gravital-stack: the userspace TCP stack (stack.rs, device.rs, connection.rs)

    [Inner] is the state behind the stack's mutex.  smoltcp (the interface, the
    socket set and the TCP sockets) is outside the repository: the class
    [Smoltcp] has the operations the code calls, [SmoltcpLaws] what it relies
    on.  The two tokio channels of a [VirtualConnection] are shared with the
    relay task, so they live in a store ([chans]) to which the connection and
    its peer both point. *)

From Stdlib Require Import ZArith Lia.
From stdpp Require Import gmap.
From S2P Require Import Prelude Bytes Net Io Checksum Proto Rewrite NatTable.
Local Open Scope Z_scope.

(** ** error.rs *)
Inductive StackError :=
| InvalidMtu (mtu : Z)
| SocketExhausted
| ConnectionReset
| StackIo (e : IoErrorKind).

(** ** device.rs *)
Record TunVirtualDevice := { dev_rx : list (list Z); dev_tx : list (list Z); dev_mtu : Z }.

Definition TunVirtualDevice_new (mtu : Z) : TunVirtualDevice :=
  {| dev_rx := []; dev_tx := []; dev_mtu := mtu |}.

Definition has_rx (d : TunVirtualDevice) : bool :=
  match dev_rx d with [] => false | _ => true end.

(** [receive]: the packet of the receive token and the device that is left. *)
Definition receive (d : TunVirtualDevice) : option (list Z * TunVirtualDevice) :=
  match dev_rx d with
  | [] => None
  | pkt :: r => Some (pkt, {| dev_rx := r; dev_tx := dev_tx d; dev_mtu := dev_mtu d |})
  end.

(** A transmit token consumed with a closure that fills the buffer. *)
Definition transmit_consume (d : TunVirtualDevice) (len : nat) (f : list Z → list Z)
    : TunVirtualDevice :=
  let buf := replicate len 0 in
  {| dev_rx := dev_rx d; dev_tx := dev_tx d ++ [f buf]; dev_mtu := dev_mtu d |}.

Definition capabilities_mtu (d : TunVirtualDevice) : Z := dev_mtu d.

(** ** connection.rs: a pair of bounded channels *)
Definition CHANNEL_CAP : nat := 256.

(** [to_relay]: chunks queued for the relay task, while it holds the
    receiver; [to_stack]: chunks it queued, while it holds the sender. *)
Record Chan := {
  to_relay : list (list Z); relay_receiving : bool;
  to_stack : list (list Z); relay_sending : bool; stack_alive : bool
}.
Definition Chan_new : Chan :=
  {| to_relay := []; relay_receiving := true; to_stack := []; relay_sending := true;
     stack_alive := true |}.

Definition try_send (c : Chan) (chunk : list Z) : Chan :=
  if relay_receiving c && (length (to_relay c) <? CHANNEL_CAP)%nat
  then {| to_relay := to_relay c ++ [chunk]; relay_receiving := relay_receiving c;
          to_stack := to_stack c; relay_sending := relay_sending c; stack_alive := stack_alive c |}
  else c.
Definition set_to_stack (q : list (list Z)) (c : Chan) : Chan :=
  {| to_relay := to_relay c; relay_receiving := relay_receiving c;
     to_stack := q; relay_sending := relay_sending c; stack_alive := stack_alive c |}.

Record VirtualConnection := { vc_local : SocketAddr; vc_remote : SocketAddr; vc_chan : nat }.
Record VirtualConnectionPeer := { peer_chan : nat }.

(** Dropping the peer drops its two channel ends; dropping the connection
    drops the others. *)
Definition drop_peer (c : Chan) : Chan :=
  {| to_relay := to_relay c; relay_receiving := relay_receiving c; to_stack := [];
     relay_sending := relay_sending c; stack_alive := false |}.
Definition drop_conn (c : Chan) : Chan :=
  {| to_relay := []; relay_receiving := false; to_stack := to_stack c;
     relay_sending := false; stack_alive := stack_alive c |}.

(** ** smoltcp *)
Inductive TcpState :=
| Closed | Listen | SynSent | SynReceived | Established | FinWait1 | FinWait2
| CloseWait | Closing | LastAck | TimeWait.

#[export] Instance TcpState_eq_dec : EqDecision TcpState.
Proof. solve_decision. Defined.

Class Smoltcp (Iface SockSet Sock : Type) := {
  (** [Interface::new], with its address and [set_any_ip(true)] *)
  iface_new : list Z → TunVirtualDevice → Iface;
  iface_poll : Z → Iface → TunVirtualDevice → SockSet →
               bool * Iface * TunVirtualDevice * SockSet;
  set_new : SockSet;
  set_add : Sock → SockSet → nat * SockSet;
  set_get : nat → SockSet → option Sock;
  (** what [get_mut] leaves behind *)
  set_put : nat → Sock → SockSet → SockSet;
  set_remove : nat → SockSet → SockSet;
  (** by the sizes of the two buffers *)
  tcp_new : Z → Z → Sock;
  tcp_listen : SocketAddr → Sock → option Sock;
  tcp_state : Sock → TcpState;
  can_recv : Sock → bool;
  can_send : Sock → bool;
  (** the data given to [recv]'s closure, all of it consumed; [None]: error *)
  tcp_recv : Sock → option (list Z * Sock);
  (** how many bytes were accepted *)
  send_slice : list Z → Sock → nat * Sock;
  tcp_close : Sock → Sock
}.

Definition SOCK_BUF : Z := 65536.
Definition PENDING_CAP : nat := 128.
Definition IFACE_IP : list Z := [10; 0; 2; 2].

(** ** The state *)
Record Inner (Iface SockSet : Type) := {
  iface : Iface; device : TunVirtualDevice; sockets : SockSet; nat_table : NatTable;
  active : gmap nat (SocketAddr * VirtualConnectionPeer);
  pending : list VirtualConnection;
  tun_tx : list (list Z); tun_rx : list (list Z);
  chans : gmap nat Chan; next_chan : nat
}.
Arguments iface {Iface SockSet} i.
Arguments device {Iface SockSet} i.
Arguments sockets {Iface SockSet} i.
Arguments nat_table {Iface SockSet} i.
Arguments active {Iface SockSet} i.
Arguments pending {Iface SockSet} i.
Arguments tun_tx {Iface SockSet} i.
Arguments tun_rx {Iface SockSet} i.
Arguments chans {Iface SockSet} i.
Arguments next_chan {Iface SockSet} i.

Section stack.
Context {Iface SockSet Sock : Type} `{Smoltcp Iface SockSet Sock}.
Context {E : Type} {B : Build}.
Abbreviation Inner := (Inner Iface SockSet).

(** Field updates. *)
Definition upd_io (i : Iface) (d : TunVirtualDevice) (ss : SockSet) (s : Inner) : Inner :=
  {| iface := i; device := d; sockets := ss; nat_table := nat_table s; active := active s;
     pending := pending s; tun_tx := tun_tx s; tun_rx := tun_rx s; chans := chans s;
     next_chan := next_chan s |}.
Definition upd_nat (t : NatTable) (s : Inner) : Inner :=
  {| iface := iface s; device := device s; sockets := sockets s; nat_table := t;
     active := active s; pending := pending s; tun_tx := tun_tx s; tun_rx := tun_rx s;
     chans := chans s; next_chan := next_chan s |}.
Definition upd_active (a : gmap nat (SocketAddr * VirtualConnectionPeer)) (s : Inner) : Inner :=
  {| iface := iface s; device := device s; sockets := sockets s; nat_table := nat_table s;
     active := a; pending := pending s; tun_tx := tun_tx s; tun_rx := tun_rx s;
     chans := chans s; next_chan := next_chan s |}.
Definition upd_chans (c : gmap nat Chan) (s : Inner) : Inner :=
  {| iface := iface s; device := device s; sockets := sockets s; nat_table := nat_table s;
     active := active s; pending := pending s; tun_tx := tun_tx s; tun_rx := tun_rx s;
     chans := c; next_chan := next_chan s |}.
Definition upd_queues (p : list VirtualConnection) (otx orx : list (list Z)) (s : Inner) : Inner :=
  {| iface := iface s; device := device s; sockets := sockets s; nat_table := nat_table s;
     active := active s; pending := p; tun_tx := otx; tun_rx := orx;
     chans := chans s; next_chan := next_chan s |}.
Definition upd_sockets (ss : SockSet) (s : Inner) : Inner := upd_io (iface s) (device s) ss s.
Definition upd_device (d : TunVirtualDevice) (s : Inner) : Inner :=
  upd_io (iface s) d (sockets s) s.

Definition Inner_new (mtu : Z) : Inner :=
  let device := TunVirtualDevice_new mtu in
  {| iface := iface_new IFACE_IP device; device := device; sockets := set_new;
     nat_table := NatTable_new; active := ∅; pending := []; tun_tx := []; tun_rx := [];
     chans := ∅; next_chan := 0 |}.

(** ** Inbound *)
Definition create_listener (vport : Z) (real_remote : SocketAddr) (s : Inner) : Inner :=
  let socket := tcp_new SOCK_BUF SOCK_BUF in
  match tcp_listen (SockV4 IFACE_IP vport) socket with
  | None => s
  | Some socket =>
      let '(handle, ss) := set_add socket (sockets s) in
      (* VirtualConnection::pair *)
      let id := next_chan s in
      let conn := {| vc_local := SockV4 IFACE_IP vport; vc_remote := real_remote; vc_chan := id |} in
      let peer := {| peer_chan := id |} in
      let fits := (length (pending s) <? PENDING_CAP)%nat in
      {| iface := iface s; device := device s; sockets := ss; nat_table := nat_table s;
         active := <[handle := (real_remote, peer)]> (active s);
         pending := if fits then pending s ++ [conn] else pending s;
         tun_tx := tun_tx s; tun_rx := tun_rx s;
         chans := <[id := if fits then Chan_new else drop_conn Chan_new]> (chans s);
         next_chan := S id |}
  end.

(** [self.active.values().any(|(rd, _)| *rd == real_dst)]. *)
Definition dst_active (s : Inner) (real_dst : SocketAddr) : bool :=
  existsb (λ x, bool_decide (x.2.1 = real_dst)) (map_to_list (active s)).

Definition push_rx (pkt : list Z) (d : TunVirtualDevice) : TunVirtualDevice :=
  {| dev_rx := dev_rx d ++ [pkt]; dev_tx := dev_tx d; dev_mtu := dev_mtu d |}.

Definition process_inbound (raw : list Z) (s : Inner) : Outcome E Inner :=
  let! addrs := extract_tcp_addrs raw in
  match addrs with
  | None => Ok s
  | Some (src, real_dst) =>
      let! syn := is_tcp_syn raw in
      let! (vport, s) :=
        if syn then
          let! (r, t) := NatTable_insert (nat_table s) src real_dst in
          let s := upd_nat t s in
          match r with
          | Some vp =>
              Ok (Some vp, if negb (dst_active s real_dst) then create_listener vp real_dst s else s)
          | None => Ok (None, s)
          end
        else Ok (lookup_forward (nat_table s) src real_dst, s) in
      match vport with
      | None => Ok s
      | Some vport =>
          let! (ok, pkt) := rewrite_inbound raw vport in
          Ok (if ok : bool then upd_device (push_rx pkt (device s)) s else s)
      end
  end.

Fixpoint inbound_loop (raws : list (list Z)) (s : Inner) : Outcome E Inner :=
  match raws with
  | [] => Ok s
  | raw :: raws => let! s := process_inbound raw s in inbound_loop raws s
  end.

(** ** Sockets *)

(** [while socket.can_send()]: one turn per queued chunk; what [send_slice]
    does not accept is dropped with the chunk. *)
Fixpoint send_loop (q : list (list Z)) (socket : Sock) : list (list Z) * Sock :=
  match q with
  | data :: r =>
      if can_send socket then send_loop r (send_slice data socket).2 else (q, socket)
  | [] => ([], socket)
  end.

(** Reading from the socket, writing to it and closing it. *)
Definition exchange (socket : Sock) (c : Chan) : Sock * Chan :=
  let '(socket, c) :=
    if can_recv socket then
      match tcp_recv socket with
      | Some (data, socket) =>
          (socket, match data with [] => c | _ => try_send c data end)
      | None => (socket, c)
      end
    else (socket, c) in
  let '(q, socket) := send_loop (to_stack c) socket in
  let c := set_to_stack q c in
  let socket := if can_send socket && negb (relay_sending c) then tcp_close socket else socket in
  (socket, c).

Definition service_socket (handle : nat) (s : Inner) : Outcome E (bool * Inner) :=
  match set_get handle (sockets s) with
  | None => Panic
  | Some socket =>
      if bool_decide (tcp_state socket = Closed) || bool_decide (tcp_state socket = TimeWait)
      then Ok (true, s)
      else
        match active s !! handle with
        | None => Ok (true, s)
        | Some (_, peer) =>
            let '(socket, c) := exchange socket (default Chan_new (chans s !! peer_chan peer)) in
            let s := upd_sockets (set_put handle socket (sockets s)) s in
            Ok (false, upd_chans (<[peer_chan peer := c]> (chans s)) s)
        end
  end.

(** The scan of [10_000..60_000u16]. *)
Definition vport_of_handle (s : Inner) (handle : nat) : option Z :=
  match active s !! handle with
  | None => None
  | Some (real_remote, _) =>
      List.find (λ vport,
        match lookup_reverse (nat_table s) vport with
        | Some (_, rd) => bool_decide (rd = real_remote)
        | None => false
        end) (seqZ 10000 50000)
  end.

(** [unwrap] of the removed entry. *)
Fixpoint service_loop (handles : list nat) (need_more : bool) (s : Inner)
    : Outcome E (bool * Inner) :=
  match handles with
  | [] => Ok (need_more, s)
  | handle :: handles =>
      let! (closed, s) := service_socket handle s in
      if closed : bool then
        match active s !! handle with
        | None => Panic
        | Some (_, peer) =>
            let s := upd_active (delete handle (active s)) s in
            let s := match vport_of_handle s handle with
                     | Some vp => upd_nat (remove_by_vport (nat_table s) vp) s
                     | None => s
                     end in
            let s := upd_sockets (set_remove handle (sockets s)) s in
            let s := upd_chans (alter drop_peer (peer_chan peer) (chans s)) s in
            service_loop handles true s
        end
      else service_loop handles need_more s
  end.

(** ** Outbound *)
Definition outbound_src_port (pkt : list Z) : Outcome E (option Z) :=
  if (length pkt <? 20)%nat then Ok None else
  let! b0 := idx pkt 0 in
  if negb (Z.shiftr b0 4 =? 4) then Ok None else
  let! proto := idx pkt 9 in
  if negb (proto =? 6) then Ok None else
  let ihl := low_nibble_words b0 in
  if (length pkt <? ihl + 4)%nat then Ok None else
  let! hi := idx pkt ihl in
  let! lo := idx pkt (ihl + 1) in
  Ok (Some (be16 hi lo)).

(** One packet of the device's transmit queue: what is appended to [tun_tx]. *)
Definition outbound_packet (t : NatTable) (pkt : list Z) : Outcome E (option (list Z)) :=
  let! vp := outbound_src_port pkt in
  match vp ≫= lookup_reverse t with
  | None => Ok None
  | Some (_, SockV4 ip port) =>
      let! (_, pkt) := rewrite_outbound pkt ip port in
      Ok (Some pkt)
  | Some (_, SockV6 _ _ _ _) => Ok (Some pkt)
  end.

Fixpoint outbound_loop (t : NatTable) (pkts out : list (list Z)) : Outcome E (list (list Z)) :=
  match pkts with
  | [] => Ok out
  | pkt :: pkts =>
      let! r := outbound_packet t pkt in
      outbound_loop t pkts (out ++ match r with Some p => [p] | None => [] end)
  end.

(** ** The poll cycle: [ts] is the clock, [hash_order] the iteration order of
    the [HashMap]. *)
Variable hash_order : list nat → list nat.

Definition poll (ts : Z) (s : Inner) : Outcome E (bool * Inner) :=
  let raws := tun_rx s in
  let! s := inbound_loop raws (upd_queues (pending s) (tun_tx s) [] s) in
  let '(progress, i, d, ss) := iface_poll ts (iface s) (device s) (sockets s) in
  let s := upd_io i d ss s in
  let handles := hash_order (map_to_list (active s)).*1 in
  let! (need_more, s) := service_loop handles progress s in
  let pkts := dev_tx (device s) in
  let s := upd_device {| dev_rx := dev_rx (device s); dev_tx := []; dev_mtu := dev_mtu (device s) |} s in
  let! out := outbound_loop (nat_table s) pkts (tun_tx s) in
  Ok (need_more, upd_queues (pending s) out (tun_rx s) s).

(** ** The public interface *)
Definition UserspaceStack_new (mtu : Z) : Outcome StackError Inner :=
  if (mtu <? 576) || (9000 <? mtu) then Err (InvalidMtu mtu) else Ok (Inner_new mtu).

Definition stack_mtu (s : Inner) : Z := cast 16 (capabilities_mtu (device s)).

Definition feed_inbound (pkt : list Z) (s : Inner) : Inner :=
  upd_queues (pending s) (tun_tx s) (tun_rx s ++ [pkt]) s.

Definition drain_outbound (s : Inner) : option (list Z) * Inner :=
  match tun_tx s with
  | [] => (None, s)
  | pkt :: r => (Some pkt, upd_queues (pending s) r (tun_rx s) s)
  end.

Definition accept (s : Inner) : option VirtualConnection * Inner :=
  match pending s with
  | [] => (None, s)
  | conn :: r => (Some conn, upd_queues r (tun_tx s) (tun_rx s) s)
  end.
End stack.

(** ** What the code relies on *)

(** A packet small enough for IPv4. *)
Definition raw_ok (pkt : list Z) : Prop := is_bytes pkt ∧ Z.of_nat (length pkt) ≤ 65535.
(** A packet smoltcp emits: an IPv4 header has at least its 20 bytes. *)
Definition emitted_ok (pkt : list Z) : Prop := raw_ok pkt ∧ (is_tcp4 pkt = true → (20 ≤ ihl_of pkt)%nat).

Class SmoltcpLaws (Iface SockSet Sock : Type) `{Smoltcp Iface SockSet Sock} := {
  set_add_law s ss h ss' : set_add s ss = (h, ss') →
    set_get h ss = None ∧ ∀ h', set_get h' ss' = if decide (h' = h) then Some s else set_get h' ss;
  set_put_law h s ss h' : is_Some (set_get h ss) →
    set_get h' (set_put h s ss) = if decide (h' = h) then Some s else set_get h' ss;
  set_remove_law h ss h' :
    set_get h' (set_remove h ss) = if decide (h' = h) then None else set_get h' ss;
  (** polling neither adds nor removes sockets *)
  iface_poll_sockets ts i d ss p i' d' ss' : iface_poll ts i d ss = (p, i', d', ss') →
    ∀ h, is_Some (set_get h ss') ↔ is_Some (set_get h ss);
  (** it appends well-formed packets to the transmit queue *)
  iface_poll_tx ts i d ss p i' d' ss' : iface_poll ts i d ss = (p, i', d', ss') →
    ∃ new, dev_tx d' = dev_tx d ++ new ∧ Forall emitted_ok new
}.

(** ** The invariant *)
Definition flow_ok (f : flow) : Prop := sockaddr_ok f.1 ∧ sockaddr_ok f.2.

Record stack_wf {Iface SockSet Sock} `{Smoltcp Iface SockSet Sock}
    (s : Inner Iface SockSet) : Prop := {
  swf_nat : nat_wf (nat_table s);
  swf_flows : ∀ f vp, forward (nat_table s) !! f = Some vp → flow_ok f;
  swf_active : ∀ h, is_Some (active s !! h) → is_Some (set_get h (sockets s));
  swf_tx : Forall emitted_ok (dev_tx (device s));
  swf_rx : Forall raw_ok (tun_rx s)
}.

Section invariant.
Context {Iface SockSet Sock : Type} `{SmoltcpLaws Iface SockSet Sock} {E : Type} {B : Build}.
Abbreviation Inner := (Inner Iface SockSet).
Implicit Types s : Inner.

(** Updates that keep what the invariant is about. *)
Lemma stack_wf_ext s s' :
  nat_table s' = nat_table s → active s' = active s → sockets s' = sockets s →
  dev_tx (device s') = dev_tx (device s) → tun_rx s' = tun_rx s → stack_wf s → stack_wf s'.
Proof. intros H1 H2 H3 H4 H5 []. split; by rewrite ?H1, ?H2, ?H3, ?H4, ?H5. Qed.

Lemma create_listener_wf vp r s :
  stack_wf s → stack_wf (create_listener vp r s).
Proof.
  intros [Hn Hf Ha Ht Hr]. unfold create_listener. destruct (tcp_listen _ _) as [sk|]; [|done].
  destruct (set_add sk (sockets s)) as [h ss] eqn:Hadd. apply set_add_law in Hadd as [_ Hget].
  split; simpl; try done. intros h'. rewrite Hget, lookup_insert.
  destruct (decide (h = h')) as [->|]; [by rewrite decide_True|].
  rewrite decide_False by done. apply Ha.
Qed.

Lemma create_listener_frame vp r s :
  nat_table (create_listener vp r s) = nat_table s ∧ device (create_listener vp r s) = device s ∧
  tun_rx (create_listener vp r s) = tun_rx s ∧ tun_tx (create_listener vp r s) = tun_tx s.
Proof.
  unfold create_listener. destruct (tcp_listen _ _); [|done]. by destruct (set_add _ _).
Qed.

Lemma is_tcp_syn_ok raw :
  is_tcp4 raw = true → is_tcp_syn (E := E) raw = Ok (Z.land (raw !!! (ihl_of raw + 13)%nat) 0x12 =? 0x02).
Proof.
  intros (H1 & H2 & H3 & H4)%is_tcp4_spec. unfold is_tcp_syn. run_bytes. fold (ihl_of raw).
  by run_guards.
Qed.

Lemma tcp4_flow_ok raw : raw_ok raw → is_tcp4 raw = true → flow_ok (src_of raw, dst_of raw).
Proof.
  intros [Hb _] (H1 & H2 & H3 & H4)%is_tcp4_spec.
  split; (split; [split; [len|auto with rust]|auto with rust]).
Qed.

(** The NAT part of [process_inbound]. *)
Definition is_syn (raw : list Z) : bool := Z.land (raw !!! (ihl_of raw + 13)%nat) 0x12 =? 0x02.

Lemma upd_nat_wf s t :
  stack_wf s → nat_wf t → (∀ f vp, forward t !! f = Some vp → flow_ok f) → stack_wf (upd_nat t s).
Proof. intros [Hn Hf Ha Ht Hr] Hwf Hfl. by split. Qed.

(** [process_inbound] on every packet. *)
Lemma process_inbound_ok raw s :
  stack_wf s → raw_ok raw →
  ∃ s', process_inbound (E := E) raw s = Ok s' ∧ stack_wf s' ∧
    forward (nat_table s) ⊆ forward (nat_table s').
Proof.
  intros Hwf Hraw. unfold process_inbound. rewrite extract_tcp_addrs_eq. cbn [obind].
  destruct (is_tcp4 raw) eqn:Ht; [|by exists s].
  rewrite is_tcp_syn_ok by done. cbn [obind]. fold (is_syn raw).
  assert (∀ vp s1, stack_wf s1 → forward (nat_table s) ⊆ forward (nat_table s1) →
    ∃ s', (let! (ok, pkt) := rewrite_inbound (E := E) raw vp in
           Ok (if ok : bool then upd_device (push_rx pkt (device s1)) s1 else s1)) = Ok s' ∧
      stack_wf s' ∧ forward (nat_table s) ⊆ forward (nat_table s')) as Hpush.
  { intros vp s1 Hwf1 Hle. destruct Hraw as [Hb Hl].
    rewrite rewrite_inbound_eq, Ht by done. cbn [obind]. eexists. split; [reflexivity|].
    split; [|done]. by eapply stack_wf_ext; [..|exact Hwf1]. }
  destruct (is_syn raw); cbn [obind].
  - destruct (NatTable_insert_cases (E := E) (nat_table s) (src_of raw) (dst_of raw))
      as (r & t & -> & Hwft & Hr); [apply Hwf|]. cbn [obind].
    assert (forward (nat_table s) ⊆ forward t ∧
      ∀ f vp, forward t !! f = Some vp → flow_ok f) as [Hle Hfl].
    { destruct r as [vp|].
      - destruct Hr as [[_ ->]|(Hnone & _ & _ & -> & _)]; [split; [done|apply Hwf]|].
        split; [by apply insert_subseteq|]. intros f vp'. rewrite lookup_insert.
        case_decide as Hd; [|apply Hwf]. intros _. rewrite <- Hd. by apply tcp4_flow_ok.
      - destruct Hr as (_ & _ & ->). split; [done|apply Hwf]. }
    pose proof (upd_nat_wf s t Hwf Hwft Hfl) as Hwf1.
    destruct r as [vp|]; cbn [obind]; [|by eexists].
    apply Hpush; destruct (negb _); try done; [by apply create_listener_wf|].
    by destruct (create_listener_frame vp (dst_of raw) (upd_nat t s)) as (-> & _).
  - destruct (lookup_forward _ _ _) as [vp|]; [by apply Hpush|by exists s].
Qed.

Lemma inbound_loop_ok raws s :
  stack_wf s → Forall raw_ok raws →
  ∃ s', inbound_loop (E := E) raws s = Ok s' ∧ stack_wf s' ∧
    forward (nat_table s) ⊆ forward (nat_table s').
Proof.
  intros Hwf Hr. revert s Hwf. induction Hr as [|raw raws Hraw _ IH]; intros s Hwf; [by exists s|].
  cbn [inbound_loop]. destruct (process_inbound_ok raw s) as (s1 & -> & Hwf1 & Hle1); [done..|].
  cbn [obind]. destruct (IH s1 Hwf1) as (s2 & -> & Hwf2 & Hle2). exists s2. split_and!; [done..|].
  by etrans.
Qed.

(** ** Servicing sockets *)
Lemma service_socket_ok h s :
  stack_wf s → is_Some (active s !! h) →
  ∃ b s', service_socket (E := E) h s = Ok (b, s') ∧ stack_wf s' ∧
    nat_table s' = nat_table s ∧ active s' = active s ∧ device s' = device s ∧
    tun_rx s' = tun_rx s ∧ tun_tx s' = tun_tx s.
Proof.
  intros Hwf Hact. unfold service_socket.
  destruct (swf_active _ Hwf h Hact) as [sk Hsk]. rewrite Hsk.
  destruct (_ || _); [by exists true, s|].
  destruct Hact as [[r peer] Hp]. rewrite Hp.
  destruct (exchange sk _) as [sk' c]. do 2 eexists. split; [reflexivity|]. split; [|done].
  destruct Hwf as [Hn Hf Ha Ht Hr]. split; simpl; try done.
  intros h' Hh'. rewrite set_put_law by (by rewrite Hsk). case_decide; [done|by apply Ha].
Qed.

(** The entry was removed from [active] just before the lookup. *)
Lemma vport_of_removed h s : vport_of_handle (upd_active (delete h (active s)) s) h = None.
Proof. unfold vport_of_handle. cbn [active upd_active]. by rewrite lookup_delete_eq. Qed.

Lemma service_loop_ok hs need s :
  stack_wf s → NoDup hs → (∀ h, h ∈ hs → is_Some (active s !! h)) →
  ∃ b s', service_loop (E := E) hs need s = Ok (b, s') ∧ stack_wf s' ∧
    nat_table s' = nat_table s ∧ device s' = device s ∧
    tun_rx s' = tun_rx s ∧ tun_tx s' = tun_tx s.
Proof.
  revert need s. induction hs as [|h hs IH]; intros need s Hwf Hnd Hin; [by exists need, s|].
  inversion_clear Hnd as [|? ? Hni Hnd'].
  assert (is_Some (active s !! h)) as Hh by (apply Hin; set_solver).
  cbn [service_loop].
  destruct (service_socket_ok h s Hwf Hh) as (b & s1 & -> & Hwf1 & Hn1 & Ha1 & Hd1 & Hrx1 & Htx1).
  cbn [obind]. destruct b.
  - rewrite Ha1. destruct Hh as [[r peer] Hp]. rewrite Hp, <- Ha1, vport_of_removed.
    match goal with |- context [service_loop hs true ?s2] =>
      destruct (IH true s2) as (b & s' & -> & Hwf' & Hn & Hd & Hrx & Htx) end.
    + destruct Hwf1 as [Hn Hf Ha Ht Hr]. split; simpl; try done.
      intros h'. rewrite lookup_delete, set_remove_law. do 2 case_decide; try done. apply Ha.
    + done.
    + intros h' Hh'. cbn. rewrite Ha1, lookup_delete_ne by set_solver. apply Hin. set_solver.
    + simpl in Hn, Hd, Hrx, Htx. exists b, s'. split_and!; try done; congruence.
  - destruct (IH need s1 Hwf1 Hnd') as (b & s' & -> & Hwf' & Hn & Hd & Hrx & Htx).
    { intros h' Hh'. rewrite Ha1. apply Hin. set_solver. }
    exists b, s'. split_and!; try done; congruence.
Qed.
End invariant.

(** ** Outbound packets *)
Section outbound.
Context {E : Type} {B : Build}.

Definition has_src_port (pkt : list Z) : bool :=
  (20 <=? length pkt)%nat && ((pkt !!! 0%nat) / 16 =? 4) && (pkt !!! 9%nat =? 6) &&
  (ihl_of pkt + 4 <=? length pkt)%nat.

Lemma outbound_src_port_eq pkt :
  outbound_src_port (E := E) pkt =
    Ok (if has_src_port pkt then Some (be16 (pkt !!! ihl_of pkt) (pkt !!! S (ihl_of pkt))) else None).
Proof.
  unfold outbound_src_port, has_src_port. rewrite !Nat.leb_antisym.
  destruct (Nat.ltb_spec (length pkt) 20); [done|]. cbn [negb andb].
  run_bytes. rewrite shiftr_4. destruct (_ =? 4); [cbn [negb andb]|done].
  run_bytes. destruct (_ =? 6); [cbn [negb andb]|done]. fold (ihl_of pkt).
  destruct (Nat.ltb_spec (length pkt) (ihl_of pkt + 4)); [done|]. cbn [negb].
  run_bytes. by rewrite Nat.add_1_r.
Qed.

Lemma rewrite_outbound_total pkt ip port :
  emitted_ok pkt → octets_ok 4 ip → ∃ r, rewrite_outbound (E := E) pkt ip port = Ok r.
Proof.
  intros [[Hb Hl] Hi] Hip. destruct (is_tcp4 pkt) eqn:Ht.
  - rewrite rewrite_outbound_eq; [eauto|done..|]. specialize (Hi eq_refl). lia.
  - unfold rewrite_outbound.
    rewrite (tcp4_guards pkt _ (λ ihl,
      let! pkt := copy_from_slice pkt 12 16 ip in
      let! pkt := copy_from_slice pkt ihl (ihl + 2) (to_be16 port) in
      let! pkt := fix_tcp_checksum pkt in
      let! pkt := fix_ipv4_checksum pkt in
      Ok (true, pkt))), Ht. eauto.
Qed.

Lemma outbound_loop_ok t pkts out :
  nat_wf t → (∀ f vp, forward t !! f = Some vp → flow_ok f) → Forall emitted_ok pkts →
  ∃ out', outbound_loop (E := E) t pkts out = Ok out'.
Proof.
  intros Hwf Hfl Hp. revert out. induction Hp as [|pkt pkts Hpkt _ IH]; intros out; [by exists out|].
  cbn [outbound_loop].
  assert (∃ r, outbound_packet (E := E) t pkt = Ok r) as [r ->].
  { unfold outbound_packet. rewrite outbound_src_port_eq. cbn [obind].
    destruct (has_src_port pkt); [|by eexists]. cbn [mbind option_bind].
    destruct (lookup_reverse t _) as [[src dst]|] eqn:Hl; [|by eexists].
    destruct dst as [ip port|]; [|by eexists].
    apply wf_inverse in Hl; [|done]. destruct (Hfl _ _ Hl) as [_ [Hip _]].
    destruct (rewrite_outbound_total pkt ip port Hpkt Hip) as [[] ->]. by eexists. }
  apply IH.
Qed.

(** C5. Address translation is transparent: when the NAT table maps a flow
    from [src] to the real destination [dst] to virtual port [vp], then a
    segment smoltcp emits from port [vp] to [src] leaves the stack as a segment
    from [dst] to [src], with valid IPv4 and TCP checksums and the same length. *)
Theorem outbound_packet_restores (t : NatTable) (src dst : SocketAddr) (vp : Z) (pkt : list Z)
    (Hwf : nat_wf t) (Hfl : ∀ f v, forward t !! f = Some v → flow_ok f)
    (Hv4 : ∃ ip port, dst = SockV4 ip port)
    (Hnat : lookup_forward t src dst = Some vp) (Hpkt : raw_ok pkt)
    (Ht : is_tcp4 pkt = true) (Hi : (20 ≤ ihl_of pkt)%nat)
    (Hsrc : SocketAddr_port (src_of pkt) = vp) (Hdst : dst_of pkt = src) :
  ∃ pkt', outbound_packet (E := E) t pkt = Ok (Some pkt') ∧
    extract_tcp_addrs (E := E) pkt' = Ok (Some (dst, src)) ∧
    ipv4_checksum_valid pkt' ∧ tcp_checksum_valid pkt' ∧ length pkt' = length pkt.
Proof.
  destruct Hv4 as (ip & port & ->). destruct Hpkt as [Hb Hl].
  pose proof Hnat as Hrev. apply Hwf in Hrev. fold (lookup_reverse t vp) in Hrev.
  destruct (Hfl _ _ Hnat) as [_ [Hip Hport]].
  destruct (rewrite_outbound_ok (E := E) pkt ip port) as (pkt' & Hr & Ha & H4 & Htcp & Hlen & _);
    [done..|].
  exists pkt'. unfold outbound_packet. rewrite outbound_src_port_eq. cbn [obind].
  assert (has_src_port pkt = true) as ->.
  { apply is_tcp4_spec in Ht as (H1 & H2 & H3 & H5). unfold has_src_port.
    rewrite !andb_true_iff, !Nat.leb_le, !Z.eqb_eq. split_and!; done || lia. }
  unfold src_of in Hsrc. cbn [SocketAddr_port] in Hsrc. rewrite Hsrc. cbn [mbind option_bind].
  rewrite Hrev, Hr. cbn [obind]. split; [done|]. by rewrite Ha, Hdst.
Qed.
End outbound.

(** ** Runs of the stack *)
Inductive StackOp :=
| OpFeed (pkt : list Z)
| OpPoll (ts : Z)
| OpDrain
| OpAccept
(** the relay tasks use their channel ends *)
| OpRelay (f : gmap nat Chan → gmap nat Chan).

Section runs.
Context {Iface SockSet Sock : Type} `{SmoltcpLaws Iface SockSet Sock} {E : Type} {B : Build}.
Context (hash_order : list nat → list nat) (Hperm : ∀ l, hash_order l ≡ₚ l).
Abbreviation Inner := (Inner Iface SockSet).
Implicit Types s : Inner.

Definition stack_step (o : StackOp) (s : Inner) : Outcome E Inner :=
  match o with
  | OpFeed pkt => Ok (feed_inbound pkt s)
  | OpPoll ts => let! (_, s) := poll hash_order ts s in Ok s
  | OpDrain => Ok (drain_outbound s).2
  | OpAccept => Ok (accept s).2
  | OpRelay f => Ok (upd_chans (f (chans s)) s)
  end.
Fixpoint stack_run (ops : list StackOp) (s : Inner) : Outcome E Inner :=
  match ops with
  | [] => Ok s
  | o :: ops => let! s := stack_step o s in stack_run ops s
  end.

(** Packets come from the TUN device, which has an MTU. *)
Definition op_ok (o : StackOp) : Prop := match o with OpFeed pkt => raw_ok pkt | _ => True end.

Lemma Inner_new_wf mtu : stack_wf (Inner_new mtu : Inner).
Proof.
  split; cbn; [apply NatTable_new_wf| | |done|done].
  - intros f vp. by rewrite lookup_empty.
  - intros h. rewrite lookup_empty. by intros [].
Qed.

Lemma iface_poll_wf ts s p i d ss :
  iface_poll ts (iface s) (device s) (sockets s) = (p, i, d, ss) → stack_wf s → stack_wf (upd_io i d ss s).
Proof.
  intros Hp [Hn Hf Ha Ht Hr]. pose proof (iface_poll_sockets _ _ _ _ _ _ _ _ Hp) as Hss.
  destruct (iface_poll_tx _ _ _ _ _ _ _ _ Hp) as (new & Htx & Hnew). split; simpl; try done.
  - intros h Hh. by apply Hss, Ha.
  - rewrite Htx. by apply Forall_app.
Qed.

(** The handles a poll services: the tracked ones, each once. *)
Lemma handles_ok s :
  NoDup (hash_order (map_to_list (active s)).*1) ∧
  ∀ h, h ∈ hash_order (map_to_list (active s)).*1 → is_Some (active s !! h).
Proof.
  split; [rewrite Hperm; apply NoDup_fst_map_to_list|].
  intros h Hh. rewrite Hperm in Hh. apply list_elem_of_fmap in Hh as ([h' x] & -> & Hx).
  apply elem_of_map_to_list in Hx. exists x. exact Hx.
Qed.

Lemma poll_ok ts s :
  stack_wf s →
  ∃ b s', poll (E := E) hash_order ts s = Ok (b, s') ∧ stack_wf s' ∧
    forward (nat_table s) ⊆ forward (nat_table s').
Proof.
  intros Hwf. unfold poll.
  destruct (inbound_loop_ok (E := E) (tun_rx s) (upd_queues (pending s) (tun_tx s) [] s))
    as (s1 & -> & Hwf1 & Hle1); [by destruct Hwf; split|apply Hwf|]. cbn [obind].
  destruct (iface_poll ts (iface s1) (device s1) (sockets s1)) as [[[p i] d] ss] eqn:Hp.
  set (s2 := upd_io i d ss s1). pose proof (iface_poll_wf _ _ _ _ _ _ Hp Hwf1 : stack_wf s2) as Hwf2.
  destruct (handles_ok s2) as [Hnd Hact].
  destruct (service_loop_ok (E := E) (hash_order (map_to_list (active s2)).*1) p s2)
    as (b & s3 & -> & Hwf3 & Hn3 & Hd3 & Hrx3 & Htx3); [done..|].
  cbn [obind]. cbn [nat_table upd_device upd_io tun_tx device dev_rx dev_mtu].
  destruct (outbound_loop_ok (E := E) (nat_table s3) (dev_tx (device s3)) (tun_tx s3))
    as [out ->]; [apply Hwf3..|]. cbn [obind].
  do 2 eexists. split; [reflexivity|]. split.
  - destruct Hwf3 as [Hn Hf Ha Ht Hr]. by split.
  - cbn. rewrite Hn3. exact Hle1.
Qed.

Lemma stack_run_ok ops s :
  stack_wf s → Forall op_ok ops →
  ∃ s', stack_run ops s = Ok s' ∧ stack_wf s' ∧ forward (nat_table s) ⊆ forward (nat_table s').
Proof.
  intros Hwf Ho. revert s Hwf. induction Ho as [|o ops Hok _ IH]; intros s Hwf; [by exists s|].
  cbn [stack_run].
  assert (∃ s1, stack_step o s = Ok s1 ∧ stack_wf s1 ∧
    forward (nat_table s) ⊆ forward (nat_table s1)) as (s1 & -> & Hwf1 & Hle1).
  { destruct o as [pkt|ts| | |f]; cbn [stack_step].
    - eexists. split; [reflexivity|]. split; [|done]. destruct Hwf as [Hn Hf Ha Ht Hr].
      split; simpl; try done. apply Forall_app. by split; [|constructor].
    - destruct (poll_ok ts s Hwf) as (b & s1 & -> & Hwf1 & Hle). by exists s1.
    - eexists. split; [reflexivity|]. unfold drain_outbound. destruct (tun_tx s); [done|].
      split; [|done]. by destruct Hwf; split.
    - eexists. split; [reflexivity|]. unfold accept. destruct (pending s); [done|].
      split; [|done]. by destruct Hwf; split.
    - eexists. split; [reflexivity|]. split; [|done]. by destruct Hwf; split. }
  cbn [obind]. destruct (IH s1 Hwf1) as (s' & -> & Hwf' & Hle). exists s'.
  split_and!; [done..|by etrans].
Qed.

(** C4. The stack never panics: whatever packets are fed to it, and in
    whatever order it is polled, drained and accepted from while relay tasks
    use their channels, every call returns (no index, slice, [unwrap], NAT loop
    or socket lookup fails, in either build profile, for every hash-map
    iteration order), and the invariant holds: the NAT maps are inverse with
    ports in 10000..59999 and every tracked handle has a socket. *)
Theorem stack_never_panics (mtu : Z) (ops : list StackOp)
    (Hmtu : 576 ≤ mtu ≤ 9000) (Hops : Forall op_ok ops) :
  ∃ s0 s, UserspaceStack_new mtu = Ok (s0 : Inner) ∧ stack_run ops s0 = Ok s ∧ stack_wf s.
Proof.
  exists (Inner_new mtu). unfold UserspaceStack_new.
  destruct (Z.ltb_spec mtu 576); [lia|]. destruct (Z.ltb_spec 9000 mtu); [lia|]. cbn [orb].
  destruct (stack_run_ok ops (Inner_new mtu)) as (s & Hrun & Hwf & _); [apply Inner_new_wf|done|].
  by exists s.
Qed.

(** C34. Virtual ports are never given back: a flow that has once got a
    virtual port keeps it for ever, whatever happens to its connection, because
    [poll] forgets the socket's entry before it looks up the port to release.
    So once the 50000 ports are used up, every new flow is dropped. *)
Theorem nat_never_released (ops : list StackOp) (s s' : Inner) (src dst : SocketAddr) (vp : Z)
    (Hwf : stack_wf s) (Hops : Forall op_ok ops) (Hrun : stack_run ops s = Ok s')
    (Hnat : lookup_forward (nat_table s) src dst = Some vp) :
  lookup_forward (nat_table s') src dst = Some vp ∧
  (nat_full (nat_table s) → ∀ raw, raw_ok raw → is_tcp4 raw = true → is_syn raw = true →
     lookup_forward (nat_table s') (src_of raw) (dst_of raw) = None →
     ∃ s'', process_inbound (E := E) raw s' = Ok s'' ∧ device s'' = device s' ∧
       sockets s'' = sockets s' ∧ pending s'' = pending s').
Proof.
  destruct (stack_run_ok ops s Hwf Hops) as (s1 & Hrun1 & Hwf1 & Hle). rewrite Hrun1 in Hrun.
  injection Hrun as <-. split; [by eapply lookup_weaken|].
  intros Hfull raw Hraw Ht Hsyn Hnew. unfold process_inbound.
  rewrite extract_tcp_addrs_eq, Ht. cbn [obind]. rewrite is_tcp_syn_ok by done.
  fold (is_syn raw). rewrite Hsyn. cbn [obind].
  destruct (NatTable_insert_cases (E := E) (nat_table s1) (src_of raw) (dst_of raw))
    as (r & t & -> & Hwft & Hr); [apply Hwf1|]. cbn [obind].
  destruct r as [v|].
  - exfalso. destruct Hr as [[Hf _]|(_ & Hnone & Hrange & _)]; [by unfold lookup_forward in Hnew; congruence|].
    destruct (Hfull v Hrange) as [f Hf]. apply (wf_inverse _ (swf_nat _ Hwf)) in Hf.
    eapply lookup_weaken in Hf; [|exact Hle].
    apply (wf_inverse _ (swf_nat _ Hwf1)) in Hf. congruence.
  - cbn [obind]. by eexists.
Qed.
End runs.

(** ** Inbound packets, case by case *)
Section inbound.
Context {Iface SockSet Sock : Type} `{SmoltcpLaws Iface SockSet Sock} {E : Type} {B : Build}.
Abbreviation Inner := (Inner Iface SockSet).

(** The packet goes to smoltcp with [vp] as its destination port. *)
Definition enqueued (raw : list Z) (vp : Z) (d d' : TunVirtualDevice) : Prop :=
  ∃ pkt, d' = push_rx pkt d ∧
    extract_tcp_addrs (E := E) pkt = Ok (Some (src_of raw, SockV4 (take 4 (drop 16 raw)) vp)) ∧
    ipv4_checksum_valid pkt ∧ tcp_checksum_valid pkt.

(** A new listening socket on [vp], tracked, with a connection to accept. *)
Definition listening (vp : Z) (remote : SocketAddr) (s s' : Inner) : Prop :=
  ∃ h sk, tcp_listen (SockV4 IFACE_IP vp) (tcp_new SOCK_BUF SOCK_BUF) = Some sk ∧
    set_get h (sockets s) = None ∧ set_get h (sockets s') = Some sk ∧
    active s' = <[h := (remote, {| peer_chan := next_chan s |})]> (active s) ∧
    pending s' = pending s ++
      [{| vc_local := SockV4 IFACE_IP vp; vc_remote := remote; vc_chan := next_chan s |}] ∧
    chans s' !! next_chan s = Some Chan_new.

Lemma create_listener_spec vp r (s : Inner) sk :
  tcp_listen (SockV4 IFACE_IP vp) (tcp_new SOCK_BUF SOCK_BUF) = Some sk →
  (length (pending s) < PENDING_CAP)%nat → listening vp r s (create_listener vp r s).
Proof.
  intros Hl Hp. unfold create_listener, listening. rewrite Hl.
  destruct (set_add sk (sockets s)) as [h ss] eqn:Hadd. apply set_add_law in Hadd as [Hn Hg].
  rewrite (proj2 (Nat.ltb_lt _ _) Hp). exists h, sk. cbn.
  rewrite Hg, decide_True, lookup_insert_eq by done. by split_and!.
Qed.

Lemma rewrite_enqueued raw vp (s : Inner) :
  raw_ok raw → is_tcp4 raw = true → (20 ≤ ihl_of raw)%nat → u16 vp →
  ∃ d', (let! (ok, pkt) := rewrite_inbound (E := E) raw vp in
         Ok (if ok : bool then upd_device (push_rx pkt (device s)) s else s))
        = Ok (upd_device d' s) ∧ enqueued raw vp (device s) d'.
Proof.
  intros [Hb Hl] Ht Hi Hvp.
  destruct (rewrite_inbound_ok (E := E) raw vp) as (pkt & -> & Ha & H4 & Htcp & _); [done..|].
  cbn [obind]. eexists. split; [reflexivity|]. by exists pkt.
Qed.

Lemma vport_u16 vp : vport_range vp → u16 vp.
Proof. unfold vport_range, BASE_PORT, PORT_RANGE, uint. lia. Qed.

(** C6. Inbound segments. One that is not a SYN is dropped unless its flow has
    a virtual port, and otherwise goes to smoltcp at that port, correctly
    checksummed, changing nothing else. A SYN whose flow has or gets virtual
    port [vp] goes to smoltcp at [vp]; if no tracked socket has the same real
    destination, a socket is created that listens on [vp] and a connection to
    that destination is queued for the relay; but if one has, the SYN reaches
    a port for which no socket was created, and no connection is queued: a
    second connection to the same server is not opened. *)
Theorem process_inbound_spec (raw : list Z) (s : Inner)
    (Hwf : stack_wf s) (Hraw : raw_ok raw) (Ht : is_tcp4 raw = true) (Hi : (20 ≤ ihl_of raw)%nat) :
  (is_syn raw = false → lookup_forward (nat_table s) (src_of raw) (dst_of raw) = None →
     process_inbound (E := E) raw s = Ok s) ∧
  (∀ vp, is_syn raw = false → lookup_forward (nat_table s) (src_of raw) (dst_of raw) = Some vp →
     ∃ d', process_inbound (E := E) raw s = Ok (upd_device d' s) ∧ enqueued raw vp (device s) d') ∧
  (is_syn raw = true →
     ∃ s', process_inbound (E := E) raw s = Ok s' ∧
       ∀ vp, lookup_forward (nat_table s') (src_of raw) (dst_of raw) = Some vp →
         enqueued raw vp (device s) (device s') ∧
         (dst_active s (dst_of raw) = false → (length (pending s) < PENDING_CAP)%nat →
          is_Some (tcp_listen (SockV4 IFACE_IP vp) (tcp_new SOCK_BUF SOCK_BUF)) →
          listening vp (dst_of raw) s s') ∧
         (dst_active s (dst_of raw) = true →
          sockets s' = sockets s ∧ active s' = active s ∧ pending s' = pending s)).
Proof.
  assert (∀ vp, lookup_forward (nat_table s) (src_of raw) (dst_of raw) = Some vp → u16 vp) as Hu.
  { intros vp Hf. destruct (swf_nat _ Hwf) as [Hinv Hr _]. apply Hinv in Hf. eapply vport_u16, Hr, Hf. }
  unfold process_inbound. rewrite extract_tcp_addrs_eq, Ht. cbn [obind].
  rewrite is_tcp_syn_ok by done. fold (is_syn raw). cbn [obind]. split; [|split].
  - intros -> ->. done.
  - intros vp -> Hf. rewrite Hf. cbn [obind]. by apply rewrite_enqueued; try apply Hu.
  - intros ->.
    destruct (NatTable_insert_cases (E := E) (nat_table s) (src_of raw) (dst_of raw))
      as (r & t & -> & Hwft & Hr); [apply Hwf|]. cbn [obind].
    destruct r as [vp|].
    2:{ destruct Hr as (Hnone & _ & Hfw). eexists. split; [reflexivity|]. intros vp.
        unfold lookup_forward. cbn. rewrite Hfw, Hnone. done. }
    assert (forward t !! (src_of raw, dst_of raw) = Some vp ∧ u16 vp) as [Hft Hvp].
    { destruct Hr as [[Hf ->]|(_ & _ & Hrange & -> & _)]; [by eauto|].
      split; [apply lookup_insert_eq|by apply vport_u16]. }
    cbn [obind]. change (dst_active (upd_nat t s)) with (dst_active s).
    destruct (dst_active s (dst_of raw)) eqn:Hda; cbn [negb].
    + destruct (rewrite_enqueued raw vp (upd_nat t s)) as (d' & -> & Henq); [done..|].
      eexists. split; [reflexivity|]. intros vp'. unfold lookup_forward. cbn. rewrite Hft.
      intros [= <-]. by split_and!.
    + set (s1 := create_listener vp (dst_of raw) (upd_nat t s)).
      destruct (create_listener_frame vp (dst_of raw) (upd_nat t s)) as (Hn & Hd & _). fold s1 in Hn, Hd.
      destruct (rewrite_enqueued raw vp s1) as (d' & -> & Henq); [done..|].
      eexists. split; [reflexivity|]. intros vp'. unfold lookup_forward. cbn. rewrite Hn. cbn. rewrite Hft.
      intros [= <-]. split; [by rewrite Hd in Henq|]. split; [|done].
      intros _ Hpend [sk Hsk]. by apply (create_listener_spec vp (dst_of raw) (upd_nat t s) sk).
Qed.

(** ** Servicing one socket *)
Lemma send_loop_spec q (sk : Sock) :
  let '(q', sk') := send_loop q sk in
  ∃ sent, q = sent ++ q' ∧ sk' = foldl (λ sk d, (send_slice d sk).2) sk sent ∧
    (q' = [] ∨ can_send sk' = false).
Proof.
  revert sk. induction q as [|d q IH]; intros sk; cbn [send_loop]; [by exists []; auto|].
  destruct (can_send sk) eqn:Hc; [|exists []; auto].
  specialize (IH (send_slice d sk).2). destruct (send_loop q _) as [q' sk'].
  destruct IH as (sent & -> & -> & Hor). by exists (d :: sent).
Qed.

(** One exchange between a socket and its relay. What the socket has
    received is queued for the relay as one chunk if the channel has room, and
    is otherwise discarded although the socket has already consumed it; chunks
    of the relay are handed to the socket in order for as long as it can send,
    each leaving the queue whether or not the socket accepted all its bytes;
    the socket is closed exactly when the relay has dropped its sender and the
    socket can still send. *)
Theorem exchange_spec (sk : Sock) (c : Chan) :
  let sk1 := match tcp_recv sk with Some (_, sk1) => if can_recv sk then sk1 else sk | None => sk end in
  let '(sk', c') := exchange sk c in
  (∀ data sk2, can_recv sk = true → tcp_recv sk = Some (data, sk2) → data ≠ [] →
     to_relay c' = if relay_receiving c && (length (to_relay c) <? CHANNEL_CAP)%nat
                   then to_relay c ++ [data] else to_relay c) ∧
  (can_recv sk = false → to_relay c' = to_relay c) ∧
  ∃ sent sk3, to_stack c = sent ++ to_stack c' ∧
    sk3 = foldl (λ sk d, (send_slice d sk).2) sk1 sent ∧
    (to_stack c' = [] ∨ can_send sk3 = false) ∧
    sk' = if can_send sk3 && negb (relay_sending c) then tcp_close sk3 else sk3.
Proof.
  cbv zeta. unfold exchange.
  assert (∀ data, to_stack (try_send c data) = to_stack c ∧
    relay_sending (try_send c data) = relay_sending c ∧
    to_relay (try_send c data) = if relay_receiving c && (length (to_relay c) <? CHANNEL_CAP)%nat
                                 then to_relay c ++ [data] else to_relay c) as Htry.
  { intros data. unfold try_send. by destruct (_ && _). }
  destruct (can_recv sk) eqn:Hr; [destruct (tcp_recv sk) as [[data sk2]|] eqn:Hrecv|].
  - set (c1 := match data with [] => c | _ => try_send c data end).
    assert (to_stack c1 = to_stack c ∧ relay_sending c1 = relay_sending c) as [Hq Hs]
      by (unfold c1; destruct data; [done|split; apply Htry]).
    pose proof (send_loop_spec (to_stack c1) sk2) as Hloop.
    destruct (send_loop (to_stack c1) sk2) as [q' sk3]. destruct Hloop as (sent & Hsplit & -> & Hor).
    split; [|split; [done|]].
    + intros data' sk2' _ [= <- <-] Hne. unfold c1. destruct data; [done|]. cbn. apply Htry.
    + exists sent. eexists. cbn. rewrite <- Hq, <- Hs. by split_and!.
  - pose proof (send_loop_spec (to_stack c) sk) as Hloop.
    destruct (send_loop (to_stack c) sk) as [q' sk3]. destruct Hloop as (sent & Hsplit & -> & Hor).
    split; [done|]. split; [done|]. exists sent. eexists. by split_and!.
  - pose proof (send_loop_spec (to_stack c) sk) as Hloop.
    destruct (send_loop (to_stack c) sk) as [q' sk3]. destruct Hloop as (sent & Hsplit & -> & Hor).
    split; [done|]. split; [done|]. exists sent. eexists.
    destruct (tcp_recv sk) as [[]|]; by split_and!.
Qed.
End inbound.

(** ** A small TCP to run the stack on

    Sockets are a state, two byte buffers and the free room of the second;
    polling consumes the received packets and emits nothing. *)
Module MiniTcp.
Record Sock := { st : TcpState; inbuf : list Z; outbuf : list Z; room : nat }.
Abbreviation SockSet := (gmap nat Sock).

#[export] Instance MiniTcp : Smoltcp unit SockSet Sock := {|
  iface_new _ _ := tt;
  iface_poll _ i d ss := (false, i, {| dev_rx := []; dev_tx := dev_tx d; dev_mtu := dev_mtu d |}, ss);
  set_new := ∅;
  set_add s ss := let h := fresh (dom ss) in (h, <[h := s]> ss);
  set_get h ss := ss !! h;
  set_put h s ss := <[h := s]> ss;
  set_remove h ss := delete h ss;
  tcp_new _ _ := {| st := Closed; inbuf := []; outbuf := []; room := 0 |};
  tcp_listen _ s := Some {| st := Listen; inbuf := []; outbuf := []; room := 0 |};
  tcp_state := st;
  can_recv s := match inbuf s with [] => false | _ => true end;
  can_send s := match room s with O => false | _ => true end;
  tcp_recv s := Some (inbuf s, {| st := st s; inbuf := []; outbuf := outbuf s; room := room s |});
  send_slice d s :=
    let n := Nat.min (length d) (room s) in
    (n, {| st := st s; inbuf := inbuf s; outbuf := outbuf s ++ take n d; room := room s - n |});
  tcp_close s := {| st := FinWait1; inbuf := inbuf s; outbuf := outbuf s; room := room s |}
|}.

#[export] Instance MiniTcp_laws : SmoltcpLaws unit SockSet Sock.
Proof.
  split; cbn.
  - intros s ss h ss' [= <- <-]. split; [apply not_elem_of_dom, is_fresh|].
    intros h'. rewrite lookup_insert. repeat case_decide; congruence.
  - intros h s ss h' _. rewrite lookup_insert. repeat case_decide; congruence.
  - intros h ss h'. rewrite lookup_delete. repeat case_decide; congruence.
  - by intros ts i d ss p i' d' ss' [= <- <- <- <-].
  - intros ts i d ss p i' d' ss' [= <- <- <- <-]. exists []. by rewrite app_nil_r.
Qed.

Abbreviation state := (Inner unit SockSet).
Definition start : state := Inner_new 1280.

(** After the SYN of [Rewrite.syn_packet] and a poll. *)
Definition after_syn : Outcome unit state :=
  stack_run (B := dev) id [OpFeed syn_packet; OpPoll 0] start.
End MiniTcp.
Import MiniTcp.

Lemma syn_ok : raw_ok syn_packet.
Proof. split; [repeat constructor; lia|simpl; lia]. Qed.

Lemma stack_never_panics_witness :
  ∃ s0 s, UserspaceStack_new 1280 = Ok (s0 : state) ∧
    stack_run (E := unit) (B := dev) id [OpFeed syn_packet; OpPoll 0; OpAccept] s0 = Ok s ∧ stack_wf s.
Proof.
  apply (stack_never_panics (B := dev) id (λ l, Permutation_refl l) 1280
    [OpFeed syn_packet; OpPoll 0; OpAccept]); [lia|].
  constructor; [exact syn_ok|]. constructor; [exact I|]. constructor; [exact I|constructor].
Defined.

Lemma nat_never_released_witness :
  ∃ s s', after_syn = Ok s ∧
    stack_run (E := unit) (B := dev) id [OpPoll 1; OpAccept; OpPoll 2] s = Ok s' ∧
    lookup_forward (nat_table s') (src_of syn_packet) (dst_of syn_packet) = Some 10000.
Proof.
  destruct (stack_run_ok (E := unit) (B := dev) id (λ l, Permutation_refl l)
    [OpFeed syn_packet; OpPoll 0] start) as (s & Hs & Hwf & _);
    [apply Inner_new_wf|constructor; [exact syn_ok|constructor; [exact I|constructor]]|].
  destruct (stack_run_ok (E := unit) (B := dev) id (λ l, Permutation_refl l)
    [OpPoll 1; OpAccept; OpPoll 2] s) as (s' & Hs' & _ & _);
    [exact Hwf|do 3 (constructor; [exact I|]); constructor|].
  exists s, s'. split; [exact Hs|]. split; [exact Hs'|].
  refine (proj1 (nat_never_released (B := dev) id (λ l, Permutation_refl l)
    [OpPoll 1; OpAccept; OpPoll 2] s s' _ _ 10000 Hwf _ Hs' _));
    [do 3 (constructor; [exact I|]); constructor|].
  assert (match after_syn with
          | Ok s => lookup_forward (nat_table s) (src_of syn_packet) (dst_of syn_packet)
          | _ => None end = Some 10000) as Hrun by (vm_compute; reflexivity).
  unfold after_syn in Hrun. rewrite Hs in Hrun. exact Hrun.
Defined.

Lemma process_inbound_spec_witness :
  ∃ s', process_inbound (E := unit) (B := dev) syn_packet start = Ok s' ∧
    ∀ vp, lookup_forward (nat_table s') (src_of syn_packet) (dst_of syn_packet) = Some vp →
      enqueued (E := unit) (B := dev) syn_packet vp (device start) (device s').
Proof.
  destruct (process_inbound_spec (E := unit) (B := dev) syn_packet start) as (_ & _ & H);
    [apply Inner_new_wf|apply syn_ok|reflexivity|vm_compute; lia|].
  destruct (H eq_refl) as (s' & Hs & Hvp). exists s'. split; [exact Hs|].
  intros vp Hl. exact (proj1 (Hvp vp Hl)).
Defined.

(** A table in which [syn_packet], read as a segment smoltcp emits from port
    54321, belongs to the flow from 8.8.8.8:443 to 1.1.1.1:80. *)
Definition reply_table : NatTable :=
  {| forward := {[ (SockV4 [8; 8; 8; 8] 443, SockV4 [1; 1; 1; 1] 80) := 54321 ]};
     reverse := {[ 54321 := (SockV4 [8; 8; 8; 8] 443, SockV4 [1; 1; 1; 1] 80) ]};
     next := 10000 |}.

Lemma outbound_packet_restores_witness :
  ∃ pkt', outbound_packet (E := unit) (B := dev) reply_table syn_packet = Ok (Some pkt') ∧
    extract_tcp_addrs (E := unit) pkt'
      = Ok (Some (SockV4 [1; 1; 1; 1] 80, SockV4 [8; 8; 8; 8] 443)).
Proof.
  destruct (outbound_packet_restores (E := unit) (B := dev) reply_table (SockV4 [8; 8; 8; 8] 443)
    (SockV4 [1; 1; 1; 1] 80) 54321 syn_packet) as (p & Hp & Ha & _).
  - split; cbn.
    + intros k v. rewrite !lookup_singleton_Some. naive_solver.
    + intros v k Hk. apply lookup_singleton_Some in Hk as [<- _].
      unfold vport_range, BASE_PORT, PORT_RANGE. lia.
    + unfold vport_range, BASE_PORT, PORT_RANGE. lia.
  - cbn. intros f v Hf. apply lookup_singleton_Some in Hf as [<- _].
    repeat split; try reflexivity; try lia; repeat constructor; lia.
  - eexists. eexists. reflexivity.
  - reflexivity.
  - apply syn_ok.
  - reflexivity.
  - vm_compute. lia.
  - reflexivity.
  - reflexivity.
  - exists p. split; [exact Hp|exact Ha].
Defined.
