(* ===== verification/Text.v ===== *)
(** * Text: string literals, decimal numbers and searching

    A [String] or [&str] is its UTF-8 bytes.  The functions are those of the
    standard library that the HTTP and diagnostic code use, on ASCII
    separators. *)

From Stdlib Require Import ZArith Lia.
From Stdlib Require Import Ascii String.
From stdpp Require Import sets.
From S2P Require Import Prelude Bytes.
Local Open Scope Z_scope.

(** The bytes of a literal. *)
Fixpoint str (s : string) : list Z :=
  match s with
  | EmptyString => []
  | String c s => Z.of_N (N_of_ascii c) :: str s
  end.
Arguments str s%_string.

Definition CRLF : list Z := [13; 10].

(** ** Decimal numbers *)

(** [n.to_string()]; fuel: a [u64] has at most 20 digits. *)
Fixpoint dec_loop (fuel : nat) (n : Z) (acc : list Z) : list Z :=
  match fuel with
  | O => acc
  | S fuel =>
      let acc := (48 + n mod 10) :: acc in
      if n <? 10 then acc else dec_loop fuel (n / 10) acc
  end.
Definition dec (n : Z) : list Z := dec_loop 20 n [].

Definition is_digit (b : Z) : bool := (48 <=? b) && (b <=? 57).

(** The digits of [str::parse::<u16>()], with its overflow check. *)
Fixpoint digits_u16 (l : list Z) (acc : Z) : option Z :=
  match l with
  | [] => Some acc
  | b :: l =>
      if is_digit b then
        let acc := acc * 10 + (b - 48) in
        if acc <? 65536 then digits_u16 l acc else None
      else None
  end.

(** [str::parse::<u16>()]: an optional plus sign, then at least one digit. *)
Definition parse_u16 (l : list Z) : option Z :=
  match l with
  | [] => None
  | 43 :: (_ :: _) as l' => digits_u16 (tail l') 0
  | _ => digits_u16 l 0
  end.

(** ** Searching *)

(** [str::rfind(':')] and the like: the two sides of the last [b]. *)
Fixpoint rsplit_at (b : Z) (l : list Z) : option (list Z * list Z) :=
  match l with
  | [] => None
  | x :: l =>
      match rsplit_at b l with
      | Some (pre, post) => Some (x :: pre, post)
      | None => if x =? b then Some ([], l) else None
      end
  end.

Fixpoint is_prefix (p l : list Z) : bool :=
  match p, l with
  | [], _ => true
  | a :: p, b :: l => (a =? b) && is_prefix p l
  | _, [] => false
  end.

(** [str::contains]. *)
Fixpoint contains (p l : list Z) : bool :=
  is_prefix p l || match l with [] => false | _ :: l => contains p l end.

(** [lines().next()]: up to the first newline, without a carriage return
    before it; [None] for the empty string. *)
Fixpoint until (b : Z) (l : list Z) : list Z * bool :=
  match l with
  | [] => ([], false)
  | x :: l => if x =? b then ([], true) else let '(a, found) := until b l in (x :: a, found)
  end.
Definition strip_cr (l : list Z) : list Z :=
  match rev l with 13 :: r => rev r | _ => l end.
Definition first_line (l : list Z) : option (list Z) :=
  match l with
  | [] => None
  | _ => let '(a, found) := until 10 l in Some (if found then strip_cr a else a)
  end.

(** The length of the white-space character a valid UTF-8 string starts with,
    0 if it starts with another ([char::is_whitespace]). *)
Definition is_space (b : Z) : bool := (b =? 32) || ((9 <=? b) && (b <=? 13)).
Definition space_len (l : list Z) : nat :=
  match l with
  | [] => 0
  | b :: r =>
      if is_space b then 1
      else match b, r with
           | 0xC2, 0x85 :: _ | 0xC2, 0xA0 :: _ => 2
           | 0xE1, 0x9A :: 0x80 :: _ => 3
           | 0xE2, 0x80 :: c :: _ =>
               if ((0x80 <=? c) && (c <=? 0x8A)) || (c =? 0xA8) || (c =? 0xA9) || (c =? 0xAF)
               then 3 else 0
           | 0xE2, 0x81 :: 0x9F :: _ => 3
           | 0xE3, 0x80 :: 0x80 :: _ => 3
           | _, _ => 0
           end
  end.

(** [split_whitespace]: the maximal runs without white space; [cur] is the
    current one.  Fuel: every turn consumes a byte. *)
Fixpoint words_loop (fuel : nat) (l cur : list Z) : list (list Z) :=
  match fuel, l with
  | S fuel, b :: r =>
      match space_len l with
      | O => words_loop fuel r (cur ++ [b])
      | k => match cur with
             | [] => words_loop fuel (drop k l) []
             | _ => cur :: words_loop fuel (drop k l) []
             end
      end
  | _, _ => match cur with [] => [] | _ => [cur] end
  end.
Definition split_whitespace (l : list Z) : list (list Z) := words_loop (length l) l [].

(** ** Facts *)

(** The value of a string of digits. *)
Definition digits_value (l : list Z) (acc : Z) : Z := foldl (λ a b, a * 10 + (b - 48)) acc l.

Lemma digits_value_ge l acc :
  forallb is_digit l = true → 0 ≤ acc → acc ≤ digits_value l acc.
Proof.
  revert acc. induction l as [|b l IH]; intros acc Hd Ha; cbn; [lia|].
  cbn in Hd. apply andb_true_iff in Hd as [Hb Hd]. unfold is_digit in Hb.
  apply andb_true_iff in Hb as [H1%Z.leb_le H2%Z.leb_le].
  specialize (IH (acc * 10 + (b - 48)) Hd). unfold digits_value in IH. lia.
Qed.

(** The checked accumulation is the value, when that fits. *)
Lemma digits_u16_value l acc :
  forallb is_digit l = true → 0 ≤ acc < 65536 →
  digits_u16 l acc = if digits_value l acc <? 65536 then Some (digits_value l acc) else None.
Proof.
  revert acc. induction l as [|b l IH]; intros acc Hd Ha; cbn.
  { by rewrite (proj2 (Z.ltb_lt _ _)) by lia. }
  cbn in Hd. apply andb_true_iff in Hd as [Hb Hd]. rewrite Hb.
  unfold is_digit in Hb. apply andb_true_iff in Hb as [H1%Z.leb_le H2%Z.leb_le].
  destruct (Z.ltb_spec (acc * 10 + (b - 48)) 65536).
  - by rewrite IH by (done || lia).
  - pose proof (digits_value_ge l (acc * 10 + (b - 48)) Hd ltac:(lia)).
    unfold digits_value in *. by rewrite (proj2 (Z.ltb_ge _ _)) by lia.
Qed.

Lemma digits_u16_bad l acc : forallb is_digit l = false → digits_u16 l acc = None.
Proof.
  revert acc. induction l as [|b l IH]; intros acc Hd; [done|]. cbn in Hd |- *.
  destruct (is_digit b); [|done]. case_match; [by apply IH|done].
Qed.

Lemma digits_value_app l k acc :
  digits_value (l ++ k) acc = digits_value k (digits_value l acc).
Proof. unfold digits_value. by rewrite foldl_app. Qed.

Lemma digits_value_split l acc :
  digits_value l acc = acc * 10 ^ Z.of_nat (length l) + digits_value l 0.
Proof.
  revert acc. induction l as [|b l IH]; intros acc; [cbn; lia|].
  unfold digits_value in *. cbn [foldl length]. rewrite IH, (IH (0 * 10 + (b - 48))).
  rewrite Nat2Z.inj_succ, Z.pow_succ_r by lia. lia.
Qed.

Lemma dec_loop_spec fuel n acc :
  0 ≤ n < 10 ^ Z.of_nat fuel → (0 < fuel)%nat → forallb is_digit acc = true →
  forallb is_digit (dec_loop fuel n acc) = true ∧
  digits_value (dec_loop fuel n acc) 0 = n * 10 ^ Z.of_nat (length acc) + digits_value acc 0 ∧
  dec_loop fuel n acc ≠ [].
Proof.
  revert n acc. induction fuel as [|fuel IH]; intros n acc Hn Hf Hd; [lia|]. cbn [dec_loop].
  assert (is_digit (48 + n mod 10) = true) as Hdig.
  { unfold is_digit. pose proof (Z.mod_pos_bound n 10). rewrite andb_true_iff, !Z.leb_le. lia. }
  assert (digits_value ((48 + n mod 10) :: acc) 0 =
    n mod 10 * 10 ^ Z.of_nat (length acc) + digits_value acc 0) as Hv.
  { change (digits_value (?b :: acc) 0) with (digits_value acc (0 * 10 + (b - 48))).
    rewrite digits_value_split. f_equal. f_equal. lia. }
  destruct (Z.ltb_spec n 10) as [Hlt|Hge].
  - split; [cbn [forallb]; by rewrite Hdig, Hd|]. split; [|done].
    by rewrite Hv, Z.mod_small by lia.
  - rewrite Nat2Z.inj_succ, Z.pow_succ_r in Hn by lia.
    destruct (IH (n / 10) ((48 + n mod 10) :: acc)) as (H1 & H2 & H3).
    + split; [apply Z.div_pos; lia|apply Z.div_lt_upper_bound; lia].
    + destruct fuel; [cbn in Hn; lia|lia].
    + cbn [forallb]. by rewrite Hdig, Hd.
    + split; [done|]. split; [|done]. rewrite H2, Hv. cbn [length].
      rewrite Nat2Z.inj_succ, Z.pow_succ_r by lia.
      rewrite (Z.div_mod n 10) at 3 by lia. lia.
Qed.

Lemma parse_u16_digits l :
  forallb is_digit l = true → l ≠ [] →
  parse_u16 l = if digits_value l 0 <? 65536 then Some (digits_value l 0) else None.
Proof.
  intros Hd Hne. unfold parse_u16. destruct l as [|b l]; [done|].
  rewrite <- digits_u16_value by (done || lia).
  cbn in Hd. apply andb_true_iff in Hd as [Hb _]. unfold is_digit in Hb.
  apply andb_true_iff in Hb as [H1%Z.leb_le H2%Z.leb_le].
  destruct b as [|p|p]; try done. do 7 (try destruct p as [p|p|]); done || lia.
Qed.

(** Printing then parsing. *)
Lemma parse_dec n : u16 n → parse_u16 (dec n) = Some n.
Proof.
  intros [H0 H1]. unfold dec.
  destruct (dec_loop_spec 20 n []) as (Hd & Hv & Hne); [cbn; lia|lia|done|].
  rewrite parse_u16_digits by done. rewrite Hv. cbn [digits_value foldl length].
  change (Z.of_nat 0) with 0. rewrite Z.pow_0_r, Z.mul_1_r, Z.add_0_r.
  by rewrite (proj2 (Z.ltb_lt _ _)) by lia.
Qed.

Lemma rsplit_at_none b l : b ∉ l → rsplit_at b l = None.
Proof.
  induction l as [|y l IH]; [done|]. intros [Hy Hl]%not_elem_of_cons.
  cbn. rewrite IH by done. by destruct (Z.eqb_spec y b).
Qed.

Lemma rsplit_at_app b l k :
  b ∉ k → rsplit_at b (l ++ b :: k) = Some (l, k).
Proof.
  intros Hk. induction l as [|x l IH]; cbn; [|by rewrite IH].
  by rewrite rsplit_at_none, Z.eqb_refl.
Qed.

(** Printable ASCII: no white space, no control characters. *)
Definition is_graph (b : Z) : bool := (33 <=? b) && (b <=? 126).

Lemma graph_no_space b r : is_graph b = true → space_len (b :: r) = 0%nat.
Proof.
  unfold is_graph. rewrite andb_true_iff, !Z.leb_le. intros [H1 H2].
  assert (is_space b = false) as Hs.
  { unfold is_space. destruct (Z.eqb_spec b 32); [lia|]. destruct (Z.leb_spec b 13); [lia|].
    by rewrite andb_false_r. }
  cbn [space_len]. rewrite Hs. destruct b as [|p|p]; try done.
  do 8 (try destruct p as [p|p|]); done || lia.
Qed.

Lemma words_loop_word fuel w l cur :
  forallb is_graph w = true → (length w ≤ fuel)%nat →
  words_loop fuel (w ++ l) cur = words_loop (fuel - length w) l (cur ++ w).
Proof.
  revert fuel cur. induction w as [|b w IH]; intros fuel cur Hg Hf.
  { by rewrite Nat.sub_0_r, app_nil_r. }
  cbn in Hg, Hf. apply andb_true_iff in Hg as [Hb Hw]. destruct fuel as [|fuel]; [lia|].
  cbn [app words_loop]. rewrite graph_no_space by done. rewrite IH by (done || lia).
  cbn [length Nat.sub]. by rewrite <- app_assoc.
Qed.

(** The second word of a request line. *)
Lemma split_request_line w1 w2 rest :
  forallb is_graph w1 = true → forallb is_graph w2 = true → w1 ≠ [] → w2 ≠ [] →
  ∃ ws, split_whitespace (w1 ++ 32 :: w2 ++ 32 :: rest) = w1 :: w2 :: ws.
Proof.
  intros H1 H2 Hn1 Hn2. unfold split_whitespace. rewrite !length_app. cbn [length]. rewrite length_app.
  cbn [length]. rewrite words_loop_word by (done || lia).
  replace (length w1 + S (length w2 + S (length rest)) - length w1)%nat
    with (S (length w2 + S (length rest))) by lia.
  cbn [words_loop space_len is_space Z.eqb Pos.eqb orb app skipn].
  destruct w1 as [|a w1]; [done|]. rewrite drop_0, words_loop_word by (done || lia).
  replace (length w2 + S (length rest) - length w2)%nat with (S (length rest)) by lia.
  cbn [words_loop space_len is_space Z.eqb Pos.eqb orb app skipn].
  destruct w2 as [|b w2]; [done|]. eauto.
Qed.

Lemma until_none b l : b ∉ l → until b l = (l, false).
Proof.
  induction l as [|x l IH]; cbn; intros Hl; [done|].
  apply not_elem_of_cons in Hl as [Hx Hl]. rewrite IH by done. by destruct (Z.eqb_spec x b).
Qed.

Lemma until_app b l k : b ∉ l → until b (l ++ b :: k) = (l, true).
Proof.
  induction l as [|x l IH]; cbn; intros Hl; [by rewrite Z.eqb_refl|].
  apply not_elem_of_cons in Hl as [Hx Hl]. rewrite IH by done. by destruct (Z.eqb_spec x b).
Qed.

(** The first line of a message with CRLF line ends. *)
Lemma first_line_crlf l rest : 10 ∉ l → first_line (l ++ CRLF ++ rest) = Some l.
Proof.
  intros Hl. unfold first_line, CRLF.
  assert (until 10 (l ++ [13; 10] ++ rest) = (l ++ [13], true)) as Hu.
  { change (l ++ [13; 10] ++ rest) with (l ++ 13 :: 10 :: rest). rewrite cons_middle, app_assoc.
    apply until_app. set_solver. }
  destruct (l ++ [13; 10] ++ rest) eqn:El; [by destruct l|]. rewrite Hu.
  unfold strip_cr. rewrite rev_app_distr. cbn. by rewrite rev_involutive.
Qed.
