(* ===== verification/Display.v ===== *)
(** * std::fmt: hexadecimal numbers and socket addresses

    [format!("{:08x}", n)] and the like, and [Display] of [IpAddr] and
    [SocketAddr] (their [Debug] is the same text), which the telemetry, the
    diagnostic token and the events of the session contain. *)

From Stdlib Require Import ZArith Lia.
From Stdlib Require Import String.
From stdpp Require Import sets.
From S2P Require Import Prelude Bytes Net Text.
From stdpp Require Import list.
Local Open Scope list_scope.
Local Open Scope Z_scope.

(** ** Hexadecimal *)
Definition hex_digit (d : Z) : Z := if d <? 10 then 48 + d else 87 + d.

(** [format!("{:x}", n)]; fuel: a [u64] has at most 16 digits. *)
Fixpoint hex_loop (fuel : nat) (n : Z) (acc : list Z) : list Z :=
  match fuel with
  | O => acc
  | S fuel =>
      let acc := hex_digit (n mod 16) :: acc in
      if n <? 16 then acc else hex_loop fuel (n / 16) acc
  end.
Definition hex (n : Z) : list Z := hex_loop 16 n [].

(** [format!("{:0wx}", n)]. *)
Definition hex_pad (w : nat) (n : Z) : list Z := replicate (w - length (hex n)) 48 ++ hex n.

(** ** Addresses *)
Fixpoint join_with (sep : list Z) (l : list (list Z)) : list Z :=
  match l with
  | [] => []
  | [x] => x
  | x :: l => x ++ sep ++ join_with sep l
  end.

Definition display_v4 (octets : list Z) : list Z := join_with (str ".") (dec <$> octets).

(** The eight segments. *)
Fixpoint segments (octets : list Z) : list Z :=
  match octets with
  | a :: b :: r => be16 a b :: segments r
  | _ => []
  end.

(** The first of the longest runs of zero segments: where it starts and how
    long it is.  [i] is the position, [cs] and [cl] the current run, [ls] and
    [ll] the longest so far. *)
Fixpoint longest_zeros (l : list Z) (i cs cl ls ll : nat) : nat * nat :=
  match l with
  | [] => (ls, ll)
  | s :: l =>
      if s =? 0 then
        let cs := if (cl =? 0)%nat then i else cs in
        let cl := S cl in
        if (ll <? cl)%nat then longest_zeros l (S i) cs cl cs cl
        else longest_zeros l (S i) cs cl ls ll
      else longest_zeros l (S i) 0 0 ls ll
  end.

Definition is_v4_mapped (octets : list Z) : bool :=
  bool_decide (take 12 octets = replicate 10 0 ++ [255; 255]).

Definition display_v6 (octets : list Z) : list Z :=
  if is_v4_mapped octets then str "::ffff:" ++ display_v4 (drop 12 octets)
  else
    let segs := segments octets in
    let '(start, len) := longest_zeros segs 0 0 0 0 0 in
    if (1 <? len)%nat then
      join_with (str ":") (hex <$> take start segs) ++ str "::" ++
      join_with (str ":") (hex <$> drop (start + len) segs)
    else join_with (str ":") (hex <$> segs).

Definition display_addr (a : SocketAddr) : list Z :=
  match a with
  | SockV4 ip port => display_v4 ip ++ str ":" ++ dec port
  | SockV6 ip port _ scope =>
      str "[" ++ display_v6 ip ++
      (if scope =? 0 then [] else str "%" ++ dec scope) ++ str "]:" ++ dec port
  end.

Example display_v4_ex : display_addr (SockV4 [192; 168; 43; 1] 1080) = str "192.168.43.1:1080".
Proof. reflexivity. Qed.
Example display_v6_ex :
  display_addr (SockV6 (32 :: 1 :: 13 :: 184 :: replicate 11 0 ++ [1]) 443 0 3) = str "[2001:db8::1%3]:443".
Proof. reflexivity. Qed.
Example display_loopback_ex : display_v6 (replicate 15 0 ++ [1]) = str "::1".
Proof. reflexivity. Qed.
Example display_mapped_ex :
  display_v6 (replicate 10 0 ++ [255; 255; 10; 0; 0; 7]) = str "::ffff:10.0.0.7".
Proof. reflexivity. Qed.

(** ** Hexadecimal printing is invertible *)
Definition is_hex (b : Z) : bool := is_digit b || ((97 <=? b) && (b <=? 102)).
Definition hex_digit_value (b : Z) : Z := if b <? 58 then b - 48 else b - 87.
Definition hex_value (l : list Z) (acc : Z) : Z := foldl (λ acc b, acc * 16 + hex_digit_value b) acc l.

Lemma hex_digit_ok d : 0 ≤ d < 16 → is_hex (hex_digit d) = true ∧ hex_digit_value (hex_digit d) = d.
Proof.
  intros Hd. unfold hex_digit, hex_digit_value, is_hex, is_digit.
  destruct (Z.ltb_spec d 10); (split; [rewrite orb_true_iff, !andb_true_iff, !Z.leb_le; lia|]);
    case_match eqn:Hc; first [apply Z.ltb_lt in Hc|apply Z.ltb_ge in Hc]; lia.
Qed.

Lemma hex_value_split l acc :
  hex_value l acc = acc * 16 ^ Z.of_nat (length l) + hex_value l 0.
Proof.
  revert acc. induction l as [|b l IH]; intros acc; [cbn; lia|].
  unfold hex_value in *. cbn [foldl length]. rewrite IH, (IH (0 * 16 + hex_digit_value b)).
  rewrite Nat2Z.inj_succ, Z.pow_succ_r by lia. lia.
Qed.

Lemma hex_loop_spec fuel n acc :
  0 ≤ n < 16 ^ Z.of_nat fuel → (0 < fuel)%nat → forallb is_hex acc = true →
  forallb is_hex (hex_loop fuel n acc) = true ∧
  hex_value (hex_loop fuel n acc) 0 = n * 16 ^ Z.of_nat (length acc) + hex_value acc 0 ∧
  (length acc < length (hex_loop fuel n acc) ≤ fuel + length acc)%nat.
Proof.
  revert n acc. induction fuel as [|fuel IH]; intros n acc Hn Hf Ha; [lia|]. cbn [hex_loop].
  destruct (hex_digit_ok (n mod 16)) as [Hd Hv]; [apply Z.mod_pos_bound; lia|].
  assert (hex_value (hex_digit (n mod 16) :: acc) 0 =
    n mod 16 * 16 ^ Z.of_nat (length acc) + hex_value acc 0) as Hcons.
  { change (hex_value (?b :: acc) 0) with (hex_value acc (0 * 16 + hex_digit_value b)).
    rewrite hex_value_split, Hv. lia. }
  assert (forallb is_hex (hex_digit (n mod 16) :: acc) = true) as Hall by (cbn [forallb]; by rewrite Hd, Ha).
  destruct (Z.ltb_spec n 16) as [Hlt|Hge].
  - split; [done|]. split; [by rewrite Hcons, Z.mod_small by lia|cbn; lia].
  - rewrite Nat2Z.inj_succ, Z.pow_succ_r in Hn by lia.
    destruct (IH (n / 16) (hex_digit (n mod 16) :: acc)) as (H1 & H2 & H3); [| |done|].
    + split; [apply Z.div_pos; lia|apply Z.div_lt_upper_bound; lia].
    + destruct fuel; [cbn in Hn; lia|lia].
    + split; [done|]. split; [|cbn [length] in H3; lia]. rewrite H2, Hcons. cbn [length].
      rewrite Nat2Z.inj_succ, Z.pow_succ_r by lia.
      rewrite (Z.div_mod n 16) at 3 by lia. lia.
Qed.

Lemma hex_loop_length fuel n acc w :
  0 ≤ n < 16 ^ Z.of_nat w → (0 < w)%nat → (length (hex_loop fuel n acc) ≤ w + length acc)%nat.
Proof.
  revert n acc w. induction fuel as [|fuel IH]; intros n acc w Hn Hw; cbn [hex_loop]; [lia|].
  destruct (Z.ltb_spec n 16); [cbn; lia|]. destruct w as [|[|w]]; [lia|cbn in Hn; lia|].
  etrans; [apply (IH _ _ (S w)); [|lia]|cbn; lia].
  rewrite Nat2Z.inj_succ, Z.pow_succ_r in Hn by lia.
  split; [apply Z.div_pos; lia|apply Z.div_lt_upper_bound; lia].
Qed.

Lemma hex_value_zeros k l : hex_value (replicate k 48 ++ l) 0 = hex_value l 0.
Proof. induction k as [|k IH]; [done|]. exact IH. Qed.

(** A padded number has exactly the width asked for, when it fits, and can be
    read back. *)
Lemma hex_pad_spec w n :
  (0 < w ≤ 16)%nat → 0 ≤ n < 16 ^ Z.of_nat w →
  length (hex_pad w n) = w ∧ forallb is_hex (hex_pad w n) = true ∧ hex_value (hex_pad w n) 0 = n.
Proof.
  intros Hw Hn. unfold hex_pad, hex.
  assert (0 ≤ n < 16 ^ Z.of_nat 16) as Hn16.
  { split; [lia|]. eapply Z.lt_le_trans; [apply Hn|]. apply Z.pow_le_mono_r; lia. }
  destruct (hex_loop_spec 16 n [] Hn16) as (H1 & H2 & H3); [lia|done|].
  pose proof (hex_loop_length 16 n [] w Hn) as Hl. cbn [length] in *.
  split; [|split].
  - rewrite length_app, length_replicate. lia.
  - rewrite forallb_app, H1, andb_true_r. generalize (w - length (hex_loop 16 n []))%nat.
    intros k. by induction k.
  - rewrite hex_value_zeros, H2. change (hex_value [] 0) with 0. lia.
Qed.

(** ** The characters of an address *)
Definition addr_char (b : Z) : bool :=
  is_hex b || existsb (Z.eqb b) [46; 58; 91; 93; 37].

Lemma dec_chars n : 0 ≤ n < 2 ^ 64 → forallb addr_char (dec n) = true.
Proof.
  intros Hn. destruct (dec_loop_spec 20 n []) as (H1 & _); [|lia|done|].
  - split; [lia|]. eapply Z.lt_trans; [apply Hn|done].
  - unfold dec. apply forallb_forall. intros b Hb.
    apply forallb_forall with (x := b) in H1; [|done]. unfold addr_char, is_hex. by rewrite H1.
Qed.

Lemma hex_chars n : 0 ≤ n < 2 ^ 64 → forallb addr_char (hex n) = true.
Proof.
  intros Hn. destruct (hex_loop_spec 16 n []) as (H1 & _); [|lia|done|].
  - split; [lia|]. eapply Z.lt_le_trans; [apply Hn|done].
  - unfold hex. apply forallb_forall. intros b Hb.
    apply forallb_forall with (x := b) in H1; [|done]. unfold addr_char. by rewrite H1.
Qed.

Lemma join_with_chars sep l :
  forallb addr_char sep = true → Forall (λ x, forallb addr_char x = true) l →
  forallb addr_char (join_with sep l) = true.
Proof.
  intros Hs Hl. induction Hl as [|x l Hx _ IH]; [done|]. destruct l as [|y l]; [done|].
  cbn [join_with] in *. by rewrite !forallb_app, Hx, Hs, IH.
Qed.

Lemma is_bytes_join_dec sep l :
  forallb addr_char sep = true → is_bytes l → forallb addr_char (join_with sep (dec <$> l)) = true.
Proof.
  intros Hs Hl. apply join_with_chars; [done|]. apply Forall_fmap. eapply Forall_impl; [exact Hl|].
  intros b Hb. apply dec_chars. destruct Hb. cbn. lia.
Qed.

Lemma segments_u16 l : is_bytes l → Forall u16 (segments l).
Proof.
  induction l as [| |a b l IH] using list_ind2; [constructor..|]. intros Hb.
  apply Forall_cons in Hb as [Ha Hb]. apply Forall_cons in Hb as [Hb Hl]. constructor; [|by apply IH].
  by apply be16_u16.
Qed.

Lemma join_hex_chars l :
  Forall u16 l → forallb addr_char (join_with (str ":") (hex <$> l)) = true.
Proof.
  intros Hl. apply join_with_chars; [done|]. apply Forall_fmap. eapply Forall_impl; [exact Hl|].
  intros b [H1 H2]. apply hex_chars. cbn in *. lia.
Qed.

(** The text of an address needs no escaping anywhere. *)
Lemma display_addr_chars a : sockaddr_ok a → forallb addr_char (display_addr a) = true.
Proof.
  destruct a as [ip port|ip port f scope]; cbn [sockaddr_ok display_addr].
  - intros [[_ Hb] [H1 H2]]. rewrite !forallb_app. unfold display_v4. rewrite is_bytes_join_dec by done.
    rewrite dec_chars by (cbn in *; lia). done.
  - intros ([_ Hb] & [H1 H2] & _ & [H3 H4]). rewrite !forallb_app, (dec_chars port) by (cbn in *; lia).
    assert (forallb addr_char (display_v6 ip) = true) as ->.
    { unfold display_v6. destruct (is_v4_mapped ip).
      - rewrite forallb_app. unfold display_v4. rewrite is_bytes_join_dec; [done|done|].
        by apply is_bytes_drop.
      - destruct (longest_zeros _ _ _ _ _ _) as [start len].
        pose proof (segments_u16 ip Hb) as Hu. destruct (1 <? len)%nat; [|by apply join_hex_chars].
        rewrite !forallb_app, !join_hex_chars; [done|by apply Forall_drop|by apply Forall_take]. }
    destruct (scope =? 0); [done|]. rewrite forallb_app, dec_chars by (cbn in *; lia). done.
Qed.
