(* ===== verification/Addr.v ===== *)
(** * std::net: parsing addresses

    [FromStr] of [IpAddr] and [SocketAddr] (the parser of core::net), which the
    configuration is read with, and that it inverts [Display].  A parser takes
    the input and returns what it has read with the rest; when it fails, the
    caller goes on from where it was. *)

From Stdlib Require Import ZArith Lia.
From Stdlib Require Import String.
From stdpp Require Import sets.
From S2P Require Import Prelude Bytes Net Text Display.
From stdpp Require Import list.
Local Open Scope list_scope.
Local Open Scope Z_scope.

(** ** The parser *)
Definition Parser (A : Type) : Type := list Z → option (A * list Z).

Definition read_given_char (c : Z) : Parser unit := λ l,
  match l with d :: r => if d =? c then Some (tt, r) else None | [] => None end.

(** [char::to_digit]. *)
Definition to_digit (radix c : Z) : option Z :=
  let v := if is_digit c then c - 48
           else if (97 <=? c) && (c <=? 122) then c - 87
           else if (65 <=? c) && (c <=? 90) then c - 55 else radix in
  if v <? radix then Some v else None.

(** The loop of [read_number], with its checked arithmetic: [max] is the
    largest value of the type. *)
Fixpoint read_digits (radix max : Z) (max_digits : option nat) (l : list Z) (result : Z) (count : nat)
    : option (Z * nat * list Z) :=
  match l with
  | [] => Some (result, count, [])
  | c :: r =>
      match to_digit radix c with
      | None => Some (result, count, l)
      | Some d =>
          let result := result * radix + d in
          if max <? result then None
          else if match max_digits with Some m => (m <? S count)%nat | None => false end then None
          else read_digits radix max max_digits r result (S count)
      end
  end.

Definition read_number (radix max : Z) (max_digits : option nat) (allow_zero_prefix : bool) : Parser Z := λ l,
  let has_leading_zero := match l with c :: _ => c =? 48 | [] => false end in
  '(result, count, r) ← read_digits radix max max_digits l 0 0;
  if (count =? 0)%nat then None
  else if negb allow_zero_prefix && has_leading_zero && (1 <? count)%nat then None
  else Some (result, r).

Definition read_separator {A} (sep : Z) (index : nat) (inner : Parser A) : Parser A := λ l,
  if (0 <? index)%nat then '(_, l) ← read_given_char sep l; inner l else inner l.

Fixpoint read_v4_groups (n i : nat) : Parser (list Z) := λ l,
  match n with
  | O => Some ([], l)
  | S n =>
      '(o, l) ← read_separator 46 i (read_number 10 255 (Some 3%nat) false) l;
      '(os, l) ← read_v4_groups n (S i) l;
      Some (o :: os, l)
  end.
Definition read_ipv4_addr : Parser (list Z) := read_v4_groups 4 0.

(** [read_groups] from group [i], with [n] groups left: the groups read, and
    whether the last two are an IPv4 address. *)
Fixpoint read_groups (n i : nat) (l : list Z) : list Z * bool * list Z :=
  match n with
  | O => ([], false, l)
  | S n =>
      let ipv4 := if (0 <? n)%nat then read_separator 58 i read_ipv4_addr l else None in
      match ipv4 with
      | Some (octets, r) => (segments octets, true, r)
      | None =>
          match read_separator 58 i (read_number 16 65535 (Some 4%nat) true) l with
          | Some (g, r) => let '(gs, v4, r) := read_groups n (S i) r in (g :: gs, v4, r)
          | None => ([], false, l)
          end
      end
  end.

Definition octets_of (segs : list Z) : list Z := segs ≫= to_be16.

Definition read_ipv6_addr : Parser (list Z) := λ l,
  let '(head, head_ipv4, l) := read_groups 8 0 l in
  let head_size := length head in
  if (head_size =? 8)%nat then Some (octets_of head, l)
  else if head_ipv4 then None
  else
    '(_, l) ← read_given_char 58 l;
    '(_, l) ← read_given_char 58 l;
    let limit := (8 - (head_size + 1))%nat in
    let '(tail, _, l) := read_groups limit 0 l in
    let tail_size := length tail in
    Some (octets_of (head ++ replicate (8 - tail_size - head_size) 0 ++ tail), l).

Definition read_port : Parser Z := λ l,
  '(_, l) ← read_given_char 58 l; read_number 10 65535 None true l.
Definition read_scope_id : Parser Z := λ l,
  '(_, l) ← read_given_char 37 l; read_number 10 (2 ^ 32 - 1) None true l.

Definition read_socket_addr_v4 : Parser SocketAddr := λ l,
  '(ip, l) ← read_ipv4_addr l;
  '(port, l) ← read_port l;
  Some (SockV4 ip port, l).
Definition read_socket_addr_v6 : Parser SocketAddr := λ l,
  '(_, l) ← read_given_char 91 l;
  '(ip, l) ← read_ipv6_addr l;
  let '(scope_id, l) := match read_scope_id l with Some (s, r) => (s, r) | None => (0, l) end in
  '(_, l) ← read_given_char 93 l;
  '(port, l) ← read_port l;
  Some (SockV6 ip port 0 scope_id, l).

(** [parse_with]: the whole input must be read. *)
Definition parse_with {A} (p : Parser A) (l : list Z) : option A :=
  match p l with Some (a, []) => Some a | _ => None end.

Definition either {A} (p q : Parser A) : Parser A := λ l, match p l with Some r => Some r | None => q l end.

Definition SocketAddr_from_str (l : list Z) : option SocketAddr :=
  parse_with (either read_socket_addr_v4 read_socket_addr_v6) l.
Definition IpAddr_from_str (l : list Z) : option IpAddr :=
  parse_with (either (λ l, '(ip, l) ← read_ipv4_addr l; Some (IpV4 ip, l))
                     (λ l, '(ip, l) ← read_ipv6_addr l; Some (IpV6 ip, l))) l.

Example from_str_v4 : SocketAddr_from_str (str "192.168.43.1:1080") = Some (SockV4 [192; 168; 43; 1] 1080).
Proof. reflexivity. Qed.
Example from_str_v6 :
  SocketAddr_from_str (str "[2001:db8::1%3]:443") = Some (SockV6 (32 :: 1 :: 13 :: 184 :: replicate 11 0 ++ [1]) 443 0 3).
Proof. reflexivity. Qed.
Example from_str_mapped :
  IpAddr_from_str (str "::ffff:10.0.0.7") = Some (IpV6 (replicate 10 0 ++ [255; 255; 10; 0; 0; 7])).
Proof. reflexivity. Qed.
Example from_str_zero_prefix : IpAddr_from_str (str "10.0.0.07") = None.
Proof. reflexivity. Qed.
(** What an IPv6 gateway with a scope looks like as host:port. *)
Example from_str_unbracketed : SocketAddr_from_str (str "fe80::1%wlan0:1080") = None.
Proof. reflexivity. Qed.
Example from_str_host : SocketAddr_from_str (str "gravital.local:1080") = None.
Proof. reflexivity. Qed.

(** ** Numbers are read back *)
Definition stops (radix : Z) (l : list Z) : Prop :=
  match l with [] => True | c :: _ => to_digit radix c = None end.

Lemma num_ge radix (val : Z → Z) ds acc :
  1 ≤ radix → 0 ≤ acc → Forall (λ c, 0 ≤ val c) ds → acc ≤ foldl (λ a c, a * radix + val c) acc ds.
Proof.
  intros Hr Ha Hd. revert acc Ha. induction Hd as [|c ds Hc _ IH]; intros acc Ha; cbn; [lia|].
  assert (acc ≤ acc * radix + val c) by nia. etrans; [|apply IH]; lia.
Qed.

Lemma read_digits_all radix max md (val : Z → Z) ds rest acc count :
  1 ≤ radix → 0 ≤ acc → Forall (λ c, to_digit radix c = Some (val c) ∧ 0 ≤ val c) ds → stops radix rest →
  foldl (λ a c, a * radix + val c) acc ds ≤ max →
  match md with Some m => (count + length ds ≤ m)%nat | None => True end →
  read_digits radix max md (ds ++ rest) acc count =
    Some (foldl (λ a c, a * radix + val c) acc ds, (count + length ds)%nat, rest).
Proof.
  intros Hr Ha Hd Hs. revert acc count Ha. induction Hd as [|c ds [Hc Hv] Hd IH]; intros acc count Ha Hm Hl.
  - cbn. rewrite Nat.add_0_r. destruct rest as [|c rest]; [done|]. cbn in *. by rewrite Hs.
  - cbn [app read_digits]. rewrite Hc. cbn [foldl length] in *.
    assert (acc * radix + val c ≤ max) as Hmax.
    { etrans; [|exact Hm]. apply num_ge; [done|nia|]. eapply Forall_impl; [exact Hd|]. by intros ? []. }
    destruct (Z.ltb_spec max (acc * radix + val c)); [lia|].
    assert (match md with Some m => (m <? S count)%nat | None => false end = false) as ->.
    { destruct md; [|done]. apply Nat.ltb_ge. lia. }
    rewrite IH; [|nia|done|destruct md; [lia|done]]. f_equal. f_equal. f_equal. lia.
Qed.

Lemma digit_to_digit c : is_digit c = true → to_digit 10 c = Some (c - 48) ∧ 0 ≤ c - 48.
Proof.
  intros H. unfold to_digit. rewrite H. unfold is_digit in H. apply andb_true_iff in H as [H1 H2].
  apply Z.leb_le in H1, H2. by destruct (Z.ltb_spec (c - 48) 10); [split; [done|lia]|lia].
Qed.
Lemma hex_to_digit c : is_hex c = true → to_digit 16 c = Some (hex_digit_value c) ∧ 0 ≤ hex_digit_value c.
Proof.
  intros H. unfold to_digit, hex_digit_value. unfold is_hex in H. apply orb_true_iff in H.
  destruct (is_digit c) eqn:Hd.
  - unfold is_digit in Hd. apply andb_true_iff in Hd as [H1 H2]. apply Z.leb_le in H1, H2.
    destruct (Z.ltb_spec c 58); [|lia]. by destruct (Z.ltb_spec (c - 48) 16); [split; [done|lia]|lia].
  - destruct H as [|H]; [done|]. apply andb_true_iff in H as [H1 H2]. apply Z.leb_le in H1, H2.
    destruct (Z.leb_spec 97 c), (Z.leb_spec c 122); try lia. cbn [andb].
    destruct (Z.ltb_spec c 58); [lia|]. by destruct (Z.ltb_spec (c - 87) 16); [split; [done|lia]|lia].
Qed.

Lemma read_number_all radix max md zero (val : Z → Z) ds rest n :
  1 ≤ radix → Forall (λ c, to_digit radix c = Some (val c) ∧ 0 ≤ val c) ds → stops radix rest → ds ≠ [] →
  foldl (λ a c, a * radix + val c) 0 ds = n → n ≤ max →
  match md with Some m => (length ds ≤ m)%nat | None => True end →
  (zero = false → head ds = Some 48 → length ds = 1%nat) →
  read_number radix max md zero (ds ++ rest) = Some (n, rest).
Proof.
  intros Hr Hd Hs Hne Hv Hn Hl Hz. unfold read_number.
  rewrite (read_digits_all radix max md val) by (done || lia || by rewrite Hv). cbn [mbind option_bind Nat.add].
  rewrite Hv. destruct ds as [|c ds]; [done|]. cbn [length Nat.eqb].
  destruct zero; [done|]. specialize (Hz eq_refl). cbn [negb andb app head length] in *.
  destruct (Z.eqb_spec c 48) as [->|]; [|done]. by rewrite (Hz eq_refl).
Qed.

Lemma dec_facts n :
  0 ≤ n < 2 ^ 64 → forallb is_digit (dec n) = true ∧ digits_value (dec n) 0 = n ∧ dec n ≠ [].
Proof.
  intros Hn. destruct (dec_loop_spec 20 n []) as (H1 & H2 & H3); [|lia|done|].
  - split; [lia|]. eapply Z.lt_trans; [apply Hn|done].
  - split; [done|]. split; [|done]. unfold dec. rewrite H2. change (digits_value [] 0) with 0. cbn [length]. lia.
Qed.

Lemma read_dec max md zero n rest :
  0 ≤ n < 2 ^ 64 → n ≤ max → stops 10 rest →
  match md with Some m => (length (dec n) ≤ m)%nat | None => True end →
  (zero = false → head (dec n) = Some 48 → length (dec n) = 1%nat) →
  read_number 10 max md zero (dec n ++ rest) = Some (n, rest).
Proof.
  intros Hn Hm Hs Hl Hz. destruct (dec_facts n Hn) as (Hd & Hv & Hne).
  apply (read_number_all 10 max md zero (λ c, c - 48)); try done.
  apply Forall_forall. intros c Hc. apply digit_to_digit. apply list_elem_of_In in Hc.
  by apply forallb_forall with (x := c) in Hd.
Qed.

(** A byte has at most three digits and no leading zero. *)
Lemma dec_byte n : u8 n → (length (dec n) ≤ 3)%nat ∧ (head (dec n) = Some 48 → length (dec n) = 1%nat).
Proof.
  intros Hn. assert (n ∈ Z.of_nat <$> seq 0 256) as Hin.
  { apply list_elem_of_fmap. exists (Z.to_nat n). destruct Hn as [? Hn]. change (2 ^ 8) with 256 in Hn.
    split; [lia|]. apply elem_of_seq. lia. }
  clear Hn. revert n Hin. apply Forall_forall. apply (bool_decide_eq_true_1 _). vm_compute. reflexivity.
Qed.

Lemma read_octet n rest : u8 n → stops 10 rest → read_number 10 255 (Some 3%nat) false (dec n ++ rest) = Some (n, rest).
Proof.
  intros Hn Hs. destruct (dec_byte n Hn) as [Hl Hz]. destruct Hn as [Hn1 Hn2]. change (2 ^ 8) with 256 in Hn2.
  apply read_dec; [cbn; lia|lia|done|done|done].
Qed.

Lemma read_hex n rest :
  u16 n → stops 16 rest → read_number 16 65535 (Some 4%nat) true (hex n ++ rest) = Some (n, rest).
Proof.
  intros [Hn1 Hn2] Hs. change (2 ^ 16) with 65536 in Hn2.
  destruct (hex_loop_spec 16 n []) as (H1 & H2 & H3); [cbn; lia|lia|done|].
  pose proof (hex_loop_length 16 n [] 4 ltac:(cbn; lia)) as Hl. cbn [length] in *.
  apply (read_number_all 16 65535 (Some 4%nat) true hex_digit_value); unfold hex; try done; try lia.
  - apply Forall_forall. intros c Hc. apply hex_to_digit. apply list_elem_of_In in Hc.
    by apply forallb_forall with (x := c) in H1.
  - intros E. rewrite E in H3. cbn in H3. lia.
  - change (foldl (λ a c, a * 16 + hex_digit_value c) 0 (hex_loop 16 n [])) with (hex_value (hex_loop 16 n []) 0).
    rewrite H2. change (hex_value [] 0) with 0. lia.
Qed.

(** ** IPv4 *)
Lemma read_v4_step n i a rest :
  u8 a → stops 10 rest →
  read_v4_groups (S n) i ((if (0 <? i)%nat then [46] else []) ++ dec a ++ rest) =
    ('(os, l) ← read_v4_groups n (S i) rest; Some (a :: os, l)).
Proof.
  intros Ha Hs. cbn [read_v4_groups]. unfold read_separator.
  destruct (0 <? i)%nat; cbn [app read_given_char]; [change (46 =? 46) with true; cbn iota; cbn [mbind option_bind]|];
    by rewrite read_octet by done.
Qed.

Lemma read_ipv4_display ip rest :
  octets_ok 4 ip → stops 10 rest → read_ipv4_addr (display_v4 ip ++ rest) = Some (ip, rest).
Proof.
  intros [Hl Hb] Hs. destruct ip as [|a [|b [|c [|d [|]]]]]; try done.
  apply Forall_cons in Hb as [Ha Hb]. apply Forall_cons in Hb as [Hb Hc].
  apply Forall_cons in Hc as [Hc Hd]. apply Forall_cons in Hd as [Hd _].
  assert (∀ l, stops 10 ([46] ++ l)) as Hdot by done.
  unfold read_ipv4_addr, display_v4. cbn [fmap list_fmap join_with]. change (str ".") with [46].
  rewrite <- !app_assoc. etrans; [exact (read_v4_step 3 0 a _ Ha (Hdot _))|].
  rewrite (read_v4_step 2 1 b _ Hb (Hdot _) : read_v4_groups 3 1 ([46] ++ _) = _).
  rewrite (read_v4_step 1 2 c _ Hc (Hdot _) : read_v4_groups 2 2 ([46] ++ _) = _).
  by rewrite (read_v4_step 0 3 d _ Hd Hs : read_v4_groups 1 3 ([46] ++ _) = _).
Qed.

Lemma read_port_dec port : u16 port → read_port (str ":" ++ dec port) = Some (port, []).
Proof.
  intros [H1 H2]. unfold read_port. cbn [str app read_given_char]. change (_ =? 58) with true.
  cbn iota. cbn [mbind option_bind]. rewrite <- (app_nil_r (dec port)). change (2 ^ 16) with 65536 in H2.
  apply read_dec; [cbn; lia|lia|done..].
Qed.

(** ** IPv6: the groups *)
Fixpoint groups_text (i : nat) (gs : list Z) : list Z :=
  match gs with
  | [] => []
  | g :: gs => (if (0 <? i)%nat then [58] else []) ++ hex g ++ groups_text (S i) gs
  end.

Lemma join_groups gs : join_with (str ":") (hex <$> gs) = groups_text 0 gs.
Proof.
  destruct gs as [|g gs]; [done|]. cbn [fmap list_fmap groups_text]. change (0 <? 0)%nat with false. cbn [app].
  generalize 1%nat as i, (Nat.lt_0_succ 0 : (0 < 1)%nat). revert g. induction gs as [|h gs IH]; intros g i Hi.
  - cbn. by rewrite app_nil_r.
  - cbn [fmap list_fmap join_with groups_text]. apply Nat.ltb_lt in Hi. rewrite Hi. change (str ":") with [58].
    do 2 f_equal. apply IH. lia.
Qed.

(** Nothing that could continue a group. *)
Definition ends_group (l : list Z) : Prop := stops 16 l ∧ head l ≠ Some 46.
(** No group can be read here. *)
Definition no_group (i : nat) (l : list Z) : Prop :=
  read_separator 58 i read_ipv4_addr l = None ∧
  read_separator 58 i (read_number 16 65535 (Some 4%nat) true) l = None.

Lemma stops_10 l : stops 16 l → stops 10 l.
Proof.
  destruct l as [|c l]; [done|]. cbn. unfold to_digit. cbn zeta. intros H.
  destruct (is_digit c) eqn:Hd.
  - unfold is_digit in Hd. apply andb_true_iff in Hd as [H1 H2]. apply Z.leb_le in H1, H2.
    destruct (Z.ltb_spec (c - 48) 16); [done|lia].
  - repeat case_match; try done;
      repeat match goal with Hb : _ && _ = true |- _ => apply andb_true_iff in Hb as [? ?] end;
      repeat match goal with Hb : (_ <=? _) = true |- _ => apply Z.leb_le in Hb
        | Hb : (_ <? _) = true |- _ => apply Z.ltb_lt in Hb end; lia.
Qed.

Lemma read_digits_dot max md ds rest acc count x :
  Forall (λ c, c ≠ 46) ds → stops 10 rest → head rest ≠ Some 46 →
  read_digits 10 max md (ds ++ rest) acc count = Some x → head x.2 ≠ Some 46.
Proof.
  intros Hd Hs Hr. revert acc count. induction Hd as [|c ds Hc Hd IH]; intros acc count; cbn [app read_digits].
  - destruct rest as [|c rest]; [by intros [= <-]|]. cbn in Hs |- *. rewrite Hs. by intros [= <-].
  - destruct (to_digit 10 c); [|intros [= <-]; cbn; congruence].
    destruct (_ <? _); [done|]. destruct (match md with Some _ => _ | None => _ end); [done|]. apply IH.
Qed.

Lemma hex_not_dot g : u16 g → Forall (λ c, c ≠ 46) (hex g).
Proof.
  intros [H1 H2]. change (2 ^ 16) with 65536 in H2.
  destruct (hex_loop_spec 16 g []) as (Hh & _); [cbn; lia|lia|done|]. apply Forall_forall. intros c Hc ->.
  apply list_elem_of_In in Hc. by apply forallb_forall with (x := 46) in Hh.
Qed.

(** A group is not the start of an IPv4 address. *)
Lemma hex_not_ipv4 g rest : u16 g → ends_group rest → read_ipv4_addr (hex g ++ rest) = None.
Proof.
  intros Hg [Hs Hd]. unfold read_ipv4_addr. cbn [read_v4_groups].
  change (read_separator 46 0 ?p ?l) with (p l).
  destruct (read_number 10 255 (Some 3%nat) false (hex g ++ rest)) as [[n r]|] eqn:Hr; [|done].
  assert (head r ≠ Some 46) as Hdot.
  { unfold read_number in Hr.
    destruct (read_digits 10 255 (Some 3%nat) (hex g ++ rest) 0 0) as [[[n' k] r']|] eqn:Hr'; [|done].
    apply read_digits_dot in Hr'; [|by apply hex_not_dot|by apply stops_10|done]. cbn [mbind option_bind] in Hr.
    by repeat case_match; simplify_eq. }
  assert (∀ p : Parser Z, read_separator 46 1 p r = None) as Hsep.
  { intros p. unfold read_separator. cbn [Nat.ltb Nat.leb]. destruct r as [|c r]; [done|]. cbn in Hdot |- *.
    by destruct (Z.eqb_spec c 46); [congruence|]. }
  cbn [mbind option_bind]. by rewrite Hsep.
Qed.

Lemma read_separator_at {A} (p : Parser A) i l :
  read_separator 58 i p ((if (0 <? i)%nat then [58] else []) ++ l) = p l.
Proof. unfold read_separator. by destruct (0 <? i)%nat. Qed.

Lemma read_groups_text gs n i rest :
  Forall u16 gs → (length gs ≤ n)%nat → ((length gs < n)%nat → no_group (i + length gs) rest) →
  (gs ≠ [] → ends_group rest) →
  read_groups n i (groups_text i gs ++ rest) = (gs, false, rest).
Proof.
  intros Hu. revert n i. induction Hu as [|g gs Hg Hu IH]; intros n i Hl Hn He.
  - cbn [groups_text app]. destruct n as [|n]; [done|]. cbn [length] in Hn. rewrite Nat.add_0_r in Hn.
    destruct Hn as [H1 H2]; [lia|]. cbn [read_groups]. rewrite H1, H2. by destruct (0 <? n)%nat.
  - destruct n as [|n]; [cbn in Hl; lia|]. cbn [groups_text read_groups length] in *. rewrite <- !app_assoc.
    assert (ends_group (groups_text (S i) gs ++ rest)) as He'.
    { destruct gs; [by apply He|]. cbn [groups_text]. by split. }
    rewrite !read_separator_at, hex_not_ipv4, read_hex by (done || apply He').
    rewrite IH; [by destruct (0 <? n)%nat|lia| |intros; by apply He].
    intros Hlt. replace (S i + length gs)%nat with (i + S (length gs))%nat by lia. apply Hn. lia.
Qed.

(** ** IPv6: the run of zeros *)
Definition zeros (segs : list Z) (start len : nat) : Prop :=
  ∀ j, (start ≤ j < start + len)%nat → segs !! j = Some 0.

Lemma longest_zeros_spec segs l i cs cl ls ll :
  drop i segs = l → (cl ≠ 0 → cs + cl = i)%nat → zeros segs cs cl → zeros segs ls ll →
  let '(start, len) := longest_zeros l i cs cl ls ll in zeros segs start len.
Proof.
  revert i cs cl ls ll. induction l as [|s l IH]; intros i cs cl ls ll Hd Hc Hz Hl; cbn [longest_zeros]; [done|].
  assert (segs !! i = Some s) as Hi by (rewrite <- (Nat.add_0_r i), <- lookup_drop, Hd; done).
  assert (drop (S i) segs = l) as Hd' by (rewrite <- Nat.add_1_r, <- drop_drop, Hd; done).
  destruct (Z.eqb_spec s 0) as [->|]; [|apply IH; [done|done|intros j Hj; lia|done]].
  set (cs' := if (cl =? 0)%nat then i else cs).
  assert (cs' + S cl = S i)%nat as Hsum by (unfold cs'; destruct (Nat.eqb_spec cl 0); lia).
  assert (zeros segs cs' (S cl)) as Hz'.
  { intros j Hj. destruct (decide (j = i)) as [->|]; [done|].
    unfold cs' in *. destruct (Nat.eqb_spec cl 0); [lia|]. apply Hz. lia. }
  destruct (ll <? S cl)%nat; by apply IH.
Qed.

Lemma zeros_split segs start len :
  zeros segs start len → (start + len ≤ length segs)%nat →
  segs = take start segs ++ replicate len 0 ++ drop (start + len) segs.
Proof.
  intros Hz Hl. rewrite <- (take_drop start segs) at 1. f_equal. rewrite <- drop_drop.
  rewrite <- (take_drop len (drop start segs)) at 1. f_equal. apply list_eq. intros j.
  destruct (decide (j < len)%nat) as [Hj|Hj].
  - rewrite lookup_take_lt, lookup_drop, lookup_replicate_2 by done. apply Hz. lia.
  - rewrite lookup_take_ge by lia. symmetry. apply lookup_replicate_None. lia.
Qed.

Lemma zeros_bound segs start len : zeros segs start len → (len ≠ 0)%nat → (start + len ≤ length segs)%nat.
Proof.
  intros Hz Hl. specialize (Hz (start + len - 1)%nat ltac:(lia)). apply lookup_lt_Some in Hz. lia.
Qed.

(** ** IPv6 addresses are read back *)
Lemma octets_segments l : is_bytes l → Nat.Even (length l) → octets_of (segments l) = l.
Proof.
  induction l as [| |a b l IH] using list_ind2; [done|intros _ [k Hk]; cbn in Hk; lia|].
  intros Hb [k Hk]. apply Forall_cons in Hb as [Ha Hb]. apply Forall_cons in Hb as [Hb Hl].
  unfold octets_of in *. cbn [segments mbind list_bind]. rewrite to_be16_be16 by done. rewrite IH; [done|done|].
  exists (k - 1)%nat. cbn in Hk. lia.
Qed.

Lemma length_segments l k : length l = (2 * k)%nat → length (segments l) = k.
Proof.
  revert k. induction l as [| |a b l IH] using list_ind2; intros k Hk; cbn in *; [lia|lia|].
  rewrite (IH (k - 1)%nat) by lia. lia.
Qed.

(** What may follow an address: its end, a scope or a bracket. *)
Definition closes (l : list Z) : Prop := match l with [] => True | c :: _ => c = 93 ∨ c = 37 end.

Lemma closes_group l i : closes l → ends_group l ∧ no_group i l.
Proof.
  unfold no_group, read_separator. intros Hc. destruct l as [|c l].
  - split; [done|]. by destruct (0 <? i)%nat.
  - destruct Hc as [-> | ->]; (split; [done|]); by destruct (0 <? i)%nat.
Qed.
Lemma colons_group l i : ends_group (58 :: 58 :: l) ∧ no_group i (58 :: 58 :: l).
Proof. split; [done|]. unfold no_group, read_separator. by destruct (0 <? i)%nat. Qed.

(** The text with the double colon. *)
Lemma read_compressed head tail rest :
  Forall u16 head → Forall u16 tail → (length head + length tail ≤ 6)%nat → closes rest →
  read_ipv6_addr (groups_text 0 head ++ 58 :: 58 :: groups_text 0 tail ++ rest) =
    Some (octets_of (head ++ replicate (8 - length tail - length head) 0 ++ tail), rest).
Proof.
  intros Hh Ht Hl Hc. unfold read_ipv6_addr.
  rewrite (read_groups_text head 8 0); [|done|lia|intros _; apply colons_group|intros _; apply (colons_group _ 0)].
  destruct (Nat.eqb_spec (length head) 8); [lia|]. cbn [read_given_char]. change (58 =? 58) with true. cbn iota.
  cbn [mbind option_bind read_given_char]. change (58 =? 58) with true. cbn iota. cbn [mbind option_bind].
  rewrite (read_groups_text tail); [done|done|lia|intros _; by apply closes_group|intros _; by apply (closes_group _ 0)].
Qed.

Lemma read_mapped o4 rest :
  octets_ok 4 o4 → closes rest →
  read_ipv6_addr (str "::ffff:" ++ display_v4 o4 ++ rest) = Some (replicate 10 0 ++ [255; 255] ++ o4, rest).
Proof.
  intros Ho Hc. assert (stops 10 rest) as Hs by (apply stops_10; apply (closes_group _ 0 Hc)).
  change (str "::ffff:" ++ display_v4 o4 ++ rest)
    with (groups_text 0 [] ++ 58 :: 58 :: hex 65535 ++ [58] ++ display_v4 o4 ++ rest).
  unfold read_ipv6_addr.
  rewrite (read_groups_text [] 8 0); [|constructor|cbn; lia|intros _; apply colons_group|done].
  cbn [length Nat.eqb read_given_char]. change (58 =? 58) with true. cbn iota.
  cbn [mbind option_bind read_given_char]. change (58 =? 58) with true. cbn iota. cbn [mbind option_bind Nat.sub Nat.add].
  assert (read_groups 7 0 (hex 65535 ++ [58] ++ display_v4 o4 ++ rest) = (65535 :: segments o4, true, rest)) as ->.
  { change (read_groups 7 0 ?l) with
      (match read_ipv4_addr l with
       | Some (octets, r) => (segments octets, true, r)
       | None => match read_number 16 65535 (Some 4%nat) true l with
                 | Some (g, r) => let '(gs, v4, r) := read_groups 6 1 r in (g :: gs, v4, r)
                 | None => ([], false, l)
                 end
       end).
    rewrite hex_not_ipv4, read_hex by (done || split; done).
    change (read_groups 6 1 ?l) with
      (match read_separator 58 1 read_ipv4_addr l with
       | Some (octets, r) => (segments octets, true, r)
       | None => match read_separator 58 1 (read_number 16 65535 (Some 4%nat) true) l with
                 | Some (g, r) => let '(gs, v4, r) := read_groups 5 2 r in (g :: gs, v4, r)
                 | None => ([], false, l)
                 end
       end).
    rewrite (read_separator_at read_ipv4_addr 1 _ : read_separator 58 1 read_ipv4_addr ([58] ++ _) = _).
    by rewrite read_ipv4_display. }
  destruct Ho as [Hl Hb]. do 2 f_equal. cbn [length]. rewrite (length_segments o4 2) by done.
  assert (octets_of (segments o4) = o4) as E by (apply octets_segments; [done|exists 2%nat; lia]).
  cbn [app Nat.sub replicate]. unfold octets_of in *. cbn [mbind list_bind]. rewrite E. done.
Qed.

Lemma read_ipv6_display ip rest :
  octets_ok 16 ip → closes rest → read_ipv6_addr (display_v6 ip ++ rest) = Some (ip, rest).
Proof.
  intros [Hl Hb] Hc. unfold display_v6. destruct (is_v4_mapped ip) eqn:Hm.
  { apply bool_decide_eq_true in Hm. rewrite <- app_assoc, read_mapped; [|split|done].
    - rewrite <- (take_drop 12 ip) at 2. by rewrite Hm.
    - rewrite length_drop. lia.
    - by apply is_bytes_drop. }
  pose proof (segments_u16 ip Hb) as Hu. assert (length (segments ip) = 8%nat) as H8 by by apply length_segments.
  assert (octets_of (segments ip) = ip) as Hoct by (apply octets_segments; [done|exists 8%nat; lia]).
  pose proof (longest_zeros_spec (segments ip) (segments ip) 0 0 0 0 0 eq_refl) as Hz.
  destruct (longest_zeros (segments ip) 0 0 0 0 0) as [start len].
  assert (zeros (segments ip) start len) as Hzero by (apply Hz; [done|intros j Hj; lia..]).
  destruct (Nat.ltb_spec 1 len) as [Hlen|Hlen].
  - pose proof (zeros_bound _ _ _ Hzero ltac:(lia)) as Hbd. rewrite !join_groups, <- !app_assoc.
    change (str "::") with [58; 58]. cbn [app].
    rewrite read_compressed; [|by apply Forall_take|by apply Forall_drop| |done].
    + rewrite length_drop, length_take.
      replace (8 - (length (segments ip) - (start + len)) - start `min` length (segments ip))%nat with len by lia.
      by rewrite <- (zeros_split _ _ _ Hzero Hbd), Hoct.
    + rewrite length_take, length_drop. lia.
  - rewrite join_groups. unfold read_ipv6_addr.
    rewrite read_groups_text; [|done|lia|lia|intros _; by apply (closes_group _ 0)]. rewrite H8. cbn [Nat.eqb].
    by rewrite Hoct.
Qed.

(** ** [Display] and [FromStr] *)
Definition display_ip (a : IpAddr) : list Z := match a with IpV4 o => display_v4 o | IpV6 o => display_v6 o end.
Definition ip_ok (a : IpAddr) : Prop := match a with IpV4 o => octets_ok 4 o | IpV6 o => octets_ok 16 o end.

(** The flow label is not printed. *)
Definition printed (a : SocketAddr) : SocketAddr :=
  match a with SockV4 ip port => SockV4 ip port | SockV6 ip port _ scope => SockV6 ip port 0 scope end.

Lemma SocketAddr_from_display a : sockaddr_ok a → SocketAddr_from_str (display_addr a) = Some (printed a).
Proof.
  unfold SocketAddr_from_str, parse_with, either. destruct a as [ip port|ip port flow scope]; cbn [display_addr sockaddr_ok].
  - intros [Hip Hp]. unfold read_socket_addr_v4. rewrite read_ipv4_display by done. cbn [mbind option_bind].
    by rewrite read_port_dec.
  - intros (Hip & Hp & _ & [Hs1 Hs2]). change (2 ^ 32) with 4294967296 in Hs2.
    assert (∀ l, read_socket_addr_v4 (str "[" ++ l) = None) as -> by done.
    set (close := str "]:" ++ dec port). set (sc := if scope =? 0 then [] else str "%" ++ dec scope).
    assert (match read_scope_id (sc ++ close) with Some (s, r) => (s, r) | None => (0, sc ++ close) end
      = (scope, close)) as Hscope.
    { unfold sc. destruct (Z.eqb_spec scope 0) as [->|]; [done|].
      assert (read_scope_id ((str "%" ++ dec scope) ++ close) = Some (scope, close)) as ->; [|done].
      rewrite <- app_assoc. change (str "%") with [37]. unfold read_scope_id. cbn [app read_given_char].
      change (37 =? 37) with true. cbn iota. cbn [mbind option_bind]. apply read_dec; [lia|lia|done..]. }
    unfold read_socket_addr_v6. change (str "[") with [91]. cbn [app read_given_char]. change (91 =? 91) with true.
    cbn iota. cbn [mbind option_bind].
    rewrite read_ipv6_display; [|done|unfold sc; destruct (scope =? 0); cbn; auto]. cbn [mbind option_bind].
    rewrite Hscope. unfold close. change (str "]:" ++ dec port) with (93 :: str ":" ++ dec port).
    cbn [read_given_char]. change (93 =? 93) with true. cbn iota. cbn [mbind option_bind].
    by rewrite read_port_dec.
Qed.

Lemma display_v6_not_v4 ip : octets_ok 16 ip → read_ipv4_addr (display_v6 ip) = None.
Proof.
  intros [Hl Hb]. unfold display_v6. destruct (is_v4_mapped ip); [done|].
  pose proof (segments_u16 ip Hb) as Hu. assert (length (segments ip) = 8%nat) as H8 by by apply length_segments.
  destruct (longest_zeros (segments ip) 0 0 0 0 0) as [start len]. destruct (1 <? len)%nat; rewrite !join_groups.
  - pose proof (Forall_take _ start _ Hu) as Ht. destruct (take start (segments ip)) as [|g gs]; [done|].
    apply Forall_cons in Ht as [Hg _]. cbn [groups_text]. change (0 <? 0)%nat with false. cbn [app].
    rewrite <- !app_assoc. apply hex_not_ipv4; [done|]. by destruct gs.
  - destruct (segments ip) as [|g [|h gs]]; try done. apply Forall_cons in Hu as [Hg _].
    change (groups_text 0 (g :: h :: gs)) with (hex g ++ groups_text 1 (h :: gs)). by apply hex_not_ipv4.
Qed.

Lemma IpAddr_from_display a : ip_ok a → IpAddr_from_str (display_ip a) = Some a.
Proof.
  unfold IpAddr_from_str, parse_with, either. destruct a as [ip|ip]; cbn [display_ip ip_ok]; intros Hip.
  - rewrite <- (app_nil_r (display_v4 ip)). by rewrite read_ipv4_display.
  - rewrite display_v6_not_v4 by done. cbn [mbind option_bind].
    rewrite <- (app_nil_r (display_v6 ip)). by rewrite read_ipv6_display.
Qed.
