(* ===== verification/Obs.v ===== *)
(** * gravital-obs: telemetry (event.rs, layer.rs, sink.rs, lib.rs)

    A [tracing] event is its level, name, module path and recorded fields.
    The clock, ULIDs, the hash of the clock and serde_json are parameters.
    The trait [Sink] is a class; the global sink is a cell that can be set
    once. *)

From Stdlib Require Import ZArith Lia.
From Stdlib Require Import String.
From stdpp Require Import gmap.
From S2P Require Import Prelude Bytes Text Display.
From stdpp Require Import list.
Local Open Scope list_scope.
Local Open Scope Z_scope.

(** ** event.rs *)
Inductive Level := Trace | Debug | Info | Warn | Error.
Definition as_str (l : Level) : list Z :=
  match l with
  | Trace => str "trace"
  | Debug => str "debug"
  | Info => str "info"
  | Warn => str "warn"
  | Error => str "error"
  end.

(** The payload is a JSON value, of type [V]. *)
Record GsEvent (V : Type) := {
  ev_ts : list Z; ev_schema : list Z; ev_lvl : Level; ev_kind : list Z;
  ev_trace_id : list Z; ev_span_id : list Z; ev_module : list Z; ev_payload : V
}.
Arguments ev_ts {V} g.
Arguments ev_schema {V} g.
Arguments ev_lvl {V} g.
Arguments ev_kind {V} g.
Arguments ev_trace_id {V} g.
Arguments ev_span_id {V} g.
Arguments ev_module {V} g.
Arguments ev_payload {V} g.

Definition SCHEMA : list Z := str "gs.event.v1".

(** [rand_span]: the hash of the clock, cut to 32 bits. *)
Definition rand_span (hash_now : Z) : Z := cast 32 hash_now.

(** [now]: the formatted time; [ulid]: a fresh identifier. *)
Definition GsEvent_new {V} (now ulid : list Z) (hash_now : Z) (lvl : Level) (kind module : list Z)
    (payload : V) : GsEvent V :=
  {| ev_ts := now; ev_schema := SCHEMA; ev_lvl := lvl; ev_kind := kind; ev_trace_id := ulid;
     ev_span_id := hex_pad 8 (rand_span hash_now); ev_module := module; ev_payload := payload |}.

Definition with_trace {V} (g : GsEvent V) (trace_id : list Z) : GsEvent V :=
  {| ev_ts := ev_ts g; ev_schema := ev_schema g; ev_lvl := ev_lvl g; ev_kind := ev_kind g;
     ev_trace_id := trace_id; ev_span_id := ev_span_id g; ev_module := ev_module g;
     ev_payload := ev_payload g |}.

(** ** sink.rs *)
Class Sink (S : Type) := sink_write : S → list Z → S.

(** Standard output, as the bytes printed so far. *)
Record StdoutSink := { stdout : list Z }.
#[export] Instance StdoutSink_Sink : Sink StdoutSink :=
  λ s json_line, {| stdout := stdout s ++ json_line ++ [10] |}.

Inductive NullSink := Null.
#[export] Instance NullSink_Sink : Sink NullSink := λ s _, s.

Record BufferSink := { lines : list (list Z) }.
Definition BufferSink_new : BufferSink := {| lines := [] |}.
#[export] Instance BufferSink_Sink : Sink BufferSink :=
  λ s json_line, {| lines := lines s ++ [json_line] |}.

(** ** lib.rs: the global sink *)
Section global.
Context {V S : Type} `{Sink S}.
(** [serde_json::to_string(&event)] *)
Variable to_string : GsEvent V → option (list Z).

Definition Global := option S.

(** [OnceCell::set]: only the first call has an effect. *)
Definition init (sink : S) (g : Global) : Global :=
  match g with None => Some sink | Some s => Some s end.

Definition emit (event : GsEvent V) (g : Global) : Global :=
  match g with
  | Some sink =>
      match to_string event with
      | Some json => Some (sink_write sink json)
      | None => Some sink
      end
  | None => None
  end.
End global.

(** ** layer.rs *)

(** How [tracing] records a field: a string, or anything else through its
    [Debug] text. *)
Inductive Field :=
| FieldStr (name value : list Z)
| FieldDebug (name text : list Z).

(** [tracing::Level] *)
Inductive TracingLevel := TRACE | DEBUG | INFO | WARN | ERROR.

Record TracingEvent := {
  te_level : TracingLevel; te_name : list Z; te_module : option (list Z); te_fields : list Field
}.

Record FieldVisitor := { fv_kind : option (list Z); fv_fields : gmap (list Z) (list Z) }.
Definition FieldVisitor_default : FieldVisitor := {| fv_kind := None; fv_fields := ∅ |}.

Definition record_str (v : FieldVisitor) (name value : list Z) : FieldVisitor :=
  if bool_decide (name = str "kind")
  then {| fv_kind := Some value; fv_fields := fv_fields v |}
  else {| fv_kind := fv_kind v; fv_fields := <[name := value]> (fv_fields v) |}.
Definition record_debug (v : FieldVisitor) (name text : list Z) : FieldVisitor :=
  {| fv_kind := fv_kind v; fv_fields := <[name := text]> (fv_fields v) |}.

(** [event.record(&mut visitor)]. *)
Definition visit (v : FieldVisitor) (f : Field) : FieldVisitor :=
  match f with
  | FieldStr name value => record_str v name value
  | FieldDebug name text => record_debug v name text
  end.
Definition record (fs : list Field) (v : FieldVisitor) : FieldVisitor := foldl visit v fs.

Definition lvl_of (l : TracingLevel) : Level :=
  match l with
  | TRACE => Trace
  | DEBUG => Debug
  | INFO => Info
  | WARN => Warn
  | ERROR => Error
  end.

Section layer.
Context {V S : Type} `{Sink S}.
Variable to_string : GsEvent V → option (list Z).
(** [json!(fields)] *)
Variable json_object : gmap (list Z) (list Z) → V.

Definition on_event (now ulid : list Z) (hash_now : Z) (event : TracingEvent) (g : Global (S := S))
    : Global (S := S) :=
  let lvl := lvl_of (te_level event) in
  let visitor := record (te_fields event) FieldVisitor_default in
  let kind := default (te_name event) (fv_kind visitor) in
  let module := default (str "unknown") (te_module event) in
  let ev := GsEvent_new now ulid hash_now lvl kind module (json_object (fv_fields visitor)) in
  emit to_string ev g.
End layer.

(** ** The fields of an event *)

(** The last string recorded as kind, and the last value recorded under a name
    that is not that. *)
Definition kind_value (f : Field) : option (list Z) :=
  match f with
  | FieldStr n v => if bool_decide (n = str "kind") then Some v else None
  | FieldDebug _ _ => None
  end.
Definition field_value (k : list Z) (f : Field) : option (list Z) :=
  match f with
  | FieldStr n v => if bool_decide (n = k) && negb (bool_decide (n = str "kind")) then Some v else None
  | FieldDebug n t => if bool_decide (n = k) then Some t else None
  end.

#[local] Arguments str : simpl never.

Lemma record_kind fs v :
  fv_kind (record fs v) = match last (omap kind_value fs) with Some k => Some k | None => fv_kind v end.
Proof.
  revert v. induction fs as [|f fs IH] using rev_ind; intros v; [done|].
  unfold record in *. rewrite foldl_app, omap_app, last_app. cbn. specialize (IH v).
  destruct f as [n x|n x]; cbn; [|done]. unfold record_str. case_bool_decide; done.
Qed.

Lemma record_fields fs v k :
  fv_fields (record fs v) !! k =
    match last (omap (field_value k) fs) with Some x => Some x | None => fv_fields v !! k end.
Proof.
  revert v. induction fs as [|f fs IH] using rev_ind; intros v; [done|].
  unfold record in *. rewrite foldl_app, omap_app, last_app. cbn. specialize (IH v).
  destruct f as [n x|n x]; cbn.
  - unfold record_str. destruct (decide (n = str "kind")) as [->|Hk].
    + rewrite !bool_decide_eq_true_2, andb_false_r by done. done.
    + rewrite (bool_decide_eq_false_2 (n = str "kind")), andb_true_r by done. cbn.
      destruct (decide (n = k)) as [->|Hn].
      * by rewrite lookup_insert_eq, bool_decide_eq_true_2.
      * by rewrite lookup_insert_ne, bool_decide_eq_false_2.
  - destruct (decide (n = k)) as [->|Hn].
    + by rewrite lookup_insert_eq, bool_decide_eq_true_2.
    + by rewrite lookup_insert_ne, bool_decide_eq_false_2.
Qed.

(** ** A run: the sink is set and events happen, in any order *)
Inductive ObsOp (S : Type) :=
| OpInit (sink : S)
| OpEvent (now ulid : list Z) (hash_now : Z) (event : TracingEvent).
Arguments OpInit {S} sink.
Arguments OpEvent {S} now ulid hash_now event.

Section runs.
Context {V S : Type} `{Sink S} (to_string : GsEvent V → option (list Z))
  (json_object : gmap (list Z) (list Z) → V).

Definition obs_step (g : Global (S := S)) (o : ObsOp S) : Global (S := S) :=
  match o with
  | OpInit sink => init sink g
  | OpEvent now ulid h ev => on_event to_string json_object now ulid h ev g
  end.
Definition obs_run (ops : list (ObsOp S)) : Global (S := S) := foldl obs_step None ops.

(** The event a [tracing] event should become. *)
Definition gs_event_of (o : ObsOp S) : option (GsEvent V) :=
  match o with
  | OpInit _ => None
  | OpEvent now ulid h ev =>
      Some {| ev_ts := now; ev_schema := SCHEMA; ev_lvl := lvl_of (te_level ev);
              ev_kind := default (te_name ev) (last (omap kind_value (te_fields ev)));
              ev_trace_id := ulid; ev_span_id := hex_pad 8 (cast 32 h);
              ev_module := default (str "unknown") (te_module ev);
              ev_payload := json_object (fv_fields (record (te_fields ev) FieldVisitor_default)) |}
  end.

(** What a sink has been given after it was set. *)
Definition printed (ops : list (ObsOp S)) : list (list Z) := omap to_string (omap gs_event_of ops).

Lemma on_event_emits now ulid h ev (s : S) :
  on_event to_string json_object now ulid h ev (Some s) =
    Some (foldl sink_write s (printed [OpEvent now ulid h ev])).
Proof.
  unfold on_event, emit, printed, GsEvent_new. rewrite record_kind. cbn.
  destruct (last (omap kind_value (te_fields ev))); cbn; by destruct (to_string _).
Qed.

Lemma obs_run_set ops (s : S) :
  foldl obs_step (Some s) ops = Some (foldl sink_write s (printed ops)).
Proof.
  revert s. induction ops as [|o ops IH]; intros s; [done|]. cbn [foldl].
  change (o :: ops) with ([o] ++ ops). unfold printed. rewrite !omap_app, foldl_app, <- IH.
  destruct o as [s'|now ulid h ev]; [done|]. cbn [obs_step]. by rewrite on_event_emits.
Qed.
End runs.

Definition span_ok (s : list Z) : Prop := length s = 8%nat ∧ forallb is_hex s = true.


