(* ===== verification/Http.v ===== *)
(** * gravital-http: the HTTP CONNECT proxy (server.rs, error.rs)

    [httparse] (the request parser) and tokio's connections are parameters.
    The loop that reads the header has fuel [READ_FUEL], one turn per byte of
    the buffer; [read_header_returns] shows that it is enough. *)

From Stdlib Require Import ZArith Lia.
From Stdlib Require Import String.
From S2P Require Import Prelude Bytes Net Io Text Socks SocksServer.
Local Open Scope list_scope.
Local Open Scope Z_scope.

(** ** error.rs *)
Inductive HttpProxyError :=
| HttpIo (e : IoErrorKind)
| HttpParse (msg : list Z)
| UnsupportedMethod (m : list Z)
| MissingTarget
| InvalidTarget (t : list Z)
| UpstreamFailed
| HeadersTooLarge
| HttpPrematureEof
| AuthRequired.

Record HttpProxyConfig := { http_bind_addr : SocketAddr; http_auth_enabled : bool }.
Definition HttpProxyConfig_default : HttpProxyConfig :=
  {| http_bind_addr := SockV4 [0; 0; 0; 0] 8080; http_auth_enabled := false |}.

(** ** httparse: the status, and the method and path of a complete request *)
Inductive ParseStatus :=
| ParseError (msg : list Z)
| Partial
| Complete (len : nat) (method path : option (list Z)).

Definition MAX_HEADER_SIZE : Z := 8192.
Definition READ_FUEL : nat := S (Z.to_nat MAX_HEADER_SIZE).

Definition parse_host_port (target : list Z) : Outcome HttpProxyError (list Z * Z) :=
  match rsplit_at 58 target with
  | Some (host, port_str) =>
      match parse_u16 port_str with
      | Some port => Ok (host, port)
      | None => Err (InvalidTarget target)
      end
  | None => Err (InvalidTarget target)
  end.

Definition CONNECT_OK : list Z := str "HTTP/1.1 200 Connection established" ++ CRLF ++ CRLF.

Definition error_response (code : Z) (msg : list Z) : list Z :=
  str "HTTP/1.1 " ++ dec code ++ str " " ++ msg ++ CRLF ++ str "Content-Length: 0" ++ CRLF ++
  str "Connection: close" ++ CRLF ++ CRLF.

Section server.
Context {S : Type} `{AsyncIo S}.
Variable httparse : list Z → ParseStatus.
Variable tcp_connect : list Z → Z → Outcome IoErrorKind S.

Definition HttpProxyServer_run (bind : Outcome IoErrorKind unit) (events : list (AcceptEvent S))
    : option (Outcome HttpProxyError unit) * list (S * SocketAddr) :=
  match bind with
  | Ok _ =>
      let '(ended, tasks) := accept_loop events in
      (if ended then Some (Ok tt) else None, tasks)
  | r => (Some (map_err HttpIo r), [])
  end.

(** The first loop, on the bytes read so far: where the request ends, and the
    filled part of the buffer. *)
Fixpoint read_header (fuel : nat) (buf : list Z) : IO S HttpProxyError (nat * list Z) :=
  match fuel with
  | O => ilift Diverge
  | Datatypes.S fuel =>
      let filled := Z.of_nat (length buf) in
      let? bytes := imap_err HttpIo (io_read (Z.to_nat (MAX_HEADER_SIZE - filled))) in
      match bytes with
      | [] => ithrow HttpPrematureEof
      | _ =>
          let buf := buf ++ bytes in
          match httparse buf with
          | ParseError msg => ithrow (HttpParse msg)
          | Complete len _ _ => iret (len, buf)
          | Partial =>
              if MAX_HEADER_SIZE <=? Z.of_nat (length buf) then ithrow HeadersTooLarge
              else read_header fuel buf
          end
      end
  end.

Definition send_error (code : Z) (msg : list Z) : IO S HttpProxyError unit :=
  imap_err HttpIo (write_all (error_response code msg)).

(** The request: the method and target, as far as the connection attempt. *)
Definition read_connect : IO S HttpProxyError (nat * list Z * (list Z * Z)) :=
  let? (req_end, buf) := read_header READ_FUEL [] in
  let? (method, path) :=
    match httparse buf with
    | ParseError msg => ithrow (HttpParse msg)
    | Partial => iret (None, None)
    | Complete _ method path => iret (method, path)
    end in
  let method := default [] method in
  if negb (bool_decide (method = str "CONNECT")) then
    let? _ := send_error 405 (str "Method Not Allowed") in
    ithrow (UnsupportedMethod method)
  else
    match path with
    | None => ithrow MissingTarget
    | Some target_str =>
        let? hp := ilift (parse_host_port target_str) in
        iret (req_end, buf, hp)
    end.

Definition relay_bidirectional (a b : S) : Outcome HttpProxyError unit * S * S :=
  let '(_, (a, b)) := io_copy a b in
  let '(_, (b, a)) := io_copy b a in
  (Ok tt, a, b).

(** The result, the client's stream and the upstream one, if opened. *)
Definition handle_http_proxy (sock : S) : Outcome HttpProxyError unit * S * option S :=
  match read_connect sock with
  | (Ok (req_end, buf, (host, port)), sock) =>
      match tcp_connect host port with
      | Ok upstream =>
          match imap_err HttpIo (write_all CONNECT_OK) sock with
          | (Ok _, sock) =>
              let '(r, upstream) :=
                if (req_end <? length buf)%nat
                then (let? rest := ilift (slice_from buf req_end) in
                      imap_err HttpIo (write_all rest)) upstream
                else (Ok tt, upstream) in
              match r with
              | Ok _ =>
                  let '(r, sock, upstream) := relay_bidirectional sock upstream in
                  (r, sock, Some upstream)
              | r => (r, sock, Some upstream)
              end
          | (r, sock) => (r, sock, Some upstream)
          end
      | Err _ =>
          match send_error 502 (str "Bad Gateway") sock with
          | (Ok _, sock) => (Err UpstreamFailed, sock, None)
          | (r, sock) => (r, sock, None)
          end
      | Panic => (Panic, sock, None)
      | Diverge => (Diverge, sock, None)
      end
  | (Err e, sock) => (Err e, sock, None)
  | (Panic, sock) => (Panic, sock, None)
  | (Diverge, sock) => (Diverge, sock, None)
  end.
End server.

(** ** Targets *)
Lemma digits_no_colon l : forallb is_digit l = true → 58 ∉ l.
Proof.
  intros Hd Hin. apply List.forallb_forall with (x := 58) in Hd; [done|].
  by apply list_elem_of_In.
Qed.

Lemma parse_u16_range l n : parse_u16 l = Some n → u16 n.
Proof.
  assert (∀ l acc n, 0 ≤ acc < 65536 → digits_u16 l acc = Some n → u16 n) as Hd.
  { clear. intros l. induction l as [|b l IH]; cbn; intros acc n Ha; [by intros [= <-]|].
    destruct (is_digit b) eqn:Hb; [|done]. destruct (Z.ltb_spec (acc * 10 + (b - 48)) 65536); [|done].
    unfold is_digit in Hb. apply andb_true_iff in Hb as [H1%Z.leb_le H2%Z.leb_le].
    apply IH. lia. }
  unfold parse_u16. repeat case_match; try done; intros Hp; (eapply Hd; [|exact Hp]; lia).
Qed.

Lemma rsplit_at_inv b l pre post : rsplit_at b l = Some (pre, post) → l = pre ++ b :: post.
Proof.
  revert pre post. induction l as [|x l IH]; cbn; intros pre post; [done|].
  destruct (rsplit_at b l) as [[p q]|].
  - intros [= <- <-]. cbn. f_equal. by apply IH.
  - destruct (Z.eqb_spec x b) as [->|]; [|done]. by intros [= <- <-].
Qed.

(** CONNECT targets: [parse_host_port] inverts host:port for every host
    (one with colons, such as an IPv6 literal, included) and every port; what
    it accepts is split at the last colon, with a port that fits 16 bits; a
    target without a colon and one with a number above 65535 after the last
    colon are rejected as InvalidTarget. *)
Theorem parse_host_port_spec :
  (∀ host n, u16 n → parse_host_port (host ++ 58 :: dec n) = Ok (host, n)) ∧
  (∀ t host n, parse_host_port t = Ok (host, n) →
     u16 n ∧ ∃ s, t = host ++ 58 :: s ∧ parse_u16 s = Some n) ∧
  (∀ t, 58 ∉ t → parse_host_port t = Err (InvalidTarget t)) ∧
  (∀ host ds, forallb is_digit ds = true → 65536 ≤ digits_value ds 0 →
     parse_host_port (host ++ 58 :: ds) = Err (InvalidTarget (host ++ 58 :: ds))).
Proof.
  unfold parse_host_port. split; [|split; [|split]].
  - intros host n Hn. destruct (dec_loop_spec 20 n []) as (Hd & _ & _); [cbn; unfold uint in Hn; lia|lia|done|].
    rewrite rsplit_at_app by (by apply digits_no_colon). by rewrite parse_dec.
  - intros t host n. destruct (rsplit_at 58 t) as [[h s]|] eqn:Hs; [|done].
    destruct (parse_u16 s) as [m|] eqn:Hp; [|done]. intros [= <- <-].
    split; [by eapply parse_u16_range|]. exists s. split; [by apply rsplit_at_inv|done].
  - intros t Ht. by rewrite rsplit_at_none.
  - intros host ds Hd Hv. rewrite rsplit_at_app by (by apply digits_no_colon).
    assert (ds ≠ []) by (intros ->; cbn in Hv; lia).
    rewrite parse_u16_digits by done. by rewrite (proj2 (Z.ltb_ge _ _)) by lia.
Qed.

(** ** Reading the header *)
Section header.
Context {S : Type} `{AsyncIoLaws S} (httparse : list Z → ParseStatus).

Lemma sim_read_header fuel buf : sim (read_header httparse fuel buf) (read_header httparse fuel buf).
Proof.
  revert buf. induction fuel as [|fuel IH]; intros buf; cbn [read_header]; [apply sim_lift|].
  apply sim_bind; [apply sim_map_err, sim_io_read|]. intros [|b l]; [apply sim_throw|].
  destruct (httparse _); [apply sim_throw| |apply sim_ret].
  apply sim_if; [apply sim_throw|apply IH].
Qed.

Lemma sim_read_connect : sim (read_connect httparse) (read_connect httparse).
Proof.
  unfold read_connect, send_error. apply sim_bind; [apply sim_read_header|]. intros [req_end buf].
  apply sim_bind; [destruct (httparse buf); sim|]. intros [method path].
  apply sim_if; [sim|]. destruct path; sim.
Qed.

Lemma read_header_returns fuel buf s :
  Z.of_nat fuel + Z.of_nat (length buf) > MAX_HEADER_SIZE → Z.of_nat (length buf) < MAX_HEADER_SIZE →
  ∃ r s', read_header (S := Stream) httparse fuel buf s = (r, s') ∧ returned r ∧
    ∀ len buf', r = Ok (len, buf') → ∃ m p, httparse buf' = Complete len m p.
Proof.
  revert buf s. induction fuel as [|fuel IH]; intros buf s Hf Hl; [lia|].
  cbn [read_header]. unfold ibind, imap_err. cbn [io_read Stream_AsyncIo].
  destruct (stream_read_returns (Z.to_nat (MAX_HEADER_SIZE - Z.of_nat (length buf))) s)
    as (r & s' & -> & Hr).
  destruct r as [bytes|e| |]; try done; cbn [map_err]; [|by do 2 eexists].
  destruct bytes as [|b l]; [by do 2 eexists|].
  destruct (httparse (buf ++ b :: l)) as [msg| |len m p] eqn:Hp; [by do 2 eexists| |].
  - destruct (Z.leb_spec MAX_HEADER_SIZE (Z.of_nat (length (buf ++ b :: l)))); [by do 2 eexists|].
    apply IH; [|done]. rewrite length_app. cbn [length]. lia.
  - do 2 eexists. split; [reflexivity|]. split; [done|]. intros len' buf' [= <- <-]. eauto.
Qed.
End header.

(** ** The tunnel *)

(** What the code relies on of httparse, for a request head: the parser asks
    for more input until the head is there, and then reports its length,
    method and target whatever follows. *)
Record parses_head (httparse : list Z → ParseStatus) (head method target : list Z) : Prop := {
  head_partial k : (0 < k < length head)%nat → httparse (take k head) = Partial;
  head_complete more :
    httparse (head ++ more) = Complete (length head) (Some method) (Some target);
  head_nonempty : (0 < length head)%nat
}.

Section tunnel.
Context {S : Type} `{AsyncIoLaws S}.
Variable httparse : list Z → ParseStatus.
Variable tcp_connect : list Z → Z → Outcome IoErrorKind S.

Lemma read_header_head head method target data fuel k s :
  parses_head httparse head method target → Z.of_nat (length head) ≤ MAX_HEADER_SIZE →
  (k < length head)%nat → Z.of_nat fuel + Z.of_nat k > MAX_HEADER_SIZE →
  rx s = drop k head ++ data →
  ∃ d1 d2 s', data = d1 ++ d2 ∧
    read_header httparse fuel (take k head) s = (Ok (length head, head ++ d1), s') ∧
    rx s' = d2 ∧ same_but_rx s s'.
Proof.
  intros Hp Hmax. revert k s. induction fuel as [|fuel IH]; intros k s Hk Hf Hrx; [lia|].
  cbn [read_header]. unfold ibind, imap_err. cbn [io_read Stream_AsyncIo].
  assert (length (take k head) = k) as Htk by len. rewrite Htk.
  destruct (stream_read_some (Z.to_nat (MAX_HEADER_SIZE - Z.of_nat k)) s)
    as (n & s1 & -> & Hn & Hn' & Hrx1 & Hs1); [lia| |].
  { rewrite Hrx. intros E. apply (f_equal length) in E. len_in E. lia. }
  rewrite Hrx in Hn', Hrx1 |- *. cbn [map_err].
  destruct (take n (drop k head ++ data)) as [|b l] eqn:Hbytes.
  { exfalso. apply (f_equal length) in Hbytes. revert Hbytes. autorewrite with len. cbn [length].
    autorewrite with len in Hn'. lia. }
  rewrite <- Hbytes. clear b l Hbytes.
  destruct (decide (k + n < length head)%nat) as [Hlt|Hge].
  - assert (take k head ++ take n (drop k head ++ data) = take (k + n) head) as Hb.
    { rewrite take_app_le by len. by rewrite <- take_take_drop. }
    rewrite Hb, (head_partial _ _ _ _ Hp) by lia.
    rewrite (proj2 (Z.leb_gt _ _)) by (rewrite length_take; lia).
    destruct (IH (k + n)%nat s1) as (d1 & d2 & s' & Hd & Hr & Hrs & Hsame); [lia|lia| |].
    { rewrite Hrx1, drop_app_le by len. by rewrite drop_drop. }
    exists d1, d2, s'. split_and!; try done.
    destruct Hs1 as (? & ? & ?), Hsame as (? & ? & ?). split_and!; congruence.
  - assert (take k head ++ take n (drop k head ++ data)
      = head ++ take (n - (length head - k)) data) as Hb.
    { rewrite take_app_ge by len. rewrite app_assoc, take_drop. do 2 f_equal. len. }
    rewrite Hb, (head_complete _ _ _ _ Hp).
    exists (take (n - (length head - k)) data), (drop (n - (length head - k)) data), s1.
    split_and!; [by rewrite take_drop|done| |done].
    rewrite Hrx1, drop_app_ge by len. f_equal. len.
Qed.

Lemma read_header_start head method target data s :
  parses_head httparse head method target → Z.of_nat (length head) ≤ MAX_HEADER_SIZE →
  rx s = head ++ data →
  ∃ d1 d2 s', data = d1 ++ d2 ∧
    read_header httparse READ_FUEL [] s = (Ok (length head, head ++ d1), s') ∧
    rx s' = d2 ∧ same_but_rx s s'.
Proof.
  intros Hp Hmax Hrx. pose proof (head_nonempty _ _ _ _ Hp).
  destruct (read_header_head head method target data READ_FUEL 0 s)
    as (d1 & d2 & s' & Hd & Hr & Hrs & Hsame); [done|done|lia| |done|by eauto 10].
  unfold READ_FUEL. rewrite Nat2Z.inj_succ, Z2Nat.id by done. lia.
Qed.

Lemma read_head_view head method target data (sock : S) :
  parses_head httparse head method target → Z.of_nat (length head) ≤ MAX_HEADER_SIZE →
  feeding (head ++ data) (view sock) →
  ∃ d1 d2 s1, data = d1 ++ d2 ∧
    read_header httparse READ_FUEL [] sock = (Ok (length head, head ++ d1), s1) ∧
    feeding d2 (view s1) ∧ rx_end (view s1) = rx_end (view sock) ∧ tx (view s1) = tx (view sock).
Proof.
  intros Hp Hmax [Hrx Htr].
  destruct (read_header_start head method target data (view sock))
    as (d1 & d2 & v1 & -> & Hread & Hrx1 & (He1 & Ht1 & Hr1)); [done..|].
  destruct (sim_run (read_header httparse READ_FUEL []) (read_header httparse READ_FUEL []) sock
    (Ok (length head, head ++ d1)) v1) as (s1 & Hc & Hv1); [apply sim_read_header|done|].
  exists d1, d2, s1. rewrite Hv1. split_and!; try done. split; congruence.
Qed.

Lemma read_connect_head head target data hp (sock : S) :
  parses_head httparse head (str "CONNECT") target → Z.of_nat (length head) ≤ MAX_HEADER_SIZE →
  parse_host_port target = Ok hp → feeding (head ++ data) (view sock) →
  ∃ d1 d2 s1, data = d1 ++ d2 ∧
    read_connect httparse sock = (Ok (length head, head ++ d1, hp), s1) ∧
    feeding d2 (view s1) ∧ rx_end (view s1) = rx_end (view sock) ∧ tx (view s1) = tx (view sock).
Proof.
  intros Hp Hmax Ht Hs. destruct (read_head_view head (str "CONNECT") target data sock)
    as (d1 & d2 & s1 & -> & Hread & Hf1 & He1 & Ht1); [done..|].
  exists d1, d2, s1. split; [done|]. split; [|done]. unfold read_connect.
  rewrite (ibind_step _ _ _ _ _ Hread), (head_complete _ _ _ _ Hp).
  erewrite ibind_step by reflexivity. cbn [default]. rewrite bool_decide_eq_true_2 by done.
  cbn [negb]. unfold ilift. rewrite Ht. reflexivity.
Qed.

Lemma write_all_view {F} (f : IoErrorKind → F) l (c : S) rest :
  feeding rest (view c) →
  ∃ c', imap_err f (write_all l) c = (Ok tt, c') ∧ view c' = mk rest (view c) l.
Proof.
  intros Hv. eapply sim_run; [sim|]. apply imap_err_ok.
  rewrite (feeding_mk _ _ Hv) at 1. apply write_all_mk.
Qed.

(** C26. The CONNECT proxy is transparent, however the request is split into
    reads: when the client sends a CONNECT request of at most 8192 bytes and
    then [data] (any part of which may arrive with the request), and the
    target answers [resp], the target receives exactly [data] and the client
    exactly the 200 line and [resp]. *)
Theorem http_tunnel_transparent (head target data resp host : list Z) (port : Z) (sock up : S)
    (Hp : parses_head httparse head (str "CONNECT") target)
    (Hmax : Z.of_nat (length head) ≤ MAX_HEADER_SIZE)
    (Htarget : parse_host_port target = Ok (host, port)) (Hconn : tcp_connect host port = Ok up)
    (Hs : feeding (head ++ data) (view sock)) (Hse : rx_end (view sock) = None)
    (Hu : feeding resp (view up)) (Hue : rx_end (view up) = None) :
  ∃ sock' up', handle_http_proxy httparse tcp_connect sock = (Ok tt, sock', Some up') ∧
    tx (view up') = tx (view up) ++ data ∧
    tx (view sock') = tx (view sock) ++ CONNECT_OK ++ resp.
Proof.
  destruct (read_connect_head head target data (host, port) sock)
    as (d1 & d2 & s1 & -> & Hc & Hf1 & He1 & Ht1); [done..|].
  unfold handle_http_proxy. rewrite Hc, Hconn.
  destruct (write_all_view HttpIo CONNECT_OK s1 _ Hf1) as (s2 & -> & Hv2).
  assert (∃ u2, (if (length head <? length (head ++ d1))%nat
      then (let? rest := ilift (slice_from (head ++ d1) (length head)) in
            imap_err HttpIo (write_all rest)) up
      else (Ok tt, up)) = (Ok tt, u2) ∧ view u2 = mk resp (view up) d1) as (u2 & -> & Hvu2).
  { rewrite length_app. destruct (Nat.ltb_spec (length head) (length head + length d1)).
    - rewrite slice_from_ok by len. rewrite drop_app_length.
      erewrite ibind_step by reflexivity. by apply write_all_view.
    - exists up. split; [done|].
      assert (d1 = []) as -> by (apply nil_length_inv; lia). by apply feeding_mk. }
  unfold relay_bidirectional.
  destruct (io_copy_view s2 u2) as (s3 & u3 & -> & Hvs3 & Hvu3);
    [rewrite Hv2; cbn; congruence|by rewrite Hvu2|].
  destruct (io_copy_view u3 s3) as (u4 & s4 & -> & Hvu4 & Hvs4);
    [by rewrite Hvu3, Hvu2|by rewrite Hvs3, Hv2|].
  exists s4, u4. split; [done|]. rewrite Hvu4, Hvs4, Hvu3, Hvs3, Hvu2, Hv2.
  cbn [mk set_rx rx tx]. rewrite Ht1. by rewrite <- !app_assoc.
Qed.

(** The request is not served: what [read_connect] leaves to say. *)
Lemma handle_rejected e (sock s1 : S) :
  read_connect httparse sock = (Err e, s1) →
  handle_http_proxy httparse tcp_connect sock = (Err e, s1, None).
Proof. intros Hr. unfold handle_http_proxy. by rewrite Hr. Qed.

Lemma send_error_view code msg (c : S) l :
  feeding l (view c) →
  ∃ c', send_error code msg c = (Ok tt, c') ∧ view c' = mk l (view c) (error_response code msg).
Proof. apply write_all_view. Qed.

Lemma parse_host_port_returned t : returned (parse_host_port t).
Proof. unfold parse_host_port. by repeat case_match. Qed.

Lemma read_connect_returns : io_returns (S := S) (read_connect httparse).
Proof.
  unfold read_connect, send_error. apply io_returns_bind.
  { eapply io_returns_sim; [apply sim_read_header|]. intros s.
    destruct (read_header_returns httparse READ_FUEL [] s) as (r & s' & -> & Hr & _); [|done|done].
    unfold READ_FUEL. rewrite Nat2Z.inj_succ, Z2Nat.id by done. cbn [length]. lia. }
  intros [req_end buf]. apply io_returns_bind; [destruct (httparse buf); auto with rust|].
  intros [method path]. destruct (negb _); [auto with rust|].
  destruct path; auto using parse_host_port_returned with rust.
Qed.

Lemma handle_http_proxy_returned (any : S) :
  (∀ h p, returned (tcp_connect h p)) → returned (handle_http_proxy httparse tcp_connect any).1.1.
Proof.
  intros Hconn. unfold handle_http_proxy. pose proof (read_connect_returns any) as Hr.
  destruct (read_connect httparse any) as [[[[req_end buf] [host port]]|e| |] s1]; try done.
  specialize (Hconn host port). destruct (tcp_connect host port) as [up|e| |]; try done.
  - pose proof (io_returns_map_err HttpIo _ (io_returns_write_all CONNECT_OK) s1) as Hw.
    destruct (imap_err HttpIo (write_all CONNECT_OK) s1) as [[] s2]; try done.
    assert (io_returns (S := S) (λ up, if (req_end <? length buf)%nat
      then (let? rest := ilift (slice_from buf req_end) in imap_err HttpIo (write_all rest)) up
      else (Ok tt, up))) as Hfwd.
    { intros u. destruct (Nat.ltb_spec req_end (length buf)); [|done].
      rewrite slice_from_ok by lia.
      apply io_returns_bind; [done|]. intros rest. apply io_returns_map_err, io_returns_write_all. }
    specialize (Hfwd up). cbn beta in Hfwd.
    destruct (if (req_end <? length buf)%nat then _ else _) as [[] u2]; try done.
    unfold relay_bidirectional. by destruct (io_copy s2 u2) as [? []], (io_copy _ _) as [? []].
  - pose proof (io_returns_map_err HttpIo _ (io_returns_write_all
      (error_response 502 (str "Bad Gateway"))) s1) as Hw. fold (send_error (S := S) 502 (str "Bad Gateway")) in Hw.
    by destruct (send_error 502 _ s1) as [[] s2].
Qed.

(** The proxy serves CONNECT only and always answers: any other method
    gets exactly the 405 response and fails with UnsupportedMethod; a target
    that cannot be reached gets exactly the 502 response and fails with
    UpstreamFailed; and whatever the client sends, the handler returns: the
    header loop ends within the 8192-byte buffer and nothing panics. *)
Theorem http_proxy_answers (head method target data : list Z) (sock any : S)
    (Hp : parses_head httparse head method target)
    (Hmax : Z.of_nat (length head) ≤ MAX_HEADER_SIZE)
    (Hs : feeding (head ++ data) (view sock))
    (Hconn : ∀ h p, returned (tcp_connect h p)) :
  (method ≠ str "CONNECT" →
     ∃ sock', handle_http_proxy httparse tcp_connect sock
                = (Err (UnsupportedMethod method), sock', None) ∧
       tx (view sock') = tx (view sock) ++ error_response 405 (str "Method Not Allowed")) ∧
  (∀ host port e, method = str "CONNECT" → parse_host_port target = Ok (host, port) →
     tcp_connect host port = Err e →
     ∃ sock', handle_http_proxy httparse tcp_connect sock = (Err UpstreamFailed, sock', None) ∧
       tx (view sock') = tx (view sock) ++ error_response 502 (str "Bad Gateway")) ∧
  returned (handle_http_proxy httparse tcp_connect any).1.1.
Proof.
  split; [|split; [|by apply handle_http_proxy_returned]].
  - intros Hm. destruct (read_head_view head method target data sock)
      as (d1 & d2 & s1 & -> & Hread & Hf1 & _ & Ht1); [done..|].
    destruct (send_error_view 405 (str "Method Not Allowed") s1 _ Hf1) as (s2 & Hsend & Hv2).
    exists s2. split; [apply handle_rejected|rewrite Hv2; cbn [mk tx]; by rewrite Ht1].
    unfold read_connect. rewrite (ibind_step _ _ _ _ _ Hread), (head_complete _ _ _ _ Hp).
    erewrite ibind_step by reflexivity. cbn [default]. rewrite bool_decide_eq_false_2 by done.
    cbn [negb]. by rewrite (ibind_step _ _ _ _ _ Hsend).
  - intros host port e -> Htarget Hfail.
    destruct (read_connect_head head target data (host, port) sock)
      as (d1 & d2 & s1 & -> & Hc & Hf1 & _ & Ht1); [done..|].
    destruct (send_error_view 502 (str "Bad Gateway") s1 _ Hf1) as (s2 & Hsend & Hv2).
    exists s2. split; [|rewrite Hv2; cbn [mk tx]; by rewrite Ht1].
    unfold handle_http_proxy. by rewrite Hc, Hfail, Hsend.
Qed.
End tunnel.

(** A parser that knows one request. *)
Definition parse_one (head method target buf : list Z) : ParseStatus :=
  if is_prefix head buf then Complete (length head) (Some method) (Some target) else Partial.

Lemma is_prefix_app p l : is_prefix p (p ++ l) = true.
Proof. induction p as [|a p IH]; cbn; [done|]. by rewrite Z.eqb_refl, IH. Qed.

Lemma is_prefix_short p l : (length l < length p)%nat → is_prefix p l = false.
Proof.
  revert l. induction p as [|a p IH]; intros l Hl; cbn in *; [lia|].
  destruct l as [|b l]; [done|]. rewrite IH by (cbn in Hl; lia). apply andb_false_r.
Qed.

Lemma parse_one_head head method target :
  (0 < length head)%nat → parses_head (parse_one head method target) head method target.
Proof.
  intros Hl. unfold parse_one. split; [|intros more; by rewrite is_prefix_app|done].
  intros k Hk. by rewrite is_prefix_short by len.
Qed.

Definition demo_head : list Z := str "CONNECT a:80 HTTP/1.1" ++ CRLF ++ CRLF.
Definition demo_client (data : list Z) (sizes : list nat) : Stream :=
  {| rx := demo_head ++ data; rx_end := None; chunks := sizes; tx := []; tx_room := None |}.

Lemma http_tunnel_transparent_witness :
  ∃ sock' up', handle_http_proxy (parse_one demo_head (str "CONNECT") (str "a:80"))
      (λ _ _, Ok (from_peer [7; 7])) (demo_client [1; 2; 3] [3; 1; 23]%nat) = (Ok tt, sock', Some up') ∧
    tx up' = [1; 2; 3] ∧ tx sock' = CONNECT_OK ++ [7; 7].
Proof.
  refine (http_tunnel_transparent (parse_one demo_head (str "CONNECT") (str "a:80"))
    (λ _ _, Ok (from_peer [7; 7])) demo_head (str "a:80") [1; 2; 3] [7; 7] [97] 80
    (demo_client [1; 2; 3] [3; 1; 23]%nat) (from_peer [7; 7]) _ _ _ _ _ _ _ _);
    [apply parse_one_head; cbn; lia|vm_compute; discriminate|reflexivity|reflexivity|split; reflexivity|reflexivity
    |split; reflexivity|reflexivity].
Defined.

Lemma http_proxy_answers_witness :
  ∃ sock', handle_http_proxy (parse_one demo_head (str "GET") (str "/"))
      (λ _ _, Err ConnectionRefusedKind) (demo_client [] []) = (Err (UnsupportedMethod (str "GET")), sock', None) ∧
    tx sock' = error_response 405 (str "Method Not Allowed").
Proof.
  refine (proj1 (http_proxy_answers (parse_one demo_head (str "GET") (str "/"))
    (λ _ _, Err ConnectionRefusedKind) demo_head (str "GET") (str "/") [] (demo_client [] [])
    (from_peer []) _ _ _ _) _);
    [apply parse_one_head; cbn; lia|vm_compute; discriminate|split; reflexivity|done|].
  intros E. discriminate E.
Defined.
