(* ===== verification/Agreement.v ===== *)
(** * Routines the program has more than once

    The packet helpers of runner.rs and rewrite.rs read headers with offsets of
    their own instead of the views of gravital-proto, and three crates have
    their own checksum.  Here both are shown to agree with gravital-proto. *)

From Stdlib Require Import ZArith Lia.
From S2P Require Import Prelude Bytes Checksum Proto Net Rewrite Stack DnsPacket.
From stdpp Require Import list.
Local Open Scope Z_scope.

(** ** The reference: what the views of gravital-proto say of a packet *)
Section views.
Context {B : Build}.

(** The transport view of a packet of the given protocol. *)
Definition transport {V : Type} (proto : IpProtocol) (parse : list Z → Outcome ParseError V) (v : Ipv4View)
    : Outcome ParseError (option V) :=
  let! p := Ipv4View_protocol v in
  if bool_decide (p = proto) then
    let! seg := Ipv4View_payload v in
    match parse seg with
    | Ok t => Ok (Some t)
    | _ => Ok None
    end
  else Ok None.

Definition view_udp_port (v : Ipv4View) : Outcome ParseError (option Z) :=
  let! u := transport Udp UdpView_parse v in
  match u with
  | None => Ok None
  | Some u => let! port := UdpView_dst_port u in Ok (Some port)
  end.

(** The payload of a datagram whose length field is right. *)
Definition view_udp_payload (v : Ipv4View) : Outcome ParseError (option (list Z)) :=
  let! u := transport Udp UdpView_parse v in
  match u with
  | None => Ok None
  | Some u =>
      let! n := UdpView_length u in
      if (8 <=? n) && (n <=? Z.of_nat (length (udp_bytes u)))
      then let! data := UdpView_payload u in Ok (Some data) else Ok None
  end.

Definition view_tcp_addrs (v : Ipv4View) : Outcome ParseError (option (SocketAddr * SocketAddr)) :=
  let! t := transport Tcp TcpView_parse v in
  match t with
  | None => Ok None
  | Some t =>
      let! src := Ipv4View_src v in
      let! dst := Ipv4View_dst v in
      let! sport := TcpView_src_port t in
      let! dport := TcpView_dst_port t in
      Ok (Some (SockV4 src sport, SockV4 dst dport))
  end.

Definition view_is_syn (v : Ipv4View) : Outcome ParseError bool :=
  let! t := transport Tcp TcpView_parse v in
  match t with
  | None => Ok false
  | Some t =>
      let! flags := TcpView_flags t in
      Ok (TcpFlags_contains flags TCP_SYN && negb (TcpFlags_contains flags TCP_ACK))
  end.
End views.

(** ** Packets whose total length is their length *)
Section whole.
Context {E : Type} {B : Build} (p : list Z) (v : Ipv4View).
Context (Hb : is_bytes p) (Hv : IpView_parse p = Ok (V4 v))
  (Ht : Ipv4View_total_length (E := E) v = Ok (Z.of_nat (length p))).

Lemma whole_header : v = {| ipv4_bytes := p |} ∧ (p !!! 0%nat) / 16 = 4 ∧ (20 ≤ ihl_of p ≤ length p)%nat.
Proof.
  apply IpView_parse_v4 in Hv as [H4 H]. apply Ipv4View_parse_ok in H as [Hp Hh].
  split; [|done]. destruct v. by f_equal.
Qed.

Lemma whole_protocol {E'} : Ipv4View_protocol (E := E') v = Ok (IpProtocol_from (p !!! 9%nat)).
Proof. destruct whole_header as (-> & _ & ?). unfold Ipv4View_protocol. cbn [ipv4_bytes]. by run_bytes. Qed.

Lemma whole_payload {E'} : Ipv4View_payload (E := E') v = Ok (drop (ihl_of p) p).
Proof.
  destruct whole_header as (-> & _ & ?). unfold Ipv4View_payload, Ipv4View_ihl.
  unfold Ipv4View_total_length in *. cbn [ipv4_bytes] in *.
  rewrite !idx_ok in Ht by lia. cbn [obind] in Ht. injection Ht as Ht'. run_bytes. fold (ihl_of p).
  rewrite Ht', Nat2Z.id, Nat.min_id, slice_ok by lia. by rewrite take_ge by (rewrite length_drop; lia).
Qed.

Lemma drop_lookup_total (l : list Z) (k i : nat) : drop k l !!! i = l !!! (k + i)%nat.
Proof. by rewrite !list_lookup_total_alt, lookup_drop. Qed.

Lemma protocol_is (x : Z) : (bool_decide (IpProtocol_from x = Udp) = (x =? 17)) ∧
  (bool_decide (IpProtocol_from x = Tcp) = (x =? 6)).
Proof.
  destruct (decide (x = 17)) as [->|H17]; [done|]. destruct (decide (x = 6)) as [->|H6]; [done|].
  rewrite !(proj2 (Z.eqb_neq _ _)) by done. split; apply bool_decide_eq_false_2; unfold IpProtocol_from;
    destruct x as [|x|x]; try done; do 7 (try destruct x as [x|x|]); done.
Qed.

(** The first eight bytes of the segment are there. *)
Lemma transport_udp :
  transport Udp UdpView_parse v = Ok (if is_udp4 p then Some {| udp_bytes := drop (ihl_of p) p |} else None).
Proof.
  destruct whole_header as (_ & H4 & Hi). unfold transport. rewrite whole_protocol. cbn [obind].
  rewrite (proj1 (protocol_is _)). unfold is_udp4. rewrite H4, (proj2 (Nat.leb_le 20 _)) by lia. cbn [Z.eqb Pos.eqb andb].
  destruct (_ =? 17); [|done]. rewrite whole_payload. cbn [obind andb]. unfold UdpView_parse, UDP_HEADER_LEN.
  rewrite length_drop, Nat.leb_antisym.
  destruct (Nat.ltb_spec (length p - ihl_of p) 8), (Nat.ltb_spec (length p) (ihl_of p + 8)); done || lia.
Qed.

Lemma udp_port_agree : udp_dst_port p = view_udp_port v.
Proof.
  unfold view_udp_port. rewrite udp_dst_port_eq, transport_udp. cbn [obind].
  destruct (is_udp4 p) eqn:Hu; [|done]. apply is_udp4_spec in Hu as (_ & _ & _ & Hl).
  unfold UdpView_dst_port. cbn [udp_bytes]. rewrite !idx_ok by (rewrite length_drop; lia). cbn [obind].
  by rewrite !drop_lookup_total.
Qed.

Lemma udp_payload_agree : extract_udp_payload p = view_udp_payload v.
Proof.
  unfold view_udp_payload. rewrite extract_udp_payload_eq, transport_udp. cbn [obind].
  destruct (is_udp4 p) eqn:Hu; [|done]. apply is_udp4_spec in Hu as (_ & _ & _ & Hl).
  unfold UdpView_payload, UdpView_length. cbn [udp_bytes andb]. rewrite !idx_ok by (rewrite length_drop; lia).
  cbn [obind]. rewrite !drop_lookup_total. unfold udp_len_of.
  set (n := be16 _ _). rewrite length_drop.
  assert (0 ≤ n) as Hn by (apply (be16_u16 (p !!! _) (p !!! _)); by apply is_bytes_total).
  destruct (Nat.leb_spec 8 (Z.to_nat n)), (Nat.leb_spec (ihl_of p + Z.to_nat n) (length p)),
    (Z.leb_spec 8 n), (Z.leb_spec n (Z.of_nat (length p - ihl_of p))); try lia; try done. cbn [andb].
  rewrite Nat.min_l, slice_ok by (unfold UDP_HEADER_LEN; rewrite ?length_drop; lia). cbn [obind].
  by rewrite drop_drop.
Qed.

(** TCP: gravital-proto also checks the data offset, so its view may be
    missing; when it is there the helpers agree with it. *)
Lemma transport_tcp t :
  transport Tcp TcpView_parse v = Ok (Some t) →
  is_tcp4 p = true ∧ t = {| tcp_bytes := drop (ihl_of p) p |}.
Proof.
  destruct whole_header as (_ & H4 & Hi). unfold transport. rewrite whole_protocol. cbn [obind].
  rewrite (proj2 (protocol_is _)). destruct (Z.eqb_spec (p !!! 9%nat) 6) as [H6|]; [|done].
  rewrite whole_payload. cbn [obind].
  destruct (TcpView_parse _) as [t'| | |] eqn:Hp; intros [= <-]. apply TcpView_parse_ok in Hp as (Hb' & Hl & _).
  rewrite length_drop in Hl. split; [|destruct t'; by f_equal].
  apply is_tcp4_spec. split_and!; [lia|done|done|lia].
Qed.

Lemma tcp_addrs_agree a : view_tcp_addrs v = Ok (Some a) → extract_tcp_addrs (E := E) p = Ok (Some a).
Proof.
  unfold view_tcp_addrs. destruct (transport _ _ _) as [[t|]| | |] eqn:Ht'; try done. cbn [obind].
  apply transport_tcp in Ht' as [H4 ->]. rewrite extract_tcp_addrs_eq, H4.
  destruct whole_header as (-> & _ & Hi). apply is_tcp4_spec in H4 as (_ & _ & _ & Hl).
  destruct (Ipv4View_addrs (E := ParseError) p) as [-> ->]; [lia|]. cbn [obind].
  unfold TcpView_src_port, TcpView_dst_port. cbn [tcp_bytes].
  rewrite !idx_ok by (rewrite length_drop; lia). cbn [obind]. intros [= <-]. rewrite !drop_lookup_total.
  unfold src_of, dst_of. by rewrite Nat.add_0_r, !Nat.add_1_r, <- !Nat.add_succ_r.
Qed.

Lemma syn_flags (x : Z) : u8 x →
  (Z.land x 0x12 =? 0x02) =
  TcpFlags_contains (TcpFlags_from_bits_truncate x) TCP_SYN &&
  negb (TcpFlags_contains (TcpFlags_from_bits_truncate x) TCP_ACK).
Proof.
  intros Hx. assert (Forall (λ n, (Z.land (Z.of_nat n) 0x12 =? 0x02) =
    TcpFlags_contains (TcpFlags_from_bits_truncate (Z.of_nat n)) TCP_SYN &&
    negb (TcpFlags_contains (TcpFlags_from_bits_truncate (Z.of_nat n)) TCP_ACK)) (seq 0 256)) as Hall.
  { apply Forall_forall. intros n Hn. apply elem_of_seq in Hn. do 256 (destruct n as [|n]; [reflexivity|]). lia. }
  unfold uint in Hx. rewrite <- (Z2Nat.id x) by lia. rewrite Forall_forall in Hall. apply Hall, elem_of_seq. lia.
Qed.

Lemma syn_agree t : transport Tcp TcpView_parse v = Ok (Some t) → is_tcp_syn (E := ParseError) p = view_is_syn v.
Proof.
  intros Ht'. unfold view_is_syn. rewrite Ht'. cbn [obind]. apply transport_tcp in Ht' as [H4 ->].
  rewrite is_tcp_syn_ok by done. apply is_tcp4_spec in H4 as (_ & _ & _ & Hl).
  unfold TcpView_flags. cbn [tcp_bytes]. rewrite idx_ok by (rewrite length_drop; lia). cbn [obind].
  rewrite drop_lookup_total, syn_flags by (by apply is_bytes_total). done.
Qed.
End whole.



(** ** The checksum writers *)
Section checksums.
Context {E : Type} {B : Build}.

Lemma words_sum_to_be16 n : u16 n → words_sum (to_be16 n) = n.
Proof. intros Hn. rewrite <- (be16_to_be16 n Hn) at 2. cbn. lia. Qed.

Lemma words_sum_tcp_pseudo pkt :
  (20 ≤ length pkt)%nat → Z.of_nat (length pkt) ≤ 65535 →
  words_sum (tcp_pseudo_header pkt) =
    words_sum (take 4 (drop 12 pkt)) + words_sum (take 4 (drop 16 pkt)) + 6 +
    Z.of_nat (length pkt - ihl_of pkt).
Proof.
  intros Hl Hm. unfold tcp_pseudo_header.
  rewrite words_sum_app by (exists 2%nat; rewrite length_take, length_drop; lia).
  rewrite words_sum_app by (exists 2%nat; rewrite length_take, length_drop; lia).
  rewrite words_sum_app by (by exists 1%nat). rewrite words_sum_to_be16 by (unfold uint; lia).
  change (words_sum [0; 6]) with 6. lia.
Qed.

(** The checksum writers of rewrite.rs and runner.rs agree with
    gravital-proto. For an IPv4/TCP packet of at most 65535 bytes whose header
    fits: [fix_ipv4_checksum] stores exactly the [internet_checksum] of the
    header with the field cleared, and for a header without options
    [fix_ip4_checksum] does the same; and the value [fix_tcp_checksum] stores is
    the [fold] of [pseudo_header_v4] for the packet's addresses and segment
    length plus the words of the segment with its field cleared. *)
Theorem checksum_writers_agree (pkt : list Z)
    (Hb : is_bytes pkt) (Hl : Z.of_nat (length pkt) ≤ 65535)
    (Hi : (20 ≤ ihl_of pkt)%nat) (Htcp : (ihl_of pkt + 20 ≤ length pkt)%nat) :
  (∃ c, internet_checksum (E := E) (take (ihl_of pkt) (put16 10 0 pkt)) = Ok c ∧
     fix_ipv4_checksum (E := E) pkt = Ok (put16 10 c pkt) ∧
     (ihl_of pkt = 20%nat → fix_ip4_checksum (E := E) pkt = fix_ipv4_checksum pkt)) ∧
  ∃ ph c, pseudo_header_v4 (E := E) (take 4 (drop 12 pkt)) (take 4 (drop 16 pkt)) 6
            (Z.of_nat (length pkt - ihl_of pkt)) = Ok ph ∧
    fold (E := E) (ph + words_sum (drop (ihl_of pkt) (put16 (ihl_of pkt + 16) 0 pkt))) = Ok c ∧
    fix_tcp_checksum (E := E) pkt = Ok (put16 (ihl_of pkt + 16) c pkt).
Proof.
  assert (is_bytes (take (ihl_of pkt) (put16 10 0 pkt))) as Hbh by auto with rust.
  split.
  - exists (ipv4_csum pkt). split; [apply internet_checksum_ok; [done|rewrite length_take; lia]|].
    split; [apply fix_ipv4_ok; done || lia|].
    intros H20. rewrite fix_ipv4_ok by (done || lia). by rewrite fix_ip4_ok by (done || lia).
  - set (seg := drop (ihl_of pkt) (put16 (ihl_of pkt + 16) 0 pkt)).
    assert (is_bytes seg) as Hseg by (unfold seg; auto with rust).
    assert (length seg ≤ length pkt)%nat as Hsl by (unfold seg; len).
    pose proof (words_sum_le seg Hseg). pose proof (words_sum_nonneg seg Hseg).
    assert (is_bytes (tcp_pseudo_header pkt)) as Hph by (by apply is_bytes_tcp_pseudo).
    pose proof (words_sum_le _ Hph). pose proof (words_sum_nonneg _ Hph).
    rewrite length_tcp_pseudo in * by lia.
    exists (words_sum (tcp_pseudo_header pkt)), (tcp_csum pkt). split; [|split].
    + rewrite words_sum_tcp_pseudo by lia. apply pseudo_header_v4_ok; try (auto with rust); try len.
      all: unfold uint; lia.
    + apply fold_spec. unfold uint. lia.
    + apply fix_tcp_ok; done || lia.
Qed.
End checksums.

Lemma checksum_writers_agree_witness :
  ∃ c, internet_checksum (E := unit) (B := dev) (take 20 (put16 10 0 syn_packet)) = Ok c ∧
    fix_ip4_checksum (E := unit) (B := dev) syn_packet = Ok (put16 10 c syn_packet).
Proof.
  destruct (@checksum_writers_agree unit dev syn_packet) as [(c & Hc & Hf & H4) _];
    [repeat constructor; lia|vm_compute; discriminate|vm_compute; lia|vm_compute; lia|].
  exists c. split; [exact Hc|]. rewrite H4 by reflexivity. exact Hf.
Defined.
