(* ===== verification/Tun.v ===== *)
(** * gravital-tun: the TUN device (device.rs, platform.rs, error.rs)

    The file descriptor belongs to the kernel: what it answers to each turn of
    a read or write loop, or to a system call, is an argument.  [open_tun] also
    returns the system calls it made. *)

From Stdlib Require Import ZArith Lia.
From stdpp Require Import sets.
From S2P Require Import Prelude Bytes Io.
Local Open Scope Z_scope.

Inductive TunError :=
| TunInvalidFd (fd : Z)
| TunIo (e : IoErrorKind)
| TunClosed
| PacketTooLarge (size mtu : Z).

Definition BUF_SIZE : nat := 1600.

(** The descriptor and the MTU. *)
Record TunDevice := { tun_fd : Z; tun_mtu : Z }.

(** The two [fcntl] calls and the registration with the reactor. *)
Definition from_fd (getfl setfl register : Outcome IoErrorKind unit) (raw_fd mtu : Z)
    : Outcome TunError TunDevice :=
  if raw_fd <? 0 then Err (TunInvalidFd raw_fd)
  else
    let! _ := map_err TunIo getfl in
    let! _ := map_err TunIo setfl in
    let! _ := map_err TunIo register in
    Ok {| tun_fd := raw_fd; tun_mtu := mtu |}.

(** One turn of [readable().await] and [try_io]. *)
Inductive FdTurn (A : Type) :=
| NotReady (e : IoErrorKind)
| WouldBlock
| OsError (e : IoErrorKind)
| Done (a : A).
Arguments NotReady {A} e.
Arguments WouldBlock {A}.
Arguments OsError {A} e.
Arguments Done {A} a.

(** [None]: still waiting.  [read(2)] fills at most the buffer. *)
Fixpoint read_packet (turns : list (FdTurn (list Z))) : option (Outcome TunError (list Z)) :=
  match turns with
  | [] => None
  | NotReady e :: _ => Some (Err (TunIo e))
  | WouldBlock :: turns => read_packet turns
  | OsError e :: _ => Some (Err (TunIo e))
  | Done pkt :: _ => Some (Ok (take BUF_SIZE pkt))
  end.

Fixpoint write_loop (turns : list (FdTurn unit)) : option (Outcome TunError unit) :=
  match turns with
  | [] => None
  | NotReady e :: _ => Some (Err (TunIo e))
  | WouldBlock :: turns => write_loop turns
  | OsError e :: _ => Some (Err (TunIo e))
  | Done _ :: _ => Some (Ok tt)
  end.

(** The packet is handed to the kernel only when it fits the MTU. *)
Definition write_packet (d : TunDevice) (turns : list (FdTurn unit)) (data : list Z)
    : option (Outcome TunError unit) :=
  if tun_mtu d <? Z.of_nat (length data)
  then Some (Err (PacketTooLarge (Z.of_nat (length data)) (tun_mtu d)))
  else write_loop turns.

(** [split]: both halves have the descriptor and the MTU of the device. *)
Definition split (d : TunDevice) : TunDevice * TunDevice := (d, d).

(** ** platform.rs *)
Definition TUNSETIFF : Z := 0x400454CA.
Definition IFF_TUN : Z := 0x0001.
Definition IFF_NO_PI : Z := 0x1000.

Record Ifreq := { ifr_name : list Z; ifr_flags : Z; ifr_pad : list Z }.

Inductive SysCall :=
| SysOpen
| SysIoctl (fd request : Z) (ifr : Ifreq)
| SysClose (fd : Z).

(** [open] and [ioctl] are the results of the calls, [errno] what
    [last_os_error] reads after them. *)
Definition open_tun (open ioctl : Z) (errno : IoErrorKind) (name : list Z)
    : Outcome TunError Z * list SysCall :=
  let fd := open in
  if fd <? 0 then (Err (TunIo errno), [SysOpen])
  else if bool_decide (0 ∈ name) then (Err (TunInvalidFd (-1)), [SysOpen])
  else
    let name_bytes := name ++ [0] in
    let copy_len := Nat.min (length name_bytes) 15 in
    match (let! src := slice name_bytes 0 copy_len in copy_from_slice (replicate 16 0) 0 copy_len src) with
    | Ok ifr_name =>
        let ifr := {| ifr_name := ifr_name; ifr_flags := Z.lor IFF_TUN IFF_NO_PI; ifr_pad := replicate 22 0 |} in
        let ret := ioctl in
        if ret <? 0 then (Err (TunIo errno), [SysOpen; SysIoctl fd TUNSETIFF ifr; SysClose fd])
        else (Ok fd, [SysOpen; SysIoctl fd TUNSETIFF ifr])
    | Err e => (Err e, [SysOpen])
    | Panic => (Panic, [SysOpen])
    | Diverge => (Diverge, [SysOpen])
    end.

(** Whether the descriptor is still open after the calls. *)
Definition left_open (fd : Z) (calls : list SysCall) : bool :=
  bool_decide (0 ≤ fd) && negb (existsb (λ c, match c with SysClose f => f =? fd | _ => false end) calls).

Lemma tun_name_ok name :
  (let! src := slice (E := TunError) (name ++ [0]) 0 (Nat.min (length (name ++ [0])) 15) in
   copy_from_slice (replicate 16 0) 0 (Nat.min (length (name ++ [0])) 15) src) =
  Ok (take 15 name ++ replicate (16 - Nat.min 15 (length name)) 0).
Proof.
  rewrite slice_ok by (rewrite length_app; cbn; lia). cbn [obind].
  rewrite copy_from_slice_ok by (rewrite ?length_take, ?length_drop, ?length_app, ?length_replicate; cbn; lia).
  f_equal. rewrite drop_0, inserts_split by (rewrite ?length_take, ?length_app, ?length_replicate; cbn; lia).
  rewrite take_0, drop_replicate. cbn [app Nat.add]. rewrite length_take, length_app, Nat.sub_0_r. cbn [length].
  destruct (decide (15 ≤ length name)%nat).
  - rewrite (Nat.min_r (length name + 1) 15), take_app_le by lia. f_equal. f_equal. lia.
  - rewrite (Nat.min_l (length name + 1) 15), take_ge by (rewrite ?length_app; cbn; lia).
    rewrite take_ge, <- app_assoc by lia. f_equal. rewrite Nat.min_id, Nat.min_r by lia.
    by replace (16 - length name)%nat with (S (16 - (length name + 1))) by lia.
Qed.

Lemma ifr_name_length (name : list Z) :
  length (take 15 name ++ replicate (16 - Nat.min 15 (length name)) 0) = 16%nat.
Proof. rewrite length_app, length_take, length_replicate. lia. Qed.

(** Opening a TUN interface never panics, whatever the name. It succeeds
    exactly when the name has no NUL and both calls succeed, and asks the
    kernel for a TUN interface without packet information under the first 15
    bytes of the name, padded with NUL to 16. When the ioctl fails the
    descriptor is closed again, but a name with a NUL leaves it open although
    an error is returned. *)
Theorem open_tun_spec (fd ret : Z) (errno : IoErrorKind) (name : list Z) :
  let '(r, calls) := open_tun fd ret errno name in
  returned r ∧
  (r = Ok fd ↔ 0 ≤ fd ∧ 0 ∉ name ∧ 0 ≤ ret) ∧
  left_open fd calls = bool_decide (0 ≤ fd) && (bool_decide (0 ∈ name) || bool_decide (0 ≤ ret)) ∧
  ∀ f req ifr, SysIoctl f req ifr ∈ calls →
    f = fd ∧ req = TUNSETIFF ∧ ifr_flags ifr = 0x1001 ∧ length (ifr_name ifr) = 16%nat ∧
    ifr_name ifr = take 15 name ++ replicate (16 - Nat.min 15 (length name)) 0.
Proof.
  unfold open_tun. cbv zeta. rewrite tun_name_ok. unfold left_open.
  destruct (Z.ltb_spec fd 0) as [Hfd|Hfd].
  { rewrite (bool_decide_eq_false_2 (0 ≤ fd)) by lia. split; [done|]. split; [|split; [done|]].
    - split; [done|]. intros [? _]. lia.
    - intros f req ifr. rewrite list_elem_of_singleton. done. }
  rewrite (bool_decide_eq_true_2 (0 ≤ fd)) by done. case_bool_decide as Hn.
  { split; [done|]. split; [by split; [|intros (_ & ? & _)]|split; [done|]].
    intros f req ifr. rewrite list_elem_of_singleton. done. }
  assert (∀ f req ifr, SysIoctl f req ifr = SysIoctl fd TUNSETIFF
    {| ifr_name := take 15 name ++ replicate (16 - Nat.min 15 (length name)) 0;
       ifr_flags := Z.lor IFF_TUN IFF_NO_PI; ifr_pad := replicate 22 0 |} →
    f = fd ∧ req = TUNSETIFF ∧ ifr_flags ifr = 0x1001 ∧ length (ifr_name ifr) = 16%nat ∧
    ifr_name ifr = take 15 name ++ replicate (16 - Nat.min 15 (length name)) 0) as Hio.
  { pose proof (ifr_name_length name) as Hlen. intros f req ifr [= -> -> ->]. by split_and!. }
  destruct (Z.ltb_spec ret 0) as [Hr|Hr].
  - rewrite (bool_decide_eq_false_2 (0 ≤ ret)) by lia. cbn [existsb orb negb andb]. rewrite Z.eqb_refl. split; [done|].
    split; [split; [done|intros (_ & _ & ?); lia]|split; [done|]].
    intros f req ifr Hin. apply Hio. set_unfold in Hin. naive_solver.
  - rewrite (bool_decide_eq_true_2 (0 ≤ ret)) by done. split; [done|]. split; [done|split; [done|]].
    intros f req ifr Hin. apply Hio. set_unfold in Hin. naive_solver.
Qed.
