(* ===== verification/Engine.v ===== *)
(** * gravital-engine: configuration, metrics and the client packet loop
    (config.rs, metrics.rs, runner.rs)

    [tun_packet] is one turn of the task that reads the TUN device,
    [dns_task] the task it spawns for a DNS query. *)

From Stdlib Require Import ZArith Lia.
From stdpp Require Import gmap relations.
From S2P Require Import Prelude Bytes Net Io Checksum Proto Rewrite NatTable.
From S2P Require Import Session Dns DnsPacket Stack Tun.
Local Open Scope Z_scope.

(** ** config.rs *)
Definition DEFAULT_MTU : Z := 1280.
Definition DEFAULT_DNS : list Z := [1; 1; 1; 1].

Record ClientConfig := {
  c_proxy_addr : SocketAddr; c_mtu : Z; c_dns_server : IpAddr; c_udp_associate_enabled : bool
}.
Definition ClientConfig_default : ClientConfig :=
  {| c_proxy_addr := SocketAddr_new (IpV4 [192; 168; 43; 1]) 1080; c_mtu := DEFAULT_MTU;
     c_dns_server := IpV4 DEFAULT_DNS; c_udp_associate_enabled := true |}.

Record ServerConfig := { s_socks_bind : SocketAddr; s_http_bind : SocketAddr; s_max_connections : Z }.
Definition ServerConfig_default : ServerConfig :=
  {| s_socks_bind := SockV4 [0; 0; 0; 0] 1080; s_http_bind := SockV4 [0; 0; 0; 0] 8080;
     s_max_connections := 512 |}.

(** ** metrics.rs *)
Record EngineMetrics := {
  bytes_in : Z; bytes_out : Z; packets_in : Z; packets_out : Z;
  active_tcp_sessions : Z; active_udp_assocs : Z; dns_queries : Z; dns_leaks_detected : Z;
  reconnects : Z; last_rtt_ms : Z; drops_buffer_full : Z; drops_parse_error : Z;
  socks_handshake_failures : Z
}.
Definition EngineMetrics_new : EngineMetrics :=
  {| bytes_in := 0; bytes_out := 0; packets_in := 0; packets_out := 0; active_tcp_sessions := 0;
     active_udp_assocs := 0; dns_queries := 0; dns_leaks_detected := 0; reconnects := 0;
     last_rtt_ms := 0; drops_buffer_full := 0; drops_parse_error := 0;
     socks_handshake_failures := 0 |}.

(** [fetch_add] wraps at 64 bits. *)
Definition add64 (a b : Z) : Z := cast 64 (a + b).

Definition count_in (pkt : list Z) (m : EngineMetrics) : EngineMetrics :=
  {| bytes_in := add64 (bytes_in m) (Z.of_nat (length pkt)); bytes_out := bytes_out m;
     packets_in := add64 (packets_in m) 1; packets_out := packets_out m;
     active_tcp_sessions := active_tcp_sessions m; active_udp_assocs := active_udp_assocs m;
     dns_queries := dns_queries m; dns_leaks_detected := dns_leaks_detected m;
     reconnects := reconnects m; last_rtt_ms := last_rtt_ms m;
     drops_buffer_full := drops_buffer_full m; drops_parse_error := drops_parse_error m;
     socks_handshake_failures := socks_handshake_failures m |}.
Definition count_out (pkt : list Z) (m : EngineMetrics) : EngineMetrics :=
  {| bytes_in := bytes_in m; bytes_out := add64 (bytes_out m) (Z.of_nat (length pkt));
     packets_in := packets_in m; packets_out := add64 (packets_out m) 1;
     active_tcp_sessions := active_tcp_sessions m; active_udp_assocs := active_udp_assocs m;
     dns_queries := dns_queries m; dns_leaks_detected := dns_leaks_detected m;
     reconnects := reconnects m; last_rtt_ms := last_rtt_ms m;
     drops_buffer_full := drops_buffer_full m; drops_parse_error := drops_parse_error m;
     socks_handshake_failures := socks_handshake_failures m |}.
Definition count_drop (m : EngineMetrics) : EngineMetrics :=
  {| bytes_in := bytes_in m; bytes_out := bytes_out m; packets_in := packets_in m;
     packets_out := packets_out m;
     active_tcp_sessions := active_tcp_sessions m; active_udp_assocs := active_udp_assocs m;
     dns_queries := dns_queries m; dns_leaks_detected := dns_leaks_detected m;
     reconnects := reconnects m; last_rtt_ms := last_rtt_ms m;
     drops_buffer_full := drops_buffer_full m; drops_parse_error := add64 (drops_parse_error m) 1;
     socks_handshake_failures := socks_handshake_failures m |}.

(** ** The task that reads the TUN device *)

(** What becomes of a packet: given to the stack, a DNS task spawned with the
    query, counted as dropped, or ignored. *)
Inductive Verdict :=
| ToStack
| ToDns (query : list Z)
| Dropped
| Ignored.
#[export] Instance Verdict_eq_dec : EqDecision Verdict.
Proof. solve_decision. Defined.

Section client_loop.
Context {E : Type} {B : Build}.

Definition classify (pkt : list Z) : Outcome E Verdict :=
  match IpView_parse pkt with
  | Ok ip =>
      let! proto := IpView_protocol ip in
      match proto with
      | Tcp => Ok ToStack
      | Udp =>
          let! port := udp_dst_port pkt in
          if bool_decide (port = Some 53) then
            let! payload := extract_udp_payload pkt in
            Ok match payload with Some query => ToDns query | None => Ignored end
          else Ok Dropped
      | _ => Ok Dropped
      end
  | Err _ => Ok Dropped
  | Panic => Panic
  | Diverge => Diverge
  end.

(** One packet: the verdict, the counters and the stack afterwards. *)
Definition tun_packet {Iface SockSet} (pkt : list Z)
    (m : EngineMetrics) (s : Inner Iface SockSet)
    : Outcome E (Verdict * EngineMetrics * Inner Iface SockSet) :=
  let m := count_in pkt m in
  let! v := classify pkt in
  Ok match v with
     | ToStack => (v, m, feed_inbound pkt s)
     | Dropped => (v, count_drop m, s)
     | ToDns _ | Ignored => (v, m, s)
     end.

(** The spawned task: the packet written to the TUN device, if any, and the
    result of the write, which the code drops. *)
Definition dns_task (net : UdpNet) (tun : TunDevice) (turns : list (FdTurn unit))
    (pkt query : list Z) (d : DnsInterceptor) (m : EngineMetrics)
    : Outcome E (option (list Z * option (Outcome TunError unit)) * EngineMetrics) :=
  match (handle_query net query d).1.1 with
  | Ok resp =>
      let! reply := build_udp_reply pkt resp in
      match reply with
      | Some reply =>
          Ok (Some (reply, write_packet tun turns reply), count_out reply m)
      | None => Ok (None, m)
      end
  | Err _ => Ok (None, m)
  | Panic => Panic
  | Diverge => Diverge
  end.
End client_loop.

(** ** Classification *)
Lemma IpView_parse_cases pkt :
  (∃ v, IpView_parse pkt = Ok (V4 v)) ∨
  (∃ v, IpView_parse pkt = Ok (V6 v) ∧ (pkt !!! 0%nat) / 16 = 6 ∧ ipv6_bytes v = pkt ∧ (40 ≤ length pkt)%nat) ∨
  (∃ e, IpView_parse pkt = Err e).
Proof.
  unfold IpView_parse. destruct (Nat.eqb_spec (length pkt) 0); [by eauto|].
  rewrite idx_ok by lia. cbn [obind]. rewrite shiftr_4.
  pose proof (Ipv4View_parse_returned pkt) as H4.
  destruct ((pkt !!! 0%nat) / 16) as [|q|q]; [by eauto| |by eauto].
  do 3 (try destruct q as [q|q|]); try (by eauto).
  - destruct (Ipv6View_parse pkt) as [v|e| |] eqn:Hv; cbn [obind]; [|by eauto|..].
    + right; left. exists v. by apply Ipv6View_parse_ok in Hv as [<- Hl].
    + unfold Ipv6View_parse in Hv. by case_match.
    + unfold Ipv6View_parse in Hv. by case_match.
  - destruct (Ipv4View_parse pkt) as [v|e| |]; try done; cbn [obind]; eauto.
Qed.

Section classify.
Context {E : Type} {B : Build}.

Definition dst_port (pkt : list Z) : Z :=
  be16 (pkt !!! (ihl_of pkt + 2)%nat) (pkt !!! (ihl_of pkt + 3)%nat).
Definition udp_length_ok (pkt : list Z) : bool :=
  (8 <=? udp_len_of pkt)%nat && (ihl_of pkt + udp_len_of pkt <=? length pkt)%nat.
Definition udp_payload_of (pkt : list Z) : list Z :=
  take (udp_len_of pkt - 8) (drop (ihl_of pkt + 8) pkt).

(** The verdict on an accepted IPv4 packet, by its fields. *)
Definition verdict4 (pkt : list Z) : Verdict :=
  match IpProtocol_from (pkt !!! 9%nat) with
  | Tcp => ToStack
  | Udp =>
      if is_udp4 pkt && (dst_port pkt =? 53) then
        if udp_length_ok pkt then ToDns (udp_payload_of pkt) else Ignored
      else Dropped
  | _ => Dropped
  end.

Lemma udp_branch pkt :
  (let! port := udp_dst_port (E := E) pkt in
   if bool_decide (port = Some 53) then
     let! payload := extract_udp_payload pkt in
     Ok match payload with Some query => ToDns query | None => Ignored end
   else Ok Dropped) =
  Ok (if is_udp4 pkt && (dst_port pkt =? 53) then
        if udp_length_ok pkt then ToDns (udp_payload_of pkt) else Ignored
      else Dropped).
Proof.
  rewrite udp_dst_port_eq. cbn [obind]. destruct (is_udp4 pkt) eqn:Hu; [|done]. cbn [andb].
  fold (dst_port pkt). destruct (Z.eqb_spec (dst_port pkt) 53) as [->|Hne].
  - rewrite bool_decide_eq_true_2 by done. rewrite extract_udp_payload_eq, Hu. cbn [obind andb].
    unfold udp_length_ok, udp_payload_of. by destruct (_ && _).
  - rewrite bool_decide_eq_false_2; [done|]. intros [= ?]. done.
Qed.

Lemma classify_v4 pkt v : IpView_parse pkt = Ok (V4 v) → classify (E := E) pkt = Ok (verdict4 pkt).
Proof.
  intros Hp. pose proof Hp as [_ [Hb [H1 H2]]%Ipv4View_parse_ok]%IpView_parse_v4.
  unfold classify. rewrite Hp. cbn [IpView_protocol]. unfold Ipv4View_protocol. rewrite Hb.
  rewrite idx_ok by lia. cbn [obind]. unfold verdict4.
  destruct (IpProtocol_from _); try done. apply udp_branch.
Qed.

(** An IPv6 packet is never a DNS query of the interceptor. *)
Lemma classify_v6 pkt v :
  IpView_parse pkt = Ok (V6 v) → (pkt !!! 0%nat) / 16 = 6 → ipv6_bytes v = pkt → (40 ≤ length pkt)%nat →
  classify (E := E) pkt = Ok (if bool_decide (IpProtocol_from (pkt !!! 6%nat) = Tcp) then ToStack else Dropped).
Proof.
  intros Hp H6 Hb Hl. unfold classify. rewrite Hp. cbn [IpView_protocol]. unfold Ipv6View_protocol.
  rewrite Hb, idx_ok by lia. cbn [obind].
  assert (is_udp4 pkt = false) as Hu.
  { destruct (is_udp4 pkt) eqn:Hu; [|done]. apply is_udp4_spec in Hu as (_ & ? & _). lia. }
  destruct (IpProtocol_from _); try done. rewrite udp_branch, Hu. done.
Qed.

End classify.

(** ** The DNS task *)
Section dns_path.
Context {E : Type} {B : Build}.

(** What the resolver answers is bytes. *)
Definition net_bytes (net : UdpNet) : Prop :=
  ∀ d, net_recv net = Some (Ok d) → is_bytes d.

Lemma answer_ok net q d :
  net_ok net → net_bytes net → is_bytes q → Z.of_nat (length q) ≤ 65507 →
  ∃ resp, (handle_query net q d).1.1 = Ok resp ∧ is_bytes resp ∧ Z.of_nat (length resp) ≤ 65507.
Proof.
  intros Hn Hb Hq Hl. unfold handle_query. cbn [resolver].
  pose proof (forward_raw_returned net (resolver d) q Hn) as Hret.
  destruct (forward_raw net (resolver d) q) as [[resp|e| |] sent] eqn:Hf; try done; cbn [fst].
  - exists resp. split; [done|]. unfold forward_raw in Hf.
    destruct (let! _ := _ in _); try done. destruct (map_err DnsIo (net_send net)); try done.
    cbn [obind] in Hf. destruct (net_recv net) as [[dg|e| |]|] eqn:Hr; try done.
    cbn in Hf. injection Hf as <- <-. split; [by apply is_bytes_take, Hb|]. rewrite length_take. lia.
  - rewrite build_servfail_eq. eexists. split; [reflexivity|].
    destruct (_ <? _)%nat; [split; [constructor|cbn; lia]|].
    destruct (_ <=? _)%nat; [|done]. split; [|len].
    apply is_bytes_insert; [apply is_bytes_insert; [done|]|]; split; lia.
Qed.

(** C8. A DNS query is always answered: for a packet the classifier sent to
    the interceptor, the task ends without a panic whatever the network does,
    and hands to the TUN device exactly one packet, which goes from the query's
    destination back to its sender, carries exactly the interceptor's answer
    (the response or SERVFAIL) and has valid checksums; the write goes through
    to the device when that packet fits the MTU, but a longer answer is
    refused by the writer and lost, while still counted as sent. *)
Theorem dns_task_spec (net : UdpNet) (tun : TunDevice) (turns : list (FdTurn unit))
    (pkt query : list Z) (d : DnsInterceptor) (m : EngineMetrics)
    (Hn : net_ok net) (Hnb : net_bytes net) (Hpkt : raw_ok pkt)
    (Hc : classify (E := E) pkt = Ok (ToDns query)) :
  ∃ resp reply w, (handle_query net query d).1.1 = Ok resp ∧
    dns_task (E := E) net tun turns pkt query d m = Ok (Some (reply, w), count_out reply m) ∧
    take 4 (drop 12 reply) = take 4 (drop 16 pkt) ∧ take 4 (drop 16 reply) = take 4 (drop 12 pkt) ∧
    two reply 20 = two pkt (ihl_of pkt + 2) ∧ two reply 22 = two pkt (ihl_of pkt) ∧
    extract_udp_payload (E := E) reply = Ok (Some resp) ∧
    ipv4_checksum_valid reply ∧ udp_checksum_valid reply ∧
    (28 + Z.of_nat (length resp) ≤ tun_mtu tun → w = write_loop turns) ∧
    (tun_mtu tun < 28 + Z.of_nat (length resp) →
       w = Some (Err (PacketTooLarge (28 + Z.of_nat (length resp)) (tun_mtu tun)))).
Proof.
  destruct Hpkt as [Hb Hl].
  assert (∃ v, IpView_parse pkt = Ok (V4 v)) as [v Hv].
  { destruct (IpView_parse_cases pkt) as [?|[(v & Hp & H6 & Hvb & Hl6)|[e Hp]]]; [done| |].
    - rewrite (classify_v6 pkt v) in Hc by done. by case_bool_decide.
    - unfold classify in Hc. by rewrite Hp in Hc. }
  rewrite (classify_v4 pkt v Hv) in Hc. unfold verdict4 in Hc.
  assert (is_udp4 pkt = true ∧ udp_length_ok pkt = true ∧ query = udp_payload_of pkt) as (Hu & Hul & ->).
  { destruct (IpProtocol_from _); try done. destruct (is_udp4 pkt), (dst_port pkt =? 53),
      (udp_length_ok pkt); try done. by injection Hc as <-. }
  apply IpView_parse_v4 in Hv as [_ [_ [Hi _]]%Ipv4View_parse_ok]. fold (ihl_of pkt) in Hi.
  pose proof Hu as (H1 & _ & _ & H4)%is_udp4_spec.
  apply andb_true_iff in Hul as [Hu1%Nat.leb_le Hu2%Nat.leb_le].
  destruct (answer_ok net (udp_payload_of pkt) d) as (resp & Hr & Hrb & Hrl);
    [done|done|unfold udp_payload_of; auto with rust|unfold udp_payload_of; len|].
  exists resp, (reply_of pkt resp), (write_packet tun turns (reply_of pkt resp)).
  split; [done|]. unfold dns_task. rewrite Hr, build_udp_reply_ok by done. cbn [obind].
  split; [done|]. destruct (reply_of_addrs pkt resp H1) as (Ha1 & Ha2 & Ha3 & Ha4 & _).
  destruct (reply_of_valid pkt resp Hb Hrb H1 Hrl) as [Hc1 Hc2].
  do 4 (split; [done|]). split; [by apply reply_of_payload|]. do 2 (split; [done|]).
  unfold write_packet. rewrite length_reply_of by done.
  replace (Z.of_nat (28 + length resp)) with (28 + Z.of_nat (length resp)) by lia.
  split; intros Hm; destruct (Z.ltb_spec (tun_mtu tun) (28 + Z.of_nat (length resp))); done || lia.
Qed.
End dns_path.

Lemma dns_task_spec_witness :
  ∃ resp reply w, dns_task (E := unit) (B := dev) net_silent {| tun_fd := 3; tun_mtu := 1280 |}
      [Done tt] query_packet [1; 2; 3; 4] (DnsInterceptor_new DnsResolver_with_default) EngineMetrics_new
    = Ok (Some (reply, w), count_out reply EngineMetrics_new) ∧
    extract_udp_payload (E := unit) reply = Ok (Some resp).
Proof.
  destruct (dns_task_spec (E := unit) (B := dev) net_silent {| tun_fd := 3; tun_mtu := 1280 |}
    [Done tt] query_packet [1; 2; 3; 4] (DnsInterceptor_new DnsResolver_with_default) EngineMetrics_new)
    as (resp & reply & w & _ & Ht & _ & _ & _ & _ & Hp & _).
  - split; done.
  - intros x Hx. discriminate Hx.
  - split; [repeat constructor; lia|cbn; lia].
  - reflexivity.
  - exists resp, reply, w. split; [exact Ht|exact Hp].
Defined.
