(* ===== verification/Client.v ===== *)
(** * gravital-engine/src/runner.rs: the poll task and the relay of a connection

    [poll_turn] is one tick of the task that drives the stack: poll it, write
    what it produced to the TUN device, and spawn a relay for each new
    connection.  [relay_connection] opens the SOCKS5 tunnel of a connection and
    then runs two loops side by side, one per direction; they share the
    connection's channels with the stack, so each loop is a function that makes
    one turn ([None] while it has to wait), and the theorems are about all
    interleavings of the turns with what the stack does to the channels. *)

From Stdlib Require Import ZArith Lia.
From stdpp Require Import gmap relations.
From S2P Require Import Prelude Bytes Net Io Rewrite NatTable Socks SocksClient SocksServer Stack Tun Engine.
Local Open Scope Z_scope.

(** ** The poll task *)
Section poll_task.
Context {Iface SockSet Sock : Type} `{Smoltcp Iface SockSet Sock} {E : Type} {B : Build}.
Abbreviation Inner := (Inner Iface SockSet).
Variable hash_order : list nat → list nat.
(** the device, and the answers of the kernel to the n-th write of the turn *)
Variable tun : TunDevice.
Variable turns : nat → list (FdTurn unit).

(** [while let Some(pkt) = stack_tx.drain_outbound()]: the packets and the
    results of their writes, which the code drops.  A write to a device that
    never becomes ready never ends. *)
Fixpoint drain_all (fuel n : nat) (m : EngineMetrics) (s : Inner)
    : Outcome E (list (list Z * Outcome TunError unit) * EngineMetrics * Inner) :=
  match fuel with
  | O => Diverge
  | S fuel =>
      match drain_outbound s with
      | (None, s) => Ok ([], m, s)
      | (Some pkt, s) =>
          let m := count_out pkt m in
          match write_packet tun (turns n) pkt with
          | None => Diverge
          | Some r =>
              let! (ws, m, s) := drain_all fuel (S n) m s in
              Ok ((pkt, r) :: ws, m, s)
          end
      end
  end.

(** [while let Some(conn) = stack_tx.accept()]: a relay is spawned for each. *)
Fixpoint accept_all (fuel : nat) (s : Inner) : Outcome E (list VirtualConnection * Inner) :=
  match fuel with
  | O => Diverge
  | S fuel =>
      match accept s with
      | (None, s) => Ok ([], s)
      | (Some conn, s) => let! (conns, s) := accept_all fuel s in Ok (conn :: conns, s)
      end
  end.

(** One turn of the loop; both inner loops empty a queue that nothing else
    fills, so the length of the queue is enough fuel. *)
Definition poll_turn (ts : Z) (m : EngineMetrics) (s : Inner)
    : Outcome E (list (list Z * Outcome TunError unit) * list VirtualConnection * EngineMetrics * Inner) :=
  let! (_, s) := poll hash_order ts s in
  let! (ws, m, s) := drain_all (S (length (tun_tx s))) 0 m s in
  let! (conns, s) := accept_all (S (length (pending s))) s in
  Ok (ws, conns, m, s).
End poll_task.

(** ** relay_connection *)

(** The loop from upstream to the application: at its read, with a chunk to
    send, or ended. *)
Inductive DownState := Reading | Sending (chunk : list Z) | DownDone.
#[export] Instance DownState_eq_dec : EqDecision DownState.
Proof. solve_decision. Defined.

(** The stream to the proxy (whose write side may have been shut down) and
    where the two loops are. *)
Record Relay (S : Type) := { up : S; up_shut : bool; app_done : bool; down : DownState }.
Arguments up {S} r.
Arguments up_shut {S} r.
Arguments app_done {S} r.
Arguments down {S} r.

Definition relay_target (remote : SocketAddr) : AddrSpec * Z :=
  match remote with
  | SockV4 ip port => (AddrIpv4 ip, port)
  | SockV6 ip port _ _ => (AddrIpv6 ip, port)
  end.

Section relay.
Context {S : Type} `{AsyncIo S}.

(** Up to the two loops.  When the tunnel cannot be opened the connection is
    dropped. *)
Definition relay_open (dial : Outcome IoErrorKind S) (remote : SocketAddr) (c : Chan)
    : Outcome SocksError (option (Relay S) * Chan) :=
  let '(addr_spec, port) := relay_target remote in
  match SocksClient_connect dial addr_spec port with
  | Ok s => Ok (Some {| up := s; up_shut := false; app_done := false; down := Reading |}, c)
  | Err _ => Ok (None, drop_conn c)
  | Panic => Panic
  | Diverge => Diverge
  end.

(** The loop ends: the write side is shut down, the receiver dropped. *)
Definition finish_app (c : Chan) (r : Relay S) : Chan * Relay S :=
  ({| to_relay := []; relay_receiving := false; to_stack := to_stack c;
      relay_sending := relay_sending c; stack_alive := stack_alive c |},
   {| up := up r; up_shut := true; app_done := true; down := down r |}).

(** [app_to_up]. *)
Definition app_to_up (c : Chan) (r : Relay S) : option (Chan * Relay S) :=
  if app_done r then None
  else
    match to_relay c with
    | data :: q =>
        let c := {| to_relay := q; relay_receiving := relay_receiving c; to_stack := to_stack c;
                    relay_sending := relay_sending c; stack_alive := stack_alive c |} in
        let '(w, s) := write_all data (up r) in
        let r := {| up := s; up_shut := up_shut r; app_done := app_done r; down := down r |} in
        Some match w with Ok _ => (c, r) | _ => finish_app c r end
    | [] => if stack_alive c then None else Some (finish_app c r)
    end.

Definition RELAY_BUF : nat := Z.to_nat 16384.

Definition set_down (s : S) (d : DownState) (r : Relay S) : Relay S :=
  {| up := s; up_shut := up_shut r; app_done := app_done r; down := d |}.
(** The loop ends: the sender is dropped. *)
Definition finish_down (s : S) (c : Chan) (r : Relay S) : Chan * Relay S :=
  ({| to_relay := to_relay c; relay_receiving := relay_receiving c; to_stack := to_stack c;
      relay_sending := false; stack_alive := stack_alive c |}, set_down s DownDone r).

(** [up_to_app]. *)
Definition up_to_app (c : Chan) (r : Relay S) : option (Chan * Relay S) :=
  match down r with
  | Reading =>
      let '(n, s) := io_read RELAY_BUF (up r) in
      Some match n with
           | Ok [] => finish_down s c r
           | Ok data => (c, set_down s (Sending data) r)
           | _ => finish_down s c r
           end
  | Sending chunk =>
      if stack_alive c then
        if (length (to_stack c) <? CHANNEL_CAP)%nat
        then Some (set_to_stack (to_stack c ++ [chunk]) c, set_down (up r) Reading r)
        else None
      else Some (finish_down (up r) c r)
  | DownDone => None
  end.
End relay.

(** ** One tick *)
Section tick.
Context {Iface SockSet Sock : Type} `{SmoltcpLaws Iface SockSet Sock} {E : Type} {B : Build}.
Context (hash_order : list nat → list nat) (Hperm : ∀ l, hash_order l ≡ₚ l).
Context (tun : TunDevice) (turns : nat → list (FdTurn unit)).
Implicit Types s : Inner Iface SockSet.

(** The result of writing [pkt] when the kernel answers [ts]. *)
Definition write_result (ts : list (FdTurn unit)) (pkt : list Z) : Outcome TunError unit :=
  if tun_mtu tun <? Z.of_nat (length pkt)
  then Err (PacketTooLarge (Z.of_nat (length pkt)) (tun_mtu tun))
  else default Diverge (write_loop ts).

Definition count_all (pkts : list (list Z)) (m : EngineMetrics) : EngineMetrics :=
  foldl (λ m pkt, count_out pkt m) m pkts.

Lemma drain_all_ok fuel n m s :
  (∀ k, is_Some (write_loop (turns k))) → (length (tun_tx s) < fuel)%nat →
  drain_all (E := E) tun turns fuel n m s =
    Ok (imap (λ k pkt, (pkt, write_result (turns (n + k)) pkt)) (tun_tx s),
        count_all (tun_tx s) m, upd_queues (pending s) [] (tun_rx s) s).
Proof.
  intros Hd. revert n m s. induction fuel as [|fuel IH]; intros n m s Hl; [lia|].
  cbn [drain_all]. unfold drain_outbound. destruct (tun_tx s) as [|pkt q] eqn:Hq.
  - cbn. rewrite <- Hq. by destruct s.
  - assert (write_packet tun (turns n) pkt = Some (write_result (turns n) pkt)) as ->.
    { unfold write_packet, write_result. destruct (_ <? _); [done|]. by destruct (Hd n) as [r ->]. }
    rewrite IH by (cbn in *; lia). cbn. rewrite Nat.add_0_r. do 3 f_equal. f_equal.
    apply imap_ext. intros k x _. cbn. by rewrite Nat.add_succ_r.
Qed.

Lemma accept_all_ok fuel s :
  (length (pending s) < fuel)%nat →
  accept_all (E := E) fuel s = Ok (pending s, upd_queues [] (tun_tx s) (tun_rx s) s).
Proof.
  revert s. induction fuel as [|fuel IH]; intros s Hl; [lia|].
  cbn [accept_all]. unfold accept. destruct (pending s) as [|c q] eqn:Hq.
  - rewrite <- Hq. by destruct s.
  - rewrite IH by (cbn in *; lia). done.
Qed.

(** The counters, whatever the number of packets. *)
Lemma count_all_spec pkts m :
  let bytes := Z.of_nat (sum_list (length <$> pkts)) in
  u64 (packets_out m) → u64 (bytes_out m) →
  packets_out (count_all pkts m) = cast 64 (packets_out m + Z.of_nat (length pkts)) ∧
  bytes_out (count_all pkts m) = cast 64 (bytes_out m + bytes) ∧
  packets_in (count_all pkts m) = packets_in m ∧ bytes_in (count_all pkts m) = bytes_in m ∧
  drops_parse_error (count_all pkts m) = drops_parse_error m.
Proof.
  cbv zeta. unfold count_all. revert m. induction pkts as [|p pkts IH]; intros m Hp Hb.
  - cbn. unfold cast, u64 in *. rewrite !Z.add_0_r, !Z.mod_small by done. done.
  - cbn. destruct (IH (count_out p m)) as (-> & -> & -> & -> & ->);
      [unfold u64; cbn; apply Z.mod_pos_bound; lia..|].
    cbn. unfold add64, cast. rewrite !Zplus_mod_idemp_l. split_and!; [f_equal; lia..|done|done|done].
Qed.

(** A tick of the poll task always ends, with nothing left behind: for a
    well-formed stack and a device that answers every write, the stack is
    polled, each packet it has for the application is offered to the device
    exactly once and in order (and refused when it is longer than the MTU),
    each new connection is handed to one relay, both queues are empty, the
    stack is still well formed, and the counters have grown by the packets and
    bytes offered, refused ones included, modulo 2^64. *)
Theorem poll_turn_spec (ts : Z) (m : EngineMetrics) s
    (Hwf : stack_wf s) (Hdev : ∀ k, is_Some (write_loop (turns k)))
    (Hm : u64 (packets_out m) ∧ u64 (bytes_out m)) :
  ∃ b s1 m', poll (E := E) hash_order ts s = Ok (b, s1) ∧
    poll_turn (E := E) hash_order tun turns ts m s =
      Ok (imap (λ k pkt, (pkt, write_result (turns k) pkt)) (tun_tx s1), pending s1, m',
          upd_queues [] [] (tun_rx s1) s1) ∧
    stack_wf (upd_queues [] [] (tun_rx s1) s1) ∧
    packets_out m' = cast 64 (packets_out m + Z.of_nat (length (tun_tx s1))) ∧
    bytes_out m' = cast 64 (bytes_out m + Z.of_nat (sum_list (length <$> tun_tx s1))) ∧
    packets_in m' = packets_in m ∧ bytes_in m' = bytes_in m ∧
    drops_parse_error m' = drops_parse_error m.
Proof.
  destruct (poll_ok (E := E) hash_order Hperm ts s Hwf) as (b & s1 & Hpoll & Hwf1 & _).
  exists b, s1, (count_all (tun_tx s1) m). split; [done|]. unfold poll_turn. rewrite Hpoll. cbn [obind].
  rewrite drain_all_ok by (done || lia). cbn [obind].
  rewrite accept_all_ok by (cbn; lia). split; [done|].
  split; [by destruct Hwf1; split|]. by apply count_all_spec; apply Hm.
Qed.
End tick.

(** ** A relay running beside the stack

    [w_in] is what the application has sent and the channel has accepted,
    [w_out] what the stack has taken for the application. *)
Record World (S : Type) := {
  w_chan : Chan; w_relay : Relay S; w_in : list Z; w_out : list Z
}.
Arguments w_chan {S} w.
Arguments w_relay {S} w.
Arguments w_in {S} w.
Arguments w_out {S} w.

Section worlds.
Context {S : Type} `{AsyncIo S}.

Definition Relay_new (s : S) : Relay S :=
  {| up := s; up_shut := false; app_done := false; down := Reading |}.
Definition World_new (r : Relay S) : World S :=
  {| w_chan := Chan_new; w_relay := r; w_in := []; w_out := [] |}.

Definition accepts (c : Chan) : bool := relay_receiving c && (length (to_relay c) <? CHANNEL_CAP)%nat.

(** A turn of one of the two loops. *)
Inductive relay_turn : World S → World S → Prop :=
| turn_app w c r :
    app_to_up (w_chan w) (w_relay w) = Some (c, r) →
    relay_turn w {| w_chan := c; w_relay := r; w_in := w_in w; w_out := w_out w |}
| turn_down w c r :
    up_to_app (w_chan w) (w_relay w) = Some (c, r) →
    relay_turn w {| w_chan := c; w_relay := r; w_in := w_in w; w_out := w_out w |}.

(** What the stack does while it services the socket, and when the socket is
    closed. *)
Inductive stack_turn : World S → World S → Prop :=
| turn_push w chunk :
    stack_alive (w_chan w) = true →
    stack_turn w {| w_chan := try_send (w_chan w) chunk; w_relay := w_relay w;
                    w_in := if accepts (w_chan w) then w_in w ++ chunk else w_in w; w_out := w_out w |}
| turn_pop w data q :
    stack_alive (w_chan w) = true → to_stack (w_chan w) = data :: q →
    stack_turn w {| w_chan := set_to_stack q (w_chan w); w_relay := w_relay w;
                    w_in := w_in w; w_out := w_out w ++ data |}
| turn_drop w :
    stack_alive (w_chan w) = true →
    stack_turn w {| w_chan := drop_peer (w_chan w); w_relay := w_relay w;
                    w_in := w_in w; w_out := w_out w |}.

Definition world_step (w w' : World S) : Prop := relay_turn w w' ∨ stack_turn w w'.

(** What the relay has read and not yet queued. *)
Definition held (r : Relay S) : list Z := match down r with Sending chunk => chunk | _ => [] end.

(** Neither loop can go on. *)
Definition waiting (w : World S) : Prop :=
  app_to_up (w_chan w) (w_relay w) = None ∧ up_to_app (w_chan w) (w_relay w) = None.
End worlds.

Section relay_theory.
Context {S : Type} `{AsyncIoLaws S}.
Implicit Types (w : World S) (r : Relay S).

(** A write to a stream on which nothing fails. *)
Lemma write_all_open l (s : S) :
  tx_room (view s) = None →
  ∃ s', write_all l s = (Ok tt, s') ∧ view s' = {| rx := rx (view s); rx_end := rx_end (view s);
    chunks := chunks (view s); tx := tx (view s) ++ l; tx_room := None |}.
Proof.
  intros Hr. apply (sim_run (write_all l) (write_all l)); [apply sim_write_all|].
  cbn. unfold stream_write_all. by rewrite Hr.
Qed.

(** A read of a stream on which nothing fails. *)
Lemma io_read_view n (s : S) :
  (0 < n)%nat → rx_end (view s) = None →
  ∃ data s', io_read n s = (Ok data, s') ∧ rx (view s) = data ++ rx (view s') ∧
    (data = [] → rx (view s) = []) ∧ same_but_rx (view s) (view s').
Proof.
  intros Hn He. destruct (decide (rx (view s) = [])) as [Hr|Hr].
  - edestruct (sim_run (E := IoErrorKind) (io_read n) (io_read n) s) as (s' & -> & Hv);
      [apply sim_io_read| |].
    + cbn. unfold stream_read. destruct n; [lia|]. by rewrite Hr, He.
    + exists [], s'. rewrite Hv. done.
  - destruct (stream_read_some n (view s) Hn Hr) as (k & t & Ht & Hk & Hkl & Hrx & Hsame).
    edestruct (sim_run (E := IoErrorKind) (io_read n) (io_read n) s) as (s' & -> & Hv);
      [apply sim_io_read|exact Ht|].
    exists (take k (rx (view s))), s'. rewrite Hv, Hrx, take_drop.
    split_and!; [done..| |done]. intros Hnil. apply (f_equal length) in Hnil.
    rewrite length_take in Hnil. cbn in Hnil. lia.
Qed.

(** The invariant: [base] is what had been written upstream before, [resp]
    what upstream sends. *)
Record relay_inv (base resp : list Z) w : Prop := {
  ri_end : rx_end (view (up (w_relay w))) = None;
  ri_room : tx_room (view (up (w_relay w))) = None;
  ri_up : tx (view (up (w_relay w))) ++ concat (to_relay (w_chan w)) = base ++ w_in w;
  ri_down : stack_alive (w_chan w) = true →
    w_out w ++ concat (to_stack (w_chan w)) ++ held (w_relay w) ++ rx (view (up (w_relay w))) = resp;
  ri_prefix : w_out w `prefix_of` resp;
  ri_app : if app_done (w_relay w)
           then stack_alive (w_chan w) = false ∧ up_shut (w_relay w) = true ∧
                relay_receiving (w_chan w) = false ∧ to_relay (w_chan w) = []
           else relay_receiving (w_chan w) = true;
  ri_done : if decide (down (w_relay w) = DownDone)
            then relay_sending (w_chan w) = false ∧
                 (stack_alive (w_chan w) = true → rx (view (up (w_relay w))) = [])
            else relay_sending (w_chan w) = true;
  ri_cap : (length (to_stack (w_chan w)) ≤ CHANNEL_CAP)%nat
}.

Lemma relay_inv_new (u : S) resp :
  feeding resp (view u) → rx_end (view u) = None → relay_inv (tx (view u)) resp (World_new (Relay_new u)).
Proof.
  intros [Hr Ht] He. split; cbn; rewrite ?Hr, ?app_nil_r; try done; [apply prefix_nil|lia].
Qed.

Lemma finish_app_inv base resp w :
  relay_inv base resp w → app_done (w_relay w) = false → to_relay (w_chan w) = [] →
  stack_alive (w_chan w) = false →
  relay_inv base resp {| w_chan := (finish_app (w_chan w) (w_relay w)).1;
    w_relay := (finish_app (w_chan w) (w_relay w)).2; w_in := w_in w; w_out := w_out w |}.
Proof.
  intros [He Hr Hu Hd Hp Ha Hn Hc] Hf Hq Hs. rewrite Hq in Hu.
  split; cbn in *; try done.
Qed.

Lemma turn_app_inv base resp w c r :
  relay_inv base resp w → app_to_up (w_chan w) (w_relay w) = Some (c, r) →
  relay_inv base resp {| w_chan := c; w_relay := r; w_in := w_in w; w_out := w_out w |}.
Proof.
  intros Hinv. unfold app_to_up. destruct (app_done (w_relay w)) eqn:Hdone; [done|].
  destruct (to_relay (w_chan w)) as [|data q] eqn:Hq.
  - destruct (stack_alive (w_chan w)) eqn:Hs; [done|]. intros [= <- <-]. by apply finish_app_inv.
  - destruct Hinv as [He Hr Hu Hd Hp Ha Hn Hc]. rewrite Hdone in Ha.
    destruct (write_all_open data (up (w_relay w)) Hr) as (s' & -> & Hv).
    intros [= <- <-]. rewrite Hq in Hu. cbn in Hu.
    split; cbn; rewrite ?Hv; cbn; try done.
    + by rewrite <- app_assoc.
Qed.

Lemma turn_down_inv base resp w c r :
  relay_inv base resp w → up_to_app (w_chan w) (w_relay w) = Some (c, r) →
  relay_inv base resp {| w_chan := c; w_relay := r; w_in := w_in w; w_out := w_out w |}.
Proof.
  intros [He Hr Hu Hd Hp Ha Hn Hc]. unfold up_to_app, held in *.
  destruct (down (w_relay w)) as [|chunk|] eqn:Hdown; [| |done].
  - destruct (io_read_view RELAY_BUF (up (w_relay w))) as (data & s' & -> & Hrx & Hnil & Hse & Htx & Hro);
      [unfold RELAY_BUF; lia|done|].
    rewrite Hrx in Hd. destruct data as [|b data]; intros [= <- <-];
      split; cbn; rewrite ?Hse, ?Htx, ?Hro; try done.
    + split; [done|]. intros _. by rewrite (Hnil eq_refl) in Hrx.
  - destruct (stack_alive (w_chan w)) eqn:Hs.
    + destruct (Nat.ltb_spec (length (to_stack (w_chan w))) CHANNEL_CAP) as [Hl|]; [|done].
      intros [= <- <-]. split; cbn; rewrite ?Hs; try done.
      * intros _. rewrite concat_app, <- !app_assoc. cbn. rewrite app_nil_r. by apply Hd.
      * rewrite length_app. cbn. lia.
    + intros [= <- <-]. split; cbn; rewrite ?Hs; try done.
Qed.

Lemma stack_turn_inv base resp w w' :
  relay_inv base resp w → stack_turn w w' → relay_inv base resp w'.
Proof.
  intros [He Hr Hu Hd Hp Ha Hn Hc] Ht.
  assert (stack_alive (w_chan w) = true → app_done (w_relay w) = false ∧ relay_receiving (w_chan w) = true)
    as Hal.
  { intros Hs. destruct (app_done (w_relay w)); [|done]. by destruct Ha as (? & _); congruence. }
  destruct Ht as [w chunk Hs|w data q Hs Hq|w Hs]; destruct (Hal Hs) as [Hnd Hrecv].
  - unfold accepts, try_send. destruct (_ && _) eqn:Hacc; split; cbn; try done.
    + rewrite concat_app. cbn. rewrite app_nil_r, !app_assoc. by rewrite Hu.
    + by rewrite Hnd.
  - specialize (Hd Hs). rewrite Hq in Hd, Hc. cbn in Hd, Hc. split; cbn; try done.
    + intros _. rewrite <- Hd. by rewrite <- !app_assoc.
    + rewrite <- Hd. eexists. by rewrite <- !app_assoc.
    + lia.
  - split; cbn; try done.
    + by rewrite Hnd in *.
    + destruct (decide _); [|done]. by destruct Hn.
    + lia.
Qed.

Lemma relay_run_inv base resp w w' :
  relay_inv base resp w → rtc world_step w w' → relay_inv base resp w'.
Proof.
  intros Hi Hr. induction Hr as [|w1 w2 w3 [Ht|Ht] _ IH]; [done|apply IH..].
  - destruct Ht; [by eapply turn_app_inv|by eapply turn_down_inv].
  - by eapply stack_turn_inv.
Qed.

(** What the two loops can still do by themselves. *)
Definition relay_todo w : nat :=
  (if app_done (w_relay w) then 0 else 1 + length (to_relay (w_chan w))) +
  2 * length (rx (view (up (w_relay w)))) +
  match down (w_relay w) with Reading => 1 | Sending _ => 2 | DownDone => 0 end.

Lemma relay_turn_todo base resp w w' :
  relay_inv base resp w → relay_turn w w' → (relay_todo w' < relay_todo w)%nat.
Proof.
  intros Hi Hturn. revert Hi.
  destruct Hturn as [w1 c r Ht|w1 c r Ht]; intros [He Hr _ _ _ _ _ _]; unfold relay_todo; cbn.
  - unfold app_to_up in Ht. destruct (app_done (w_relay w1)) eqn:Hd; [done|].
    destruct (to_relay (w_chan w1)) as [|data q].
    + destruct (stack_alive (w_chan w1)); [done|]. injection Ht as <- <-. cbn. lia.
    + destruct (write_all_open data (up (w_relay w1)) Hr) as (s' & Hw & Hv).
      rewrite Hw in Ht. injection Ht as <- <-. cbn. rewrite Hv. cbn. lia.
  - unfold up_to_app in Ht. destruct (down (w_relay w1)) as [|chunk|] eqn:Hd; [| |done].
    + destruct (io_read_view RELAY_BUF (up (w_relay w1))) as (data & s' & Hw & Hrx & _);
        [unfold RELAY_BUF; lia|done|].
      rewrite Hw in Ht. apply (f_equal length) in Hrx. rewrite length_app in Hrx.
      destruct data as [|b data]; injection Ht as <- <-; cbn in *; lia.
    + destruct (stack_alive (w_chan w1)); [destruct (_ <? _)%nat; [|done]|];
        injection Ht as <- <-; cbn; destruct (app_done (w_relay w1)); lia.
Qed.

Lemma waiting_app base resp w :
  relay_inv base resp w → app_to_up (w_chan w) (w_relay w) = None →
  to_relay (w_chan w) = [] ∧ app_done (w_relay w) = negb (stack_alive (w_chan w)).
Proof.
  intros Hi. pose proof (ri_app _ _ _ Hi) as Ha. unfold app_to_up.
  destruct (app_done (w_relay w)); [by destruct Ha as (-> & _ & _ & ->)|].
  destruct (to_relay (w_chan w)) as [|data q]; [by destruct (stack_alive (w_chan w))|].
  by destruct (write_all data (up (w_relay w))) as [[] ?].
Qed.

Lemma waiting_down w :
  up_to_app (w_chan w) (w_relay w) = None →
  down (w_relay w) = DownDone ∨
  (stack_alive (w_chan w) = true ∧ (CHANNEL_CAP ≤ length (to_stack (w_chan w)))%nat).
Proof.
  unfold up_to_app. destruct (down (w_relay w)) as [|chunk|]; [|right|by left].
  - by destruct (io_read RELAY_BUF (up (w_relay w))).
  - destruct (stack_alive (w_chan w)); [|done]. split; [done|].
    by destruct (Nat.ltb_spec (length (to_stack (w_chan w))) CHANNEL_CAP).
Qed.

(** What a relay has done so far, when it opened with [base] written upstream
    and upstream sends [resp]. *)
Record relay_faithful (base resp : list Z) w : Prop := {
  (** written and queued is what the channel accepted from the application *)
  rf_up : tx (view (up (w_relay w))) ++ concat (to_relay (w_chan w)) = base ++ w_in w;
  (** taken, queued, held and unread is what upstream sends *)
  rf_down : stack_alive (w_chan w) = true →
    w_out w ++ concat (to_stack (w_chan w)) ++ held (w_relay w) ++ rx (view (up (w_relay w))) = resp;
  rf_prefix : w_out w `prefix_of` resp;
  (** the loops make finitely many turns by themselves *)
  rf_ends n w' : nsteps relay_turn n w w' → (n ≤ relay_todo w)%nat;
  (** and when they wait, the work is done *)
  rf_waiting : waiting w →
    tx (view (up (w_relay w))) = base ++ w_in w ∧
    if stack_alive (w_chan w)
    then length (to_stack (w_chan w)) = CHANNEL_CAP ∨
         w_out w ++ concat (to_stack (w_chan w)) = resp ∧ relay_sending (w_chan w) = false
    else app_done (w_relay w) = true ∧ up_shut (w_relay w) = true ∧ down (w_relay w) = DownDone
}.

Lemma relay_inv_turns base resp n w w' :
  relay_inv base resp w → nsteps relay_turn n w w' → (n ≤ relay_todo w)%nat.
Proof.
  intros Hi Hn. revert Hi. induction Hn as [|n w1 w2 w3 Ht _ IH]; intros Hi; [lia|].
  pose proof (relay_turn_todo _ _ _ _ Hi Ht) as Hlt.
  assert (relay_inv base resp w2) as Hi2.
  { eapply relay_run_inv; [exact Hi|]. apply rtc_once. by left. }
  specialize (IH Hi2). lia.
Qed.

Lemma relay_inv_faithful base resp w : relay_inv base resp w → relay_faithful base resp w.
Proof.
  intros Hi. split; [apply Hi..| |]; [intros n w'; by apply (relay_inv_turns base resp)|].
  intros [Ha Hd]. apply (waiting_app _ _ _ Hi) in Ha as [Hq Hdone]. apply waiting_down in Hd.
  destruct Hi as [He Hr Hup Hdown Hp Happ Hdn Hc]. rewrite Hq in Hup. cbn in Hup.
  rewrite app_nil_r in Hup. split; [done|]. rewrite Hdone in Happ.
  destruct (stack_alive (w_chan w)); cbn in *.
  - destruct Hd as [Hd|[_ Hd]]; [right|left; lia]. rewrite decide_True in Hdn by done.
    destruct Hdn as [Hs Hrx]. split; [|done]. specialize (Hdown eq_refl).
    unfold held in Hdown. by rewrite Hd, (Hrx eq_refl), !app_nil_r in Hdown.
  - destruct Happ as (_ & Hs & _). destruct Hd as [Hd|[? _]]; done.
Qed.

(** C10. The relay of a connection neither loses, duplicates nor reorders
    data: when the proxy grants the tunnel, [relay_connection] asks it for
    exactly the connection's real destination, and from then on, in whatever
    order its two loops and the stack run, what has been written upstream
    followed by what is still queued is what the channel accepted from the
    application, and what the stack has taken followed by what is queued, held
    and unread is what upstream sends. The two loops end or wait after finitely
    many turns, and when they wait, all that the application sent has been
    written; the whole answer has been queued and its sender dropped, unless
    the channel is full; and once the stack has dropped the connection, the
    relay has ended with the write side of the tunnel shut down. *)
Theorem relay_transparent (s : S) (remote bnd : SocketAddr) (resp : list Z)
    (Hb : sockaddr_ok bnd) (Hend : rx_end (view s) = None)
    (Hs : feeding ([VERSION; METHOD_NO_AUTH] ++ wire_reply RepSucceeded bnd ++ resp) (view s)) :
  let '(addr, port) := relay_target remote in
  ∃ r, relay_open (Ok s) remote Chan_new = Ok (Some r, Chan_new) ∧
    ∀ w, rtc world_step (World_new r) w →
      relay_faithful (tx (view s) ++ client_greeting ++ wire_request Connect 0 addr port) resp w.
Proof.
  destruct (relay_target remote) as [addr port] eqn:Ht.
  destruct (client_opens addr port bnd resp s Hb Hs) as (u & Hc & Hu & Htx & Hue).
  exists (Relay_new u). unfold relay_open. rewrite Ht, Hc. split; [done|]. intros w Hrun.
  apply relay_inv_faithful. rewrite <- Htx.
  eapply relay_run_inv; [|exact Hrun]. apply relay_inv_new; [done|by rewrite Hue].
Qed.
End relay_theory.

(** A run on a concrete stream: the application sends two bytes, the answer
    of three bytes is taken, and the socket closes. *)
Lemma relay_transparent_witness :
  ∃ r, relay_open (Ok (from_peer ([5; 0] ++ wire_reply RepSucceeded (SockV4 [10; 0; 0; 1] 4000) ++ [7; 8; 9])))
         (SockV4 [1; 1; 1; 1] 443) Chan_new = Ok (Some r, Chan_new) ∧
    ∃ w, rtc world_step (World_new r) w ∧ w_in w = [1; 2] ∧ w_out w = [7; 8; 9] ∧
      tx (up (w_relay w)) = [5; 1; 0] ++ [5; 1; 0; 1; 1; 1; 1; 1; 1; 187] ++ [1; 2].
Proof.
  destruct (relay_transparent
    (from_peer ([5; 0] ++ wire_reply RepSucceeded (SockV4 [10; 0; 0; 1] 4000) ++ [7; 8; 9]))
    (SockV4 [1; 1; 1; 1] 443) (SockV4 [10; 0; 0; 1] 4000) [7; 8; 9]) as (r & Hr & Hw); [|done|done|].
  { split; [split; [done|repeat constructor; lia]|split; lia]. }
  exists r. split; [exact Hr|]. vm_compute in Hr. injection Hr as <-.
  eexists. split.
  - eapply rtc_l; [right; apply (turn_push _ [1; 2]); reflexivity|].
    eapply rtc_l; [left; apply turn_app; vm_compute; reflexivity|].
    eapply rtc_l; [left; apply turn_down; vm_compute; reflexivity|].
    eapply rtc_l; [left; apply turn_down; vm_compute; reflexivity|].
    eapply rtc_l; [right; eapply turn_pop; vm_compute; reflexivity|].
    apply rtc_refl.
  - vm_compute. by split_and!.
Defined.

Import MiniTcp.
(** A tick with one packet waiting for the application and a SYN to process:
    one write and one new relay. *)
Lemma poll_turn_spec_witness :
  let s := upd_queues [] [syn_packet] [syn_packet] MiniTcp.start in
  ∃ ws conns m' s', poll_turn (E := unit) (B := dev) id {| tun_fd := 3; tun_mtu := 1280 |} (λ _, [Done tt])
      0 EngineMetrics_new s = Ok (ws, conns, m', s') ∧
    ws = [(syn_packet, Ok tt)] ∧ length conns = 1%nat ∧ packets_out m' = 1 ∧ tun_tx s' = [].
Proof.
  cbv zeta. destruct (poll_turn_spec (E := unit) (B := dev) id (λ l, Permutation_refl l)
    {| tun_fd := 3; tun_mtu := 1280 |} (λ _, [Done tt]) 0 EngineMetrics_new
    (upd_queues [] [syn_packet] [syn_packet] MiniTcp.start))
    as (b & s1 & m' & Hpoll & Hturn & _ & Hp & _).
  - destruct (Inner_new_wf (Iface := unit) (SockSet := MiniTcp.SockSet) 1280) as [Hn Hf Ha Ht Hr].
    split; [exact Hn|exact Hf|exact Ha|exact Ht|]. constructor; [exact syn_ok|constructor].
  - intros k. eexists. reflexivity.
  - split; split; cbn; lia.
  - do 4 eexists. split; [exact Hturn|].
    assert (match poll (E := unit) (B := dev) id 0 (upd_queues [] [syn_packet] [syn_packet] MiniTcp.start) with
            | Ok (_, s) => (tun_tx s, length (pending s))
            | _ => ([], 0%nat)
            end = ([syn_packet], 1%nat)) as Hrun by (vm_compute; reflexivity).
    rewrite Hpoll in Hrun. injection Hrun as Htx Hpend. rewrite Htx in *.
    split; [reflexivity|]. split; [exact Hpend|]. split; [exact Hp|reflexivity].
Defined.
