(* ===== verification/Flow.v ===== *)
(** * The client as a whole: the stack, its channels and the relays of its
    connections

    Client.v proves a relay faithful beside a stack that does one thing at a
    time to the relay's channel ([stack_turn]).  Here the stack is the one of
    Stack.v, with all its connections: a poll services every channel at most
    once, each service is a sequence of those turns ([service_turns]), and so
    every relay of a running client is faithful. *)

From Stdlib Require Import ZArith Lia.
From stdpp Require Import gmap relations.
From S2P Require Import Prelude Bytes Net Io Rewrite NatTable Socks SocksClient SocksServer Stack Tun Engine Client.
From stdpp Require Import list.
Local Open Scope Z_scope.

(** ** One service of a channel *)

(** What a service appends to the relay's queue and takes from the stack's.
    The chunks that dropping the peer discards are not taken. *)
Definition appended (c c' : Chan) : list Z := concat (drop (length (to_relay c)) (to_relay c')).
Definition taken (c c' : Chan) : list Z :=
  if stack_alive c'
  then concat (take (length (to_stack c) - length (to_stack c')) (to_stack c)) else [].

Section service.
Context {Iface SockSet Sock : Type} `{Smoltcp Iface SockSet Sock}.

(** Untouched, exchanged with its socket, or dropped. *)
Inductive served : Chan → Chan → Prop :=
| served_not c : served c c
| served_exchange c sk : stack_alive c = true → served c (exchange sk c).2
| served_drop c : stack_alive c = true → served c (drop_peer c).

Context {S : Type} `{AsyncIo S}.

Lemma appended_same c q : appended c (set_to_stack q c) = [].
Proof. unfold appended. cbn. by rewrite drop_all. Qed.

Lemma pops_turns sent q c (r : Relay S) i o :
  stack_alive c = true → to_stack c = sent ++ q →
  rtc stack_turn {| w_chan := c; w_relay := r; w_in := i; w_out := o |}
    {| w_chan := set_to_stack q c; w_relay := r; w_in := i; w_out := o ++ concat sent |}.
Proof.
  revert c o. induction sent as [|d sent IH]; intros c o Ha Hq; cbn in *.
  - rewrite app_nil_r, <- Hq. by destruct c.
  - eapply rtc_l; [by apply (turn_pop _ d (sent ++ q))|]. cbn.
    rewrite app_assoc. exact (IH (set_to_stack (sent ++ q) c) (o ++ d) Ha eq_refl).
Qed.

(** The first half of an exchange: what the socket received. *)
Lemma push_turns c data (r : Relay S) i o :
  stack_alive c = true →
  rtc stack_turn {| w_chan := c; w_relay := r; w_in := i; w_out := o |}
    {| w_chan := try_send c data; w_relay := r; w_in := i ++ appended c (try_send c data); w_out := o |}.
Proof.
  intros Ha. apply rtc_once.
  pose proof (turn_push {| w_chan := c; w_relay := r; w_in := i; w_out := o |} data Ha) as Ht.
  cbn in Ht. replace (i ++ appended c (try_send c data)) with (if accepts c then i ++ data else i); [done|].
  unfold appended, accepts, try_send. destruct (_ && _); cbn.
  - rewrite drop_app_length. cbn. by rewrite app_nil_r.
  - by rewrite drop_all, app_nil_r.
Qed.

(** An exchange is: perhaps one push, then pops. *)
Lemma exchange_shape sk c :
  ∃ c1 sent q, (c1 = c ∨ ∃ data, c1 = try_send c data) ∧
    to_stack c = sent ++ q ∧ (exchange sk c).2 = set_to_stack q c1.
Proof.
  unfold exchange.
  assert (∀ c1 sk1, to_stack c1 = to_stack c → (c1 = c ∨ ∃ data, c1 = try_send c data) →
    ∃ c2 sent q, (c2 = c ∨ ∃ data, c2 = try_send c data) ∧ to_stack c = sent ++ q ∧
      (let '(q, socket) := send_loop (to_stack c1) sk1 in
       let c := set_to_stack q c1 in
       ((if can_send socket && negb (relay_sending c) then tcp_close socket else socket), c)).2 =
      set_to_stack q c2) as Hgo.
  { intros c1 sk1 Hq Hc. pose proof (send_loop_spec (to_stack c1) sk1) as Hl.
    destruct (send_loop (to_stack c1) sk1) as [q sk2]. destruct Hl as (sent & Hs & _).
    exists c1, sent, q. split; [done|]. split; [congruence|done]. }
  destruct (can_recv sk); [|by apply Hgo; auto].
  destruct (tcp_recv sk) as [[data sk1]|]; [|by apply Hgo; auto].
  destruct data as [|b data]; [by apply Hgo; auto|]. apply Hgo; [|by eauto].
  unfold try_send. by destruct (_ && _).
Qed.

Lemma try_send_frame c data :
  to_stack (try_send c data) = to_stack c ∧ stack_alive (try_send c data) = stack_alive c ∧
  relay_receiving (try_send c data) = relay_receiving c ∧ relay_sending (try_send c data) = relay_sending c.
Proof. unfold try_send. by destruct (_ && _). Qed.

Lemma exchange_turns sk c (r : Relay S) i o :
  stack_alive c = true →
  let c' := (exchange sk c).2 in
  rtc stack_turn {| w_chan := c; w_relay := r; w_in := i; w_out := o |}
    {| w_chan := c'; w_relay := r; w_in := i ++ appended c c'; w_out := o ++ taken c c' |}.
Proof.
  intros Ha. cbv zeta. destruct (exchange_shape sk c) as (c1 & sent & q & Hc1 & Hq & ->).
  assert (rtc stack_turn {| w_chan := c; w_relay := r; w_in := i; w_out := o |}
    {| w_chan := c1; w_relay := r; w_in := i ++ appended c c1; w_out := o |} ∧
    to_stack c1 = to_stack c ∧ stack_alive c1 = stack_alive c) as (Hpush & Hts & Hal).
  { destruct Hc1 as [->|[data ->]]; [|split; [by apply push_turns|split; apply try_send_frame]].
    split; [|done]. unfold appended. rewrite drop_all, app_nil_r. apply rtc_refl. }
  assert (taken c (set_to_stack q c1) = concat sent) as ->.
  { unfold taken. cbn. rewrite Hal, Ha, Hq, length_app.
    replace (length sent + length q - length q)%nat with (length sent) by lia. by rewrite take_app_length. }
  etrans; [exact Hpush|]. change (appended c (set_to_stack q c1)) with (appended c c1).
  apply pops_turns; congruence.
Qed.

(** A service is a sequence of stack turns, and the logs are what it moved. *)
Lemma service_turns c c' (r : Relay S) i o :
  served c c' →
  rtc stack_turn {| w_chan := c; w_relay := r; w_in := i; w_out := o |}
    {| w_chan := c'; w_relay := r; w_in := i ++ appended c c'; w_out := o ++ taken c c' |}.
Proof.
  intros [c1|c1 sk Ha|c1 Ha].
  - replace (appended c1 c1) with ([] : list Z) by (unfold appended; by rewrite drop_all).
    replace (taken c1 c1) with ([] : list Z) by (unfold taken; rewrite Nat.sub_diag, take_0; by destruct (stack_alive c1)).
    rewrite !app_nil_r. apply rtc_refl.
  - by apply exchange_turns.
  - unfold appended, taken. cbn. rewrite drop_all, !app_nil_r. apply rtc_once.
    exact (turn_drop {| w_chan := c1; w_relay := r; w_in := i; w_out := o |} Ha).
Qed.
End service.

(** ** Channels and sockets

    Every tracked socket has a channel of its own whose stack side is open. *)
Record chans_wf {Iface SockSet} (s : Inner Iface SockSet) : Prop := {
  cw_alive : ∀ h rd p, active s !! h = Some (rd, p) →
    ∃ c, chans s !! peer_chan p = Some c ∧ stack_alive c = true;
  cw_inj : ∀ h1 h2 x1 x2, active s !! h1 = Some x1 → active s !! h2 = Some x2 →
    peer_chan x1.2 = peer_chan x2.2 → h1 = h2;
  cw_fresh : ∀ id, is_Some (chans s !! id) → (id < next_chan s)%nat
}.

(** New connections: each has a new channel, and the old channels are as they
    were. *)
Record opens {Iface SockSet} (new : list VirtualConnection) (s s' : Inner Iface SockSet) : Prop := {
  op_pending : pending s' = pending s ++ new;
  op_next : (next_chan s ≤ next_chan s')%nat;
  op_old : ∀ id, (id < next_chan s)%nat → chans s' !! id = chans s !! id;
  op_nodup : NoDup (vc_chan <$> new);
  op_new : ∀ v, v ∈ new →
    (next_chan s ≤ vc_chan v < next_chan s')%nat ∧ chans s' !! vc_chan v = Some Chan_new
}.

Section polls.
Context {Iface SockSet Sock : Type} `{SmoltcpLaws Iface SockSet Sock} {E : Type} {B : Build}.
Abbreviation Inner := (Inner Iface SockSet).
Implicit Types s : Inner.

Lemma chans_wf_ext s s' :
  active s' = active s → chans s' = chans s → next_chan s' = next_chan s → chans_wf s → chans_wf s'.
Proof. intros H1 H2 H3 []. split; by rewrite ?H1, ?H2, ?H3. Qed.

Lemma opens_refl s s' :
  pending s' = pending s → chans s' = chans s → next_chan s' = next_chan s → opens [] s s'.
Proof.
  intros H1 H2 H3. split; rewrite ?H1, ?H2, ?H3, ?app_nil_r; try done; [constructor|].
  intros v Hv. by apply not_elem_of_nil in Hv.
Qed.

Lemma opens_trans new1 new2 s1 s2 s3 :
  opens new1 s1 s2 → opens new2 s2 s3 → opens (new1 ++ new2) s1 s3.
Proof.
  intros [P1 N1 O1 D1 W1] [P2 N2 O2 D2 W2]. split.
  - by rewrite P2, P1, <- app_assoc.
  - lia.
  - intros id Hid. rewrite O2 by lia. by apply O1.
  - rewrite fmap_app. apply NoDup_app. split_and!; [done| |done].
    intros id (v1 & -> & Hv1)%list_elem_of_fmap (v2 & Heq & Hv2)%list_elem_of_fmap.
    apply W1 in Hv1 as [? _]. apply W2 in Hv2 as [? _]. lia.
  - intros v [Hv|Hv]%elem_of_app.
    + destruct (W1 v Hv) as [? Hc]. split; [lia|]. by rewrite O2 by lia.
    + destruct (W2 v Hv) as [? Hc]. split; [lia|done].
Qed.

(** A tracked socket is added, with a channel of its own. *)
Lemma chans_wf_add h rd c s s' :
  active s' = <[h := (rd, {| peer_chan := next_chan s |})]> (active s) →
  chans s' = <[next_chan s := c]> (chans s) → next_chan s' = S (next_chan s) →
  stack_alive c = true → chans_wf s → chans_wf s'.
Proof.
  intros H1 H2 H3 Hc [Ha Hi Hf].
  assert (∀ h x, active s !! h = Some x → peer_chan x.2 ≠ next_chan s) as Hpeer.
  { intros h' [rd' p'] (c' & Hc' & _)%Ha Heq. cbn in Heq. rewrite Heq in Hc'.
    assert (next_chan s < next_chan s)%nat by (apply Hf; by eexists). lia. }
  split; rewrite ?H1, ?H2, ?H3.
  - intros h' rd' p'. rewrite lookup_insert_Some. intros [[<- [= <- <-]]|[Hn Hp]]; cbn.
    + exists c. by rewrite lookup_insert_eq.
    + rewrite lookup_insert_ne by (symmetry; exact (Hpeer _ _ Hp)). by eapply Ha.
  - intros h1 h2 x1 x2. rewrite !lookup_insert_Some.
    intros [[<- <-]|[? Hx1]] [[<- <-]|[? Hx2]] Heq; [done| | |by eapply Hi].
    + by destruct (Hpeer _ _ Hx2).
    + by destruct (Hpeer _ _ Hx1).
  - intros id. destruct (decide (id = next_chan s)) as [->|]; [lia|].
    rewrite lookup_insert_ne by done. intros Hid. apply Hf in Hid. lia.
Qed.

Lemma create_listener_chans vp rd s :
  chans_wf s →
  ∃ new, opens new s (create_listener vp rd s) ∧ chans_wf (create_listener vp rd s).
Proof.
  intros Hcw. unfold create_listener.
  destruct (tcp_listen _ _) as [sk|]; [|exists []; split; [by apply opens_refl|done]].
  destruct (set_add sk (sockets s)) as [h ss] eqn:Hadd.
  exists (if (length (pending s) <? PENDING_CAP)%nat
          then [{| vc_local := SockV4 IFACE_IP vp; vc_remote := rd; vc_chan := next_chan s |}] else []).
  destruct (_ <? PENDING_CAP)%nat; (split; [split; cbn|by eapply chans_wf_add; [..|exact Hcw]]).
  all: try lia; try (by intros id Hid; rewrite lookup_insert_ne by lia).
  - done.
  - apply NoDup_singleton.
  - intros v ->%list_elem_of_singleton. cbn. rewrite lookup_insert_eq. split; [lia|done].
  - by rewrite app_nil_r.
  - constructor.
  - intros v Hv. by apply not_elem_of_nil in Hv.
Qed.

Lemma process_inbound_chans raw s s' :
  stack_wf s → chans_wf s → process_inbound (E := E) raw s = Ok s' →
  ∃ new, opens new s s' ∧ chans_wf s'.
Proof.
  intros Hwf Hcw. unfold process_inbound. rewrite extract_tcp_addrs_eq. cbn [obind].
  assert (∀ s1, (∃ new, opens new s s1 ∧ chans_wf s1) → ∀ vp : option Z,
    (match vp with
     | None => Ok s1
     | Some vport => let! (ok, pkt) := rewrite_inbound (E := E) raw vport in
         Ok (if ok : bool then upd_device (push_rx pkt (device s1)) s1 else s1)
     end) = Ok s' → ∃ new, opens new s s' ∧ chans_wf s') as Hpush.
  { intros s1 (new & Ho & Hc) [vp|]; [|intros [= <-]; by exists new].
    destruct (rewrite_inbound raw vp) as [[[] pkt]| | |]; [|by intros [= <-]; exists new|done..].
    intros [= <-]. exists new. split; [|by eapply chans_wf_ext; [..|exact Hc]].
    rewrite <- (app_nil_r new). eapply opens_trans; [exact Ho|by apply opens_refl]. }
  assert (∃ new, opens new s s ∧ chans_wf s) as Hsame by (exists []; split; [by apply opens_refl|done]).
  destruct (is_tcp4 raw) eqn:Ht; [|by intros [= <-]].
  rewrite is_tcp_syn_ok by done. cbn [obind]. fold (is_syn raw).
  destruct (is_syn raw); cbn [obind]; [|by apply Hpush].
  destruct (NatTable_insert_cases (E := E) (nat_table s) (src_of raw) (dst_of raw))
    as (r & t & -> & Hwft & _); [apply Hwf|]. cbn [obind].
  assert (∃ new, opens new s (upd_nat t s) ∧ chans_wf (upd_nat t s)) as Hnat.
  { exists []. split; [by apply opens_refl|by eapply chans_wf_ext; [..|exact Hcw]]. }
  destruct r as [vp|]; cbn [obind]; [|by apply (Hpush _ Hnat None)].
  apply (Hpush _) with (vp := Some vp). destruct (negb _); [|done].
  destruct Hnat as (new & Ho & Hc). destruct (create_listener_chans vp (dst_of raw) _ Hc) as (new' & Ho' & Hc').
  exists (new ++ new'). split; [by eapply opens_trans|done].
Qed.

Lemma inbound_loop_chans raws s s' :
  stack_wf s → chans_wf s → Forall raw_ok raws → inbound_loop (E := E) raws s = Ok s' →
  ∃ new, opens new s s' ∧ chans_wf s'.
Proof.
  intros Hwf Hcw Hr. revert s Hwf Hcw.
  induction Hr as [|raw raws Hraw _ IH]; intros s Hwf Hcw; cbn [inbound_loop].
  - intros [= <-]. exists []. split; [by apply opens_refl|done].
  - destruct (process_inbound_ok (E := E) raw s Hwf Hraw) as (s1 & Hp & Hwf1 & _). rewrite Hp. cbn [obind].
    destruct (process_inbound_chans raw s s1 Hwf Hcw Hp) as (new1 & Ho1 & Hc1). intros Hl.
    destruct (IH s1 Hwf1 Hc1 Hl) as (new2 & Ho2 & Hc2). exists (new1 ++ new2).
    split; [by eapply opens_trans|done].
Qed.

(** ** The services of a poll *)

(** Channels that no serviced socket uses stay, the others are served once. *)
Definition serves (s s' : Inner) : Prop :=
  pending s' = pending s ∧ next_chan s' = next_chan s ∧
  ∀ id c, chans s !! id = Some c → ∃ c', chans s' !! id = Some c' ∧ served c c'.

Definition uses (s : Inner) (hs : list nat) (id : nat) : Prop :=
  ∃ h x, h ∈ hs ∧ active s !! h = Some x ∧ peer_chan x.2 = id.

(** One socket: its channel is served, the others are untouched, and
    afterwards it is tracked with an open channel or not at all. *)
Record service_one (h : nat) (s s' : Inner) : Prop := {
  so_frame : pending s' = pending s ∧ next_chan s' = next_chan s;
  so_active : ∀ h', h' ≠ h → active s' !! h' = active s !! h';
  so_other : ∀ id, ¬ uses s [h] id → chans s' !! id = chans s !! id;
  so_served : ∀ id c, chans s !! id = Some c → ∃ c', chans s' !! id = Some c' ∧ served c c';
  so_wf : chans_wf s'
}.

Lemma exchange_alive sk c : stack_alive (exchange sk c).2 = stack_alive c.
Proof.
  destruct (exchange_shape sk c) as (c1 & sent & q & [->|[data ->]] & _ & ->); [done|].
  cbn. apply try_send_frame.
Qed.

Lemma served_insert (id : nat) (c c' : Chan) (m : gmap nat Chan) :
  m !! id = Some c → served c c' →
  ∀ i x, m !! i = Some x → ∃ x', <[id := c']> m !! i = Some x' ∧ served x x'.
Proof.
  intros Hid Hs i x Hx. destruct (decide (i = id)) as [->|].
  - exists c'. rewrite lookup_insert_eq. split; [done|]. congruence.
  - exists x. rewrite lookup_insert_ne by done. split; [done|constructor].
Qed.

Lemma service_exchange h rd p sk c s s' :
  chans_wf s → active s !! h = Some (rd, p) → chans s !! peer_chan p = Some c → stack_alive c = true →
  s' = upd_chans (<[peer_chan p := (exchange sk c).2]> (chans s)) (upd_sockets (sockets s') s) →
  service_one h s s'.
Proof.
  intros [Ha Hi Hf] Hp Hc Hal ->. split; cbn; [done|done| | |].
  - intros id Hid. apply lookup_insert_ne. intros <-. apply Hid. exists h, (rd, p). split; [by left|done].
  - eapply served_insert; [done|by constructor].
  - split; cbn; [|done|].
    + intros h' rd' p' (c' & Hc' & Hal')%Ha. destruct (decide (peer_chan p' = peer_chan p)) as [->|].
      * eexists. rewrite lookup_insert_eq. split; [done|]. by rewrite exchange_alive.
      * exists c'. by rewrite lookup_insert_ne.
    + intros id. destruct (decide (id = peer_chan p)) as [->|]; [intros _; apply Hf; by eexists|].
      rewrite lookup_insert_ne by done. apply Hf.
Qed.

Lemma service_drop h rd p ss s :
  chans_wf s → active s !! h = Some (rd, p) →
  service_one h s (upd_chans (alter drop_peer (peer_chan p) (chans s))
                     (upd_sockets ss (upd_active (delete h (active s)) s))).
Proof.
  intros [Ha Hi Hf] Hp. destruct (Ha _ _ _ Hp) as (c & Hc & Hal). split; cbn; [done| | | |].
  - intros h' Hh'. by apply lookup_delete_ne.
  - intros id Hid. apply lookup_alter_ne. intros <-. apply Hid. exists h, (rd, p). split; [by left|done].
  - intros id x Hx. destruct (decide (id = peer_chan p)) as [->|].
    + exists (drop_peer c). rewrite lookup_alter_eq, Hc. split; [done|].
      rewrite Hc in Hx. injection Hx as <-. by constructor.
    + exists x. rewrite lookup_alter_ne by done. split; [done|constructor].
  - split; cbn.
    + intros h' rd' p' [Hn Hp']%lookup_delete_Some. rewrite lookup_alter_ne; [by eapply Ha|].
      intros Heq. apply Hn. by eapply (Hi _ _ (rd, p) (rd', p')).
    + intros h1 h2 x1 x2 [_ H1]%lookup_delete_Some [_ H2]%lookup_delete_Some. by apply Hi.
    + intros id. rewrite lookup_alter_is_Some. apply Hf.
Qed.

(** The body of the loop over the tracked sockets. *)
Lemma service_body h hs need s b s' :
  stack_wf s → chans_wf s → is_Some (active s !! h) →
  service_loop (E := E) (h :: hs) need s = Ok (b, s') →
  ∃ need1 s1, service_loop (E := E) hs need1 s1 = Ok (b, s') ∧ stack_wf s1 ∧ service_one h s s1.
Proof.
  intros Hwf Hcw Hh. cbn [service_loop].
  destruct (service_socket_ok (E := E) h s Hwf Hh) as (cl & s1 & Hs & Hwf1 & _ & Ha1 & _).
  rewrite Hs. cbn [obind]. destruct Hh as [[rd p] Hp].
  destruct (swf_active _ Hwf h) as [sk Hsk]; [by eexists|].
  unfold service_socket in Hs. rewrite Hsk, Hp in Hs. destruct (_ || _).
  - injection Hs as <- <-. rewrite Hp, vport_of_removed. intros Hl. do 2 eexists. split; [exact Hl|].
    split; [|exact (service_drop h rd p _ s Hcw Hp)].
    destruct Hwf as [Hn Hf Ha Ht Hr]. split; simpl; try done.
    intros h'. rewrite lookup_delete, set_remove_law. do 2 case_decide; try done. apply Ha.
  - destruct (cw_alive _ Hcw _ _ _ Hp) as (c & Hc & Hal). rewrite Hc in Hs. cbn [from_option id] in Hs.
    destruct (exchange sk c) as [sk' c'] eqn:Hx. injection Hs as <- <-. intros Hl.
    do 2 eexists. split; [exact Hl|]. split; [done|].
    eapply service_exchange; [done..|]. cbn. by rewrite Hx.
Qed.

Lemma service_loop_chans hs need s b s' :
  stack_wf s → chans_wf s → NoDup hs → (∀ h, h ∈ hs → is_Some (active s !! h)) →
  service_loop (E := E) hs need s = Ok (b, s') →
  serves s s' ∧ chans_wf s' ∧ ∀ id, ¬ uses s hs id → chans s' !! id = chans s !! id.
Proof.
  intros Hwf Hcw Hnd. revert need s Hwf Hcw.
  induction Hnd as [|h hs Hni _ IH]; intros need s Hwf Hcw Hin Hl.
  - injection Hl as <- <-. split; [|done]. split_and!; [done..|]. intros id c Hc. exists c. by split; [|constructor].
  - destruct (service_body h hs need s b s' Hwf Hcw) as (need1 & s1 & Hl1 & Hwf1 & [[Hp1 Hn1] Ha1 Ho1 Hs1 Hc1]);
      [apply Hin; by left|done|].
    assert (∀ h', h' ∈ hs → active s1 !! h' = active s !! h') as Hact.
    { intros h' Hh'. apply Ha1. by intros ->. }
    destruct (IH need1 s1 Hwf1 Hc1) as ((Hp2 & Hn2 & Hs2) & Hc2 & Ho2); [|done|].
    { intros h' Hh'. rewrite Hact by done. apply Hin. by right. }
    assert (∀ id, uses s1 hs id → uses s hs id) as Hu.
    { intros id (h' & x & Hh' & Hx & Hid). exists h', x. rewrite <- Hact by done. done. }
    split; [|split; [done|]].
    + split_and!; [congruence..|]. intros id c Hc.
      destruct (Hin h) as [x Hx]; [by left|]. destruct (decide (peer_chan x.2 = id)) as [Hid|Hno].
      * destruct (Hs1 id c Hc) as (c1 & Hc1' & Hserved). exists c1. split; [|done].
        rewrite Ho2; [done|]. intros (h' & x' & Hh' & Hx' & Hid')%Hu.
        assert (h' = h) as -> by (eapply (cw_inj _ Hcw); [done..|congruence]). done.
      * destruct (Hs2 id c) as (c' & ? & ?); [|by exists c'].
        rewrite Ho1; [done|]. intros (h' & x' & ->%list_elem_of_singleton & Hx' & Hid). apply Hno. congruence.
    + intros id Hid. rewrite Ho2, Ho1; [done| |].
      * intros (h' & x & ->%list_elem_of_singleton & Hx & Hid'). apply Hid. exists h, x. split; [by left|done].
      * intros (h' & x & Hh' & Hx & Hid')%Hu. apply Hid. exists h', x. split; [by right|done].
Qed.

Context (hash_order : list nat → list nat) (Hperm : ∀ l, hash_order l ≡ₚ l).

(** A poll opens new connections and then serves every channel at most once. *)
Lemma poll_chans ts s :
  stack_wf s → chans_wf s →
  ∃ b s1 s' new, poll (E := E) hash_order ts s = Ok (b, s') ∧ stack_wf s' ∧ chans_wf s' ∧
    opens new s s1 ∧ serves s1 s'.
Proof.
  intros Hwf Hcw. destruct (poll_ok (E := E) hash_order Hperm ts s Hwf) as (b & s' & Hpoll & Hwf' & _).
  pose proof Hpoll as Hp. unfold poll in Hp.
  assert (stack_wf (upd_queues (pending s) (tun_tx s) [] s)) as Hwf0 by (by destruct Hwf; split).
  destruct (inbound_loop_ok (E := E) (tun_rx s) _ Hwf0) as (s1 & Hin & Hwf1 & _); [apply Hwf|].
  rewrite Hin in Hp. cbn [obind] in Hp.
  destruct (inbound_loop_chans (tun_rx s) _ s1 Hwf0) as (new & Ho & Hc1);
    [by eapply chans_wf_ext; [..|exact Hcw]|apply Hwf|done|].
  destruct (iface_poll ts (iface s1) (device s1) (sockets s1)) as [[[pr i] d] ss] eqn:Hif.
  set (s2 := upd_io i d ss s1) in Hp. pose proof (iface_poll_wf _ _ _ _ _ _ Hif Hwf1 : stack_wf s2) as Hwf2.
  destruct (handles_ok hash_order Hperm s2) as [Hnd Hact].
  destruct (service_loop (hash_order (map_to_list (active s2)).*1) pr s2) as [[b3 s3]| | |] eqn:Hsl;
    [|done..]. cbn [obind] in Hp.
  destruct (service_loop_chans (hash_order (map_to_list (active s2)).*1) pr s2 b3 s3 Hwf2) as (Hserve & Hc3 & _); [|exact Hnd|exact Hact|exact Hsl|].
  { by eapply chans_wf_ext; [..|exact Hc1]. }
  destruct (outbound_loop _ _ _) as [out| | |]; [|done..]. injection Hp as -> <-.
  exists b, s1. do 2 eexists. split; [exact Hpoll|]. split; [done|]. split; [by eapply chans_wf_ext; [..|exact Hc3]|].
  split; [|exact Hserve]. by destruct Ho.
Qed.
End polls.

(** ** The client

    The stack, the connections handed to relay tasks that have not opened
    their tunnel yet, and the relays, each with the stream it dialled and the
    logs of what the stack put into its channel and took out of it. *)
Record Conn (S : Type) := {
  cn_dialled : Outcome IoErrorKind S; cn_remote : SocketAddr; cn_relay : Relay S;
  cn_in : list Z; cn_out : list Z
}.
Arguments cn_dialled {S} c.
Arguments cn_remote {S} c.
Arguments cn_relay {S} c.
Arguments cn_in {S} c.
Arguments cn_out {S} c.

Record Running (Iface SockSet S : Type) := {
  cl_stack : Inner Iface SockSet; cl_opening : list VirtualConnection; cl_conns : gmap nat (Conn S)
}.
Arguments cl_stack {Iface SockSet S} r.
Arguments cl_opening {Iface SockSet S} r.
Arguments cl_conns {Iface SockSet S} r.

(** What the tasks of [run_client_loop] do: the reader feeds a packet, the
    poll task polls, drains and accepts, a relay task opens its tunnel or makes
    a turn of one of its loops.  The scheduler chooses the order. *)
Inductive ClientOp (S : Type) :=
| ClFeed (pkt : list Z)
| ClPoll (ts : Z)
| ClDrain
| ClAccept
| ClOpen (k : nat) (dial : Outcome IoErrorKind S)
| ClUp (id : nat)
| ClDown (id : nat).
Arguments ClFeed {S} pkt.
Arguments ClPoll {S} ts.
Arguments ClDrain {S}.
Arguments ClAccept {S}.
Arguments ClOpen {S} k dial.
Arguments ClUp {S} id.
Arguments ClDown {S} id.

Section client.
Context {Iface SockSet Sock : Type} `{Smoltcp Iface SockSet Sock} {S : Type} `{AsyncIo S}.
Context {E : Type} {B : Build}.
Variable hash_order : list nat → list nat.
Abbreviation Running := (Running Iface SockSet S).

Definition Running_new (mtu : Z) : Running :=
  {| cl_stack := Inner_new mtu; cl_opening := []; cl_conns := ∅ |}.

Definition chan_of (s : Inner Iface SockSet) (id : nat) : Chan := default Chan_new (chans s !! id).
Definition set_chan (id : nat) (c : Chan) (s : Inner Iface SockSet) : Inner Iface SockSet :=
  upd_chans (<[id := c]> (chans s)) s.

(** A poll moves data; the logs record it. *)
Definition log_conn (s s' : Inner Iface SockSet) (id : nat) (cn : Conn S) : Conn S :=
  let c := chan_of s id in
  let c' := chan_of s' id in
  {| cn_dialled := cn_dialled cn; cn_remote := cn_remote cn; cn_relay := cn_relay cn;
     cn_in := cn_in cn ++ appended c c'; cn_out := cn_out cn ++ taken c c' |}.

(** A task that panics while it opens its tunnel drops the connection; one
    that waits for ever stays. *)
Definition open_step (k : nat) (dial : Outcome IoErrorKind S) (cl : Running) : Running :=
  match cl_opening cl !! k with
  | None => cl
  | Some v =>
      let id := vc_chan v in
      let c := chan_of (cl_stack cl) id in
      let rest := delete k (cl_opening cl) in
      match relay_open dial (vc_remote v) c with
      | Ok (Some r, c) =>
          {| cl_stack := set_chan id c (cl_stack cl); cl_opening := rest;
             cl_conns := <[id := {| cn_dialled := dial; cn_remote := vc_remote v; cn_relay := r;
                                    cn_in := concat (to_relay c); cn_out := [] |}]> (cl_conns cl) |}
      | Ok (None, c) =>
          {| cl_stack := set_chan id c (cl_stack cl); cl_opening := rest; cl_conns := cl_conns cl |}
      | Err _ | Panic =>
          {| cl_stack := set_chan id (drop_conn c) (cl_stack cl); cl_opening := rest; cl_conns := cl_conns cl |}
      | Diverge => cl
      end
  end.

Definition relay_step (turn : Chan → Relay S → option (Chan * Relay S)) (id : nat) (cl : Running) : Running :=
  match cl_conns cl !! id with
  | None => cl
  | Some cn =>
      match turn (chan_of (cl_stack cl) id) (cn_relay cn) with
      | None => cl
      | Some (c, r) =>
          {| cl_stack := set_chan id c (cl_stack cl); cl_opening := cl_opening cl;
             cl_conns := <[id := {| cn_dialled := cn_dialled cn; cn_remote := cn_remote cn; cn_relay := r;
                                    cn_in := cn_in cn; cn_out := cn_out cn |}]> (cl_conns cl) |}
      end
  end.

Definition client_step (o : ClientOp S) (cl : Running) : Outcome E Running :=
  let s := cl_stack cl in
  match o with
  | ClFeed pkt =>
      Ok {| cl_stack := feed_inbound pkt s; cl_opening := cl_opening cl; cl_conns := cl_conns cl |}
  | ClPoll ts =>
      let! (_, s') := poll hash_order ts s in
      Ok {| cl_stack := s'; cl_opening := cl_opening cl;
            cl_conns := map_imap (λ id cn, Some (log_conn s s' id cn)) (cl_conns cl) |}
  | ClDrain =>
      Ok {| cl_stack := (drain_outbound s).2; cl_opening := cl_opening cl; cl_conns := cl_conns cl |}
  | ClAccept =>
      match accept s with
      | (Some v, s) => Ok {| cl_stack := s; cl_opening := cl_opening cl ++ [v]; cl_conns := cl_conns cl |}
      | (None, _) => Ok cl
      end
  | ClOpen k dial => Ok (open_step k dial cl)
  | ClUp id => Ok (relay_step app_to_up id cl)
  | ClDown id => Ok (relay_step up_to_app id cl)
  end.

Fixpoint client_run (ops : list (ClientOp S)) (cl : Running) : Outcome E Running :=
  match ops with
  | [] => Ok cl
  | o :: ops => let! cl := client_step o cl in client_run ops cl
  end.

Definition client_op_ok (o : ClientOp S) : Prop := match o with ClFeed pkt => raw_ok pkt | _ => True end.

(** The connection beside the stack, as a world of Client.v. *)
Definition conn_world (c : Chan) (cn : Conn S) : World S :=
  {| w_chan := c; w_relay := cn_relay cn; w_in := cn_in cn; w_out := cn_out cn |}.
End client.

(** ** The invariant of a client *)

(** A channel whose relay has not opened its tunnel yet. *)
Definition untouched (c : Chan) : Prop :=
  relay_receiving c = true ∧ relay_sending c = true ∧ to_stack c = [].

Lemma untouched_served {Iface SockSet Sock} `{Smoltcp Iface SockSet Sock} c c' :
  served c c' → untouched c → untouched c'.
Proof.
  intros [c1|c1 sk Ha|c1 Ha] (Hr & Hs & Hq); [done| |done].
  destruct (exchange_shape sk c1) as (c2 & sent & q & Hc2 & Hsq & ->). rewrite Hq in Hsq.
  symmetry in Hsq. apply app_eq_nil in Hsq as [_ ->].
  destruct Hc2 as [->|[data ->]]; [done|]. destruct (try_send_frame c1 data) as (_ & _ & Hr' & Hs').
  unfold untouched. cbn. by rewrite Hr', Hs'.
Qed.

Section faithful.
Context {Iface SockSet Sock : Type} `{SmoltcpLaws Iface SockSet Sock} {S : Type} `{AsyncIoLaws S}.
Context {E : Type} {B : Build} (hash_order : list nat → list nat) (Hperm : ∀ l, hash_order l ≡ₚ l).
Abbreviation Running := (Running Iface SockSet S).
Implicit Types cl : Running.

(** [u] is a stream on which the proxy grants the tunnel and sends [resp]. *)
Definition granted (u : S) (bnd : SocketAddr) (resp : list Z) : Prop :=
  sockaddr_ok bnd ∧ rx_end (view u) = None ∧
  feeding ([VERSION; METHOD_NO_AUTH] ++ wire_reply RepSucceeded bnd ++ resp) (view u).

(** What is upstream when the tunnel is open. *)
Definition tunnel_request (u : S) (remote : SocketAddr) : list Z :=
  let '(addr, port) := relay_target remote in
  tx (view u) ++ client_greeting ++ wire_request Connect 0 addr port.

Definition conn_ok (c : Chan) (cn : Conn S) : Prop :=
  ∀ u bnd resp, cn_dialled cn = Ok u → granted u bnd resp →
    relay_inv (tunnel_request u (cn_remote cn)) resp (conn_world c cn).

Definition waiting_conns cl : list VirtualConnection := cl_opening cl ++ pending (cl_stack cl).

Record client_inv cl : Prop := {
  ci_stack : stack_wf (cl_stack cl);
  ci_chans : chans_wf (cl_stack cl);
  ci_nodup : NoDup (vc_chan <$> waiting_conns cl);
  ci_new : ∀ v, v ∈ waiting_conns cl → cl_conns cl !! vc_chan v = None ∧
    ∃ c, chans (cl_stack cl) !! vc_chan v = Some c ∧ untouched c;
  ci_conns : ∀ id cn, cl_conns cl !! id = Some cn →
    ∃ c, chans (cl_stack cl) !! id = Some c ∧ conn_ok c cn
}.

Lemma Running_new_inv mtu : client_inv (Running_new mtu).
Proof.
  split; [apply Inner_new_wf|split|..]; cbn.
  - intros h rd p. by rewrite lookup_empty.
  - intros h1 h2 x1 x2. by rewrite lookup_empty.
  - intros id. rewrite lookup_empty. by intros [].
  - constructor.
  - intros v Hv. by apply not_elem_of_nil in Hv.
  - intros id cn. by rewrite lookup_empty.
Qed.

(** Changes of the stack that concern neither its channels nor its pending
    connections. *)
Lemma client_inv_stack cl s :
  stack_wf s → active s = active (cl_stack cl) → chans s = chans (cl_stack cl) →
  next_chan s = next_chan (cl_stack cl) → pending s = pending (cl_stack cl) →
  client_inv cl →
  client_inv {| cl_stack := s; cl_opening := cl_opening cl; cl_conns := cl_conns cl |}.
Proof.
  intros Hwf Ha Hc Hn Hp [_ Hcw Hnd Hnew Hconn].
  split; [done|by eapply chans_wf_ext; [..|exact Hcw]|..]; unfold waiting_conns in *; cbn;
    rewrite ?Hp, ?Hc; done.
Qed.

Lemma chans_wf_set id c c' (s : Inner Iface SockSet) :
  chans s !! id = Some c → stack_alive c' = stack_alive c → chans_wf s → chans_wf (set_chan id c' s).
Proof.
  intros Hc Hal [Ha Hi Hf]. split; cbn; [|done|].
  - intros h rd p (x & Hx & Hxa)%Ha. destruct (decide (peer_chan p = id)) as [Heq|].
    + exists c'. rewrite Heq, lookup_insert_eq in *. split; [done|]. congruence.
    + exists x. by rewrite lookup_insert_ne.
  - intros i. destruct (decide (i = id)) as [->|]; [intros _; apply Hf; by eexists|].
    rewrite lookup_insert_ne by done. apply Hf.
Qed.

Lemma set_chan_wf id c (s : Inner Iface SockSet) : stack_wf s → stack_wf (set_chan id c s).
Proof. intros Hwf. by destruct Hwf; split. Qed.

Lemma chan_of_lookup (s : Inner Iface SockSet) id c : chans s !! id = Some c → chan_of s id = c.
Proof. unfold chan_of. by intros ->. Qed.

(** The relay of a connection makes a turn. *)
Lemma relay_step_inv turn id cl :
  (∀ c r c' r', turn c r = Some (c', r') → stack_alive c' = stack_alive c) →
  (∀ base resp w c' r', relay_inv base resp w → turn (w_chan w) (w_relay w) = Some (c', r') →
     relay_inv base resp {| w_chan := c'; w_relay := r'; w_in := w_in w; w_out := w_out w |}) →
  client_inv cl → client_inv (relay_step turn id cl).
Proof.
  intros Halive Hturn Hi. unfold relay_step. destruct (cl_conns cl !! id) as [cn|] eqn:Hcn; [|done].
  destruct Hi as [Hwf Hcw Hnd Hnew Hconn]. destruct (Hconn id cn Hcn) as (c & Hc & Hok).
  rewrite (chan_of_lookup _ _ _ Hc).
  destruct (turn c (cn_relay cn)) as [[c' r']|] eqn:Ht; [|by split].
  split; cbn; [by apply set_chan_wf|by eapply chans_wf_set; [|eapply Halive|]|done| |].
  - intros v Hv. destruct (Hnew v Hv) as (Hno & x & Hx & Hu).
    assert (vc_chan v ≠ id) by (intros <-; congruence). rewrite !lookup_insert_ne by done. eauto.
  - intros i x. rewrite lookup_insert_Some. intros [[<- <-]|[Hn Hx]].
    + exists c'. rewrite lookup_insert_eq. split; [done|]. intros u bnd resp Hu Hg.
      by apply (Hturn _ _ (conn_world c cn)); [apply (Hok u bnd)|].
    + rewrite lookup_insert_ne by done. by apply Hconn.
Qed.

(** A relay opens its tunnel on a channel the stack has already used. *)
Lemma relay_inv_open (u : S) c resp :
  untouched c → feeding resp (view u) → rx_end (view u) = None →
  relay_inv (tx (view u)) resp {| w_chan := c; w_relay := Relay_new u; w_in := concat (to_relay c); w_out := [] |}.
Proof.
  intros (Hr & Hs & Hq) [Hrx Htx] He. split; cbn; rewrite ?Hrx, ?Hq; cbn; try done; [apply prefix_nil|lia].
Qed.

Lemma relay_open_ok dial remote c r c' :
  untouched c → relay_open dial remote c = Ok (Some r, c') →
  c' = c ∧ conn_ok c {| cn_dialled := dial; cn_remote := remote; cn_relay := r;
                        cn_in := concat (to_relay c); cn_out := [] |}.
Proof.
  intros Hu. unfold relay_open, conn_ok, tunnel_request. cbn [cn_dialled cn_remote].
  destruct (relay_target remote) as [addr port]. intros Ho. split.
  - by destruct (SocksClient_connect dial addr port); inversion Ho.
  - intros u bnd resp -> (Hb & He & Hf).
    destruct (client_opens addr port bnd resp u Hb Hf) as (u' & Hc & Hu' & Htx & Hue).
    rewrite Hc in Ho. injection Ho as <- <-. rewrite <- Htx. apply relay_inv_open; [done..|by rewrite Hue].
Qed.

Lemma relay_open_alive dial remote c r c' :
  relay_open dial remote c = Ok (r, c') → stack_alive c' = stack_alive c.
Proof.
  unfold relay_open. destruct (relay_target remote) as [addr port].
  destruct (SocksClient_connect dial addr port); intros Ho; inversion Ho; done.
Qed.

(** A connection leaves the list of those that wait, its channel replaced. *)
Lemma client_inv_opened cl k v c c' (conns : gmap nat (Conn S)) :
  client_inv cl → cl_opening cl !! k = Some v → chans (cl_stack cl) !! vc_chan v = Some c →
  stack_alive c' = stack_alive c → (∀ id, id ≠ vc_chan v → conns !! id = cl_conns cl !! id) →
  (∀ cn, conns !! vc_chan v = Some cn → conn_ok c' cn) →
  client_inv {| cl_stack := set_chan (vc_chan v) c' (cl_stack cl);
                cl_opening := delete k (cl_opening cl); cl_conns := conns |}.
Proof.
  intros [Hwf Hcw Hnd Hnew Hconn] Hv Hc Hal Hother Hok.
  assert (waiting_conns cl ≡ₚ v :: delete k (cl_opening cl) ++ pending (cl_stack cl)) as Hp.
  { unfold waiting_conns. by rewrite (delete_Permutation _ _ _ Hv) at 1. }
  rewrite Hp in Hnd. apply NoDup_cons in Hnd as [Hni Hnd].
  split; unfold waiting_conns; cbn; [by apply set_chan_wf|by eapply chans_wf_set|done| |].
  - intros v' Hv'. assert (vc_chan v' ≠ vc_chan v) as Hne.
    { intros Heq. apply Hni. rewrite <- Heq. by apply list_elem_of_fmap_2. }
    rewrite Hother, lookup_insert_ne by done. apply Hnew. rewrite Hp. by right.
  - intros id cn Hcn. destruct (decide (id = vc_chan v)) as [->|Hne].
    + exists c'. rewrite lookup_insert_eq. split; [done|by apply Hok].
    + rewrite Hother in Hcn by done. rewrite lookup_insert_ne by done. by apply Hconn.
Qed.

Lemma open_step_inv k dial cl : client_inv cl → client_inv (open_step k dial cl).
Proof.
  intros Hi. unfold open_step. destruct (cl_opening cl !! k) as [v|] eqn:Hv; [|done].
  destruct (ci_new _ Hi v) as (Hno & c & Hc & Hu).
  { apply elem_of_app. left. by eapply list_elem_of_lookup_2. }
  rewrite (chan_of_lookup _ _ _ Hc). destruct (relay_open dial (vc_remote v) c) as [[[r|] c']| | |] eqn:Ho.
  - pose proof (relay_open_alive _ _ _ _ _ Ho) as Hal. apply relay_open_ok in Ho as [-> Hok]; [|done].
    eapply client_inv_opened; [done..| |].
    + intros id Hid. by rewrite lookup_insert_ne.
    + intros cn. rewrite lookup_insert_eq. by intros [= <-].
  - eapply client_inv_opened; [done..|by eapply relay_open_alive|done|]. intros cn. by rewrite Hno.
  - eapply client_inv_opened; [done..|]. intros cn. by rewrite Hno.
  - eapply client_inv_opened; [done..|]. intros cn. by rewrite Hno.
  - done.
Qed.

Lemma conn_ok_served (s s' : Inner Iface SockSet) id c c' cn :
  chans s !! id = Some c → chans s' !! id = Some c' → served c c' →
  conn_ok c cn → conn_ok c' (log_conn s s' id cn).
Proof.
  intros Hc Hc' Hs Hok u bnd resp Hu Hg. unfold log_conn in *. cbn [cn_dialled cn_remote] in *.
  rewrite (chan_of_lookup _ _ _ Hc), (chan_of_lookup _ _ _ Hc').
  eapply relay_run_inv; [by eapply (Hok u bnd resp)|].
  eapply rtc_subrel; [|exact (service_turns c c' (cn_relay cn) (cn_in cn) (cn_out cn) Hs)].
  intros w w' Ht. by right.
Qed.

Lemma poll_step_inv cl (s1 s' : Inner Iface SockSet) new :
  stack_wf s' → chans_wf s' → opens new (cl_stack cl) s1 → serves s1 s' → client_inv cl →
  client_inv {| cl_stack := s'; cl_opening := cl_opening cl;
    cl_conns := map_imap (λ id cn, Some (log_conn (cl_stack cl) s' id cn)) (cl_conns cl) |}.
Proof.
  intros Hwf' Hcw' [Hp Hn Hold Hndn Hnw] (Hp' & Hn' & Hserve) [Hwf Hcw Hnd Hnew Hconn].
  assert (∀ id c, chans (cl_stack cl) !! id = Some c →
    (id < next_chan (cl_stack cl))%nat ∧ ∃ c', chans s' !! id = Some c' ∧ served c c') as Hkeep.
  { intros id c Hc. assert (id < next_chan (cl_stack cl))%nat by (apply (cw_fresh _ Hcw); by eexists).
    split; [done|]. apply Hserve. by rewrite Hold. }
  assert (waiting_conns {| cl_stack := s'; cl_opening := cl_opening cl;
    cl_conns := map_imap (λ id cn, Some (log_conn (cl_stack cl) s' id cn)) (cl_conns cl) |} =
    waiting_conns cl ++ new) as Hw.
  { unfold waiting_conns. cbn. by rewrite Hp', Hp, app_assoc. }
  split; rewrite ?Hw; cbn; [done|done|..].
  - rewrite fmap_app. apply NoDup_app. split_and!; [done| |done].
    intros id (v1 & -> & Hv1)%list_elem_of_fmap (v2 & Heq & Hv2)%list_elem_of_fmap.
    destruct (Hnew v1 Hv1) as (_ & c & Hc & _). apply Hkeep in Hc as [? _]. apply Hnw in Hv2 as [? _]. lia.
  - intros v Hv. rewrite map_lookup_imap. apply elem_of_app in Hv as [Hv|Hv].
    + destruct (Hnew v Hv) as (-> & c & Hc & Hu). split; [done|].
      apply Hkeep in Hc as (_ & c' & Hc' & Hs). exists c'. split; [done|by eapply untouched_served].
    + destruct (Hnw v Hv) as [Hid Hc]. split.
      * destruct (cl_conns cl !! vc_chan v) as [cn|] eqn:Hcn; [|done].
        destruct (Hconn _ _ Hcn) as (c & Hc' & _). apply Hkeep in Hc' as [? _]. lia.
      * apply Hserve in Hc as (c' & Hc' & Hs). exists c'. split; [done|by eapply untouched_served].
  - intros id cn. rewrite map_lookup_imap. destruct (cl_conns cl !! id) as [cn0|] eqn:Hcn; [|done].
    intros [= <-]. destruct (Hconn id cn0 Hcn) as (c & Hc & Hok).
    destruct (Hkeep id c Hc) as (_ & c' & Hc' & Hs). exists c'. split; [done|by eapply conn_ok_served].
Qed.

Lemma app_to_up_alive c (r : Relay S) c' r' : app_to_up c r = Some (c', r') → stack_alive c' = stack_alive c.
Proof.
  unfold app_to_up. destruct (app_done r); [done|]. destruct (to_relay c) as [|data q].
  - destruct (stack_alive c) eqn:Ha; [done|]. by intros [= <- <-].
  - destruct (write_all data (up r)) as [[] s]; by intros [= <- <-].
Qed.
Lemma up_to_app_alive c (r : Relay S) c' r' : up_to_app c r = Some (c', r') → stack_alive c' = stack_alive c.
Proof.
  unfold up_to_app. destruct (down r); [| |done].
  - destruct (io_read RELAY_BUF (up r)) as [[[]| | |] s]; by intros [= <- <-].
  - destruct (stack_alive c) eqn:Ha; [destruct (_ <? _)%nat; [|done]|]; by intros [= <- <-].
Qed.

Lemma client_step_inv o cl :
  client_op_ok o → client_inv cl → ∃ cl', client_step (E := E) hash_order o cl = Ok cl' ∧ client_inv cl'.
Proof.
  intros Ho Hi. destruct o as [pkt|ts| | |k dial|id|id]; cbn [client_step].
  - eexists. split; [done|]. apply client_inv_stack; try done.
    destruct (ci_stack _ Hi) as [Hn Hf Ha Ht Hr]. split; simpl; try done. apply Forall_app. by split; [|constructor].
  - destruct (poll_chans (E := E) hash_order Hperm ts (cl_stack cl)) as (b & s1 & s' & new & -> & ? & ? & ? & ?);
      [apply Hi..|]. cbn [obind]. eexists. split; [done|]. by eapply poll_step_inv.
  - eexists. split; [done|]. pose proof (ci_stack _ Hi) as Hwf.
    unfold drain_outbound. destruct (tun_tx (cl_stack cl)); [by destruct cl|].
    apply client_inv_stack; try done. by destruct Hwf; split.
  - unfold accept. destruct (pending (cl_stack cl)) as [|v q] eqn:Hp; [by eexists|]. eexists. split; [done|].
    destruct Hi as [Hwf Hcw Hnd Hnew Hconn]. unfold waiting_conns in *. rewrite Hp in *.
    split; unfold waiting_conns; cbn; rewrite <- ?app_assoc; cbn; try done.
    + by destruct Hwf; split.
    + by eapply chans_wf_ext; [..|exact Hcw].
  - eexists. split; [done|]. by apply open_step_inv.
  - eexists. split; [done|]. apply relay_step_inv; [apply app_to_up_alive|by intros; eapply turn_app_inv|done].
  - eexists. split; [done|]. apply relay_step_inv; [apply up_to_app_alive|by intros; eapply turn_down_inv|done].
Qed.

Lemma client_run_inv ops cl :
  Forall client_op_ok ops → client_inv cl →
  ∃ cl', client_run (E := E) hash_order ops cl = Ok cl' ∧ client_inv cl'.
Proof.
  intros Ho. revert cl. induction Ho as [|o ops Hok _ IH]; intros cl Hi; [by eexists|].
  cbn [client_run]. destruct (client_step_inv o cl Hok Hi) as (cl1 & -> & Hi1). cbn [obind]. by apply IH.
Qed.

End faithful.

Import MiniTcp.
(** A connection is opened through a SYN, a poll, an accept and a granted
    tunnel, and the relay reads the answer and queues it for the stack. *)
Definition demo_dial : Stream :=
  from_peer ([5; 0] ++ wire_reply RepSucceeded (SockV4 [10; 0; 0; 1] 4000) ++ [7; 8; 9]).
Definition demo_ops : list (ClientOp Stream) :=
  [ClFeed syn_packet; ClPoll 0; ClAccept; ClOpen 0 (Ok demo_dial); ClDown 0; ClDown 0; ClPoll 1].

