(* ===== verification/Service.v ===== *)
(** * service_socket, one operation at a time

    The stack's mutex does not protect the channels: while [service_socket]
    runs, the relay of the same connection can use its ends.  Here the function
    is a machine whose steps each touch the channel at most once, interleaved
    with the turns of the relay. *)

From Stdlib Require Import ZArith Lia.
From stdpp Require Import gmap relations.
From S2P Require Import Prelude Bytes Net Io Rewrite NatTable Socks SocksClient SocksServer Stack Tun Engine Client Flow.
From stdpp Require Import list.
Local Open Scope Z_scope.

(** Before the read, in the [while] loop, before the test of [is_closed], and
    at the end. *)
Inductive Phase := AtRecv | AtSend | AtClose | Served.

Section machine.
Context {Iface SockSet Sock : Type} `{Smoltcp Iface SockSet Sock}.

Definition recv_step (sk : Sock) (c : Chan) : Sock * Chan :=
  if can_recv sk then
    match tcp_recv sk with
    | Some (data, sk) => (sk, match data with [] => c | _ => try_send c data end)
    | None => (sk, c)
    end
  else (sk, c).

Definition close_step (sk : Sock) (c : Chan) : Sock :=
  if can_send sk && negb (relay_sending c) then tcp_close sk else sk.

Definition micro (sk : Sock) (c : Chan) (ph : Phase) : option (Sock * Chan * Phase) :=
  match ph with
  | AtRecv => Some (recv_step sk c, AtSend)
  | AtSend =>
      if can_send sk then
        match to_stack c with
        | data :: q => Some ((send_slice data sk).2, set_to_stack q c, AtSend)
        | [] => Some (sk, c, AtClose)
        end
      else Some (sk, c, AtClose)
  | AtClose => Some (close_step sk c, c, Served)
  | Served => None
  end.

(** Without interference. *)
Definition alone (x y : Sock * Chan * Phase) : Prop := micro x.1.1 x.1.2 x.2 = Some y.

Lemma send_alone (q : list (list Z)) sk c :
  to_stack c = q →
  rtc alone (sk, c, AtSend)
    ((send_loop q sk).2, set_to_stack (send_loop q sk).1 c, AtClose).
Proof.
  revert sk c. induction q as [|d q IH]; intros sk c Hq; cbn [send_loop].
  - apply rtc_once. unfold alone. cbn. rewrite Hq.
    replace (set_to_stack [] c) with c by (destruct c; cbn in *; by rewrite Hq). by destruct (can_send sk).
  - destruct (can_send sk) eqn:Hs.
    + eapply rtc_l; [unfold alone; cbn; by rewrite Hs, Hq|].
      exact (IH (send_slice d sk).2 (set_to_stack q c) eq_refl).
    + apply rtc_once. unfold alone. cbn. rewrite Hs, <- Hq. by destruct c.
Qed.

(** The machine alone does what [exchange] does in one step. *)
Lemma exchange_alone sk c : rtc alone (sk, c, AtRecv) (exchange sk c, Served).
Proof.
  apply (rtc_l _ _ (recv_step sk c, AtSend)); [done|]. unfold exchange. fold (recv_step sk c).
  destruct (recv_step sk c) as [sk1 c1].
  pose proof (send_alone (to_stack c1) sk1 c1 eq_refl) as Hs.
  destruct (send_loop (to_stack c1) sk1) as [q sk2].
  eapply rtc_r; [exact Hs|]. done.
Qed.

End machine.

(** ** Interleaved with the relay *)
Record Service (Sock S : Type) := { sv_sock : Sock; sv_phase : Phase; sv_world : World S }.
Arguments sv_sock {Sock S} s.
Arguments sv_phase {Sock S} s.
Arguments sv_world {Sock S} s.

Section interleaved.
Context {Iface SockSet Sock : Type} `{Smoltcp Iface SockSet Sock} {S : Type} `{AsyncIo S}.

Definition moved (c : Chan) (w : World S) : World S :=
  {| w_chan := c; w_relay := w_relay w; w_in := w_in w ++ appended (w_chan w) c;
     w_out := w_out w ++ taken (w_chan w) c |}.

Inductive service_step : Service Sock S → Service Sock S → Prop :=
| step_stack x sk c ph :
    micro (sv_sock x) (w_chan (sv_world x)) (sv_phase x) = Some (sk, c, ph) →
    service_step x {| sv_sock := sk; sv_phase := ph; sv_world := moved c (sv_world x) |}
| step_relay x w :
    relay_turn (sv_world x) w →
    service_step x {| sv_sock := sv_sock x; sv_phase := sv_phase x; sv_world := w |}.

(** Each step of the machine does at most one thing to the channel. *)
Lemma micro_turns sk c ph sk' c' ph' (w : World S) :
  stack_alive c = true → w_chan w = c → micro sk c ph = Some (sk', c', ph') →
  rtc stack_turn w (moved c' w) ∧ stack_alive c' = true.
Proof.
  intros Ha Hw. assert (rtc stack_turn w (moved c w)) as Hsame.
  { destruct w as [c0 r i o]. cbn in Hw. subst c0. unfold moved. cbn.
    exact (service_turns c c r i o (served_not c)). }
  destruct ph; cbn [micro].
  - unfold recv_step. destruct (can_recv sk); [destruct (tcp_recv sk) as [[[|b data] sk1]|]|];
      intros [= <- <- <-]; try done.
    destruct (try_send_frame c (b :: data)) as (Hq & Hal & _). rewrite Hal. split; [|done].
    destruct w as [c0 r i o]. cbn in Hw. subst c0. unfold moved, taken. cbn.
    rewrite Hq, Hal, Ha, Nat.sub_diag, take_0, app_nil_r. by apply push_turns.
  - destruct (can_send sk); [|by intros [= <- <- <-]].
    destruct (to_stack c) as [|d q] eqn:Hq; intros [= <- <- <-]; [done|]. split; [|done].
    destruct w as [c0 r i o]. cbn in Hw. subst c0. unfold moved. cbn. rewrite appended_same, app_nil_r.
    unfold taken. cbn. rewrite Ha, Hq. cbn [length].
    replace (Datatypes.S (length q) - length q)%nat with 1%nat by lia. cbn.
    exact (pops_turns [d] q c r i o Ha Hq).
  - by intros [= <- <- <-].
  - done.
Qed.
End interleaved.

Section faithful_service.
Context {Iface SockSet Sock : Type} `{Smoltcp Iface SockSet Sock} {S : Type} `{AsyncIoLaws S}.

Lemma relay_turn_alive (w w' : World S) : relay_turn w w' → stack_alive (w_chan w') = stack_alive (w_chan w).
Proof. intros [w1 c r Ht|w1 c r Ht]; cbn; [by eapply app_to_up_alive|by eapply up_to_app_alive]. Qed.

Lemma service_step_inv base resp (x y : Service Sock S) :
  service_step x y → relay_inv base resp (sv_world x) → stack_alive (w_chan (sv_world x)) = true →
  relay_inv base resp (sv_world y) ∧ stack_alive (w_chan (sv_world y)) = true.
Proof.
  intros [x1 sk c ph Hm|x1 w Ht] Hi Ha; cbn.
  - destruct (micro_turns _ _ _ _ _ _ (sv_world x1) Ha eq_refl Hm) as [Hturns Ha']. split; [|done].
    eapply relay_run_inv; [exact Hi|]. eapply rtc_subrel; [|exact Hturns]. intros w w' Ht. by right.
  - rewrite (relay_turn_alive _ _ Ht). split; [|done].
    eapply relay_run_inv; [exact Hi|]. apply rtc_once. by left.
Qed.

Lemma service_run_alive (x y : Service Sock S) :
  rtc service_step x y → stack_alive (w_chan (sv_world x)) = true → stack_alive (w_chan (sv_world y)) = true.
Proof.
  induction 1 as [|x1 x2 x3 [x sk c ph Hm|x w Ht] _ IH]; intros Ha; [done|apply IH; cbn..].
  - by apply (micro_turns _ _ _ _ _ _ (sv_world x) Ha eq_refl Hm).
  - by rewrite (relay_turn_alive _ _ Ht).
Qed.

Lemma service_run_inv base resp (x y : Service Sock S) :
  rtc service_step x y → relay_inv base resp (sv_world x) → stack_alive (w_chan (sv_world x)) = true →
  relay_inv base resp (sv_world y).
Proof.
  induction 1 as [|x1 x2 x3 Hs _ IH]; intros Hi Ha; [done|].
  destruct (service_step_inv base resp _ _ Hs Hi Ha). by apply IH.
Qed.
End faithful_service.

Import MiniTcp.
(** A socket that can send, and a relay whose proxy sends one byte and
    closes. *)
Definition open_socket : MiniTcp.Sock :=
  {| MiniTcp.st := Established; MiniTcp.inbuf := []; MiniTcp.outbuf := []; MiniTcp.room := 100 |}.
Definition race_start : Service MiniTcp.Sock Stream :=
  {| sv_sock := open_socket; sv_phase := AtRecv; sv_world := World_new (Relay_new (from_peer [9])) |}.

(** The relay queues its last chunk and drops its sender between the loop and
    the test of [is_closed]. *)
Lemma close_race :
  ∃ x, rtc (service_step (Iface := unit) (SockSet := MiniTcp.SockSet)) race_start x ∧ sv_phase x = Served ∧
    MiniTcp.st (sv_sock x) = FinWait1 ∧ MiniTcp.outbuf (sv_sock x) = [] ∧
    to_stack (w_chan (sv_world x)) = [[9]] ∧ relay_sending (w_chan (sv_world x)) = false.
Proof.
  eexists. split.
  - eapply rtc_l; [apply step_stack; reflexivity|].
    eapply rtc_l; [apply step_stack; reflexivity|].
    eapply rtc_l; [apply step_relay, turn_down; vm_compute; reflexivity|].
    eapply rtc_l; [apply step_relay, turn_down; vm_compute; reflexivity|].
    eapply rtc_l; [apply step_relay, turn_down; vm_compute; reflexivity|].
    eapply rtc_l; [apply step_stack; vm_compute; reflexivity|].
    apply rtc_refl.
  - by vm_compute.
Qed.

(** C31. Servicing a socket while its relay runs. Alone, the operations of
    [service_socket] end in exactly the result of [exchange], and a socket that
    is closed then has been given every queued chunk. Interleaved in any way
    with the relay, no data is lost, duplicated or reordered in the channel.
    But the test of [is_closed] comes after the loop: there is an interleaving
    in which the relay queues its last chunk and drops its sender in between,
    and the socket is closed with that chunk still queued and never sent. *)
Theorem service_interleavings {Iface SockSet Sock : Type} `{Smoltcp Iface SockSet Sock}
    {S : Type} `{AsyncIoLaws S} (sk : Sock) (u : S) (resp : list Z) (w : World S) (x : Service Sock S)
    (Hu : feeding resp (view u)) (Hend : rx_end (view u) = None)
    (Hw : rtc world_step (World_new (Relay_new u)) w) (Ha : stack_alive (w_chan w) = true)
    (Hx : rtc service_step {| sv_sock := sk; sv_phase := AtRecv; sv_world := w |} x) :
  rtc alone (sk, w_chan w, AtRecv) (exchange sk (w_chan w), Served) ∧
  (let '(sk1, c1) := recv_step sk (w_chan w) in
   (exchange sk (w_chan w)).1 ≠ (send_loop (to_stack c1) sk1).2 → to_stack (exchange sk (w_chan w)).2 = []) ∧
  relay_faithful (tx (view u)) resp (sv_world x) ∧
  ∃ y, rtc (service_step (Iface := unit) (SockSet := MiniTcp.SockSet)) race_start y ∧ sv_phase y = Served ∧
    MiniTcp.st (sv_sock y) = FinWait1 ∧ MiniTcp.outbuf (sv_sock y) = [] ∧
    to_stack (w_chan (sv_world y)) = [[9]].
Proof.
  split; [apply exchange_alone|]. split; [|split].
  - unfold exchange. fold (recv_step sk (w_chan w)). destruct (recv_step sk (w_chan w)) as [sk1 c1].
    pose proof (send_loop_spec (to_stack c1) sk1) as Hl. destruct (send_loop (to_stack c1) sk1) as [q sk2].
    destruct Hl as (_ & _ & _ & [->|Hf]); cbn; [done|]. by rewrite Hf.
  - apply relay_inv_faithful. eapply service_run_inv; [exact Hx| |done].
    eapply relay_run_inv; [by apply relay_inv_new|done].
  - destruct close_race as (y & ? & ? & ? & ? & ? & _). by exists y.
Qed.

Lemma service_interleavings_witness :
  ∃ x : Service MiniTcp.Sock Stream, sv_phase x = Served ∧ to_stack (w_chan (sv_world x)) = [[9]] ∧
    relay_faithful [] [9] (sv_world x) ∧
    w_out (sv_world x) ++ [9] ++ held (w_relay (sv_world x)) ++ rx (up (w_relay (sv_world x))) = [9].
Proof.
  destruct close_race as (x & Hx & Hp & _ & _ & Hq & _). exists x. split; [exact Hp|]. split; [exact Hq|].
  destruct (service_interleavings (Iface := unit) (SockSet := MiniTcp.SockSet)
    open_socket (from_peer [9]) [9] (World_new (Relay_new (from_peer [9]))) x) as (_ & _ & Hf & _).
  - split; reflexivity.
  - reflexivity.
  - apply rtc_refl.
  - reflexivity.
  - exact Hx.
  - split; [exact Hf|]. assert (stack_alive (w_chan (sv_world x)) = true) as Ha.
    { eapply (service_run_alive race_start x Hx). reflexivity. }
    pose proof (rf_down _ _ _ Hf Ha) as Hd. rewrite Hq in Hd. exact Hd.
Defined.
