(* ===== verification/Delivery.v ===== *)
(** * Liveness of a relay: what is sent arrives

    Client.v shows that a relay loses nothing under any interleaving.  Here
    the interleaving is an infinite schedule, and when it is fair to the two
    loops of the relay and to the stack, the whole answer reaches the stack and
    every byte of the application reaches the proxy, however the application
    keeps sending meanwhile. *)

From Stdlib Require Import ZArith Lia.
From stdpp Require Import gmap relations.
From S2P Require Import Prelude Bytes Net Io Rewrite NatTable Socks SocksClient SocksServer Stack Tun Engine Client.
From stdpp Require Import list.

(** ** Runs that keep lowering a measure *)
Section progress.
Context {W : Type} (run : nat → W) (M : W → nat).
Hypothesis never_up : ∀ n, M (run (S n)) ≤ M (run n).

Lemma measure_mono n m : n ≤ m → M (run m) ≤ M (run n).
Proof. induction 1 as [|m _ IH]; [done|]. specialize (never_up m). lia. Qed.

Lemma measure_vanishes :
  (∀ n, 0 < M (run n) → ∃ m, n ≤ m ∧ M (run m) < M (run n)) → ∃ m, ∀ k, m ≤ k → M (run k) = 0.
Proof.
  intros Hprog. assert (∃ m, M (run m) = 0) as [m Hm].
  { remember (M (run 0)) as b eqn:Hb. revert Hb. generalize 0 at 1. induction b as [b IH] using lt_wf_ind.
    intros n ->. destruct (decide (M (run n) = 0)); [by exists n|].
    destruct (Hprog n) as (m & _ & Hlt); [lia|]. by apply (IH (M (run m)) Hlt m). }
  exists m. intros k Hk. pose proof (measure_mono m k Hk). lia.
Qed.
End progress.

(** ** Schedules *)
Inductive Turn := TApp | TDown | TTake | TPush (chunk : list Z).

Section schedules.
Context {S : Type} `{AsyncIo S}.

(** A turn that cannot be made leaves the world as it is. *)
Definition relay_world (o : option (Chan * Relay S)) (w : World S) : World S :=
  match o with
  | Some (c, r) => {| w_chan := c; w_relay := r; w_in := w_in w; w_out := w_out w |}
  | None => w
  end.
Definition make_turn (t : Turn) (w : World S) : World S :=
  match t with
  | TApp => relay_world (app_to_up (w_chan w) (w_relay w)) w
  | TDown => relay_world (up_to_app (w_chan w) (w_relay w)) w
  | TTake =>
      match to_stack (w_chan w) with
      | data :: q => {| w_chan := set_to_stack q (w_chan w); w_relay := w_relay w;
                        w_in := w_in w; w_out := w_out w ++ data |}
      | [] => w
      end
  | TPush chunk =>
      {| w_chan := try_send (w_chan w) chunk; w_relay := w_relay w;
         w_in := if accepts (w_chan w) then w_in w ++ chunk else w_in w; w_out := w_out w |}
  end.

Fixpoint run_schedule (σ : nat → Turn) (w : World S) (n : nat) : World S :=
  match n with
  | O => w
  | Datatypes.S n => make_turn (σ n) (run_schedule σ w n)
  end.

(** The loops and the stack get a turn again and again. *)
Definition fair (σ : nat → Turn) : Prop :=
  ∀ t, t ∈ [TApp; TDown; TTake] → ∀ n, ∃ m, n ≤ m ∧ σ m = t.
End schedules.

Section delivery.
Context {S : Type} `{AsyncIoLaws S}.
Implicit Types (w : World S) (t : Turn).

Lemma make_turn_steps t w : stack_alive (w_chan w) = true → rtc world_step w (make_turn t w).
Proof.
  intros Ha. destruct t; cbn [make_turn].
  - destruct (app_to_up _ _) as [[c r]|] eqn:Ht; [|done]. apply rtc_once. left. by apply turn_app.
  - destruct (up_to_app _ _) as [[c r]|] eqn:Ht; [|done]. apply rtc_once. left. by apply turn_down.
  - destruct (to_stack (w_chan w)) as [|d q] eqn:Hq; [done|]. apply rtc_once. right. by apply turn_pop.
  - apply rtc_once. right. by apply turn_push.
Qed.

(** The invariant of Client.v, and the stack side stays open. *)
Definition live (base resp : list Z) w : Prop := relay_inv base resp w ∧ stack_alive (w_chan w) = true.

Lemma make_turn_live base resp t w : live base resp w → live base resp (make_turn t w).
Proof.
  intros [Hi Ha]. split; [by eapply relay_run_inv, make_turn_steps|].
  destruct t; cbn [make_turn].
  - unfold app_to_up. destruct (app_done _); [done|]. destruct (to_relay _) as [|d q].
    + rewrite Ha. done.
    + by destruct (write_all d (up (w_relay w))) as [[] ?].
  - unfold up_to_app. destruct (down (w_relay w)); [| |done].
    + by destruct (io_read RELAY_BUF (up (w_relay w))) as [[[]| | |] ?].
    + rewrite Ha. by destruct (_ <? _)%nat.
  - by destruct (to_stack (w_chan w)).
  - unfold try_send. by destruct (_ && _).
Qed.

Lemma run_live base resp σ w n : live base resp w → live base resp (run_schedule σ w n).
Proof. intros Hw. induction n as [|n IH]; [done|]. by apply make_turn_live. Qed.

(** ** From the proxy to the stack

    What is still to be done for the answer: bytes to read, the chunk that is
    held, chunks to take. *)
Definition owed w : nat :=
  4 * length (rx (view (up (w_relay w)))) +
  match down (w_relay w) with Reading => 1 | Sending _ => 3 | DownDone => 0 end +
  length (to_stack (w_chan w)).

Definition same_down w w' : Prop :=
  rx (view (up (w_relay w'))) = rx (view (up (w_relay w))) ∧
  down (w_relay w') = down (w_relay w) ∧ to_stack (w_chan w') = to_stack (w_chan w).

Lemma same_down_owed w w' : same_down w w' → owed w' = owed w.
Proof. unfold owed. by intros (-> & -> & ->). Qed.

Lemma app_turn_same base resp w : live base resp w → same_down w (make_turn TApp w).
Proof.
  intros [Hi Ha]. cbn [make_turn]. unfold app_to_up. destruct (app_done _); [done|].
  destruct (to_relay (w_chan w)) as [|d q]; [by rewrite Ha|].
  destruct (write_all_open d (up (w_relay w)) (ri_room _ _ _ Hi)) as (s' & -> & Hv).
  unfold same_down. cbn. by rewrite Hv.
Qed.

Lemma down_turn base resp w :
  live base resp w → same_down w (make_turn TDown w) ∨ owed (make_turn TDown w) < owed w.
Proof.
  intros [Hi Ha]. cbn [make_turn]. unfold up_to_app, owed.
  destruct (down (w_relay w)) as [|chunk|] eqn:Hd; [| |by left].
  - right. destruct (io_read_view RELAY_BUF (up (w_relay w))) as (data & s' & -> & Hrx & _);
      [unfold RELAY_BUF; lia|apply Hi|].
    apply (f_equal length) in Hrx. rewrite length_app in Hrx.
    destruct data as [|b data]; cbn in *; lia.
  - rewrite Ha. destruct (_ <? _)%nat; [right|by left]. cbn. rewrite length_app. cbn. lia.
Qed.

Lemma take_turn w : same_down w (make_turn TTake w) ∨ owed (make_turn TTake w) < owed w.
Proof.
  cbn [make_turn]. destruct (to_stack (w_chan w)) as [|d q] eqn:Hq; [by left|right].
  unfold owed. cbn. rewrite Hq. cbn. lia.
Qed.

Lemma turn_owed base resp t w :
  live base resp w → same_down w (make_turn t w) ∨ owed (make_turn t w) < owed w.
Proof.
  intros Hw. destruct t as [| | |chunk]; [left; by eapply app_turn_same|by eapply down_turn|apply take_turn|].
  left. cbn. unfold same_down, try_send. by destruct (_ && _).
Qed.

(** While something is owed, one of the two turns is useful. *)
Definition useful w : Turn := match to_stack (w_chan w) with [] => TDown | _ => TTake end.

Lemma useful_turn base resp w : live base resp w → 0 < owed w → owed (make_turn (useful w) w) < owed w.
Proof.
  intros Hw Ho. unfold useful. destruct (to_stack (w_chan w)) as [|d q] eqn:Hq.
  - destruct (down_turn base resp w Hw) as [Hs|]; [|done]. exfalso.
    destruct Hw as [Hi Ha]. pose proof (ri_done _ _ _ Hi) as Hdone. revert Hs. cbn [make_turn].
    unfold same_down, up_to_app, owed in *. rewrite Hq in *.
    destruct (down (w_relay w)) as [|chunk|] eqn:Hd.
    + destruct (io_read RELAY_BUF (up (w_relay w))) as [[[]| | |] ?]; by intros (_ & ? & _).
    + rewrite Ha. cbn. by intros (_ & ? & _).
    + destruct Hdone as [_ Hrx]. rewrite (Hrx Ha) in Ho. cbn in Ho. lia.
  - destruct (take_turn w) as [Hs|]; [|done]. exfalso. revert Hs. cbn [make_turn]. rewrite Hq.
    unfold same_down. cbn. rewrite Hq. intros (_ & _ & Hl). apply (f_equal length) in Hl. cbn in Hl. lia.
Qed.

Lemma useful_same w w' : same_down w w' → useful w' = useful w.
Proof. unfold useful. by intros (_ & _ & ->). Qed.

Lemma owed_or_same base resp σ w n m :
  live base resp w → n ≤ m →
  same_down (run_schedule σ w n) (run_schedule σ w m) ∨ owed (run_schedule σ w m) < owed (run_schedule σ w n).
Proof.
  intros Hw. induction 1 as [|m _ IH]; [by left|]. cbn [run_schedule].
  destruct (turn_owed base resp (σ m) (run_schedule σ w m)) as [Hs|Hlt]; [by apply run_live| |].
  - destruct IH as [(H1 & H2 & H3)|IH]; [left|right; by rewrite (same_down_owed _ _ Hs)].
    destruct Hs as (E1 & E2 & E3). split_and!; congruence.
  - right. destruct IH as [Hsame|]; [rewrite <- (same_down_owed _ _ Hsame)|]; lia.
Qed.

Lemma owed_vanishes base resp σ w :
  live base resp w → fair σ → ∃ m, ∀ k, m ≤ k → owed (run_schedule σ w k) = 0.
Proof.
  intros Hw Hfair. apply measure_vanishes.
  - intros n. cbn [run_schedule]. destruct (turn_owed base resp (σ n) (run_schedule σ w n)) as [Hs|]; [by apply run_live| |lia].
    by rewrite (same_down_owed _ _ Hs).
  - intros n Ho. destruct (Hfair (useful (run_schedule σ w n))) with (n := n) as (m & Hm & Ht).
    { unfold useful. destruct (to_stack _); set_solver. }
    exists (Datatypes.S m). split; [lia|]. cbn [run_schedule]. rewrite Ht.
    destruct (owed_or_same base resp σ w n m Hw Hm) as [Hs|Hlt].
    + rewrite <- (useful_same _ _ Hs), <- (same_down_owed _ _ Hs).
      apply (useful_turn base resp); [by apply run_live|]. by rewrite (same_down_owed _ _ Hs).
    + destruct (turn_owed base resp (useful (run_schedule σ w n)) (run_schedule σ w m)) as [Hs|];
        [by apply run_live| |lia]. by rewrite (same_down_owed _ _ Hs).
Qed.

(** ** From the application to the proxy *)
Definition sent w : list Z := tx (view (up (w_relay w))).

Lemma app_turn_writes base resp w d q :
  live base resp w → to_relay (w_chan w) = d :: q →
  to_relay (w_chan (make_turn TApp w)) = q ∧ sent (make_turn TApp w) = sent w ++ d.
Proof.
  intros [Hi Ha] Hq. pose proof (ri_app _ _ _ Hi) as Happ. cbn [make_turn]. unfold app_to_up, sent.
  destruct (app_done _); [destruct Happ; congruence|]. rewrite Hq.
  destruct (write_all_open d (up (w_relay w)) (ri_room _ _ _ Hi)) as (s' & -> & Hv). cbn. by rewrite Hv.
Qed.

(** The other turns only append to the queue. *)
Lemma other_turn_queue base resp t w :
  live base resp w → t ≠ TApp →
  ∃ more, to_relay (w_chan (make_turn t w)) = to_relay (w_chan w) ++ more ∧ sent (make_turn t w) = sent w.
Proof.
  intros [Hi Ha] Ht. destruct t as [| | |chunk]; [done|..]; cbn [make_turn]; unfold sent.
  - exists []. rewrite app_nil_r. unfold up_to_app. destruct (down (w_relay w)); [| |done].
    + destruct (io_read_view RELAY_BUF (up (w_relay w))) as (data & s' & -> & _ & _ & _ & Htx & _);
        [unfold RELAY_BUF; lia|apply Hi|]. by destruct data; cbn; rewrite Htx.
    + rewrite Ha. by destruct (_ <? _)%nat.
  - exists []. rewrite app_nil_r. by destruct (to_stack (w_chan w)).
  - unfold try_send. destruct (_ && _); cbn; [by eexists|exists []; by rewrite app_nil_r].
Qed.

(** The first chunk of the queue stays there until it is written. *)
Lemma first_chunk base resp σ w n d q k :
  live base resp w → n ≤ k → to_relay (w_chan (run_schedule σ w n)) = d :: q →
  (∃ more, to_relay (w_chan (run_schedule σ w k)) = (d :: q) ++ more ∧
     sent (run_schedule σ w k) = sent (run_schedule σ w n)) ∨
  (∃ m more, n ≤ m ∧ to_relay (w_chan (run_schedule σ w m)) = q ++ more ∧
     sent (run_schedule σ w m) = sent (run_schedule σ w n) ++ d).
Proof.
  intros Hw Hk Hq. induction Hk as [|k Hk IH]; [left; exists []; by rewrite app_nil_r|].
  destruct IH as [(more & Hmore & Hs)|IH]; [|by right]. pose proof (run_live base resp σ w k Hw) as Hl.
  destruct (σ k) eqn:Ht.
  1: { right. exists (Datatypes.S k), more. cbn [run_schedule]. rewrite Ht.
       destruct (app_turn_writes base resp _ d (q ++ more) Hl Hmore) as [-> ->]. rewrite Hs. split; [lia|done]. }
  all: left; destruct (other_turn_queue base resp (σ k) _ Hl) as (more' & Hm' & Hs'); [by rewrite Ht|];
    exists (more ++ more'); cbn [run_schedule]; rewrite Hm', Hs', Hmore, <- !app_assoc; done.
Qed.

Lemma queue_written base resp σ w (Hw : live base resp w) (Hfair : fair σ) pre :
  ∀ n rest, to_relay (w_chan (run_schedule σ w n)) = pre ++ rest →
  ∃ m, n ≤ m ∧ sent (run_schedule σ w m) = sent (run_schedule σ w n) ++ concat pre.
Proof.
  induction pre as [|d pre IH]; intros n rest Hq; [exists n; by rewrite app_nil_r|].
  destruct (Hfair TApp) with (n := n) as (k & Hk & Ht); [set_solver|].
  assert (∃ m more, n ≤ m ∧ to_relay (w_chan (run_schedule σ w m)) = (pre ++ rest) ++ more ∧
    sent (run_schedule σ w m) = sent (run_schedule σ w n) ++ d) as (m & more & Hm & Hqm & Hsm).
  { destruct (first_chunk base resp σ w n d (pre ++ rest) k Hw Hk Hq) as [(more & Hmore & Hs)|]; [|done].
    exists (Datatypes.S k), more. cbn [run_schedule]. rewrite Ht.
    destruct (app_turn_writes base resp _ d ((pre ++ rest) ++ more) (run_live base resp σ w k Hw) Hmore) as [-> ->].
    rewrite Hs. split; [lia|done]. }
  rewrite <- app_assoc in Hqm. destruct (IH m _ Hqm) as (m' & Hm' & Hs'). exists m'. split; [lia|].
  rewrite Hs', Hsm. cbn. by rewrite <- app_assoc.
Qed.

Lemma relay_delivered (u : S) (resp : list Z) (σ : nat → Turn) :
  feeding resp (view u) → rx_end (view u) = None → fair σ →
  let run := run_schedule σ (World_new (Relay_new u)) in
  (∀ n, ∃ m, n ≤ m ∧ sent (run m) = tx (view u) ++ w_in (run n)) ∧
  (∃ m, ∀ k, m ≤ k → w_out (run k) = resp ∧ to_stack (w_chan (run k)) = [] ∧
     down (w_relay (run k)) = DownDone ∧ relay_sending (w_chan (run k)) = false).
Proof.
  intros Hu Hend Hfair. cbv zeta. set (w := World_new (Relay_new u)).
  assert (live (tx (view u)) resp w) as Hw by (split; [by apply relay_inv_new|done]). split.
  - intros n. destruct (queue_written _ _ σ w Hw Hfair (to_relay (w_chan (run_schedule σ w n))) n [])
      as (m & Hm & Hs); [by rewrite app_nil_r|]. exists m. split; [done|].
    rewrite Hs. apply (ri_up _ _ _ (proj1 (run_live _ _ σ w n Hw))).
  - destruct (owed_vanishes _ _ σ w Hw Hfair) as [m Hm]. exists m. intros k Hk. specialize (Hm k Hk).
    destruct (run_live _ _ σ w k Hw) as [Hi Ha]. pose proof (ri_down _ _ _ Hi Ha) as Hd.
    pose proof (ri_done _ _ _ Hi) as Hdone. unfold owed in Hm.
    destruct (rx (view (up (w_relay (run_schedule σ w k))))); [|cbn in Hm; lia].
    destruct (to_stack (w_chan (run_schedule σ w k))); [|cbn in Hm; lia].
    unfold held in Hd. destruct (down (w_relay (run_schedule σ w k))); [cbn in Hm; lia..|].
    rewrite decide_True in Hdone by done. cbn in Hd. rewrite app_nil_r in Hd. by destruct Hdone.
Qed.
End delivery.

(** The round-robin schedule, with a push now and then. *)
Definition round_robin (n : nat) : Turn :=
  match n mod 4 with 0 => TApp | 1 => TDown | 2 => TTake | _ => TPush [Z.of_nat n mod 256]%Z end.

Lemma round_robin_fair : fair round_robin.
Proof.
  assert (∀ n i, i < 3 → round_robin (4 * n + i) = match i with 0 => TApp | 1 => TDown | _ => TTake end) as Hrr.
  { intros n i Hi. unfold round_robin. replace ((4 * n + i) mod 4) with i.
    - by destruct i as [|[|[|]]]; try lia.
    - rewrite Nat.add_comm, Nat.mul_comm, Nat.Div0.mod_add, Nat.mod_small by lia. done. }
  intros t Ht n. repeat (apply elem_of_cons in Ht as [->|Ht]).
  - exists (4 * n + 0). split; [lia|by apply Hrr; lia].
  - exists (4 * n + 1). split; [lia|by apply Hrr; lia].
  - exists (4 * n + 2). split; [lia|by apply Hrr; lia].
  - by apply not_elem_of_nil in Ht.
Qed.

