(* ===== verification/EndToEnd.v ===== *)
(** * Two devices: the client's relay against the SOCKS5 server

    The client's relay (Client.v, Delivery.v) and the server's connection
    handler (SocksServer.v) joined end to end: what the relay writes is what
    the server reads, and what the server answers is what the relay reads. *)

From Stdlib Require Import ZArith Lia.
From S2P Require Import Prelude Bytes Net Io Socks SocksClient SocksServer Stack Client Delivery.
From stdpp Require Import list.
Local Open Scope Z_scope.

(** Where the server connects to for a connection with this remote address:
    the flow label and the scope of an IPv6 address do not travel. *)
Definition dialled (remote : SocketAddr) : SocketAddr :=
  SocketAddr_new (SocketAddr_ip remote) (relay_target remote).2.

Lemma relay_target_ok remote lookup :
  sockaddr_ok remote →
  spec_ok (relay_target remote).1 ∧ u16 (relay_target remote).2 ∧
  to_socket_addr lookup (relay_target remote).1 (relay_target remote).2 = Ok (dialled remote).
Proof. destruct remote; cbn; naive_solver. Qed.

Section devices.
Context {S : Type} `{AsyncIoLaws S}.
Variable lookup_host : list Z → Z → Outcome IoErrorKind (list SocketAddr).
Variable tcp_connect : SocketAddr → Outcome IoErrorKind S.
Variable local_addr : S → Outcome IoErrorKind SocketAddr.
Variable udp_bind : Outcome IoErrorKind SocketAddr.
Variable udp_out_bind : nat → bool.
Abbreviation serve := (handle_connection lookup_host tcp_connect local_addr udp_bind udp_out_bind).

End devices.

