(* ===== verification/Fuzz.v ===== *)
(** * The fuzz targets and the parsing benchmark

    src/engine/fuzz/fuzz_targets and gravital-proto/benches: each is a program
    that must not panic.  The targets run on any input; here they are proved
    on all of them. *)

From Stdlib Require Import ZArith Lia.
From stdpp Require Import gmap.
From S2P Require Import Prelude Bytes Checksum Proto Net Rewrite NatTable Stack Io Socks SocksClient SocksServer Tun Engine Client.
From stdpp Require Import list.
Local Open Scope Z_scope.

(** [let _ = ..]: the result is dropped, a panic is not. *)
Definition ignore {E A F} (m : Outcome E A) : Outcome F unit :=
  match m with
  | Ok _ | Err _ => Ok tt
  | Panic => Panic
  | Diverge => Diverge
  end.

Definition fuzz_proto_parse {F} (data : list Z) : Outcome F unit := ignore (IpView_parse data).

(** The file says it exercises SOCKS5 datagram headers; it parses IP. *)
Definition fuzz_socks_proto {F} (data : list Z) : Outcome F unit := ignore (IpView_parse data).

Section stack_target.
Context {Iface SockSet Sock : Type} `{Smoltcp Iface SockSet Sock} {E : Type} {B : Build}.
Variable hash_order : list nat → list nat.

(** [while stack.drain_outbound().is_some() {}] *)
Fixpoint drain_loop (fuel : nat) (s : Inner Iface SockSet) : Outcome E (Inner Iface SockSet) :=
  match fuel with
  | O => Diverge
  | S fuel =>
      match drain_outbound s with
      | (Some _, s) => drain_loop fuel s
      | (None, s) => Ok s
      end
  end.

(** [now] is the clock at the poll; a queue has its length as fuel. *)
Definition fuzz_stack_inbound (now : Z) (data : list Z) : Outcome E unit :=
  match UserspaceStack_new (Iface := Iface) (SockSet := SockSet) 1280 with
  | Ok stack =>
      let stack := feed_inbound data stack in
      let! (_, stack) := poll hash_order now stack in
      let! stack := drain_loop (S (length (tun_tx stack))) stack in
      let '(_, _) := accept stack in
      Ok tt
  | _ => Ok tt
  end.
End stack_target.

(** The packet of the benchmark, and its loop. *)
Definition bench_packet : list Z :=
  [0x45; 0x00; 0x00; 0x28; 0x00; 0x00; 0x40; 0x00; 0x40; 0x06; 0x00; 0x00; 10; 42; 0; 2; 8; 8; 8; 8].
Definition bench_parsing {F} (times : N) : Outcome F unit :=
  N.iter times (λ m, let! _ := m in ignore (IpView_parse bench_packet)) (Ok tt).

Lemma ignore_ok {E A F} (m : Outcome E A) : returned m → ignore (F := F) m = Ok tt.
Proof. by destruct m. Qed.

Lemma IpView_parse_returned data : returned (IpView_parse data).
Proof.
  unfold IpView_parse. destruct (Nat.eqb_spec (length data) 0) as [Hl|Hl]; [done|]. run_bytes.
  assert (returned (let! v := Ipv4View_parse data in Ok (V4 v)) ∧
          returned (let! v := Ipv6View_parse data in Ok (V6 v))) as [H4 H6].
  { split; [by apply returned_obind; [apply Ipv4View_parse_returned|]|]. unfold Ipv6View_parse. by case_match. }
  repeat case_match; done.
Qed.

Section targets.
Context {Iface SockSet Sock : Type} `{SmoltcpLaws Iface SockSet Sock} {E : Type} {B : Build}.
Context (hash_order : list nat → list nat) (Hperm : ∀ l, hash_order l ≡ₚ l).

Lemma drain_loop_ok fuel (s : Inner Iface SockSet) :
  (length (tun_tx s) < fuel)%nat →
  drain_loop (E := E) fuel s = Ok (upd_queues (pending s) [] (tun_rx s) s).
Proof.
  revert s. induction fuel as [|fuel IH]; intros s Hl; [lia|]. cbn [drain_loop]. unfold drain_outbound.
  destruct (tun_tx s) as [|pkt q] eqn:Hq; [by rewrite <- Hq; destruct s|].
  rewrite IH by (cbn in *; lia). done.
Qed.

(** The fuzz targets hold on every input. [IpView::parse] does not panic
    on any bytes; and a fresh stack that is fed any bytes of the length of an
    IP packet, polled, drained and accepted from, returns: nothing panics and
    the drain loop ends, whatever smoltcp, the clock and the order of the hash
    map do, in both build profiles. The benchmark's loop also runs through. *)
Theorem fuzz_targets_never_panic (data : list Z) (now : Z) (times : N)
    (Hb : is_bytes data) (Hl : Z.of_nat (length data) ≤ 65535) :
  fuzz_proto_parse (F := E) data = Ok tt ∧ fuzz_socks_proto (F := E) data = Ok tt ∧
  fuzz_stack_inbound (Iface := Iface) (SockSet := SockSet) (E := E) hash_order now data = Ok tt ∧
  bench_parsing (F := E) times = Ok tt.
Proof.
  split; [apply ignore_ok, IpView_parse_returned|]. split; [apply ignore_ok, IpView_parse_returned|]. split.
  - unfold fuzz_stack_inbound.
    destruct (poll_ok (E := E) hash_order Hperm now (feed_inbound data (Inner_new (Iface := Iface) (SockSet := SockSet) 1280)))
      as (b & s & Hp & _ & _).
    { destruct (Inner_new_wf (Iface := Iface) (SockSet := SockSet) 1280) as [Hn Hf Ha Ht Hr].
      split; simpl; try done. constructor; [by split|constructor]. }
    change (UserspaceStack_new (Iface := Iface) (SockSet := SockSet) 1280)
      with (Ok (E := StackError) (Inner_new (Iface := Iface) (SockSet := SockSet) 1280)).
    cbv beta iota zeta. rewrite Hp. cbn [obind]. rewrite drain_loop_ok by lia. cbn [obind].
    by destruct (accept _).
  - unfold bench_parsing. induction times as [|n IH] using N.peano_ind; [done|].
    rewrite N.iter_succ, IH. reflexivity.
Qed.
End targets.

Import MiniTcp.
(** On the SYN of Rewrite.v, and on bytes that are no packet. *)
Lemma fuzz_targets_never_panic_witness :
  fuzz_stack_inbound (Iface := unit) (SockSet := MiniTcp.SockSet) (E := unit) (B := dev) id 0 syn_packet = Ok tt ∧
  fuzz_proto_parse (F := unit) [0x35; 1; 2] = Ok tt.
Proof.
  split.
  - apply (fuzz_targets_never_panic (E := unit) (B := dev) id (λ l, Permutation_refl l) syn_packet 0 0);
      apply syn_ok.
  - apply (fuzz_targets_never_panic (Iface := unit) (SockSet := MiniTcp.SockSet) (E := unit) (B := dev) id
      (λ l, Permutation_refl l) [0x35; 1; 2] 0 0); [repeat constructor; lia|simpl; lia].
Defined.
