(* ===== verification/UnitTests.v ===== *)
(** * The repository's unit tests, run on the model

    Each [#[test]] function of the crates is a program here too: [unwrap] and
    a failed [assert!] panic, and a test passes when it returns.  They all
    pass, in both build profiles, so on these inputs the definitions of the
    other files do what the authors of the code observed it do. *)

From Stdlib Require Import ZArith Lia.
From Stdlib Require Import String.
From stdpp Require Import gmap.
From S2P Require Import Prelude Bytes Checksum Proto Net Text Rewrite NatTable Session UdpGw Http SocksClient SocksServer Stack.
From stdpp Require Import list.
Local Open Scope list_scope.
Local Open Scope Z_scope.

Definition unwrap {E F A} (m : Outcome E A) : Outcome F A :=
  match m with
  | Ok a => Ok a
  | Err _ | Panic => Panic
  | Diverge => Diverge
  end.
Definition unwrap_opt {F A} (o : option A) : Outcome F A := match o with Some a => Ok a | None => Panic end.
Definition assert {F} (b : bool) : Outcome F unit := if b then Ok tt else Panic.
Definition is_err {E A} (m : Outcome E A) : bool := match m with Err _ => true | _ => false end.
Definition expect {E F A} `{EqDecision A} (m : Outcome E A) (a : A) : Outcome F unit :=
  let! x := unwrap m in assert (bool_decide (x = a)).

Abbreviation Test := (Outcome Empty_set unit).

Section proto.
Context {B : Build}.

(** ** gravital-proto *)
Definition test_known_vector : Test :=
  expect (internet_checksum (E := unit) [0x00; 0x01; 0xf2; 0x03; 0xf4; 0xf5; 0xf6; 0xf7]) 0x220d.
Definition test_all_zeros : Test := expect (internet_checksum (E := unit) (replicate 20 0)) 0xffff.

Definition ipv4_packet : Outcome Empty_set (list Z) :=
  let pkt := [0x45; 0x00; 0x00; 0x28; 0x00; 0x00; 0x40; 0x00; 0x40; 0x06; 0x00; 0x00;
              0xC0; 0xA8; 0x01; 0x01; 0xC0; 0xA8; 0x01; 0x02;
              0x04; 0xD2; 0x00; 0x50; 0x00; 0x00; 0x00; 0x00; 0x00; 0x00; 0x00; 0x00; 0x50; 0x02; 0x20; 0x00;
              0x00; 0x00; 0x00; 0x00] in
  let! hdr := slice pkt 0 20 in
  let! csum := internet_checksum hdr in
  let! pkt := set_idx pkt 10 (cast 8 (Z.shiftr csum 8)) in
  set_idx pkt 11 (cast 8 (Z.land csum 0xFF)).

Definition test_parse_ipv4 : Test :=
  let! pkt := ipv4_packet in
  let! view := unwrap (Ipv4View_parse pkt) in
  let! _ := expect (Ipv4View_src (E := unit) view) [192; 168; 1; 1] in
  let! _ := expect (Ipv4View_dst (E := unit) view) [192; 168; 1; 2] in
  let! _ := expect (Ipv4View_protocol (E := unit) view) Tcp in
  unwrap (Ipv4View_verify_checksum view).
Definition test_truncated_ipv4 : Test := assert (is_err (Ipv4View_parse [0x45; 0x00])).
Definition test_invalid_version : Test :=
  assert match IpView_parse (replicate 20 0x35) with Err (InvalidVersion 3) => true | _ => false end.

Definition test_parse_tcp_syn : Test :=
  let! seg := set_idx (replicate 20 0) 0 0x04 in let! seg := set_idx seg 1 0xD2 in
  let! seg := set_idx seg 2 0x00 in let! seg := set_idx seg 3 0x50 in
  let! seg := set_idx seg 12 0x50 in
  let! seg := set_idx seg 13 TCP_SYN in
  let! view := unwrap (TcpView_parse seg) in
  let! _ := expect (TcpView_src_port (E := unit) view) 1234 in
  let! _ := expect (TcpView_dst_port (E := unit) view) 80 in
  let! flags := TcpView_flags view in
  assert (TcpFlags_contains flags TCP_SYN).
Definition test_parse_udp_dns : Test :=
  let! seg := set_idx (replicate 12 0) 0 0xC0 in let! seg := set_idx seg 1 0x1F in
  let! seg := set_idx seg 2 0x00 in let! seg := set_idx seg 3 0x35 in
  let! seg := set_idx seg 4 0x00 in let! seg := set_idx seg 5 0x0C in
  let! view := unwrap (UdpView_parse seg) in
  let! _ := expect (UdpView_dst_port (E := unit) view) 53 in
  let! dns := UdpView_is_dns view in
  assert dns.

(** ** gravital-stack *)
Definition sa (ip : list Z) (port : Z) : SocketAddr := SockV4 ip port.

Definition test_basic_insert_and_lookup : Test :=
  let t := NatTable_new in
  let src := sa [10; 42; 0; 2] 54321 in
  let dst := sa [8; 8; 8; 8] 443 in
  let! (vp, t) := NatTable_insert t src dst in
  let! vp := unwrap_opt vp in
  let! _ := assert (vp =? 10000) in
  let! _ := assert (bool_decide (lookup_forward t src dst = Some vp)) in
  let! (rs, rd) := unwrap_opt (lookup_reverse t vp) in
  let! _ := assert (bool_decide (rs = src)) in
  assert (bool_decide (rd = dst)).
Definition test_idempotent_insert : Test :=
  let t := NatTable_new in
  let src := sa [10; 42; 0; 2] 1 in
  let dst := sa [1; 1; 1; 1] 80 in
  let! (vp1, t) := NatTable_insert t src dst in let! vp1 := unwrap_opt vp1 in
  let! (vp2, t) := NatTable_insert t src dst in let! vp2 := unwrap_opt vp2 in
  assert (vp1 =? vp2).
Definition test_different_dst_different_vport : Test :=
  let t := NatTable_new in
  let src := sa [10; 42; 0; 2] 1000 in
  let dst1 := sa [8; 8; 8; 8] 443 in
  let dst2 := sa [1; 1; 1; 1] 443 in
  let! (vp1, t) := NatTable_insert t src dst1 in let! vp1 := unwrap_opt vp1 in
  let! (vp2, t) := NatTable_insert t src dst2 in let! vp2 := unwrap_opt vp2 in
  assert (negb (vp1 =? vp2)).
Definition test_remove_frees_port : Test :=
  let t := NatTable_new in
  let src := sa [10; 42; 0; 2] 1 in
  let dst := sa [9; 9; 9; 9] 80 in
  let! (vp, t) := NatTable_insert t src dst in let! vp := unwrap_opt vp in
  let t := remove_by_vport t vp in
  let! _ := assert (bool_decide (lookup_forward t src dst = None)) in
  assert (bool_decide (lookup_reverse t vp = None)).

(** The packet of the tests of rewrite.rs. *)
Definition test_syn_packet : Outcome Empty_set (list Z) :=
  let pkt := replicate 40 0 in
  let! pkt := set_idx pkt 0 0x45 in
  let! pkt := set_idx pkt 1 0x00 in
  let! pkt := copy_from_slice pkt 2 4 (to_be16 40) in
  let! pkt := set_idx pkt 8 64 in
  let! pkt := set_idx pkt 9 6 in
  let! pkt := copy_from_slice pkt 12 16 [10; 42; 0; 2] in
  let! pkt := copy_from_slice pkt 16 20 [8; 8; 8; 8] in
  let! pkt := copy_from_slice pkt 20 22 (to_be16 54321) in
  let! pkt := copy_from_slice pkt 22 24 (to_be16 443) in
  let! pkt := set_idx pkt 32 0x50 in
  let! pkt := set_idx pkt 33 0x02 in
  let! pkt := fix_tcp_checksum pkt in
  fix_ipv4_checksum pkt.

Definition test_checksum_known_vector : Test :=
  let data := [0x00; 0x01; 0xF2; 0x03; 0xF4; 0xF5; 0xF6; 0xF7] in
  let! csum := Rewrite.checksum data in
  let! total := sum_chunks (chunks_exact2 data) csum in
  let! s := carry_loop CARRY_FUEL total in
  assert (cast 16 s =? 0xFFFF).
Definition test_extract_addrs_from_syn : Test :=
  let! pkt := test_syn_packet in
  let! addrs := extract_tcp_addrs pkt in
  let! (src, dst) := unwrap_opt addrs in
  let! _ := assert (SocketAddr_port src =? 54321) in
  assert (SocketAddr_port dst =? 443).
Definition test_is_syn_flag : Test :=
  let! pkt := test_syn_packet in
  let! syn := is_tcp_syn pkt in
  assert syn.
Definition test_inbound_rewrite_changes_dst_port : Test :=
  let! pkt := test_syn_packet in
  let! (ok, pkt) := rewrite_inbound pkt 12345 in
  let! _ := assert ok in
  let! addrs := extract_tcp_addrs pkt in
  let! (_, dst) := unwrap_opt addrs in
  assert (SocketAddr_port dst =? 12345).
Definition test_outbound_rewrite_changes_src : Test :=
  let! pkt := test_syn_packet in
  let! pkt := copy_from_slice pkt 12 16 [10; 0; 2; 2] in
  let! pkt := copy_from_slice pkt 20 22 (to_be16 10000) in
  let! pkt := set_idx pkt 33 0x12 in
  let! pkt := fix_tcp_checksum pkt in
  let! pkt := fix_ipv4_checksum pkt in
  let real_ip := [8; 8; 8; 8] in
  let! (ok, pkt) := rewrite_outbound pkt real_ip 443 in
  let! _ := assert ok in
  let! addrs := extract_tcp_addrs pkt in
  let! (src, _) := unwrap_opt addrs in
  let! _ := assert (bool_decide (SocketAddr_ip src = IpV4 real_ip)) in
  assert (SocketAddr_port src =? 443).
End proto.

(** The stack, on any smoltcp. *)
Section stack.
Context {Iface SockSet Sock : Type} `{Smoltcp Iface SockSet Sock} {B : Build}.
Variable hash_order : list nat → list nat.
Abbreviation new := (UserspaceStack_new (Iface := Iface) (SockSet := SockSet)).

Definition test_invalid_mtu : Test :=
  let! _ := assert (is_err (new 100)) in
  assert (is_err (new 9001)).
Definition test_valid_mtu_constructs (now : Z) : Test :=
  let! stack := unwrap (new 1280) in
  let! (more, _) := poll hash_order now stack in
  assert (negb more).
Definition test_feed_and_poll_no_panic (now : Z) : Test :=
  let! stack := unwrap (new 1280) in
  let pkt := replicate 40 0 in
  let! pkt := set_idx pkt 0 0x45 in
  let! pkt := set_idx pkt 9 17 in
  let stack := feed_inbound pkt stack in
  let! (_, stack) := poll hash_order now stack in
  assert (bool_decide ((drain_outbound stack).1 = None)).
End stack.

(** ** gravital-udpgw and gravital-http *)
Definition test_roundtrip_ipv4 : Test :=
  let frame := {| client_id := 42; UdpGw.flags := 0; remote_addr := SockV4 [8; 8; 8; 8] 53;
                  UdpGw.payload := str "hello" |} in
  let encoded := encode frame in
  let! decoded := unwrap (decode encoded) in
  let! _ := assert (client_id decoded =? 42) in
  let! _ := assert (bool_decide (remote_addr decoded = remote_addr frame)) in
  assert (bool_decide (UdpGw.payload decoded = str "hello")).

Definition test_parse_host_port_valid : Test :=
  let! (host, port) := unwrap (parse_host_port (str "www.example.com:443")) in
  let! _ := assert (bool_decide (host = str "www.example.com")) in
  assert (port =? 443).
Definition test_parse_host_port_ipv4 : Test :=
  let! (host, port) := unwrap (parse_host_port (str "1.2.3.4:80")) in
  let! _ := assert (bool_decide (host = str "1.2.3.4")) in
  assert (port =? 80).
Definition test_parse_host_port_invalid : Test :=
  let! _ := assert (is_err (parse_host_port (str "no-port"))) in
  assert (is_err (parse_host_port (str "host:notaport"))).

(** ** gravital-engine: the session *)
Definition peer : PeerInfo := {| proxy_addr := SockV4 [127; 0; 0; 1] 1080 |}.

(** [session.dispatch(e).unwrap()] *)
Definition dispatched (s : Session unit) (e : SessionEvent) : Outcome Empty_set (Session unit) :=
  let '(r, s, _) := dispatch s e in
  let! _ := unwrap r in Ok s.

Definition test_happy_path_client : Test :=
  let! s := dispatched Session_new (UserStart Client) in
  let! _ := assert match state s with Preparing _ => true | _ => false end in
  let! s := dispatched s EngineReady in
  let! _ := assert match state s with Connecting _ _ => true | _ => false end in
  let! s := dispatched s (ProxyConnected peer) in
  let! _ := assert (is_active (state s)) in
  let! s := dispatched s UserStop in
  let! _ := assert match state s with Stopping _ _ => true | _ => false end in
  let! s := dispatched s EngineStopped in
  assert (bool_decide (state s = Idle)).
Definition test_reconnect_path : Test :=
  let! s := dispatched Session_new (UserStart Client) in
  let! s := dispatched s EngineReady in
  let! s := dispatched s (ProxyConnected peer) in
  let! s := dispatched s NetworkLost in
  let! _ := assert match state s with Reconnecting _ _ _ => true | _ => false end in
  let! s := dispatched s (ProxyConnected peer) in
  assert (is_active (state s)).
Definition test_fatal_error_from_any_state : Test :=
  let! s := dispatched Session_new (UserStart Server) in
  let! s := dispatched s (FatalError TunOpenFailed) in
  let! _ := assert match state s with Failed _ _ _ => true | _ => false end in
  let! s := dispatched s UserAcknowledge in
  assert (bool_decide (state s = Idle)).
Definition test_invalid_transition_rejected : Test :=
  let '(r, s, _) := dispatch (L := unit) Session_new (ProxyConnected peer) in
  let! _ := assert (is_err r) in
  assert (bool_decide (state s = Idle)).
Definition test_session_backoff_sequence : Test :=
  let! _ := assert (backoff_delay 1 =? 250) in
  let! _ := assert (backoff_delay 2 =? 500) in
  let! _ := assert (backoff_delay 3 =? 1000) in
  assert (backoff_delay 10 =? 30000).

(** ** gravital-socks *)
Definition test_client_backoff_sequence : Test :=
  let! _ := assert (SocksClient_backoff_delay 1 =? 250) in
  let! _ := assert (SocksClient_backoff_delay 2 =? 500) in
  let! _ := assert (SocksClient_backoff_delay 3 =? 1000) in
  assert (SocksClient_backoff_delay 10 =? 30000).
Definition test_server_config_default : Test :=
  let cfg := SocksServer.ServerConfig_default in
  let! _ := assert (SocketAddr_port (bind_addr cfg) =? 1080) in
  assert (negb (auth_enabled cfg)).

(** ** The suite *)
Import MiniTcp.
Definition suite (b : Build) : list Test :=
  [@test_known_vector b; @test_all_zeros b; @test_parse_ipv4 b; test_truncated_ipv4; test_invalid_version;
   test_parse_tcp_syn; test_parse_udp_dns;
   test_basic_insert_and_lookup; test_idempotent_insert; test_different_dst_different_vport; test_remove_frees_port;
   @test_checksum_known_vector b; @test_extract_addrs_from_syn b; @test_is_syn_flag b;
   @test_inbound_rewrite_changes_dst_port b; @test_outbound_rewrite_changes_src b;
   test_invalid_mtu (Iface := unit) (SockSet := MiniTcp.SockSet); 
   test_valid_mtu_constructs (Iface := unit) (SockSet := MiniTcp.SockSet) (B := b) id 0;
   test_feed_and_poll_no_panic (Iface := unit) (SockSet := MiniTcp.SockSet) (B := b) id 0;
   test_roundtrip_ipv4; test_parse_host_port_valid; test_parse_host_port_ipv4; test_parse_host_port_invalid;
   test_happy_path_client; test_reconnect_path; test_fatal_error_from_any_state;
   test_invalid_transition_rejected; test_session_backoff_sequence;
   test_client_backoff_sequence; test_server_config_default].

Lemma suite_passes (b : Build) : b ∈ [Prelude.dev; Prelude.release] → Forall (λ t, t = Ok tt) (suite b).
Proof.
  intros Hb. repeat (apply elem_of_cons in Hb as [->|Hb]); [| |by apply not_elem_of_nil in Hb];
    repeat (constructor; [vm_compute; reflexivity|]); constructor.
Qed.
