(* ===== verification/Lifecycle.v ===== *)
(** * gravital-engine/src/runner.rs: the engine's life cycle

    The public calls ([start_server], [start_client], [stop], [shutdown]) and
    the tasks they spawn, over the session, the shutdown channel (a tokio
    watch channel: a value and a version, each receiver remembering the last
    version it has seen) and the list of tasks.  A public call is one step; a
    task advances from one suspension point to the next. *)

From Stdlib Require Import ZArith Lia.
From stdpp Require Import relations.
From S2P Require Import Prelude Bytes Net Io Session Tun Engine.
From stdpp Require Import list.
Local Open Scope Z_scope.

(** One of the two servers of a server task. *)
Inductive ServerRun :=
| Binding (seen : nat)
| Listening (seen : nat)
| Stopped.

Inductive Task :=
| ServerSpawned (socks_bind : SocketAddr) (seen : nat)
| ServerRunning (socks http : ServerRun)
| ClientSpawned (cfg : ClientConfig) (fd : Z) (seen : nat)
(** at the select, before and after the client loop has started *)
| ClientSelect (seen : nat)
| ClientRunning (seen : nat)
(** the two tasks of the client loop *)
| TunReadTask
| PollTask
| TaskDone.

(** [notified]: the states that the listener of the session, which [new]
    registers, has been called with, oldest first. *)
Record Engine := {
  session : SessionState;
  shutdown_value : bool; shutdown_version : nat;
  tasks : list Task;
  notified : list SessionState
}.

Definition Engine_new : Engine :=
  {| session := Idle; shutdown_value := false; shutdown_version := 0; tasks := []; notified := [] |}.

(** Whether a task still holds a receiver of the channel. *)
Definition task_listens (t : Task) : bool :=
  match t with TunReadTask | PollTask | TaskDone => false | _ => true end.

(** [shutdown_tx.send(v)]: fails, and changes nothing, without receivers. *)
Definition send (v : bool) (e : Engine) : Engine :=
  if existsb task_listens (tasks e)
  then {| session := session e; shutdown_value := v; shutdown_version := S (shutdown_version e);
          tasks := tasks e; notified := notified e |}
  else e.

Definition set_session (s : SessionState) (e : Engine) : Engine :=
  {| session := s; shutdown_value := shutdown_value e; shutdown_version := shutdown_version e;
     tasks := tasks e; notified := notified e |}.
(** The end of [dispatch]: the listeners are called only when the state is
    another one. *)
Definition notify (s : SessionState) (e : Engine) : Engine :=
  {| session := s; shutdown_value := shutdown_value e; shutdown_version := shutdown_version e;
     tasks := tasks e;
     notified := if decide (s = session e) then notified e else notified e ++ [s] |}.
Definition spawn (t : Task) (e : Engine) : Engine :=
  {| session := session e; shutdown_value := shutdown_value e;
     shutdown_version := shutdown_version e; tasks := tasks e ++ [t]; notified := notified e |}.

(** [self.session.dispatch(..)?]. *)
Definition edispatch (ev : SessionEvent) (e : Engine) : Outcome EngineError Engine :=
  let! s := transition (session e) ev in Ok (notify s e).

(** The reset at the start of both start calls. *)
Definition reset (e : Engine) : Engine :=
  if bool_decide (session e = Idle) then e else send false (set_session Idle e).

Definition start_server (cfg : ServerConfig) (e : Engine) : Outcome EngineError Engine :=
  let e := reset e in
  let! e := edispatch (UserStart Server) e in
  let! e := edispatch EngineReady e in
  Ok (spawn (ServerSpawned (s_socks_bind cfg) (shutdown_version e)) e).

Definition start_client (tun_fd : Z) (cfg : ClientConfig) (e : Engine) : Outcome EngineError Engine :=
  if tun_fd <? 0 then Err InvalidFd
  else
    let e := reset e in
    let! e := edispatch (UserStart Client) e in
    let! e := edispatch EngineReady e in
    Ok (spawn (ClientSpawned cfg tun_fd (shutdown_version e)) e).

Definition stop (e : Engine) : Outcome EngineError Engine :=
  let! e := edispatch UserStop e in Ok (send true e).

Definition shutdown (e : Engine) : Engine := send true e.

(** A task dispatches and drops the result. *)
Definition tdispatch (ev : SessionEvent) (e : Engine) : Engine :=
  notify (step_state (session e) ev) e.
Definition set_task (i : nat) (t : Task) (e : Engine) : Engine :=
  {| session := session e; shutdown_value := shutdown_value e;
     shutdown_version := shutdown_version e; tasks := <[i := t]> (tasks e); notified := notified e |}.

(** A server's accept loop: binding, and seeing a change of the channel. *)
Inductive run_step (e : Engine) : ServerRun → ServerRun → Prop :=
| run_bound seen : run_step e (Binding seen) (Listening seen)
| run_bind_failed seen : run_step e (Binding seen) Stopped
| run_changed seen :
    seen ≠ shutdown_version e →
    run_step e (Listening seen)
      (if shutdown_value e then Stopped else Listening (shutdown_version e)).

Inductive task_step : Engine → Engine → Prop :=
| server_connected e i addr seen :
    tasks e !! i = Some (ServerSpawned addr seen) →
    task_step e (set_task i (ServerRunning (Binding seen) (Binding seen))
                   (tdispatch (ProxyConnected {| proxy_addr := addr |}) e))
| server_socks e i a b a' :
    tasks e !! i = Some (ServerRunning a b) → run_step e a a' →
    task_step e (set_task i (ServerRunning a' b) e)
| server_http e i a b b' :
    tasks e !! i = Some (ServerRunning a b) → run_step e b b' →
    task_step e (set_task i (ServerRunning a b') e)
| server_stopped e i :
    tasks e !! i = Some (ServerRunning Stopped Stopped) →
    task_step e (set_task i TaskDone (tdispatch EngineStopped e))
(** opening the TUN device or building the stack failed *)
| client_failed e i cfg fd seen :
    tasks e !! i = Some (ClientSpawned cfg fd seen) →
    task_step e (set_task i TaskDone (tdispatch (FatalError TunOpenFailed) e))
| client_connected e i cfg fd seen :
    tasks e !! i = Some (ClientSpawned cfg fd seen) → 576 ≤ c_mtu cfg ≤ 9000 →
    task_step e (set_task i (ClientSelect seen)
                   (tdispatch (ProxyConnected {| proxy_addr := c_proxy_addr cfg |}) e))
(** the client loop is polled for the first time and spawns its two tasks *)
| client_loop e i seen :
    tasks e !! i = Some (ClientSelect seen) →
    task_step e (spawn PollTask (spawn TunReadTask (set_task i (ClientRunning seen) e)))
(** any change of the channel ends the client; the client loop is dropped,
    and with it the handles of the two tasks, but not the tasks *)
| client_stopped e i t seen :
    tasks e !! i = Some t → t = ClientSelect seen ∨ t = ClientRunning seen →
    seen ≠ shutdown_version e →
    task_step e (set_task i TaskDone (tdispatch EngineStopped e))
(** a failed read ends the task that reads the device; the other one, whose
    loop has no exit, goes on for ever, and so does the join of the two *)
| tun_read_failed e i :
    tasks e !! i = Some TunReadTask →
    task_step e (set_task i TaskDone e).

(** The task a step is about. *)
Lemma task_step_inv e e' :
  task_step e e' → ∃ i t, tasks e !! i = Some t ∧ t ≠ TaskDone ∧ t ≠ PollTask ∧
    ∀ j, j ≠ i → tasks e !! j = None ∨ tasks e' !! j = tasks e !! j.
Proof.
  intros Hs. assert (∀ i t (l k : list Task) j, j ≠ i → l !! j = None ∨ (<[i := t]> l ++ k) !! j = l !! j) as Hins.
  { intros i t l k j Hj. destruct (l !! j) as [x|] eqn:Hl; [|by left]. right.
    rewrite lookup_app_l; [by rewrite list_lookup_insert_ne|].
    rewrite length_insert. by eapply lookup_lt_Some. }
  destruct Hs; eexists _, _; (split; [eassumption|]); (split; [naive_solver|]); (split; [naive_solver|]);
    intros j Hj; cbn; rewrite <- ?app_assoc; first [apply Hins; done|rewrite <- (app_nil_r (<[_ := _]> _)); by apply Hins].
Qed.

(** Cases of a step from a known list of tasks. *)
Ltac task_cases Hs Ht := inversion Hs; subst;
  match goal with Hi : tasks _ !! ?i = Some _ |- _ =>
    rewrite Ht in Hi; destruct i as [|[|i]]; simplify_eq/= end.

(** The engine as a whole: a public call that succeeds, or a task. *)
Inductive engine_step : Engine → Engine → Prop :=
| step_start_server cfg e e' : start_server cfg e = Ok e' → engine_step e e'
| step_start_client fd cfg e e' : start_client fd cfg e = Ok e' → engine_step e e'
| step_stop e e' : stop e = Ok e' → engine_step e e'
| step_shutdown e : engine_step e (shutdown e)
| step_task e e' : task_step e e' → engine_step e e'.

(** ** The tasks run out of work

    [task_seen] are the versions of the shutdown channel that the receivers of
    a task have seen, [work] bounds the steps the tasks can make without a
    further public call. *)
Definition run_seen (r : ServerRun) : list nat :=
  match r with Binding seen | Listening seen => [seen] | Stopped => [] end.
Definition task_seen (t : Task) : list nat :=
  match t with
  | ServerSpawned _ seen | ClientSpawned _ _ seen | ClientSelect seen | ClientRunning seen => [seen]
  | ServerRunning a b => run_seen a ++ run_seen b
  | TunReadTask | PollTask | TaskDone => []
  end.

Definition run_work (v : nat) (r : ServerRun) : nat :=
  match r with Binding _ => 2 | Listening seen => if decide (seen = v) then 0 else 1 | Stopped => 0 end.
Definition task_work (v : nat) (t : Task) : nat :=
  match t with
  | ServerSpawned _ _ => 6
  | ServerRunning a b => S (run_work v a + run_work v b)
  | ClientSpawned _ _ _ => 4
  | ClientSelect _ => 3
  | ClientRunning _ | TunReadTask => 1
  | PollTask | TaskDone => 0
  end.
Definition work (e : Engine) : nat := sum_list (task_work (shutdown_version e) <$> tasks e).

Lemma sum_list_insert {A} (f : A → nat) (l : list A) i x y :
  l !! i = Some x → (sum_list (f <$> <[i := y]> l) + f x = sum_list (f <$> l) + f y)%nat.
Proof.
  revert i. induction l as [|z l IH]; intros [|i] Hi; simplify_eq/=; [lia|].
  specialize (IH i Hi). lia.
Qed.

Lemma run_step_work e r r' :
  run_step e r r' → (run_work (shutdown_version e) r' < run_work (shutdown_version e) r)%nat.
Proof.
  intros []; cbn; repeat case_decide; try lia; try done.
  destruct (shutdown_value e); cbn; repeat case_decide; try lia; done.
Qed.

Lemma task_step_version e e' :
  task_step e e' → shutdown_version e' = shutdown_version e ∧ shutdown_value e' = shutdown_value e.
Proof. by intros []. Qed.

(** Every step of a task uses up work. *)
Lemma task_step_work e e' : task_step e e' → (work e' < work e)%nat.
Proof.
  intros Hs. unfold work. rewrite (proj1 (task_step_version _ _ Hs)).
  destruct Hs as [e i addr seen Hi|e i a b a' Hi Hr|e i a b b' Hi Hr|e i Hi|e i cfg fd seen Hi
    |e i cfg fd seen Hi ?|e i seen Hi|e i t seen Hi Ht ?|e i Hi]; cbn [tasks set_task spawn tdispatch notify];
    match goal with |- context [<[i := ?t']> _] =>
      pose proof (sum_list_insert (task_work (shutdown_version e)) (tasks e) i _ t' Hi) as Hsum end;
    try (apply run_step_work in Hr); cbn in Hsum; try lia.
  - rewrite <- app_assoc, fmap_app, sum_list_with_app. cbn. lia.
  - destruct Ht as [-> | ->]; cbn in Hsum; lia.
Qed.

(** ** Stopping

    The invariant of reachable engines, and what holds after a shutdown has
    been sent: every receiver has a change to see. *)
Definition engine_wf (e : Engine) : Prop :=
  Forall (λ t, task_listens t = true → Forall (λ n, n ≤ shutdown_version e)%nat (task_seen t)) (tasks e).
Definition no_listener (e : Engine) : Prop := Forall (λ t, task_listens t = false) (tasks e).
Definition told (e : Engine) : Prop :=
  shutdown_value e = true ∧
    Forall (λ t, task_listens t = true → Forall (λ n, n ≠ shutdown_version e) (task_seen t)) (tasks e)
  ∨ no_listener e.

Lemma run_step_seen e r r' (P : nat → Prop) :
  run_step e r r' → (shutdown_value e = false → P (shutdown_version e)) →
  Forall P (run_seen r) → Forall P (run_seen r').
Proof. intros [] Hv; try done. destruct (shutdown_value e); cbn; auto. Qed.

(** What the receivers of a task have seen only grows to the current version,
    and only when the value is false. *)
Lemma task_step_seen e e' (P : nat → Prop) :
  task_step e e' → (shutdown_value e = false → P (shutdown_version e)) →
  Forall (λ t, task_listens t = true → Forall P (task_seen t)) (tasks e) →
  Forall (λ t, task_listens t = true → Forall P (task_seen t)) (tasks e').
Proof.
  intros Hs Hv HP.
  assert (∀ i t, tasks e !! i = Some t → task_listens t = true → Forall P (task_seen t)) as Hl.
  { intros i t Hi. exact (Forall_lookup_1 _ _ i t HP Hi). }
  destruct Hs as [e i addr seen Hi|e i a b a' Hi Hr|e i a b b' Hi Hr|e i Hi|e i cfg fd seen Hi
    |e i cfg fd seen Hi ?|e i seen Hi|e i t seen Hi Ht ?|e i Hi]; cbn;
    try (specialize (Hl _ _ Hi eq_refl); cbn in Hl);
    try (apply Forall_insert; [done|cbn]); try done.
  - intros _. inversion Hl. by repeat constructor.
  - intros _. apply Forall_app in Hl as [Ha Hb]. apply Forall_app; split; [|done].
    by eapply run_step_seen.
  - intros _. apply Forall_app in Hl as [Ha Hb]. apply Forall_app; split; [done|].
    by eapply run_step_seen.
  - rewrite <- app_assoc. apply Forall_app. split; [by apply Forall_insert|]. by repeat constructor.
Qed.

(** The engine with a server up on both ports. *)
Definition serving (addr : SocketAddr) (v : nat) : Engine :=
  {| session := Connected Server {| proxy_addr := addr |}; shutdown_value := false;
     shutdown_version := v; tasks := [ServerRunning (Listening v) (Listening v)];
     notified := [Preparing Server; Connecting Server 1; Connected Server {| proxy_addr := addr |}] |}.

Lemma serving_reachable cfg :
  rtc engine_step Engine_new (serving (s_socks_bind cfg) 0).
Proof.
  eapply rtc_l; [apply (step_start_server cfg); reflexivity|].
  eapply rtc_l; [apply step_task, (server_connected _ 0); reflexivity|].
  eapply rtc_l; [apply step_task; eapply (server_socks _ 0); [reflexivity|apply run_bound]|].
  eapply rtc_l; [apply step_task; eapply (server_http _ 0); [reflexivity|apply run_bound]|].
  apply rtc_refl.
Qed.

Lemma existsb_no_listener e : existsb task_listens (tasks e) = false ↔ no_listener e.
Proof.
  unfold no_listener. induction (tasks e) as [|t l IH]; cbn; [by split|].
  by rewrite orb_false_iff, IH, Forall_cons_iff.
Qed.

Lemma no_listener_step e e' :
  no_listener e → task_step e e' → no_listener e' ∧ session e' = session e.
Proof.
  intros Hn Hs. unfold no_listener in Hn. rewrite Forall_lookup in Hn.
  destruct Hs as [e i addr seen Hi|e i a b a' Hi Hr|e i a b b' Hi Hr|e i Hi|e i cfg fd seen Hi
    |e i cfg fd seen Hi ?|e i seen Hi|e i t seen Hi Ht ?|e i Hi]; pose proof (Hn _ _ Hi) as Hc; try done.
  - by destruct Ht as [-> | ->].
  - split; [|done]. apply Forall_insert; [by apply Forall_lookup|done].
Qed.

Lemma told_step e e' : told e → task_step e e' → told e'.
Proof.
  intros [[Hval Ht]|Hn] Hs; [left|right; by eapply (no_listener_step e)].
  destruct (task_step_version e e' Hs) as [Hv Hb]. rewrite Hv, Hb. split; [done|].
  eapply task_step_seen; [done|by rewrite Hval|done].
Qed.

(** As long as a task listens, some task can go on. *)
Lemma told_progress e : told e → (∃ e', task_step e e') ∨ no_listener e.
Proof.
  intros [[Hval Ht]|Hn]; [|by right].
  destruct (existsb task_listens (tasks e)) eqn:Hex; [left|right; by apply existsb_no_listener].
  apply existsb_exists in Hex as (t & [i Hi]%list_elem_of_In%list_elem_of_lookup & Hl).
  apply (Forall_lookup_1 _ _ i t) in Ht; [|done]. specialize (Ht Hl).
  destruct t as [addr seen|a b|cfg fd seen|seen|seen| | |]; try done; cbn in Ht.
  - eexists. by eapply server_connected.
  - apply Forall_app in Ht as [Ha Hb].
    destruct a as [s|s|]; [eexists; eapply server_socks; [done|apply run_bind_failed]|
      eexists; eapply server_socks; [done|apply run_changed; by inversion Ha]|].
    destruct b as [s|s|]; [eexists; eapply server_http; [done|apply run_bind_failed]|
      eexists; eapply server_http; [done|apply run_changed; by inversion Hb]|].
    eexists. by eapply server_stopped.
  - eexists. by eapply client_failed.
  - eexists. by eapply client_loop.
  - eexists. eapply client_stopped; [done|by right|by inversion Ht].
Qed.

(** The session after a stop. *)
Definition winding_down (e : Engine) : Prop :=
  (∃ m r, session e = Stopping m r ∧ ¬ no_listener e) ∨ session e = Idle ∨
  ∃ m b, session e = Failed m TunOpenFailed b.

Lemma listener_stays (l k : list Task) i t t' :
  l !! i = Some t → task_listens t' = true → ¬ Forall (λ t, task_listens t = false) (<[i := t']> l ++ k).
Proof.
  intros Hi Ht [Hn _]%Forall_app. apply (Forall_lookup_1 _ _ i t') in Hn; [congruence|].
  by eapply list_lookup_insert_eq, lookup_lt_Some.
Qed.

Lemma winding_down_step e e' : winding_down e → task_step e e' → winding_down e'.
Proof.
  intros Hw Hs.
  assert (∀ i t t' k, tasks e !! i = Some t → task_listens t' = true → tasks e' = <[i := t']> (tasks e) ++ k →
    session e' = session e → winding_down e') as Hstay.
  { intros i t t' k Hi Ht Hk Hses. destruct Hw as [(m & r & Hm & _)|Hw]; [left|right].
    - exists m, r. rewrite Hses. split; [done|]. unfold no_listener. rewrite Hk. by eapply listener_stays.
    - by rewrite Hses. }
  destruct Hs as [e i addr seen Hi|e i a b a' Hi Hr|e i a b b' Hi Hr|e i Hi|e i cfg fd seen Hi
    |e i cfg fd seen Hi ?|e i seen Hi|e i t seen Hi Ht ?|e i Hi].
  - eapply (Hstay i _ _ []); [done| |by rewrite app_nil_r|]; [done|]. cbn.
    by destruct Hw as [(? & ? & -> & _)|[-> |(? & ? & ->)]].
  - by eapply (Hstay i _ _ []); [done| |by rewrite app_nil_r|].
  - by eapply (Hstay i _ _ []); [done| |by rewrite app_nil_r|].
  - right. cbn. destruct Hw as [(? & ? & -> & _)|[-> |(? & ? & ->)]]; cbn; eauto.
  - right. right. cbn. unfold step_state. cbn. eauto.
  - eapply (Hstay i _ _ []); [done| |by rewrite app_nil_r|]; [done|]. cbn.
    by destruct Hw as [(? & ? & -> & _)|[-> |(? & ? & ->)]].
  - apply (Hstay i (ClientSelect seen) (ClientRunning seen) [TunReadTask; PollTask]); try done.
    cbn. by rewrite <- app_assoc.
  - right. cbn. destruct Hw as [(? & ? & -> & _)|[-> |(? & ? & ->)]]; cbn; eauto.
  - destruct Hw as [(m & r & Hm & Hl)|Hw]; [left|by right]. exists m, r. split; [done|].
    intros Hn. apply Hl. unfold no_listener in *. rewrite Forall_lookup in *. intros j t Hj.
    destruct (decide (j = i)) as [->|Hne]; [by simplify_eq|]. apply (Hn j). cbn.
    by rewrite list_lookup_insert_ne.
Qed.

Lemma send_wf v e : engine_wf e → engine_wf (send v e).
Proof.
  intros Hw. unfold send. destruct (existsb _ _); [|done]. unfold engine_wf in *. cbn.
  eapply Forall_impl; [exact Hw|]. cbn. intros t Ht Hl. eapply Forall_impl; [by apply Ht|]. cbn. lia.
Qed.
Lemma reset_wf e : engine_wf e → engine_wf (reset e).
Proof. intros Hw. unfold reset. case_bool_decide; [done|]. by apply send_wf. Qed.
Lemma edispatch_wf ev e e' : engine_wf e → edispatch ev e = Ok e' → engine_wf e'.
Proof. unfold edispatch. destruct (transition _ _); [|done..]. by intros Hw [= <-]. Qed.
Lemma spawn_wf t e :
  engine_wf e → task_seen t = [shutdown_version e] → engine_wf (spawn t e).
Proof.
  intros Hw Ht. unfold engine_wf. cbn. apply Forall_app. split; [done|].
  constructor; [|constructor]. intros _. rewrite Ht. by repeat constructor.
Qed.

Lemma engine_step_wf e e' : engine_wf e → engine_step e e' → engine_wf e'.
Proof.
  intros Hw Hs. destruct Hs as [cfg e e' H|fd cfg e e' H|e e' H|e|e e' H].
  - unfold start_server in H. apply obind_ok in H as (e1 & H1 & (e2 & H2 & [= <-])%obind_ok).
    apply spawn_wf; [|done]. by eapply edispatch_wf, H2; eapply edispatch_wf, H1; apply reset_wf.
  - unfold start_client in H. destruct (fd <? 0); [done|].
    apply obind_ok in H as (e1 & H1 & (e2 & H2 & [= <-])%obind_ok).
    apply spawn_wf; [|done]. by eapply edispatch_wf, H2; eapply edispatch_wf, H1; apply reset_wf.
  - unfold stop in H. apply obind_ok in H as (e1 & H1 & [= <-]).
    apply send_wf. by eapply edispatch_wf.
  - by apply send_wf.
  - unfold engine_wf. rewrite (proj1 (task_step_version _ _ H)). by eapply task_step_seen.
Qed.

Lemma reachable_wf e : rtc engine_step Engine_new e → engine_wf e.
Proof.
  intros Hr. assert (engine_wf Engine_new) as Hw by constructor. revert Hw.
  induction Hr as [|e1 e2 e3 Hs _ IH]; [done|]. intros Hw. by eapply IH, engine_step_wf.
Qed.

Lemma send_told e : engine_wf e → told (send true e).
Proof.
  intros Hw. unfold send. destruct (existsb task_listens (tasks e)) eqn:Hex.
  - left. split; [done|]. cbn. eapply Forall_impl; [exact Hw|]. cbn. intros t Ht Hl.
    eapply Forall_impl; [by apply Ht|]. cbn. lia.
  - right. by apply existsb_no_listener.
Qed.

Lemma stop_spec e e1 :
  stop e = Ok e1 → ∃ m, session e1 = Stopping m StopUserRequest ∧ tasks e1 = tasks e.
Proof.
  unfold stop, edispatch. intros (e0 & He0 & [= <-])%obind_ok.
  apply obind_ok in He0 as (s & Hs & [= <-]). unfold send. exists (default Client (state_mode s)).
  assert (s = Stopping (default Client (state_mode s)) StopUserRequest) as Hst.
  { cbn in Hs. by destruct (session e); simplify_eq. }
  by destruct (existsb _ _).
Qed.



(** ** What the listener is told

    [follows]: from one reported state to the next there is a transition, or
    the session was restarted, which resets it without a report. *)
Definition follows (s s' : SessionState) : Prop :=
  (∃ ev, transition s ev = Ok s') ∨ ∃ m, s' = Preparing m.
Definition chained (l : list SessionState) : Prop :=
  ∀ i s s', l !! i = Some s → l !! S i = Some s' → follows s s'.
Definition truthful (e : Engine) : Prop :=
  session e = default Idle (last (notified e)) ∧ chained (notified e).

Lemma chained_snoc l s : chained l → (∀ s0, last l = Some s0 → follows s0 s) → chained (l ++ [s]).
Proof.
  intros Hc Hl i s1 s2 H1 H2. destruct (decide (S i < length l)%nat).
  - rewrite lookup_app_l in H1, H2 by lia. by eapply Hc.
  - apply lookup_lt_Some in H2 as Hlt. rewrite length_app in Hlt. cbn in Hlt.
    rewrite lookup_app_l in H1 by lia. rewrite lookup_app_r in H2 by lia.
    replace (S i - length l)%nat with 0%nat in H2 by lia. simplify_eq/=. apply Hl.
    rewrite last_lookup. by replace (pred (length l)) with i by lia.
Qed.

Lemma notify_truthful s e :
  truthful e → follows (session e) s → truthful (notify s e).
Proof.
  intros [Ht Hc] Hf. split; cbn.
  - case_decide as Hd; [by rewrite Hd|]. by rewrite last_snoc.
  - case_decide; [done|]. apply chained_snoc; [done|]. intros s0 Hs0. by rewrite Ht, Hs0 in Hf.
Qed.

Lemma edispatch_truthful ev e e' : truthful e → edispatch ev e = Ok e' → truthful e'.
Proof.
  unfold edispatch. intros Ht (s & Hs & [= <-])%obind_ok. apply notify_truthful; [done|]. left. by exists ev.
Qed.

(** Both start calls, up to the spawned task. *)
Lemma started_truthful m e e1 e2 :
  truthful e → edispatch (UserStart m) (reset e) = Ok e1 → edispatch EngineReady e1 = Ok e2 → truthful e2.
Proof.
  intros Ht H1 H2. eapply edispatch_truthful, H2. destruct Ht as [_ Hc].
  assert (session (reset e) = Idle ∧ notified (reset e) = notified e) as [Hi Hn].
  { unfold reset. case_bool_decide; [done|]. unfold send. by destruct (existsb _ _). }
  unfold edispatch in H1. rewrite Hi in H1. cbn in H1. injection H1 as <-.
  split; cbn; rewrite Hi, Hn, decide_False by done.
  - by rewrite last_snoc.
  - apply chained_snoc; [done|]. intros s0 _. right. by eexists.
Qed.

Lemma send_truthful v e : truthful e → truthful (send v e).
Proof. unfold send. by destruct (existsb _ _). Qed.

Lemma tdispatch_truthful ev e : truthful e → truthful (tdispatch ev e).
Proof.
  intros Ht. unfold tdispatch, step_state. destruct (transition (session e) ev) as [s| | |] eqn:Hs;
    [apply notify_truthful; [done|]; left; by exists ev|..]; destruct Ht; split; cbn; by rewrite decide_True.
Qed.

Lemma engine_step_truthful e e' : truthful e → engine_step e e' → truthful e'.
Proof.
  intros Ht Hs. destruct Hs as [cfg e e' H|fd cfg e e' H|e e' H|e|e e' H].
  - unfold start_server in H. apply obind_ok in H as (e1 & H1 & (e2 & H2 & [= <-])%obind_ok).
    change (truthful e2). by eapply (started_truthful Server).
  - unfold start_client in H. destruct (fd <? 0); [done|].
    apply obind_ok in H as (e1 & H1 & (e2 & H2 & [= <-])%obind_ok).
    change (truthful e2). by eapply (started_truthful Client).
  - unfold stop in H. apply obind_ok in H as (e1 & H1 & [= <-]).
    by eapply send_truthful, edispatch_truthful.
  - by apply send_truthful.
  - destruct H; try done; by apply (tdispatch_truthful _ _ Ht).
Qed.

(** Reports are never taken back. *)
Lemma edispatch_notified ev e e' : edispatch ev e = Ok e' → notified e `prefix_of` notified e'.
Proof. unfold edispatch. intros (s & _ & [= <-])%obind_ok. cbn. case_decide; [done|]. by eexists. Qed.
Lemma send_notified v e : notified (send v e) = notified e.
Proof. unfold send. by destruct (existsb _ _). Qed.
Lemma reset_notified e : notified (reset e) = notified e.
Proof. unfold reset. case_bool_decide; [done|]. by rewrite send_notified. Qed.

Lemma started_notified ev1 ev2 e e1 e2 :
  edispatch ev1 (reset e) = Ok e1 → edispatch ev2 e1 = Ok e2 → notified e `prefix_of` notified e2.
Proof.
  intros H1%edispatch_notified H2%edispatch_notified. rewrite reset_notified in H1. by etrans.
Qed.

Lemma engine_step_notified e e' : engine_step e e' → notified e `prefix_of` notified e'.
Proof.
  intros Hs. destruct Hs as [cfg e e' H|fd cfg e e' H|e e' H|e|e e' H].
  - unfold start_server in H. apply obind_ok in H as (e1 & H1 & (e2 & H2 & [= <-])%obind_ok).
    change (notified e `prefix_of` notified e2). by eapply started_notified.
  - unfold start_client in H. destruct (fd <? 0); [done|].
    apply obind_ok in H as (e1 & H1 & (e2 & H2 & [= <-])%obind_ok).
    change (notified e `prefix_of` notified e2). by eapply started_notified.
  - unfold stop in H. apply obind_ok in H as (e1 & H1%edispatch_notified & [= <-]).
    by rewrite send_notified.
  - unfold shutdown. by rewrite send_notified.
  - destruct H; cbn; try done; case_decide; try done; by eexists.
Qed.

Lemma listener_state e : rtc engine_step Engine_new e → truthful e.
Proof.
  intros Hr. assert (truthful Engine_new) as Ht by (split; [done|]; intros [] ? ?; done).
  revert Ht. induction Hr; eauto using engine_step_truthful.
Qed.



(** ** What goes wrong *)

(** Nothing is serving, and no task will run again. *)
Definition quiescent (e : Engine) : Prop := ∀ e', ¬ task_step e e'.

Lemma done_quiescent e : Forall (λ t, t = TaskDone) (tasks e) → quiescent e.
Proof.
  intros Hd e' (i & t & Hi & Hne & _)%task_step_inv. rewrite Forall_lookup in Hd. by apply Hd in Hi.
Qed.

Lemma send_tasks v e : tasks (send v e) = tasks e.
Proof. unfold send. by destruct (existsb _ _). Qed.
Lemma reset_tasks e : tasks (reset e) = tasks e.
Proof. unfold reset. case_bool_decide; [done|]. by rewrite send_tasks. Qed.
Lemma edispatch_tasks ev e e' : edispatch ev e = Ok e' → tasks e' = tasks e.
Proof. unfold edispatch. destruct (transition _ _); [|done..]. by intros [= <-]. Qed.

(** The public calls only add tasks. *)
Lemma call_tasks ev1 ev2 t e e1 e2 :
  edispatch ev1 (reset e) = Ok e1 → edispatch ev2 e1 = Ok e2 → tasks (spawn t e2) = tasks e ++ [t].
Proof.
  intros H1%edispatch_tasks H2%edispatch_tasks. cbn. by rewrite H2, H1, reset_tasks.
Qed.

(** The poll task runs for ever once it has been spawned. *)
Lemma poll_task_stays e e' i :
  engine_step e e' → tasks e !! i = Some PollTask → tasks e' !! i = Some PollTask.
Proof.
  intros Hs Hi. destruct Hs as [cfg e e' H|fd cfg e e' H|e e' H|e|e e' H].
  - unfold start_server in H. apply obind_ok in H as (e1 & H1 & (e2 & H2 & [= <-])%obind_ok).
    rewrite (call_tasks _ _ _ e e1 e2 H1 H2). by apply lookup_app_l_Some.
  - unfold start_client in H. destruct (fd <? 0); [done|].
    apply obind_ok in H as (e1 & H1 & (e2 & H2 & [= <-])%obind_ok).
    rewrite (call_tasks _ _ _ e e1 e2 H1 H2). by apply lookup_app_l_Some.
  - unfold stop in H. apply obind_ok in H as (e1 & H1%edispatch_tasks & [= <-]).
    by rewrite send_tasks, H1.
  - unfold shutdown. by rewrite send_tasks.
  - apply task_step_inv in H as (k & t & Hk & _ & Hp & Hrest).
    destruct (Hrest i) as [Hn|Hn]; [congruence|congruence|by rewrite Hn].
Qed.

Lemma poll_task_for_ever e e' i :
  rtc engine_step e e' → tasks e !! i = Some PollTask → tasks e' !! i = Some PollTask.
Proof. intros Hr. induction Hr; eauto using poll_task_stays. Qed.

Lemma bind_failure_history (cfg : ServerConfig) :
  ∃ e, rtc engine_step Engine_new e ∧ quiescent e ∧ tasks e = [TaskDone] ∧
   session e = Connected Server {| proxy_addr := s_socks_bind cfg |}.
Proof.
  eexists. split; [|split; [|split]].
  - eapply rtc_l; [apply (step_start_server cfg); reflexivity|].
    eapply rtc_l; [apply step_task, (server_connected _ 0); reflexivity|].
    eapply rtc_l; [apply step_task; eapply (server_socks _ 0); [reflexivity|apply run_bind_failed]|].
    eapply rtc_l; [apply step_task; eapply (server_http _ 0); [reflexivity|apply run_bind_failed]|].
    eapply rtc_l; [apply step_task, (server_stopped _ 0); reflexivity|]. apply rtc_refl.
  - apply done_quiescent. by repeat constructor.
  - reflexivity.
  - reflexivity.
Qed.

Lemma quick_restart_history (cfg : ServerConfig) :
  ∃ e v, rtc engine_step Engine_new e ∧ shutdown_version e = v ∧
   session e = Connected Server {| proxy_addr := s_socks_bind cfg |} ∧
   tasks e = [ServerRunning (Listening v) (Listening v); TaskDone] ∧ quiescent e.
Proof.
  eexists. exists 2%nat. split; [|split; [|split; [|split]]].
  - etrans; [apply (serving_reachable cfg)|].
    eapply rtc_l; [apply step_stop; reflexivity|].
    eapply rtc_l; [apply (step_start_server cfg); reflexivity|].
    eapply rtc_l; [apply step_task; eapply (server_socks _ 0); [reflexivity|by apply run_changed]|].
    eapply rtc_l; [apply step_task; eapply (server_http _ 0); [reflexivity|by apply run_changed]|].
    eapply rtc_l; [apply step_task, (server_connected _ 1); reflexivity|].
    eapply rtc_l; [apply step_task; eapply (server_socks _ 1); [reflexivity|apply run_bind_failed]|].
    eapply rtc_l; [apply step_task; eapply (server_http _ 1); [reflexivity|apply run_bind_failed]|].
    eapply rtc_l; [apply step_task, (server_stopped _ 1); reflexivity|].
    apply rtc_refl.
  - reflexivity.
  - reflexivity.
  - reflexivity.
  - intros e' Hstep.
    inversion Hstep; subst; match goal with Hi : _ !! ?i = Some _ |- _ => destruct i as [|[|i]] end;
      simplify_eq/=; try naive_solver; match goal with Hr : run_step _ _ _ |- _ => by inversion Hr end.
Qed.

Lemma detached_history :
  ∃ e, rtc engine_step Engine_new e ∧ session e = Idle ∧
   tasks e = [TaskDone; TunReadTask; PollTask] ∧
   ∀ e', rtc engine_step e e' → tasks e' !! 2%nat = Some PollTask.
Proof.
  eexists. split; [|split; [|split]].
  - eapply rtc_l; [apply (step_start_client 3 ClientConfig_default); reflexivity|].
    eapply rtc_l; [apply step_task; eapply (client_connected _ 0); [reflexivity|by split]|].
    eapply rtc_l; [apply step_task, (client_loop _ 0 0); reflexivity|].
    eapply rtc_l; [apply step_stop; reflexivity|].
    eapply rtc_l; [apply step_task, (client_stopped _ 0 (ClientRunning 0) 0); [done|by right|done]|].
    apply rtc_refl.
  - reflexivity.
  - reflexivity.
  - intros e' Hr. by apply (poll_task_for_ever _ e' 2 Hr).
Qed.

Lemma shutdown_history (cfg : ServerConfig) :
  ∃ e, rtc task_step (shutdown (serving (s_socks_bind cfg) 0)) e ∧
   tasks e = [TaskDone] ∧ quiescent e ∧
   session e = Connected Server {| proxy_addr := s_socks_bind cfg |}.
Proof.
  eexists. split; [|split; [|split]].
  - eapply rtc_l; [eapply (server_socks _ 0); [reflexivity|by apply run_changed]|].
    eapply rtc_l; [eapply (server_http _ 0); [reflexivity|by apply run_changed]|].
    eapply rtc_l; [eapply (server_stopped _ 0); reflexivity|]. apply rtc_refl.
  - reflexivity.
  - apply done_quiescent. by repeat constructor.
  - reflexivity.
Qed.

(** C36. Four histories in which the reported state is wrong. (1) When neither
    server can bind its port, the session says Connected for ever although
    nothing is listening: the task reports ProxyConnected before it binds, and
    the EngineStopped it ends with is not accepted in Connected. (2) When
    [start_server] is called after [stop] and before the old servers have seen
    the shutdown, it overwrites the shutdown value with false: the old servers
    see only that value and go on listening, so that the stopped server is
    still up while the new one, unable to bind the same ports, is gone. (3)
    When a client has stopped and the session is Idle, the tasks that read the
    TUN device and poll the stack are still there, because dropping their
    handles detaches them; the poll task then stays in every later state, over
    restarts and shutdowns. (4) After [shutdown] both servers of a running
    session stop and their task ends, but the session says Connected for ever:
    [shutdown] does not tell it, and EngineStopped is refused in Connected. *)
Theorem lifecycle_anomalies (cfg : ServerConfig) :
  (∃ e, rtc engine_step Engine_new e ∧ quiescent e ∧ tasks e = [TaskDone] ∧
     session e = Connected Server {| proxy_addr := s_socks_bind cfg |}) ∧
  (∃ e v, rtc engine_step Engine_new e ∧ shutdown_version e = v ∧
     session e = Connected Server {| proxy_addr := s_socks_bind cfg |} ∧
     tasks e = [ServerRunning (Listening v) (Listening v); TaskDone] ∧ quiescent e) ∧
  (∃ e, rtc engine_step Engine_new e ∧ session e = Idle ∧
     tasks e = [TaskDone; TunReadTask; PollTask] ∧
     ∀ e', rtc engine_step e e' → tasks e' !! 2%nat = Some PollTask) ∧
  (∃ e, rtc task_step (shutdown (serving (s_socks_bind cfg) 0)) e ∧
     tasks e = [TaskDone] ∧ quiescent e ∧
     session e = Connected Server {| proxy_addr := s_socks_bind cfg |}).
Proof.
  split_and!; [apply bind_failure_history|apply quick_restart_history|apply detached_history
    |apply shutdown_history].
Qed.
