(* ===== verification/Report.v ===== *)
(** * gravital-engine: what the engine reports (runner.rs, metrics.rs)

    The event that is sent for each state of the session, the text of the
    state, and the snapshot of the counters.  serde_json's printers and
    [Debug] of a [String] (whose escapes depend on Unicode tables) are
    parameters. *)

From Stdlib Require Import ZArith Lia.
From Stdlib Require Import String.
From stdpp Require Import sets.
From S2P Require Import Prelude Bytes Net Session Text Display Engine.
From stdpp Require Import list.
Local Open Scope list_scope.
Local Open Scope Z_scope.

(** A string in double quotes. *)
Definition quoted (s : list Z) : list Z := [34] ++ s ++ [34].

(** ** Names of the variants *)
Definition mode_name (m : SessionMode) : list Z :=
  match m with Client => str "Client" | Server => str "Server" end.
Definition reason_name (r : StopReason) : list Z :=
  match r with
  | StopUserRequest => str "UserRequest"
  | StopFatalError => str "FatalError"
  | StopShutdown => str "Shutdown"
  end.
Definition failure_name (k : FailureKind) : list Z :=
  match k with
  | PermissionDenied => str "PermissionDenied"
  | ConfigInvalid => str "ConfigInvalid"
  | ProxyUnreachable => str "ProxyUnreachable"
  | DnsResolveFailed => str "DnsResolveFailed"
  | TunOpenFailed => str "TunOpenFailed"
  | EngineCrashed => str "EngineCrashed"
  | UpstreamVpnDown => str "UpstreamVpnDown"
  | Unknown => str "Unknown"
  end.

(** ** session_state_to_json *)

(** The literal event of a state, and the two with a field more. *)
Definition transition_json (to : list Z) : list Z :=
  str "{" ++ quoted (str "kind") ++ str ":" ++ quoted (str "session.transition") ++ str "," ++
  quoted (str "to") ++ str ":" ++ quoted to ++ str "}".
Definition transition_json_with (to key value : list Z) : list Z :=
  str "{" ++ quoted (str "kind") ++ str ":" ++ quoted (str "session.transition") ++ str "," ++
  quoted (str "to") ++ str ":" ++ quoted to ++ str "," ++
  quoted key ++ str ":" ++ quoted value ++ str "}".

Definition session_state_to_json (s : SessionState) : list Z :=
  match s with
  | Idle => transition_json (str "Idle")
  | Preparing _ => transition_json (str "Preparing")
  | Connecting _ _ => transition_json (str "Connecting")
  | Connected _ peer =>
      transition_json_with (str "Connected") (str "peer") (display_addr (proxy_addr peer))
  | Reconnecting _ _ _ => transition_json (str "Reconnecting")
  | Stopping _ _ => transition_json (str "Stopping")
  | Failed _ error _ => transition_json_with (str "Failed") (str "error") (failure_name error)
  end.

(** ** The text of a state: the derived [Debug] *)
Section debug.
Variable debug_str : list Z → list Z.

Definition field (name : string) (value : list Z) : list Z := str name ++ str ": " ++ value.
Definition debug_struct (name : string) (fields : list (list Z)) : list Z :=
  str name ++ str " { " ++ join_with (str ", ") fields ++ str " }".
Definition debug_bool (b : bool) : list Z := if b then str "true" else str "false".
Definition debug_option (o : option (list Z)) : list Z :=
  match o with None => str "None" | Some s => str "Some(" ++ debug_str s ++ str ")" end.

Definition debug_state (s : SessionState) : list Z :=
  match s with
  | Idle => str "Idle"
  | Preparing m => debug_struct "Preparing" [field "mode" (mode_name m)]
  | Connecting m n =>
      debug_struct "Connecting" [field "mode" (mode_name m); field "attempt" (dec n)]
  | Connected m p =>
      debug_struct "Connected" [field "mode" (mode_name m);
        field "peer" (debug_struct "PeerInfo" [field "proxy_addr" (display_addr (proxy_addr p))])]
  | Reconnecting m n e =>
      debug_struct "Reconnecting" [field "mode" (mode_name m); field "attempt" (dec n);
        field "last_error" (debug_option e)]
  | Stopping m r =>
      debug_struct "Stopping" [field "mode" (mode_name m); field "reason" (reason_name r)]
  | Failed m e b =>
      debug_struct "Failed" [field "mode" (mode_name m); field "error" (failure_name e);
        field "recoverable" (debug_bool b)]
  end.

(** [state_json]; [json_string] is serde_json's printer of a string. *)
Variable json_string : list Z → option (list Z).
Definition state_json (s : SessionState) : list Z := default [] (json_string (debug_state s)).
End debug.

(** ** metrics.rs: the snapshot *)
Record MetricsSnapshot := {
  snap_bytes_in : Z; snap_bytes_out : Z; snap_packets_in : Z; snap_packets_out : Z;
  snap_active_tcp_sessions : Z; snap_active_udp_assocs : Z; snap_dns_queries : Z;
  snap_dns_leaks_detected : Z; snap_reconnects : Z; snap_last_rtt_ms : Z;
  snap_drops_buffer_full : Z; snap_drops_parse_error : Z; snap_socks_handshake_failures : Z
}.

Definition snapshot (m : EngineMetrics) : MetricsSnapshot :=
  {| snap_bytes_in := bytes_in m; snap_bytes_out := bytes_out m; snap_packets_in := packets_in m;
     snap_packets_out := packets_out m; snap_active_tcp_sessions := active_tcp_sessions m;
     snap_active_udp_assocs := active_udp_assocs m; snap_dns_queries := dns_queries m;
     snap_dns_leaks_detected := dns_leaks_detected m; snap_reconnects := reconnects m;
     snap_last_rtt_ms := last_rtt_ms m; snap_drops_buffer_full := drops_buffer_full m;
     snap_drops_parse_error := drops_parse_error m;
     snap_socks_handshake_failures := socks_handshake_failures m |}.

(** [metrics_json]; [json_snapshot] is the derived serializer. *)
Definition metrics_json (json_snapshot : MetricsSnapshot → option (list Z)) (m : EngineMetrics) : list Z :=
  default [] (json_snapshot (snapshot m)).

(** ** A reader of flat JSON objects

    The reference: an object whose values are strings without escapes.  The
    reader is total and rejects everything else. *)
Definition plain (b : Z) : bool := negb (b =? 34) && negb (b =? 92) && (32 <=? b).

Fixpoint json_body (l : list Z) : option (list Z * list Z) :=
  match l with
  | [] => None
  | b :: r =>
      if b =? 34 then Some ([], r)
      else if plain b then '(s, r) ← json_body r; Some (b :: s, r) else None
  end.
Definition json_str (l : list Z) : option (list Z * list Z) :=
  match l with b :: r => if b =? 34 then json_body r else None | [] => None end.

Fixpoint json_fields (fuel : nat) (l : list Z) : option (list (list Z * list Z)) :=
  match fuel with
  | O => None
  | S fuel =>
      '(k, l) ← json_str l;
      match l with
      | c :: l =>
          if c =? 58 then
            '(v, l) ← json_str l;
            match l with
            | c :: l =>
                if c =? 44 then fs ← json_fields fuel l; Some ((k, v) :: fs)
                else if (c =? 125) && bool_decide (l = []) then Some [(k, v)] else None
            | [] => None
            end
          else None
      | [] => None
      end
  end.
Definition flat_json (l : list Z) : option (list (list Z * list Z)) :=
  match l with b :: r => if b =? 123 then json_fields (length r) r else None | [] => None end.

(** What an event says. *)
Definition state_name (s : SessionState) : list Z :=
  match s with
  | Idle => str "Idle"
  | Preparing _ => str "Preparing"
  | Connecting _ _ => str "Connecting"
  | Connected _ _ => str "Connected"
  | Reconnecting _ _ _ => str "Reconnecting"
  | Stopping _ _ => str "Stopping"
  | Failed _ _ _ => str "Failed"
  end.
Definition event_fields (s : SessionState) : list (list Z * list Z) :=
  [(str "kind", str "session.transition"); (str "to", state_name s)] ++
  match s with
  | Connected _ p => [(str "peer", display_addr (proxy_addr p))]
  | Failed _ k _ => [(str "error", failure_name k)]
  | _ => []
  end.

Definition render_field (f : list Z * list Z) : list Z := quoted f.1 ++ str ":" ++ quoted f.2.
Definition render (fs : list (list Z * list Z)) : list Z :=
  str "{" ++ join_with (str ",") (render_field <$> fs) ++ str "}".

Definition plain_field (f : list Z * list Z) : Prop :=
  forallb plain f.1 = true ∧ forallb plain f.2 = true.

Lemma json_str_quoted s r : forallb plain s = true → json_str (quoted s ++ r) = Some (s, r).
Proof.
  unfold quoted. cbn. induction s as [|b s IH]; [done|]. cbn. intros [Hb Hs]%andb_true_iff.
  rewrite Hb, IH by done. destruct (Z.eqb_spec b 34) as [->|]; [done|]. done.
Qed.

Lemma json_fields_render fs fuel :
  fs ≠ [] → Forall plain_field fs → (length fs ≤ fuel)%nat →
  json_fields fuel (join_with (str ",") (render_field <$> fs) ++ str "}") = Some fs.
Proof.
  revert fuel. induction fs as [|[k v] fs IH]; intros fuel Hne Hp Hf; [done|].
  apply Forall_cons in Hp as [[Hk Hv] Hp]. destruct fuel as [|fuel]; [cbn in Hf; lia|].
  assert (∀ r, json_fields (S fuel) (render_field (k, v) ++ r) =
    match r with
    | c :: l => if c =? 44 then fs ← json_fields fuel l; Some ((k, v) :: fs)
                else if (c =? 125) && bool_decide (l = []) then Some [(k, v)] else None
    | [] => None
    end) as Hstep.
  { intros r. unfold render_field. cbn [fst snd]. rewrite <- !app_assoc. cbn [json_fields].
    rewrite json_str_quoted by done. cbn [mbind option_bind str app]. change (_ =? 58) with true.
    cbn iota. rewrite json_str_quoted by done. done. }
  destruct fs as [|f fs]; cbn [fmap list_fmap join_with] in *; rewrite ?app_nil_r; rewrite <- ?app_assoc, Hstep.
  - done.
  - cbn [str app]. change (_ =? 44) with true. cbn iota.
    rewrite IH; [done|done|done|cbn in *; lia].
Qed.

Lemma flat_json_render fs : fs ≠ [] → Forall plain_field fs → flat_json (render fs) = Some fs.
Proof.
  intros Hne Hp. unfold render. cbn [str app flat_json]. change (_ =? 123) with true. cbn iota.
  apply json_fields_render; [done|done|]. rewrite length_app. clear Hp Hne.
  induction fs as [|f fs IH]; [cbn; lia|]. destruct fs as [|g fs]; [cbn; lia|].
  cbn [fmap list_fmap join_with] in *. rewrite !length_app. cbn [length] in *. lia.
Qed.

Lemma addr_char_plain b : addr_char b = true → plain b = true.
Proof.
  unfold addr_char, is_hex, is_digit, plain. cbn.
  rewrite !orb_true_iff, !andb_true_iff, !Z.leb_le, !Z.eqb_eq, !negb_true_iff, !Z.eqb_neq. lia.
Qed.

Lemma display_addr_plain a : sockaddr_ok a → forallb plain (display_addr a) = true.
Proof.
  intros Ha%display_addr_chars. apply forallb_forall. intros b Hb. apply addr_char_plain.
  by apply forallb_forall with (x := b) in Ha.
Qed.

Definition peer_ok (s : SessionState) : Prop :=
  match s with Connected _ p => sockaddr_ok (proxy_addr p) | _ => True end.

Lemma session_state_to_json_ok s :
  peer_ok s → flat_json (session_state_to_json s) = Some (event_fields s).
Proof.
  intros Hs. assert (session_state_to_json s = render (event_fields s)) as ->.
  { destruct s; unfold session_state_to_json, transition_json, transition_json_with, render, event_fields,
      render_field; cbn [fmap list_fmap app join_with fst snd]; by rewrite <- ?app_assoc. }
  apply flat_json_render; [done|]. unfold event_fields.
  destruct s as [|m|m n|m p|m n e|m r|m k b]; repeat constructor; cbn [fst snd]; try done.
  - by apply display_addr_plain.
  - by destruct k.
Qed.

(** The event of every state of the session is well-formed JSON: a reader
    of flat objects gets exactly the fields kind (session.transition) and to
    (the name of the state), then the address of the peer when connected and
    the name of the failure when failed, whatever the address is. *)
Theorem session_state_to_json_fields (s : SessionState) (Hs : peer_ok s) :
  flat_json (session_state_to_json s) = Some (event_fields s).
Proof. by apply session_state_to_json_ok. Qed.

Lemma session_state_to_json_fields_witness :
  flat_json (session_state_to_json (Connected Client {| proxy_addr := SockV4 [192; 168; 43; 1] 1080 |})) =
    Some [(str "kind", str "session.transition"); (str "to", str "Connected");
          (str "peer", str "192.168.43.1:1080")].
Proof.
  refine (session_state_to_json_fields (Connected Client {| proxy_addr := SockV4 [192; 168; 43; 1] 1080 |}) _).
  split; [split; [reflexivity|repeat constructor; lia]|split; lia].
Defined.
