(* ===== verification/Ffi.v ===== *)
(** * gravital-ffi/src/c_api.rs: the C interface

    A caller's buffer is [None] for a null pointer, else its bytes (at least
    as many as the length argument says).  A panic is caught at the boundary
    and becomes -6. *)

From Stdlib Require Import ZArith Lia.
From Stdlib Require Import String.
From S2P Require Import Prelude Bytes Utf8 Text.
Local Open Scope list_scope.
Local Open Scope Z_scope.

Definition FFI_VERSION : Z := 1.

(** [catch_panic!]. *)
Definition catch_panic {A} (body : Outcome Empty_set (Z * A)) (before : A) : Z * A :=
  match body with
  | Ok r => r
  | Err e => match e with end
  | Panic | Diverge => (-6, before)
  end.

(** [x as i32]. *)
Definition as_i32 (x : Z) : Z := (x + 2 ^ 31) mod 2 ^ 32 - 2 ^ 31.

Definition write_str_to_buf (s : list Z) (buf : option (list Z)) (len : Z)
    : Z * option (list Z) :=
  match buf with
  | None => (-7, buf)
  | Some mem =>
      if len =? 0 then (-7, buf)
      else if len <? Z.of_nat (length s) + 1 then (-7, buf)
      else
        let mem := list_inserts 0 s mem in
        let mem := <[length s := 0]> mem in
        (as_i32 (Z.of_nat (length s)), Some mem)
  end.

(** [CStr::from_ptr(p).to_str().unwrap_or_default()]: the bytes before the
    first NUL, if they are UTF-8. *)
Definition c_str (p : list Z) : list Z :=
  let s := (until 0 p).1 in if is_utf8 s then s else [].

Definition gravital_engine_init (config_json : option (list Z)) : Z :=
  (catch_panic (Ok (0, tt)) tt).1.

Definition gravital_engine_start_server (config_json : option (list Z)) : Z :=
  (catch_panic
     match config_json with
     | None => Ok (-1, tt)
     | Some p => let json := c_str p in Ok (0, tt)
     end tt).1.

Definition gravital_engine_start_client (tun_fd : Z) (config_json : option (list Z)) : Z :=
  (catch_panic
     (if tun_fd <? 0 then Ok (-4, tt)
      else match config_json with
           | None => Ok (-1, tt)
           | Some p => let json := c_str p in Ok (0, tt)
           end) tt).1.

Definition gravital_engine_stop : Z := (catch_panic (Ok (0, tt)) tt).1.
Definition gravital_engine_shutdown : Z := (catch_panic (Ok (0, tt)) tt).1.

Definition quote : list Z := [34].
Definition IDLE_JSON : list Z :=
  str "{" ++ quote ++ str "state" ++ quote ++ str ":" ++ quote ++ str "Idle" ++ quote ++ str "}".
Definition STATS_JSON : list Z :=
  str "{" ++ quote ++ str "bytes_in" ++ quote ++ str ":0," ++ quote ++ str "bytes_out" ++ quote ++
  str ":0}".

Definition gravital_engine_get_state (out_buf : option (list Z)) (out_buf_len : Z)
    : Z * option (list Z) :=
  catch_panic (Ok (write_str_to_buf IDLE_JSON out_buf out_buf_len)) out_buf.
Definition gravital_engine_get_stats (out_buf : option (list Z)) (out_buf_len : Z)
    : Z * option (list Z) :=
  catch_panic (Ok (write_str_to_buf STATS_JSON out_buf out_buf_len)) out_buf.

Definition gravital_engine_set_event_callback : Z := (catch_panic (Ok (0, tt)) tt).1.
Definition gravital_engine_version : list Z := str "0.1.0" ++ [0].
Definition gravital_engine_ffi_version : Z := FFI_VERSION.

(** What a C caller reads back: the bytes before the first NUL. *)
Definition c_read (mem : list Z) : list Z := (until 0 mem).1.

Lemma write_str_fits (s mem : list Z) (len : Z) :
  0 ∉ s → len ≤ Z.of_nat (length mem) → Z.of_nat (length s) < 2 ^ 31 → Z.of_nat (length s) < len →
  ∃ mem', write_str_to_buf s (Some mem) len = (Z.of_nat (length s), Some mem') ∧
    c_read mem' = s ∧ length mem' = length mem ∧
    ∀ i, (length s < i)%nat → mem' !!! i = mem !!! i.
Proof.
  intros Hs Hlen H31 Hl. cbn [write_str_to_buf].
  destruct (Z.eqb_spec len 0); [lia|]. destruct (Z.ltb_spec len (Z.of_nat (length s) + 1)); [lia|].
  eexists. split; [|split; [|split]].
  - unfold as_i32. rewrite Z.mod_small by lia. f_equal. lia.
  - unfold c_read. rewrite inserts_split by lia. rewrite take_0. cbn [app Nat.add].
    rewrite insert_app_r_alt by done. rewrite Nat.sub_diag.
    destruct (drop (length s) mem) as [|b r] eqn:Hd.
    { apply (f_equal length) in Hd. len_in Hd. lia. }
    cbn. by rewrite until_app.
  - len.
  - intros i Hi. rewrite total_insert by (autorewrite with len; lia).
    rewrite decide_False by lia. rewrite total_inserts by lia. by rewrite decide_False by lia.
Qed.

(** C38. Buffers of the C interface: writing a string (without NUL) into a
    caller's buffer of [len] bytes either fits, with its NUL, and then returns
    its length, stores exactly it (a C reader gets it back) and touches nothing
    past the NUL; or returns -7 and leaves the buffer alone. So no byte past
    [len] is ever written, and a null buffer is never touched. *)
Theorem write_str_to_buf_spec (s mem : list Z) (len : Z)
    (Hs : 0 ∉ s) (Hlen : 0 ≤ len ≤ Z.of_nat (length mem)) (H31 : Z.of_nat (length s) < 2 ^ 31) :
  write_str_to_buf s None len = (-7, None) ∧
  (Z.of_nat (length s) < len →
     ∃ mem', write_str_to_buf s (Some mem) len = (Z.of_nat (length s), Some mem') ∧
       c_read mem' = s ∧ length mem' = length mem ∧
       ∀ i, (length s < i)%nat → mem' !!! i = mem !!! i) ∧
  (len ≤ Z.of_nat (length s) → write_str_to_buf s (Some mem) len = (-7, Some mem)).
Proof.
  split; [done|]. split; [intros Hl; apply write_str_fits; done || lia|]. intros Hl. cbn [write_str_to_buf].
  destruct (Z.eqb_spec len 0); [done|]. by destruct (Z.ltb_spec len (Z.of_nat (length s) + 1)); [|lia].
Qed.

Lemma write_str_to_buf_spec_witness :
  ∃ mem', write_str_to_buf IDLE_JSON (Some (replicate 20 7)) 20 = (16, Some mem') ∧
    c_read mem' = IDLE_JSON.
Proof.
  destruct (write_str_to_buf_spec IDLE_JSON (replicate 20 7) 20) as (_ & H & _).
  - refine (bool_decide_eq_true_1 (0 ∉ IDLE_JSON) _). vm_compute. reflexivity.
  - cbn. lia.
  - cbn. lia.
  - destruct H as (mem' & H1 & H2 & _); [cbn; lia|]. exists mem'. split; [exact H1|exact H2].
Defined.
