(* ===== verification/Jni.v ===== *)
(** * The Java interface: gravital-engine/src/jni_android.rs, the process-wide
    engine of runner.rs, and the stubs of gravital-ffi/src/jni_api.rs

    [Process] is everything the entry points share: the engine ([INSTANCE] in
    runner.rs), its event callback, the Java virtual machine and the registered
    Kotlin object.  The virtual machine, serde_json and the construction of the
    tokio runtime are parameters.  [java_calls] is the log of the calls of
    [onEvent]. *)

From Stdlib Require Import ZArith Lia.
From Stdlib Require Import String.
From stdpp Require Import relations.
From S2P Require Import Prelude Bytes Net Io Session Text Display Engine Lifecycle Report Ffi.
From stdpp Require Import list.
Local Open Scope list_scope.
Local Open Scope Z_scope.

(** ** error.rs: ffi_code *)
Module ffi_code.
Definition OK : Z := 0.
Definition INVALID_ARG : Z := -1.
Definition ALREADY_INITIALIZED : Z := -2.
Definition NOT_INITIALIZED : Z := -3.
Definition INVALID_FD : Z := -4.
Definition CONFIG_INVALID : Z := -5.
Definition INTERNAL_PANIC : Z := -6.
Definition BUFFER_TOO_SMALL : Z := -7.
Definition IO_ERROR : Z := -8.
Definition STATE_TRANSITION_INVALID : Z := -9.
End ffi_code.

(** ** config.rs *)
Inductive EngineConfig :=
| ConfigClient (c : ClientConfig)
| ConfigServer (c : ServerConfig).

Section jni.
(** [GlobalRef]: a reference to a Java object; [JObject]: a local one. *)
Context {JObject GlobalRef JString : Type}.

Record Process := {
  instance : option Engine;
  metrics : EngineMetrics;
  (** the engine's [event_callback] is [fire_jvm_event] *)
  callback_set : bool;
  jvm_instance : bool;
  event_callback : option GlobalRef; poisoned : bool;
  java_calls : list (GlobalRef * list Z)
}.

Definition Process_new : Process :=
  {| instance := None; metrics := EngineMetrics_new; callback_set := false; jvm_instance := false;
     event_callback := None; poisoned := false; java_calls := [] |}.

(** The virtual machine: [attach_current_thread], [new_string], [get_java_vm]
    and [new_global_ref]; what they answer may depend on the process. *)
Variable attach_current_thread : Process → bool.
Variable new_string : Process → list Z → option JString.
Variable get_java_vm : Process → bool.
Variable new_global_ref : Process → JObject → option GlobalRef.
(** the tokio runtime of [Engine::new], and [serde_json::from_str] *)
Variable build_runtime : Process → Outcome IoErrorKind unit.
Variable parse_config : list Z → option EngineConfig.

Definition call_on_event (cb : GlobalRef) (json : list Z) (p : Process) : Process :=
  {| instance := instance p; metrics := metrics p; callback_set := callback_set p;
     jvm_instance := jvm_instance p; event_callback := event_callback p; poisoned := poisoned p;
     java_calls := java_calls p ++ [(cb, json)] |}.

Definition fire_jvm_event (json : list Z) (p : Process) : Process :=
  if negb (jvm_instance p) then p
  else if poisoned p then p
  else
    match event_callback p with
    | None => p
    | Some cb =>
        if attach_current_thread p then
          match new_string p json with Some _ => call_on_event cb json p | None => p end
        else p
    end.

(** The listener that [Engine::new] registers with the session. *)
Definition engine_listener (s : SessionState) (p : Process) : Process :=
  if callback_set p then fire_jvm_event (session_state_to_json s) p else p.

(** The engine goes on to [e]: the listener runs once for each state that has
    been reported meanwhile. *)
Definition set_engine (e : Engine) (p : Process) : Process :=
  let seen := match instance p with Some e0 => length (notified e0) | None => 0%nat end in
  let p := {| instance := Some e; metrics := metrics p; callback_set := callback_set p;
              jvm_instance := jvm_instance p; event_callback := event_callback p;
              poisoned := poisoned p; java_calls := java_calls p |} in
  foldl (λ p s, engine_listener s p) p (drop seen (notified e)).

(** ** runner.rs: the singleton *)
Definition Engine_init (p : Process) : Outcome EngineError Process :=
  match build_runtime p with
  | Ok _ =>
      match instance p with
      | Some _ => Err AlreadyInitialized
      | None =>
          Ok {| instance := Some Engine_new; metrics := EngineMetrics_new; callback_set := false;
                jvm_instance := jvm_instance p; event_callback := event_callback p;
                poisoned := poisoned p; java_calls := java_calls p |}
      end
  | Err e => Err (EngineIo e)
  | Panic => Panic
  | Diverge => Diverge
  end.

Definition Engine_get (p : Process) : Outcome EngineError Engine :=
  match instance p with Some e => Ok e | None => Err NotInitialized end.

Definition set_event_callback (p : Process) : Process :=
  {| instance := instance p; metrics := metrics p; callback_set := true;
     jvm_instance := jvm_instance p; event_callback := event_callback p;
     poisoned := poisoned p; java_calls := java_calls p |}.

(** ** jni_android.rs *)
Definition get_or_init (p : Process) : Outcome EngineError Engine * Process :=
  match Engine_get p with
  | Ok e => (Ok e, p)
  | _ =>
      match Engine_init p with
      | Ok p => (Engine_get p, p)
      | Err AlreadyInitialized => (Engine_get p, p)
      | Err e => (Err e, p)
      | Panic => (Panic, p)
      | Diverge => (Diverge, p)
      end
  end.

(** [config_json] is what [env.get_string] answers. *)
Definition EngineBridge_init (config_json : option (list Z)) (p : Process) : Z * Process :=
  catch_panic
    match Engine_init p with
    | Ok p => Ok (ffi_code.OK, p)
    | Err AlreadyInitialized => Ok (ffi_code.OK, p)
    | Err _ => Ok (ffi_code.INVALID_ARG, p)
    | Panic => Panic
    | Diverge => Diverge
    end p.

Definition set_jvm (p : Process) : Process :=
  {| instance := instance p; metrics := metrics p; callback_set := callback_set p;
     jvm_instance := true; event_callback := event_callback p;
     poisoned := poisoned p; java_calls := java_calls p |}.
Definition store_callback (g : GlobalRef) (p : Process) : Process :=
  if poisoned p then p
  else {| instance := instance p; metrics := metrics p; callback_set := callback_set p;
          jvm_instance := jvm_instance p; event_callback := Some g;
          poisoned := poisoned p; java_calls := java_calls p |}.

Definition EngineBridge_nativeSetEventCallback (callback : JObject) (p : Process) : Z * Process :=
  catch_panic
    (if negb (jvm_instance p) && negb (get_java_vm p) then Ok (ffi_code.INTERNAL_PANIC, p)
     else
       let p := set_jvm p in
       match new_global_ref p callback with
       | None => Ok (ffi_code.INTERNAL_PANIC, p)
       | Some global_ref =>
           let p := store_callback global_ref p in
           match get_or_init p with
           | (Ok _, p) => Ok (ffi_code.OK, set_event_callback p)
           | (Err _, p) => Ok (ffi_code.NOT_INITIALIZED, p)
           | (Panic, _) => Panic
           | (Diverge, _) => Diverge
           end
       end) p.

(** The end of both start calls: the code of the result. *)
Definition started (r : Outcome EngineError Engine) (p : Process) : Outcome Empty_set (Z * Process) :=
  match r with
  | Ok e => Ok (ffi_code.OK, set_engine e p)
  | Err InvalidFd => Ok (ffi_code.INVALID_FD, p)
  | Err _ => Ok (ffi_code.INVALID_ARG, p)
  | Panic => Panic
  | Diverge => Diverge
  end.

Definition EngineBridge_startServer (config_json : option (list Z)) (p : Process) : Z * Process :=
  catch_panic
    (let json := default [] config_json in
     let server_cfg := match parse_config json with
                       | Some (ConfigServer c) => c
                       | _ => ServerConfig_default
                       end in
     match get_or_init p with
     | (Ok engine, p) => started (start_server server_cfg engine) p
     | (Err _, p) => Ok (ffi_code.NOT_INITIALIZED, p)
     | (Panic, _) => Panic
     | (Diverge, _) => Diverge
     end) p.

Definition EngineBridge_startClient (tun_fd : Z) (config_json : option (list Z)) (p : Process)
    : Z * Process :=
  catch_panic
    (if tun_fd <? 0 then Ok (ffi_code.INVALID_FD, p)
     else
       let json := default [] config_json in
       let client_cfg := match parse_config json with
                         | Some (ConfigClient c) => c
                         | _ => ClientConfig_default
                         end in
       match get_or_init p with
       | (Ok engine, p) => started (start_client tun_fd client_cfg engine) p
       | (Err _, p) => Ok (ffi_code.NOT_INITIALIZED, p)
       | (Panic, _) => Panic
       | (Diverge, _) => Diverge
       end) p.

Definition EngineBridge_stop (p : Process) : Z * Process :=
  catch_panic
    match Engine_get p with
    | Ok engine =>
        match stop engine with
        | Ok e => Ok (ffi_code.OK, set_engine e p)
        | Err _ => Ok (ffi_code.INVALID_ARG, p)
        | Panic => Panic
        | Diverge => Diverge
        end
    | _ => Ok (ffi_code.OK, p)
    end p.

Definition EngineBridge_shutdown (p : Process) : Z * Process :=
  catch_panic
    match Engine_get p with
    | Ok engine => Ok (ffi_code.OK, set_engine (shutdown engine) p)
    | _ => Ok (ffi_code.OK, p)
    end p.

(** The two queries; [None] is a null [jstring].  [debug_str], [json_string]
    and [json_snapshot] print a string, a JSON string and the counters. *)
Definition EngineBridge_getState (debug_str : list Z → list Z) (json_string : list Z → option (list Z))
    (p : Process) : option JString :=
  new_string p match Engine_get p with
               | Ok e => state_json debug_str json_string (session e)
               | _ => IDLE_JSON
               end.
Definition EngineBridge_getStats (json_snapshot : MetricsSnapshot → option (list Z)) (p : Process)
    : option JString :=
  new_string p match Engine_get p with
               | Ok _ => metrics_json json_snapshot (metrics p)
               | _ => STATS_JSON
               end.
Definition EngineBridge_ffiVersion : Z := as_i32 FFI_VERSION.

(** ** The process: calls from Java, in any order, and the engine's tasks *)
Inductive proc_step : Process → Process → Prop :=
| call_init cfg p : proc_step p (EngineBridge_init cfg p).2
| call_set_callback cb p : proc_step p (EngineBridge_nativeSetEventCallback cb p).2
| call_start_server cfg p : proc_step p (EngineBridge_startServer cfg p).2
| call_start_client fd cfg p : proc_step p (EngineBridge_startClient fd cfg p).2
| call_stop p : proc_step p (EngineBridge_stop p).2
| call_shutdown p : proc_step p (EngineBridge_shutdown p).2
| task_runs p e e' : instance p = Some e → task_step e e' → proc_step p (set_engine e' p).

(** ** Lemmas *)
Definition same_callback (p q : Process) : Prop :=
  instance q = instance p ∧ callback_set q = callback_set p ∧ jvm_instance q = jvm_instance p ∧
  event_callback q = event_callback p ∧ poisoned q = poisoned p.

Lemma listener_frame s p : same_callback p (engine_listener s p).
Proof. unfold engine_listener, fire_jvm_event. by repeat case_match. Qed.

Lemma listeners_frame ss p : same_callback p (foldl (λ p s, engine_listener s p) p ss).
Proof.
  revert p. induction ss as [|s ss IH]; intros p; [done|]. cbn.
  destruct (IH (engine_listener s p)) as (H1 & H2 & H3 & H4 & H5). unfold same_callback.
  rewrite H1, H2, H3, H4, H5. apply listener_frame.
Qed.

Lemma set_engine_frame e p :
  instance (set_engine e p) = Some e ∧ callback_set (set_engine e p) = callback_set p ∧
  jvm_instance (set_engine e p) = jvm_instance p ∧ event_callback (set_engine e p) = event_callback p ∧
  poisoned (set_engine e p) = poisoned p.
Proof.
  unfold set_engine. match goal with |- context [foldl _ ?q ?ss] => exact (listeners_frame ss q) end.
Qed.

(** The invariant of the process. *)
Record proc_wf (p : Process) : Prop := {
  wf_engine e : instance p = Some e → rtc engine_step Engine_new e;
  wf_poisoned : poisoned p = false;
  wf_callback : callback_set p = true →
    is_Some (instance p) ∧ is_Some (event_callback p) ∧ jvm_instance p = true
}.

Lemma Process_new_wf : proc_wf Process_new.
Proof. by split. Qed.

Lemma set_engine_wf e e' p :
  proc_wf p → instance p = Some e → engine_step e e' → proc_wf (set_engine e' p).
Proof.
  intros [He Hp Hc] Hi Hs. destruct (set_engine_frame e' p) as (H1 & H2 & H3 & H4 & H5).
  split; rewrite ?H1, ?H2, ?H3, ?H4, ?H5; [|done|].
  - intros ? [= <-]. eapply rtc_r; [by apply He|done].
  - intros Hset. destruct (Hc Hset) as (_ & ? & ?). by eauto.
Qed.

(** [start_server] always succeeds, [start_client] with a descriptor. *)
Lemma reset_idle e : session (reset e) = Idle.
Proof. unfold reset. case_bool_decide; [done|]. unfold send. by destruct (existsb _ _). Qed.
Lemma start_server_total cfg e : ∃ e', start_server cfg e = Ok e'.
Proof. unfold start_server, edispatch. rewrite reset_idle. cbn. by eexists. Qed.
Lemma start_client_total fd cfg e : 0 ≤ fd → ∃ e', start_client fd cfg e = Ok e'.
Proof.
  intros Hfd. unfold start_client. destruct (Z.ltb_spec fd 0); [lia|].
  unfold edispatch. rewrite reset_idle. cbn. by eexists.
Qed.

(** The answers of [build_runtime] are results. *)
Definition runtime_ok : Prop := ∀ p, returned (build_runtime p).

Lemma get_or_init_cases p :
  runtime_ok →
  (∃ e, get_or_init p = (Ok e, p) ∧ instance p = Some e) ∨
  (instance p = None ∧ ∃ p', get_or_init p = (Ok Engine_new, p') ∧ Engine_init p = Ok p' ∧
     instance p' = Some Engine_new) ∨
  (instance p = None ∧ ∃ e, build_runtime p = Err e ∧ get_or_init p = (Err (EngineIo e), p)).
Proof.
  intros Hrt. specialize (Hrt p). unfold get_or_init, Engine_get, Engine_init.
  destruct (instance p) as [e|] eqn:Hi; [left; by exists e|right].
  destruct (build_runtime p) as [[]|e| |]; try done; [left|right]; split; try done; by eexists.
Qed.

Lemma Engine_init_wf p p' : proc_wf p → Engine_init p = Ok p' → proc_wf p'.
Proof.
  intros [He Hp Hc]. unfold Engine_init. destruct (build_runtime p); try done.
  destruct (instance p); [done|]. intros [= <-]. split; cbn; [|done|done].
  intros e [= <-]. apply rtc_refl.
Qed.

(** ** Return codes *)
Definition available (p : Process) : bool :=
  match instance p, build_runtime p with Some _, _ | None, Ok _ => true | None, _ => false end.
Definition can_stop (s : SessionState) : bool :=
  match s with Connected _ _ | Reconnecting _ _ _ => true | _ => false end.

(** The engine that a call finds or makes, and the process with it. *)
Lemma get_or_init_wf p :
  runtime_ok → proc_wf p →
  if available p then ∃ p' e, get_or_init p = (Ok e, p') ∧ proc_wf p' ∧ instance p' = Some e
  else ∃ e, get_or_init p = (Err (EngineIo e), p).
Proof.
  intros Hrt Hwf. unfold available.
  destruct (get_or_init_cases p Hrt) as [(e & -> & Hi)|[(Hn & p' & -> & Hinit & Hi)|(Hn & e & Hb & ->)]].
  - rewrite Hi. by exists p, e.
  - rewrite Hn. assert (proc_wf p') by (by eapply Engine_init_wf).
    unfold Engine_init in Hinit. destruct (build_runtime p); try done. by exists p', Engine_new.
  - rewrite Hn, Hb. by exists e.
Qed.

(** A start call: its code, and the invariant. *)
Lemma start_call p (start : Engine → Outcome EngineError Engine) :
  runtime_ok → proc_wf p → (∀ e, ∃ e', start e = Ok e' ∧ engine_step e e') →
  let r := match get_or_init p with
           | (Ok engine, p) => started (start engine) p
           | (Err _, p) => Ok (ffi_code.NOT_INITIALIZED, p)
           | (Panic, _) => Panic
           | (Diverge, _) => Diverge
           end in
  ∃ p', r = Ok (if available p then ffi_code.OK else ffi_code.NOT_INITIALIZED, p') ∧ proc_wf p' ∧
    (available p = false → p' = p).
Proof.
  intros Hrt Hwf Hstart r. unfold r. clear r.
  pose proof (get_or_init_wf p Hrt Hwf) as Hget.
  destruct (available p); [|destruct Hget as [e ->]; by exists p].
  destruct Hget as (p' & e & -> & Hwf' & He). destruct (Hstart e) as (e' & -> & Hstep).
  cbn. eexists. split; [done|]. split; [by eapply set_engine_wf|done].
Qed.

Lemma start_server_call cfg e : ∃ e', start_server cfg e = Ok e' ∧ engine_step e e'.
Proof. destruct (start_server_total cfg e) as [e' He]. exists e'. split; [done|by eapply step_start_server]. Qed.
Lemma start_client_call fd cfg e : 0 ≤ fd → ∃ e', start_client fd cfg e = Ok e' ∧ engine_step e e'.
Proof.
  intros Hfd. destruct (start_client_total fd cfg e Hfd) as [e' He].
  exists e'. split; [done|by eapply step_start_client].
Qed.

Lemma catch_ok {A} (z : Z) (a before : A) : catch_panic (Ok (z, a)) before = (z, a).
Proof. done. Qed.

Lemma set_callback_wf p : proc_wf p → is_Some (instance p) → is_Some (event_callback p) →
  jvm_instance p = true → proc_wf (set_event_callback p).
Proof. intros [He Hp Hc] Hi Hcb Hj. by split. Qed.

Lemma proc_step_wf p p' : runtime_ok → proc_wf p → proc_step p p' → proc_wf p'.
Proof.
  intros Hrt Hwf Hs. destruct Hs as [cfg p|cb p|cfg p|fd cfg p|p|p|p e e' Hi Ht].
  - unfold EngineBridge_init. destruct (Engine_init p) as [q|[]| |] eqn:Hi; try done.
    by eapply Engine_init_wf.
  - unfold EngineBridge_nativeSetEventCallback. destruct (negb _ && negb _); [done|].
    assert (proc_wf (set_jvm p)) as Hj by (destruct Hwf as [? ? Hc]; split; naive_solver).
    destruct (new_global_ref (set_jvm p) cb) as [g|]; [|done].
    assert (proc_wf (store_callback g (set_jvm p)) ∧
      event_callback (store_callback g (set_jvm p)) = Some g ∧
      jvm_instance (store_callback g (set_jvm p)) = true) as (Hg & Hcb & Hjv).
    { unfold store_callback. rewrite (wf_poisoned _ Hj). destruct Hj as [? ? Hc].
      split; [|done]. split; cbn in *; naive_solver. }
    set (q := store_callback g (set_jvm p)) in *. clearbody q.
    destruct (get_or_init_cases q Hrt) as [(e & -> & Hi)|[(_ & q' & -> & Hinit & Hi)|(_ & e & _ & ->)]]; [| |done].
    + apply set_callback_wf; [done|rewrite Hi; by eexists|rewrite Hcb; by eexists|done].
    + assert (event_callback q' = event_callback q ∧ jvm_instance q' = jvm_instance q) as [E1 E2].
      { unfold Engine_init in Hinit. destruct (build_runtime q); try done.
        destruct (instance q); [done|]. by injection Hinit as <-. }
      apply set_callback_wf; [by eapply Engine_init_wf|rewrite Hi; by eexists|rewrite E1, Hcb; by eexists|].
      by rewrite E2.
  - unfold EngineBridge_startServer.
    destruct (start_call p (start_server match parse_config (default [] cfg) with
      | Some (ConfigServer c) => c | _ => ServerConfig_default end) Hrt Hwf (start_server_call _))
      as (q & Hq & Hwfq & _). cbn zeta in Hq. by rewrite Hq.
  - unfold EngineBridge_startClient. destruct (Z.ltb_spec fd 0); [done|].
    destruct (start_call p (start_client fd match parse_config (default [] cfg) with
      | Some (ConfigClient c) => c | _ => ClientConfig_default end) Hrt Hwf)
      as (q & Hq & Hwfq & _); [intros e; by apply start_client_call|]. cbn zeta in Hq. by rewrite Hq.
  - unfold EngineBridge_stop, Engine_get. destruct (instance p) as [e|] eqn:Hi; [|done].
    destruct (stop e) as [e'|err| |] eqn:Hs; try done. eapply set_engine_wf; [done..|by apply step_stop].
  - unfold EngineBridge_shutdown, Engine_get. destruct (instance p) as [e|] eqn:Hi; [|done].
    eapply set_engine_wf; [done..|apply step_shutdown].
  - eapply set_engine_wf; [done..|by apply step_task].
Qed.

Lemma stop_can e : if can_stop (session e) then ∃ e', stop e = Ok e' else stop e = Err InvalidTransition.
Proof. unfold stop, edispatch. destruct (session e); cbn; by try eexists. Qed.

(** C25. The codes of the Java interface. In every state of the process that
    calls can lead to, [init] answers OK also when the engine exists; the start
    calls answer OK whatever the configuration says, malformed JSON included,
    except NOT_INITIALIZED when the runtime cannot be built and INVALID_FD for
    a negative descriptor, which both leave the process as it was; [stop]
    answers OK exactly when there is no engine or the session is connected or
    reconnecting, and otherwise INVALID_ARG without any effect; [shutdown]
    answers OK. Every call keeps the invariant of the process. *)
Theorem jni_codes (p : Process) (cfg : option (list Z)) (fd : Z)
    (Hrt : runtime_ok) (Hwf : proc_wf p) :
  (EngineBridge_init cfg p).1 = (match build_runtime p with Ok _ => ffi_code.OK | _ => ffi_code.INVALID_ARG end) ∧
  (EngineBridge_startServer cfg p).1 = (if available p then ffi_code.OK else ffi_code.NOT_INITIALIZED) ∧
  (fd < 0 → EngineBridge_startClient fd cfg p = (ffi_code.INVALID_FD, p)) ∧
  (0 ≤ fd → (EngineBridge_startClient fd cfg p).1 =
     if available p then ffi_code.OK else ffi_code.NOT_INITIALIZED) ∧
  (available p = false → 0 ≤ fd →
     (EngineBridge_startServer cfg p).2 = p ∧ (EngineBridge_startClient fd cfg p).2 = p) ∧
  match instance p with
  | None => EngineBridge_stop p = (ffi_code.OK, p)
  | Some e =>
      if can_stop (session e)
      then ∃ e', stop e = Ok e' ∧ EngineBridge_stop p = (ffi_code.OK, set_engine e' p)
      else EngineBridge_stop p = (ffi_code.INVALID_ARG, p)
  end ∧
  (EngineBridge_shutdown p).1 = ffi_code.OK ∧
  ∀ p', proc_step p p' → proc_wf p'.
Proof.
  set (scfg := match parse_config (default [] cfg) with Some (ConfigServer c) => c | _ => ServerConfig_default end).
  set (ccfg := match parse_config (default [] cfg) with Some (ConfigClient c) => c | _ => ClientConfig_default end).
  destruct (start_call p (start_server scfg) Hrt Hwf (start_server_call _)) as (q & Hq & _ & Hsame).
  assert (EngineBridge_startServer cfg p =
    (if available p then ffi_code.OK else ffi_code.NOT_INITIALIZED, q)) as Hserver.
  { cbn zeta in Hq. unfold EngineBridge_startServer. cbn zeta. fold scfg. by rewrite Hq. }
  assert (0 ≤ fd → ∃ q', EngineBridge_startClient fd cfg p =
    (if available p then ffi_code.OK else ffi_code.NOT_INITIALIZED, q') ∧ (available p = false → q' = p)) as Hclient.
  { intros Hfd. unfold EngineBridge_startClient. destruct (Z.ltb_spec fd 0); [lia|].
    destruct (start_call p (start_client fd ccfg) Hrt Hwf) as (q' & Hq' & _ & Hs');
      [intros e; by apply start_client_call|]. cbn zeta in *. fold ccfg. exists q'. by rewrite Hq'. }
  split; [|split; [by rewrite Hserver|split; [|split; [|split; [|split; [|split]]]]]].
  - unfold EngineBridge_init, Engine_init. specialize (Hrt p).
    destruct (build_runtime p); try done. by destruct (instance p).
  - intros Hfd. unfold EngineBridge_startClient. by destruct (Z.ltb_spec fd 0); [|lia].
  - intros Hfd. by destruct (Hclient Hfd) as (q' & -> & _).
  - intros Ha Hfd. destruct (Hclient Hfd) as (q' & -> & Hs'). rewrite Hserver. by rewrite Hsame, Hs'.
  - unfold EngineBridge_stop, Engine_get. destruct (instance p) as [e|]; [|done].
    pose proof (stop_can e) as Hs. destruct (can_stop (session e)); [|by rewrite Hs].
    destruct Hs as [e' ->]. by exists e'.
  - unfold EngineBridge_shutdown, Engine_get. by destruct (instance p).
  - intros p'. by apply proc_step_wf.
Qed.

(** ** Events *)
Lemma last_drop_lt {A} n (l : list A) : (n < length l)%nat → last (drop n l) = last l.
Proof. intros Hn. rewrite !last_lookup, lookup_drop, length_drop. f_equal. lia. Qed.

Definition ready (p : Process) : Prop :=
  callback_set p = true ∧ jvm_instance p = true ∧ is_Some (event_callback p) ∧ poisoned p = false.

Lemma ready_frame p q : same_callback p q → ready p → ready q.
Proof. intros (_ & H2 & H3 & H4 & H5). unfold ready. by rewrite H2, H3, H4, H5. Qed.
Lemma wf_ready p : proc_wf p → callback_set p = true → ready p.
Proof. intros [_ Hp Hc] Hset. destruct (Hc Hset) as (_ & ? & ?). by split_and!. Qed.

Section delivery.
Hypothesis attaches : ∀ p, attach_current_thread p = true.
Hypothesis makes_strings : ∀ p l, is_Some (new_string p l).

Lemma listeners_calls ss p :
  ready p →
  (java_calls (foldl (λ p s, engine_listener s p) p ss)).*2 =
    (java_calls p).*2 ++ (session_state_to_json <$> ss).
Proof.
  revert p. induction ss as [|s ss IH]; intros p Hr; [cbn; by rewrite app_nil_r|]. cbn.
  rewrite IH by (eapply ready_frame; [apply listener_frame|done]).
  destruct Hr as (H1 & H2 & [cb H3] & H4). unfold engine_listener, fire_jvm_event.
  rewrite H1, H2, H3, H4, attaches. destruct (makes_strings p (session_state_to_json s)) as [j ->]. cbn.
  by rewrite fmap_app, <- app_assoc.
Qed.

Lemma set_engine_calls e0 e p :
  ready p → instance p = Some e0 →
  (java_calls (set_engine e p)).*2 =
    (java_calls p).*2 ++ (session_state_to_json <$> drop (length (notified e0)) (notified e)).
Proof. intros Hr Hi. unfold set_engine. rewrite Hi. by rewrite listeners_calls. Qed.

(** Since a moment with [n] reports and [base] calls of Java, every report has
    been passed on. *)
Definition passed_on (n : nat) (base : list (list Z)) (p : Process) : Prop :=
  ready p ∧ ∃ e, instance p = Some e ∧ (n ≤ length (notified e))%nat ∧
    (java_calls p).*2 = base ++ (session_state_to_json <$> drop n (notified e)).

Lemma set_engine_passed n base e e' p :
  passed_on n base p → instance p = Some e → engine_step e e' → passed_on n base (set_engine e' p).
Proof.
  intros (Hr & e0 & Hi & Hn & Hc) He Hs. simplify_eq.
  destruct (set_engine_frame e' p) as (H1 & H2 & H3 & H4 & H5). split.
  - unfold ready. by rewrite H2, H3, H4, H5.
  - exists e'. split; [done|]. apply engine_step_notified in Hs as [k Hk].
    rewrite (set_engine_calls e0) by done. rewrite Hc, Hk, drop_app_length, (drop_app_le _ _ n) by done.
    rewrite length_app, fmap_app, app_assoc. split; [lia|done].
Qed.

Lemma proc_step_passed n base p p' : passed_on n base p → proc_step p p' → passed_on n base p'.
Proof.
  intros Hp Hs. pose proof Hp as (Hr & e & Hi & Hn & Hc).
  assert (get_or_init p = (Ok e, p)) as Hget by (unfold get_or_init, Engine_get; by rewrite Hi).
  destruct Hs as [cfg p|cb p|cfg p|fd cfg p|p|p|p e0 e' Hi0 Ht].
  - unfold EngineBridge_init, Engine_init. rewrite Hi. by destruct (build_runtime p).
  - unfold EngineBridge_nativeSetEventCallback. destruct (negb _ && negb _); [done|].
    destruct Hr as (H1 & H2 & H3 & H4).
    assert (passed_on n base (set_jvm p)) as Hj by (split; [by split_and!|by exists e]).
    destruct (new_global_ref (set_jvm p) cb) as [g|]; [|done].
    unfold store_callback, get_or_init, Engine_get. cbn. rewrite H4. cbn. rewrite Hi. cbn.
    split; [by split_and!|]. by exists e.
  - unfold EngineBridge_startServer. rewrite Hget.
    destruct (start_server_call match parse_config (default [] cfg) with
      | Some (ConfigServer c) => c | _ => ServerConfig_default end e) as (e' & -> & Hs').
    by eapply set_engine_passed.
  - unfold EngineBridge_startClient. destruct (Z.ltb_spec fd 0) as [|Hfd]; [done|]. rewrite Hget.
    destruct (start_client_call fd match parse_config (default [] cfg) with
      | Some (ConfigClient c) => c | _ => ClientConfig_default end e Hfd) as (e' & -> & Hs').
    by eapply set_engine_passed.
  - unfold EngineBridge_stop, Engine_get. rewrite Hi. destruct (stop e) as [e'|err| |] eqn:Hst; try done.
    eapply set_engine_passed; [done..|by apply step_stop].
  - unfold EngineBridge_shutdown, Engine_get. rewrite Hi.
    eapply set_engine_passed; [done..|apply step_shutdown].
  - by eapply set_engine_passed; [exact Hp|exact Hi0|apply step_task].
Qed.

Lemma register_passed cb p p' :
  runtime_ok → proc_wf p → EngineBridge_nativeSetEventCallback cb p = (ffi_code.OK, p') →
  ∃ e, instance p' = Some e ∧ passed_on (length (notified e)) (java_calls p).*2 p'.
Proof.
  intros Hrt Hwf. unfold EngineBridge_nativeSetEventCallback. destruct (negb _ && negb _); [done|].
  destruct (new_global_ref (set_jvm p) cb) as [g|]; [|done].
  unfold store_callback. cbn [poisoned set_jvm]. rewrite (wf_poisoned _ Hwf).
  match goal with |- context [get_or_init ?q] => set (p1 := q) end.
  destruct (get_or_init_cases p1 Hrt) as [(e & -> & Hi)|[(Hn & q & -> & Hinit & Hi)|(Hn & e & _ & ->)]]; [| |done].
  - intros [= <-]. exists e. split; [done|]. split; [by split_and!|]. exists e.
    by rewrite drop_all, app_nil_r.
  - intros [= <-]. exists Engine_new. split; [done|]. unfold Engine_init in Hinit.
    destruct (build_runtime p1); try done. rewrite Hn in Hinit. injection Hinit as <-.
    split; [by split_and!|]. exists Engine_new. by rewrite app_nil_r.
Qed.

(** Since the registration, whatever has happened. *)
Lemma calls_since (cb : JObject) (p0 p1 p : Process) :
  runtime_ok → rtc proc_step Process_new p0 →
  EngineBridge_nativeSetEventCallback cb p0 = (ffi_code.OK, p1) → rtc proc_step p1 p →
  ∃ e1 e, instance p1 = Some e1 ∧ instance p = Some e ∧ rtc engine_step Engine_new e ∧
    (java_calls p).*2 = (java_calls p0).*2 ++
      (session_state_to_json <$> drop (length (notified e1)) (notified e)).
Proof.
  intros Hrt Hr0 Hreg Hr.
  assert (∀ q q', proc_wf q → rtc proc_step q q' → proc_wf q') as Hwf.
  { intros q q' Hq Hrtc. induction Hrtc; eauto using proc_step_wf. }
  destruct (register_passed cb p0 p1 Hrt (Hwf _ _ Process_new_wf Hr0) Hreg) as (e1 & Hi1 & Hp1).
  assert (passed_on (length (notified e1)) (java_calls p0).*2 p) as (_ & e & Hi & Hn & Hc).
  { clear -Hr Hp1 attaches makes_strings. induction Hr; eauto using proc_step_passed. }
  exists e1, e. split_and!; [done..| |done]. apply (wf_engine p); [|done].
  apply (Hwf p1); [|done]. apply (Hwf p0 _ (Hwf _ _ Process_new_wf Hr0)).
  pose proof (call_set_callback cb p0) as Hs. rewrite Hreg in Hs. by apply rtc_once.
Qed.

(** The last report is the state of the session. *)
Lemma last_report e n :
  rtc engine_step Engine_new e → (n < length (notified e))%nat → last (drop n (notified e)) = Some (session e).
Proof.
  intros Hr Hn. destruct (listener_state e Hr) as [-> _]. rewrite last_drop_lt by done.
  destruct (last (notified e)) eqn:Hl; [done|]. apply last_None in Hl. rewrite Hl in Hn. cbn in Hn. lia.
Qed.

End delivery.
End jni.
Arguments Process GlobalRef : clear implicits.

(** ** gravital-ffi/src/jni_api.rs: stubs with the same names *)
Definition stub_init (config_json : option (list Z)) : Z :=
  (catch_panic (let json := default [] config_json in Ok (0, tt)) tt).1.
Definition stub_startClient (tun_fd : Z) (config_json : option (list Z)) : Z :=
  (catch_panic (if tun_fd <? 0 then Ok (-4, tt)
                else let json := default [] config_json in Ok (0, tt)) tt).1.
Definition stub_startServer (config_json : option (list Z)) : Z :=
  (catch_panic (let json := default [] config_json in Ok (0, tt)) tt).1.
Definition stub_stop : Z := 0.
Definition stub_shutdown : Z := 0.
Definition stub_getState {JString} (new_string : list Z → option JString) : option JString :=
  new_string IDLE_JSON.
Definition stub_getStats {JString} (new_string : list Z → option JString) : option JString :=
  new_string STATS_JSON.
Definition stub_ffiVersion : Z := as_i32 FFI_VERSION.

(** The two interfaces of gravital-ffi agree: the Java stubs answer what
    the C functions answer for a configuration that is not null, and the
    queries give the string that the C functions write into a buffer with room
    for it; and they agree with the engine's own Java interface on the
    descriptors they reject and on the version. *)
Theorem stubs_mirror_c_api {JObject GlobalRef : Type}
    (build : Process GlobalRef → Outcome IoErrorKind unit) (parse : list Z → option EngineConfig)
    (attach : Process GlobalRef → bool) (new_string : Process GlobalRef → list Z → option JObject)
    (fd : Z) (json mem : list Z) (len : Z) (p : Process GlobalRef) :
  stub_init (Some json) = gravital_engine_init (Some json) ∧
  stub_startServer (Some json) = gravital_engine_start_server (Some json) ∧
  stub_startClient fd (Some json) = gravital_engine_start_client fd (Some json) ∧
  stub_stop = gravital_engine_stop ∧
  stub_shutdown = gravital_engine_shutdown ∧
  (Z.of_nat (length IDLE_JSON) < len → len ≤ Z.of_nat (length mem) →
     ∃ mem', gravital_engine_get_state (Some mem) len = (Z.of_nat (length IDLE_JSON), Some mem') ∧
       stub_getState Some = Some (c_read mem')) ∧
  (stub_startClient fd (Some json) = ffi_code.INVALID_FD ↔
   EngineBridge_startClient attach new_string build parse fd (Some json) p = (ffi_code.INVALID_FD, p)) ∧
  stub_ffiVersion = EngineBridge_ffiVersion.
Proof.
  split; [done|]. split; [done|]. split; [unfold stub_startClient, gravital_engine_start_client;
    by destruct (fd <? 0)|]. split; [done|]. split; [done|]. split; [|split; [|done]].
  - intros Hl Hm. destruct (write_str_fits IDLE_JSON mem len) as (mem' & Hw & Hr & _); [|lia|cbn; lia|done|].
    + refine (bool_decide_eq_true_1 (0 ∉ IDLE_JSON) _). by vm_compute.
    + exists mem'. unfold gravital_engine_get_state. rewrite Hw. by rewrite Hr.
  - unfold stub_startClient, EngineBridge_startClient. destruct (Z.ltb_spec fd 0); [done|].
    split; [done|]. destruct (get_or_init build p) as [[e|err| |] q]; try done.
    destruct (start_client_total fd match parse (default [] (Some json)) with
      | Some (ConfigClient c) => c | _ => ClientConfig_default end e) as [e' ->]; [lia|done].
Qed.

(** ** Witnesses

    A process whose runtime can be built and whose virtual machine works;
    references are numbers, and every configuration is malformed. *)
Module Demo.
Abbreviation process := (Process nat).
Definition attach (_ : process) : bool := true.
Definition mk_string (_ : process) (l : list Z) : option (list Z) := Some l.
Definition vm (_ : process) : bool := true.
Definition mk_ref (_ : process) (o : nat) : option nat := Some o.
Definition build (_ : process) : Outcome IoErrorKind unit := Ok tt.
Definition parse (_ : list Z) : option EngineConfig := None.
Definition registered : Z * process := EngineBridge_nativeSetEventCallback vm mk_ref build 7%nat Process_new.
Definition serving : Z * process := EngineBridge_startServer attach mk_string build parse None registered.2.
End Demo.

Lemma jni_codes_witness :
  EngineBridge_startClient Demo.attach Demo.mk_string Demo.build Demo.parse (-1) None Process_new
    = (ffi_code.INVALID_FD, Process_new) ∧
  (EngineBridge_startServer Demo.attach Demo.mk_string Demo.build Demo.parse None Process_new).1 = ffi_code.OK.
Proof.
  destruct (jni_codes Demo.attach Demo.mk_string Demo.vm Demo.mk_ref Demo.build Demo.parse Process_new None (-1))
    as (_ & Hserver & Hclient & _).
  - intros p. exact I.
  - apply Process_new_wf.
  - split; [apply Hclient; lia|exact Hserver].
Defined.

