(* ===== verification/Android.v ===== *)
(** * The Android application: SessionManager.kt over the engine's Java interface

    What the user interface shows ([SessionManager]: the state, the mode, the
    throughput and the number of clients), the handler of the engine's events,
    and the application ([App]): the process of [Jni], the coroutines that the
    calls and the event callback launch on [Dispatchers.IO], and the shared
    flow between the callback and the collector.  Each suspension point and
    each assignment of a coroutine is a step of its own, so the coroutines
    interleave with each other, with the collector and with the engine's
    tasks.  A Kotlin string is its characters; what the engine sends is ASCII.
    [\s] and [\d] are the ASCII classes of java.util.regex. *)

From Stdlib Require Import ZArith Lia.
From Stdlib Require Import String.
From stdpp Require Import relations.
From S2P Require Import Prelude Bytes Net Io Session Text Display Engine Lifecycle Report Ffi Jni.
From stdpp Require Import list.
Local Open Scope list_scope.
Local Open Scope Z_scope.

(** ** Data *)
Inductive UiMode := IDLE | CLIENT | SERVER.

Inductive UiState :=
| UiIdle
| UiPreparing (mode : UiMode)
| UiConnecting (mode : UiMode) (attempt : Z)
| UiConnected (mode : UiMode) (proxyAddr : list Z)
| UiReconnecting (mode : UiMode) (attempt : Z) (lastError : option (list Z))
| UiStopping (mode : UiMode)
| UiFailed (mode : UiMode) (error : list Z) (recoverable : bool).

Record SessionManager := {
  _state : UiState; _mode : UiMode; _throughput : Z; _clientCount : Z
}.
Definition SessionManager_new : SessionManager :=
  {| _state := UiIdle; _mode := IDLE; _throughput := 0; _clientCount := 0 |}.

Definition set_state (s : UiState) (m : SessionManager) : SessionManager :=
  {| _state := s; _mode := _mode m; _throughput := _throughput m; _clientCount := _clientCount m |}.
Definition set_mode (k : UiMode) (m : SessionManager) : SessionManager :=
  {| _state := _state m; _mode := k; _throughput := _throughput m; _clientCount := _clientCount m |}.
Definition set_throughput (n : Z) (m : SessionManager) : SessionManager :=
  {| _state := _state m; _mode := _mode m; _throughput := n; _clientCount := _clientCount m |}.

(** ** The regular expressions

    [Regex.find] tries the pattern at each position from the left.  Neither
    pattern needs to give characters back: what follows a repetition is never in
    its class. *)
Definition regex_space (c : Z) : bool := existsb (Z.eqb c) [32; 9; 10; 11; 12; 13].

Fixpoint match_lit (lit l : list Z) : option (list Z) :=
  match lit with
  | [] => Some l
  | c :: lit =>
      match l with d :: l => if c =? d then match_lit lit l else None | [] => None end
  end.
Fixpoint skip_spaces (l : list Z) : list Z :=
  match l with c :: r => if regex_space c then skip_spaces r else l | [] => [] end.
Fixpoint span (f : Z → bool) (l : list Z) : list Z * list Z :=
  match l with
  | c :: r => if f c then let '(v, r) := span f r in (c :: v, r) else ([], l)
  | [] => ([], [])
  end.

(** The key in quotes, spaces, a colon, spaces. *)
Definition match_key (key l : list Z) : option (list Z) :=
  l ← match_lit (quoted key) l;
  l ← match_lit (str ":") (skip_spaces l);
  Some (skip_spaces l).
(** The group: a string in quotes that is not empty, or a number. *)
Definition match_string (l : list Z) : option (list Z) :=
  l ← match_lit [34] l;
  let '(v, r) := span (λ c, negb (c =? 34)) l in
  match v, r with _ :: _, _ :: _ => Some v | _, _ => None end.
Definition match_digits (l : list Z) : option (list Z) :=
  match span is_digit l with ([], _) => None | (v, _) => Some v end.

Fixpoint regex_find (key : list Z) (group : list Z → option (list Z)) (l : list Z) : option (list Z) :=
  match l with
  | [] => None
  | _ :: r =>
      match match_key key l ≫= group with Some v => Some v | None => regex_find key group r end
  end.

Definition toLongOrNull (digits : list Z) : option Z :=
  let n := foldl (λ acc c, acc * 10 + (c - 48)) 0 digits in
  if n <=? 2 ^ 63 - 1 then Some n else None.

Definition extractJsonField (json key : list Z) : option (list Z) := regex_find key match_string json.
Definition extractJsonLong (json key : list Z) : option Z :=
  regex_find key match_digits json ≫= toLongOrNull.

Example extract_ex :
  extractJsonField (quoted (str "a") ++ str " : " ++ quoted [] ++ quoted (str "a") ++ str ":" ++ quoted (str "b"))
    (str "a") = Some (str "b").
Proof. reflexivity. Qed.
Example extract_long_ex :
  extractJsonLong (str "{" ++ quoted (str "bytes_out") ++ str ": 42}") (str "bytes_out") = Some 42.
Proof. reflexivity. Qed.

(** ** The handler of the engine's events *)
Definition UiState_mode (s : UiState) : option UiMode :=
  match s with
  | UiConnecting m _ | UiConnected m _ | UiReconnecting m _ _ | UiStopping m
  | UiFailed m _ _ | UiPreparing m => Some m
  | UiIdle => None
  end.

Definition proxyFromJson (json : list Z) : list Z :=
  default (str "unknown") (extractJsonField json (str "peer")).
Definition errorFromJson (json : list Z) : list Z :=
  default (str "unknown") (extractJsonField json (str "error")).

(** The mode that [applyTransition] works with. *)
Definition ui_mode (m : SessionManager) : UiMode := default (_mode m) (UiState_mode (_state m)).

Definition applyTransition (toState json : list Z) (m : SessionManager) : SessionManager :=
  let k := ui_mode m in
  if bool_decide (toState = str "Connecting") then set_state (UiConnecting k 1) m
  else if bool_decide (toState = str "Connected") then set_state (UiConnected k (proxyFromJson json)) m
  else if bool_decide (toState = str "Reconnecting") then set_state (UiReconnecting k 1 None) m
  else if bool_decide (toState = str "Stopping") then set_state (UiStopping k) m
  else if bool_decide (toState = str "Idle") then set_state UiIdle (set_mode IDLE m)
  else if bool_decide (toState = str "Failed") then set_state (UiFailed k (errorFromJson json) true) m
  else set_state (_state m) m.

Definition handleEngineEvent (json : list Z) (m : SessionManager) : SessionManager :=
  match extractJsonField json (str "kind") with
  | None => m
  | Some kind =>
      if bool_decide (kind = str "session.transition") then
        match extractJsonField json (str "to") with
        | None => m
        | Some to => applyTransition to json m
        end
      else if bool_decide (kind = str "engine.metrics.snapshot") then
        set_throughput (default 0 (extractJsonLong json (str "bytes_out"))) m
      else m
  end.

(** ** What the handler makes of the engine's events *)
Lemma span_quote v r :
  forallb plain v = true → span (λ c, negb (c =? 34)) (v ++ 34 :: r) = (v, 34 :: r).
Proof.
  induction v as [|c v IH]; [done|]. cbn [forallb app span]. intros [Hc Hv]%andb_true_iff.
  rewrite IH by done. unfold plain in Hc. by destruct (c =? 34).
Qed.

Lemma match_string_quoted v r :
  forallb plain v = true → v ≠ [] → match_string (quoted v ++ r) = Some v.
Proof.
  intros Hv Hne. unfold match_string, quoted. cbn [match_lit app]. change (34 =? 34) with true.
  cbn iota. cbn [mbind option_bind]. rewrite <- app_assoc. cbn [app]. rewrite span_quote by done.
  by destruct v.
Qed.

(** The fields that the handler reads. *)
Lemma event_kind s : extractJsonField (session_state_to_json s) (str "kind") = Some (str "session.transition").
Proof. by destruct s. Qed.
Lemma event_to s : extractJsonField (session_state_to_json s) (str "to") = Some (state_name s).
Proof. by destruct s as [| | | | | |m [] b]. Qed.

Lemma event_peer m peer :
  peer_ok (Connected m peer) → proxyFromJson (session_state_to_json (Connected m peer)) = display_addr (proxy_addr peer).
Proof.
  intros Hp. unfold proxyFromJson. cbn [session_state_to_json].
  pose proof (match_string_quoted (display_addr (proxy_addr peer)) (str "}") (display_addr_plain _ Hp)) as Hm.
  assert (display_addr (proxy_addr peer) ≠ []) as Hne.
  { destruct (proxy_addr peer); cbn [display_addr]; [|done]. by destruct (display_v4 _). }
  specialize (Hm Hne). revert Hm. unfold transition_json_with, quoted at 3. generalize (display_addr (proxy_addr peer)).
  intros v Hm.
  enough (extractJsonField (str "{" ++ quoted (str "kind") ++ str ":" ++ quoted (str "session.transition") ++
    str "," ++ quoted (str "to") ++ str ":" ++ quoted (str "Connected") ++ str "," ++ quoted (str "peer") ++
    str ":" ++ quoted v ++ str "}") (str "peer") = Some v) as E by exact (f_equal (default _) E).
  revert Hm. change (quoted v ++ str "}") with (34 :: ((v ++ [34]) ++ str "}")). generalize ((v ++ [34]) ++ str "}").
  intros l. unfold extractJsonField. generalize match_string. intros g Hm. vm_compute. by rewrite Hm.
Qed.
Lemma event_error m k b : errorFromJson (session_state_to_json (Failed m k b)) = failure_name k.
Proof. by destruct k. Qed.

(** The same on the engine's states. *)
Definition ui_apply (s : SessionState) (m : SessionManager) : SessionManager :=
  let k := ui_mode m in
  match s with
  | Preparing _ => m
  | Connecting _ _ => set_state (UiConnecting k 1) m
  | Connected _ peer => set_state (UiConnected k (display_addr (proxy_addr peer))) m
  | Reconnecting _ _ _ => set_state (UiReconnecting k 1 None) m
  | Stopping _ _ => set_state (UiStopping k) m
  | Idle => set_state UiIdle (set_mode IDLE m)
  | Failed _ error _ => set_state (UiFailed k (failure_name error) true) m
  end.

Lemma handle_report s m : peer_ok s → handleEngineEvent (session_state_to_json s) m = ui_apply s m.
Proof.
  intros Hs. unfold handleEngineEvent. rewrite event_kind, event_to. cbn [state_name].
  rewrite bool_decide_true by done. unfold applyTransition. cbn zeta.
  destruct s as [|k|k n|k peer|k n e|k r|k err b]; cbn [state_name ui_apply];
    repeat (first [rewrite bool_decide_true by done|rewrite bool_decide_false by done]).
  - done.
  - by destruct m.
  - done.
  - by rewrite event_peer.
  - done.
  - done.
  - by rewrite event_error.
Qed.

Definition handle_all (events : list (list Z)) (m : SessionManager) : SessionManager :=
  foldl (λ m json, handleEngineEvent json m) m events.

Lemma handle_reports ss m :
  Forall peer_ok ss → handle_all (session_state_to_json <$> ss) m = foldl (λ m s, ui_apply s m) m ss.
Proof.
  intros Hs. unfold handle_all. revert m. induction Hs as [|s ss Hp _ IH]; intros m; [done|].
  cbn [fmap list_fmap foldl]. by rewrite handle_report, IH.
Qed.

(** The mode that is shown goes with the last report of Idle. *)
Lemma ui_apply_mode s m :
  ui_mode (ui_apply s m) = (if decide (s = Idle) then IDLE else ui_mode m) ∧
  _throughput (ui_apply s m) = _throughput m.
Proof. by destruct s. Qed.

Lemma ui_apply_all ss m :
  ui_mode (foldl (λ m s, ui_apply s m) m ss) = (if decide (Idle ∈ ss) then IDLE else ui_mode m) ∧
  _throughput (foldl (λ m s, ui_apply s m) m ss) = _throughput m.
Proof.
  revert m. induction ss as [|s ss IH]; intros m; [done|]. cbn [foldl].
  destruct (IH (ui_apply s m)) as [-> ->]. destruct (ui_apply_mode s m) as [-> ->]. split; [|done].
  destruct (decide (Idle ∈ ss)) as [Hi|Hi], (decide (s = Idle)) as [->|Hne],
    (decide (Idle ∈ _ :: ss)) as [Hc|Hc]; set_solver.
Qed.

(** What the interface shows of a state of the session. *)
Definition shows (s : SessionState) (k : UiMode) (u : UiState) : Prop :=
  match s with
  | Idle => u = UiIdle
  | Preparing _ => False
  | Connecting _ _ => u = UiConnecting k 1
  | Connected _ peer => u = UiConnected k (display_addr (proxy_addr peer))
  | Reconnecting _ _ _ => u = UiReconnecting k 1 None
  | Stopping _ _ => u = UiStopping k
  | Failed _ error _ => u = UiFailed k (failure_name error) true
  end.

Definition is_preparing (s : SessionState) : bool := match s with Preparing _ => true | _ => false end.

Lemma ui_apply_shows s m : is_preparing s = false → shows s (ui_mode (ui_apply s m)) (_state (ui_apply s m)).
Proof. by destruct s. Qed.

(** An engine between two steps is not preparing: the start calls go on to
    Connecting at once. *)
Lemma transition_not_preparing s ev s' :
  (∀ m, ev ≠ UserStart m) → is_preparing s = false → transition s ev = Ok s' → is_preparing s' = false.
Proof. intros Hev. destruct s, ev; intros Hp Ht; cbn in Hp, Ht; simplify_eq; try done; naive_solver. Qed.

Lemma step_state_not_preparing s ev :
  (∀ m, ev ≠ UserStart m) → is_preparing s = false → is_preparing (step_state s ev) = false.
Proof.
  intros Hev Hp. unfold step_state. destruct (transition s ev) as [s'| | |] eqn:Ht; try done.
  by eapply transition_not_preparing.
Qed.

Lemma send_session v e : session (send v e) = session e.
Proof. unfold send. by destruct (existsb _ _). Qed.

Lemma engine_step_not_preparing e e' :
  engine_step e e' → is_preparing (session e) = false → is_preparing (session e') = false.
Proof.
  intros Hs Hp. destruct Hs as [cfg e e' Hs|fd cfg e e' Hs|e e' Hs|e|e e' Ht].
  - unfold start_server, edispatch in Hs. rewrite reset_idle in Hs. cbn in Hs. by injection Hs as <-.
  - unfold start_client, edispatch in Hs. destruct (fd <? 0); [done|]. rewrite reset_idle in Hs.
    cbn in Hs. by injection Hs as <-.
  - unfold stop, edispatch in Hs. destruct (transition (session e) UserStop) eqn:Ht; try done.
    cbn in Hs. injection Hs as <-. rewrite send_session. cbn [session notify].
    eapply (transition_not_preparing (session e) UserStop); [done..|exact Ht].
  - unfold shutdown. by rewrite send_session.
  - destruct Ht; cbn [session set_task tdispatch notify spawn]; try done; by apply step_state_not_preparing.
Qed.

Lemma engine_not_preparing e : rtc engine_step Engine_new e → is_preparing (session e) = false.
Proof.
  intros Hr. cut (is_preparing (session Engine_new) = false); [|done].
  induction Hr; eauto using engine_step_not_preparing.
Qed.

(** ** The coroutines

    A constructor is the rest of a coroutine: [startClient] before its first
    assignment, after it, at the call of the engine, after the call; the same
    for [startServer] and [stop]; and the [emit] that the callback launches. *)
Inductive Job :=
| StartClient (tunFd : Z) (proxyAddr : list Z) (mtu : Z) (dnsServer : list Z)
| ClientMode (tunFd : Z) (proxyAddr : list Z) (mtu : Z) (dnsServer : list Z)
| ClientCall (tunFd : Z) (config : list Z)
| ClientResult (result : Z)
| StartServer (socksAddr httpAddr : list Z)
| ServerMode (socksAddr httpAddr : list Z)
| ServerCall (socksAddr config : list Z)
| ServerResult (socksAddr : list Z) (result : Z)
| Stop
| StopCall
| StopIdle
| StopMode
| Emit (json : list Z)
| JobDone.

Definition nl : list Z := [10].
Definition int_str (n : Z) : list Z := if n <? 0 then str "-" ++ dec (- n) else dec n.
Definition member (key : string) (value : list Z) : list Z :=
  str "  " ++ quoted (str key) ++ str ": " ++ value.
Definition json_object (members : list (list Z)) : list Z :=
  str "{" ++ nl ++ join_with (str "," ++ nl) members ++ nl ++ str "}".

(** The configurations, for arguments without line breaks: [trimIndent] then
    removes the margin of the literal. *)
Definition client_config (proxyAddr : list Z) (mtu : Z) (dnsServer : list Z) : list Z :=
  json_object [member "mode" (quoted (str "Client")); member "proxy_addr" (quoted proxyAddr);
               member "mtu" (int_str mtu); member "dns_server" (quoted dnsServer)].
Definition server_config (socksAddr httpAddr : list Z) : list Z :=
  json_object [member "mode" (quoted (str "Server")); member "socks_bind" (quoted socksAddr);
               member "http_bind" (quoted httpAddr)].

Definition engine_error (result : Z) : list Z := str "Engine error " ++ int_str result.

(** The capacity of [_engineEvents]. *)
Definition extraBufferCapacity : nat := 64.

Section app.
Context {JObject GlobalRef JString : Type}.
Variable attach_current_thread : Process GlobalRef → bool.
Variable new_string : Process GlobalRef → list Z → option JString.
Variable get_java_vm : Process GlobalRef → bool.
Variable new_global_ref : Process GlobalRef → JObject → option GlobalRef.
Variable build_runtime : Process GlobalRef → Outcome IoErrorKind unit.
Variable parse_config : list Z → option EngineConfig.

Abbreviation jni_step :=
  (proc_step attach_current_thread new_string get_java_vm new_global_ref build_runtime parse_config).

(** [collecting]: the collector has subscribed to the flow; [buffer]: what has
    been emitted and not yet collected. *)
Record App := {
  process : Process GlobalRef; manager : SessionManager;
  jobs : list Job; collecting : bool; buffer : list (list Z)
}.

Definition set_manager (m : SessionManager) (a : App) : App :=
  {| process := process a; manager := m; jobs := jobs a; collecting := collecting a; buffer := buffer a |}.
Definition set_job (i : nat) (j : Job) (a : App) : App :=
  {| process := process a; manager := manager a; jobs := <[i := j]> (jobs a);
     collecting := collecting a; buffer := buffer a |}.
Definition launch (j : Job) (a : App) : App :=
  {| process := process a; manager := manager a; jobs := jobs a ++ [j];
     collecting := collecting a; buffer := buffer a |}.
(** The process goes on: each call of [onEvent] launches its [emit]. *)
Definition set_process (p : Process GlobalRef) (a : App) : App :=
  {| process := p; manager := manager a;
     jobs := jobs a ++ (Emit <$> (drop (length (java_calls (process a))) (java_calls p)).*2);
     collecting := collecting a; buffer := buffer a |}.

(** The constructor: the callback is registered, the collector is launched. *)
Definition App_new (callback : JObject) (p : Process GlobalRef) : App :=
  {| process := (EngineBridge_nativeSetEventCallback get_java_vm new_global_ref build_runtime callback p).2;
     manager := SessionManager_new; jobs := []; collecting := false; buffer := [] |}.

(** [MutableSharedFlow.emit]: without a subscriber the value is lost, with a
    full buffer the emitter stays suspended. *)
Definition flow_emit (json : list Z) (a : App) : Job * App :=
  if negb (collecting a) then (JobDone, a)
  else if (length (buffer a) <? extraBufferCapacity)%nat then
    (JobDone, {| process := process a; manager := manager a; jobs := jobs a;
                 collecting := collecting a; buffer := buffer a ++ [json] |})
  else (Emit json, a).

(** A coroutine goes on to its next step. *)
Definition run_job (j : Job) (a : App) : Job * App :=
  let m := manager a in
  match j with
  | StartClient fd proxy mtu dns => (ClientMode fd proxy mtu dns, set_manager (set_mode CLIENT m) a)
  | ClientMode fd proxy mtu dns =>
      (ClientCall fd (client_config proxy mtu dns), set_manager (set_state (UiPreparing CLIENT) m) a)
  | ClientCall fd config =>
      let '(result, p) := EngineBridge_startClient attach_current_thread new_string build_runtime parse_config
                            fd (Some config) (process a) in
      (ClientResult result, set_process p a)
  | ClientResult result =>
      (JobDone, set_manager (set_state (if negb (result =? 0)
                                        then UiFailed CLIENT (engine_error result) false
                                        else UiConnecting CLIENT 1) m) a)
  | StartServer socks http => (ServerMode socks http, set_manager (set_mode SERVER m) a)
  | ServerMode socks http =>
      (ServerCall socks (server_config socks http), set_manager (set_state (UiPreparing SERVER) m) a)
  | ServerCall socks config =>
      let '(result, p) := EngineBridge_startServer attach_current_thread new_string build_runtime parse_config
                            (Some config) (process a) in
      (ServerResult socks result, set_process p a)
  | ServerResult socks result =>
      (JobDone, set_manager (set_state (if negb (result =? 0)
                                        then UiFailed SERVER (engine_error result) false
                                        else UiConnected SERVER socks) m) a)
  | Stop =>
      let k := match _state m with
               | UiConnected k _ | UiConnecting k _ | UiReconnecting k _ _ => k
               | _ => _mode m
               end in
      (StopCall, set_manager (set_state (UiStopping k) m) a)
  | StopCall =>
      let '(_, p) := EngineBridge_stop attach_current_thread new_string (process a) in
      (StopIdle, set_process p a)
  | StopIdle => (StopMode, set_manager (set_state UiIdle m) a)
  | StopMode => (JobDone, set_manager (set_mode IDLE m) a)
  | Emit json => flow_emit json a
  | JobDone => (JobDone, a)
  end.

Definition acknowledgeError (m : SessionManager) : SessionManager := set_mode IDLE (set_state UiIdle m).

(** The coroutines that the user's calls launch. *)
Definition user_job (j : Job) : bool :=
  match j with StartClient _ _ _ _ | StartServer _ _ | Stop => true | _ => false end.

Definition run_at (i : nat) (a : App) : App :=
  match jobs a !! i with
  | Some j => let '(j, a') := run_job j a in set_job i j a'
  | None => a
  end.
Definition subscribe (a : App) : App :=
  {| process := process a; manager := manager a; jobs := jobs a; collecting := true; buffer := buffer a |}.
Definition collect (a : App) : App :=
  match buffer a with
  | json :: rest =>
      {| process := process a; manager := handleEngineEvent json (manager a); jobs := jobs a;
         collecting := collecting a; buffer := rest |}
  | [] => a
  end.

Inductive app_step : App → App → Prop :=
| user_calls j a : user_job j = true → app_step a (launch j a)
| user_acknowledges a : app_step a (set_manager (acknowledgeError (manager a)) a)
| job_runs i a : app_step a (run_at i a)
| collector_subscribes a : app_step a (subscribe a)
| collector_runs a : app_step a (collect a)
| engine_runs a e e' :
    instance (process a) = Some e → task_step e e' →
    app_step a (set_process (set_engine attach_current_thread new_string e' (process a)) a).

(** ** Only states of the session are reported *)
Definition is_report (json : list Z) : Prop := ∃ s, json = session_state_to_json s.
Definition reports_only (p p' : Process GlobalRef) : Prop :=
  ∃ l, java_calls p' = java_calls p ++ l ∧ Forall is_report l.*2.

Lemma reports_only_same p p' : java_calls p' = java_calls p → reports_only p p'.
Proof. intros E. exists []. by rewrite app_nil_r. Qed.

Lemma listener_reports s p : reports_only p (engine_listener attach_current_thread new_string s p).
Proof.
  unfold engine_listener, fire_jvm_event. repeat case_match; try (by apply reports_only_same).
  eexists. split; [done|]. constructor; [by exists s|constructor].
Qed.

Lemma set_engine_reports e p : reports_only p (set_engine attach_current_thread new_string e p).
Proof.
  unfold set_engine. match goal with |- reports_only p (foldl _ ?q ?ss) =>
    change (reports_only p) with (reports_only q); generalize q, ss end.
  intros p' l. induction l as [|s l IH] using rev_ind.
  - by apply reports_only_same.
  - rewrite foldl_app. cbn. destruct IH as (h & El & Hl). destruct (listener_reports s (foldl (λ p s,
      engine_listener attach_current_thread new_string s p) p' l)) as (k & Ek & Hk).
    exists (h ++ k). rewrite Ek, El, app_assoc, fmap_app. split; [done|by apply Forall_app].
Qed.

Lemma get_or_init_calls p : java_calls (get_or_init build_runtime p).2 = java_calls p.
Proof.
  unfold get_or_init, Engine_get, Engine_init. destruct (instance p) eqn:Hi; [done|].
  by destruct (build_runtime p).
Qed.

Lemma started_reports r p : reports_only p (catch_panic (started attach_current_thread new_string r p) p).2.
Proof. destruct r as [e|[]| |]; try (by apply reports_only_same). apply set_engine_reports. Qed.

Lemma start_reports (start : Engine → Outcome EngineError Engine) p :
  reports_only p (catch_panic (match get_or_init build_runtime p with
    | (Ok engine, p) => started attach_current_thread new_string (start engine) p
    | (Err _, p) => Ok (ffi_code.NOT_INITIALIZED, p)
    | (Panic, _) => Panic
    | (Diverge, _) => Diverge
    end) p).2.
Proof.
  pose proof (get_or_init_calls p) as Hg. destruct (get_or_init build_runtime p) as [[e|err| |] q]; cbn in Hg;
    try (by apply reports_only_same).
  destruct (started_reports (start e) q) as (l & El & Hl). exists l. rewrite <- Hg. split; [|done].
  rewrite <- El. by destruct (start e) as [?|[]| |].
Qed.

Lemma startClient_reports fd cfg p :
  reports_only p (EngineBridge_startClient attach_current_thread new_string build_runtime parse_config fd cfg p).2.
Proof.
  unfold EngineBridge_startClient. destruct (fd <? 0); [by apply reports_only_same|].
  apply (start_reports (start_client fd _)).
Qed.
Lemma startServer_reports cfg p :
  reports_only p (EngineBridge_startServer attach_current_thread new_string build_runtime parse_config cfg p).2.
Proof. apply (start_reports (start_server _)). Qed.
Lemma stop_reports p : reports_only p (EngineBridge_stop attach_current_thread new_string p).2.
Proof.
  unfold EngineBridge_stop, Engine_get. destruct (instance p) as [e|]; [|by apply reports_only_same].
  destruct (stop e); try (by apply reports_only_same). apply set_engine_reports.
Qed.

(** ** The invariant of the application *)
Definition job_ok (j : Job) : Prop := match j with Emit json => is_report json | _ => True end.
Record app_wf (a : App) : Prop := {
  wf_jobs : Forall job_ok (jobs a);
  wf_buffer : Forall is_report (buffer a);
  wf_throughput : _throughput (manager a) = 0;
  wf_clients : _clientCount (manager a) = 0
}.

Lemma report_counters json m :
  is_report json → _throughput (handleEngineEvent json m) = _throughput m ∧
    _clientCount (handleEngineEvent json m) = _clientCount m.
Proof.
  intros [s ->]. unfold handleEngineEvent. rewrite event_kind, event_to, bool_decide_true by done.
  unfold applyTransition. cbn zeta. by repeat case_bool_decide.
Qed.

Lemma set_process_wf p a : app_wf a → reports_only (process a) p → app_wf (set_process p a).
Proof.
  intros [Hj Hb Ht Hc] (l & El & Hl). split; [|done..]. cbn [jobs set_process]. apply Forall_app. split; [done|].
  rewrite El, drop_app_length. apply Forall_fmap. by eapply Forall_impl; [exact Hl|].
Qed.

Lemma set_manager_wf m a :
  app_wf a → _throughput m = _throughput (manager a) → _clientCount m = _clientCount (manager a) →
  app_wf (set_manager m a).
Proof. intros [Hj Hb Ht Hc] E1 E2. split; cbn; congruence. Qed.

Lemma run_job_wf j a : app_wf a → job_ok j → app_wf (run_job j a).2 ∧ job_ok (run_job j a).1.
Proof.
  intros Ha Hj. destruct j; cbn [run_job]; try (split; [by apply set_manager_wf|done]); try done.
  - pose proof (startClient_reports tunFd (Some config) (process a)) as Hr.
    destruct (EngineBridge_startClient _ _ _ _ _ _ _). split; [by apply set_process_wf|done].
  - pose proof (startServer_reports (Some config) (process a)) as Hr.
    destruct (EngineBridge_startServer _ _ _ _ _ _). split; [by apply set_process_wf|done].
  - pose proof (stop_reports (process a)) as Hr.
    destruct (EngineBridge_stop _ _ _). split; [by apply set_process_wf|done].
  - unfold flow_emit. destruct (negb _); [done|]. destruct (_ <? _)%nat; [|done]. split; [|done].
    destruct Ha as [H1 H2 H3 H4]. split; [done| |done..]. cbn. apply Forall_app. by split; [|constructor].
Qed.

Lemma app_step_wf a a' : app_wf a → app_step a a' → app_wf a'.
Proof.
  intros Ha Hs. destruct Hs as [j a Hj|a|i a|a|a|a e e' He Ht].
  - destruct Ha. split; [|done..]. apply Forall_app. split; [done|]. constructor; [|done]. by destruct j.
  - by apply set_manager_wf.
  - unfold run_at. destruct (jobs a !! i) as [j|] eqn:Hi; [|done].
    pose proof (Forall_lookup_1 _ _ _ _ (wf_jobs _ Ha) Hi) as Hj.
    destruct (run_job_wf j a Ha Hj) as [Ha' Hj']. destruct (run_job j a) as [j' a']. cbn in *.
    destruct Ha'. split; [|done..]. by apply Forall_insert.
  - by destruct Ha.
  - unfold collect. destruct (buffer a) as [|json rest] eqn:Hb; [done|]. destruct Ha as [H1 H2 H3 H4].
    rewrite Hb in H2. apply Forall_cons in H2 as [H2 H2']. destruct (report_counters json (manager a) H2) as [E1 E2].
    split; cbn; [done|done|congruence..].
  - apply set_process_wf; [done|]. apply set_engine_reports.
Qed.

(** The traffic figures never move: the engine reports states of the session
    only, and never the metrics snapshot that the handler waits for. *)
Lemma figures_zero (callback : JObject) (p : Process GlobalRef) (a : App) :
  rtc app_step (App_new callback p) a → _throughput (manager a) = 0 ∧ _clientCount (manager a) = 0.
Proof.
  intros Hr. assert (app_wf (App_new callback p)) as Ha by by split.
  enough (app_wf a) as [] by done. induction Hr; eauto using app_step_wf.
Qed.


(** Several coroutine steps, and emptying the buffer. *)
Definition run_jobs (l : list nat) (a : App) : App := foldl (λ a i, run_at i a) a l.
Definition collect_all (n : nat) (a : App) : App := Nat.iter n collect a.

Lemma run_jobs_steps l a a0 : rtc app_step a0 a → rtc app_step a0 (run_jobs l a).
Proof.
  revert a. induction l as [|i l IH]; intros a Ha; [done|]. apply IH. eapply rtc_r; [exact Ha|apply job_runs].
Qed.
Lemma collect_all_steps n a a0 : rtc app_step a0 a → rtc app_step a0 (collect_all n a).
Proof. intros Ha. induction n as [|n IH]; [done|]. eapply rtc_r; [exact IH|apply collector_runs]. Qed.
Lemma subscribe_steps a a0 : rtc app_step a0 a → rtc app_step a0 (subscribe a).
Proof. intros Ha. eapply rtc_r; [exact Ha|apply collector_subscribes]. Qed.
Lemma launch_steps j a a0 : user_job j = true → rtc app_step a0 a → rtc app_step a0 (launch j a).
Proof. intros Hj Ha. eapply rtc_r; [exact Ha|by apply user_calls]. Qed.

(** Nothing is left to run but the engine's tasks. *)
Definition quiet (a : App) : bool :=
  forallb (λ j, match j with JobDone => true | _ => false end) (jobs a) &&
  bool_decide (buffer a = []) && collecting a.
End app.
Arguments App GlobalRef : clear implicits.

(** ** Two runs

    The virtual machine and the runtime of [Jni.Demo], where configurations do
    not parse and the engine takes the default ones. *)
Module Run.
Abbreviation step := (app_step Demo.attach Demo.mk_string Demo.build Demo.parse).
Definition start : App nat := App_new Demo.vm Demo.mk_ref Demo.build 7%nat Process_new.

(** The engine once its server task has reported the connection. *)
Definition connected : Engine :=
  set_task 0 (ServerRunning (Binding 0) (Binding 0)) (serving (s_socks_bind ServerConfig_default) 0).
Definition engine_goes (e : Engine) (a : App nat) : App nat :=
  set_process (set_engine Demo.attach Demo.mk_string e (process a)) a.

Definition socks : list Z := str "0.0.0.0:1080".
Definition http : list Z := str "0.0.0.0:8080".
Definition server_started : App nat :=
  run_jobs Demo.attach Demo.mk_string Demo.build Demo.parse [0; 0; 0; 0]%nat
    (launch (StartServer socks http) (subscribe start)).
(** The emits of Connecting and Connected run in the other order. *)
Definition reordered : App nat :=
  collect_all 3 (run_jobs Demo.attach Demo.mk_string Demo.build Demo.parse [1; 3; 2]%nat
    (engine_goes connected server_started)).

(** A client is stopped before it has connected. *)
Definition client_started : App nat :=
  collect_all 2 (run_jobs Demo.attach Demo.mk_string Demo.build Demo.parse [0; 0; 0; 0; 1; 2]%nat
    (launch (StartClient 5 (str "192.168.43.1:1080") 1280 (str "1.1.1.1")) (subscribe start))).
Definition stopped_early : App nat :=
  run_jobs Demo.attach Demo.mk_string Demo.build Demo.parse [3; 3; 3; 3]%nat (launch Stop client_started).
End Run.

Lemma reordered_reachable : rtc Run.step Run.start Run.reordered.
Proof.
  apply collect_all_steps, run_jobs_steps.
  set (e := default Engine_new (instance (process Run.server_started))).
  apply (rtc_r _ Run.server_started).
  - apply run_jobs_steps, launch_steps; [done|]. apply subscribe_steps, rtc_refl.
  - apply (engine_runs _ _ _ _ Run.server_started e Run.connected); [reflexivity|].
    apply (server_connected e 0%nat (s_socks_bind ServerConfig_default) 0%nat). reflexivity.
Qed.


