(* ===== verification/Config.v ===== *)
(** * gravital-engine/src/config.rs: reading the configuration

    The [Deserialize] implementations that serde derives for [EngineConfig]
    (internally tagged by mode), [ClientConfig] and [ServerConfig], on the
    members of a JSON object, and the path of a configuration from the Android
    application, which writes it as text, to the engine.  serde_json's reader
    of objects is a parameter; [mini_read] is one. *)

From Stdlib Require Import ZArith Lia.
From Stdlib Require Import String.
From stdpp Require Import sets.
From S2P Require Import Prelude Bytes Net Io Session Text Display Addr Engine Lifecycle Report Ffi Jni Android.
From stdpp Require Import list.
Local Open Scope list_scope.
Local Open Scope Z_scope.

(** A JSON value, as far as the configuration tells values apart: strings,
    integers, booleans, and everything else. *)
Inductive Json := JString (s : list Z) | JNumber (n : Z) | JBool (b : bool) | JOther.
Definition Members : Type := list (list Z * Json).

(** ** The defaults of fields *)
Definition default_mtu : Z := DEFAULT_MTU.
Definition default_dns : IpAddr := IpV4 DEFAULT_DNS.
Definition default_true : bool := true.
Definition default_socks_bind : SocketAddr := default (SockV4 [] 0) (SocketAddr_from_str (str "0.0.0.0:1080")).
Definition default_http_bind : SocketAddr := default (SockV4 [] 0) (SocketAddr_from_str (str "0.0.0.0:8080")).
Definition default_max_connections : Z := 512.

(** ** The derived implementations *)

(** The value of a field: a key may be missing, and may not be repeated. *)
Definition get_field (key : list Z) (ms : Members) : option (option Json) :=
  match filter (λ m, m.1 = key) ms with
  | [] => Some None
  | [(_, v)] => Some (Some v)
  | _ => None
  end.

Definition de_addr (v : Json) : option SocketAddr :=
  match v with JString s => SocketAddr_from_str s | _ => None end.
Definition de_ip (v : Json) : option IpAddr :=
  match v with JString s => IpAddr_from_str s | _ => None end.
Definition de_uint (max : Z) (v : Json) : option Z :=
  match v with JNumber n => if (0 <=? n) && (n <=? max) then Some n else None | _ => None end.
Definition de_bool (v : Json) : option bool := match v with JBool b => Some b | _ => None end.

(** A field without a default, and one with [#[serde(default = ..)]]. *)
Definition required {A} (key : string) (de : Json → option A) (ms : Members) : option A :=
  v ← get_field (str key) ms; v ≫= de.
Definition optional {A} (key : string) (d : A) (de : Json → option A) (ms : Members) : option A :=
  v ← get_field (str key) ms;
  match v with None => Some d | Some v => de v end.

Definition ClientConfig_deserialize (ms : Members) : option ClientConfig :=
  proxy_addr ← required "proxy_addr" de_addr ms;
  mtu ← optional "mtu" default_mtu (de_uint 65535) ms;
  dns_server ← optional "dns_server" default_dns de_ip ms;
  udp ← optional "udp_associate_enabled" default_true de_bool ms;
  Some {| c_proxy_addr := proxy_addr; c_mtu := mtu; c_dns_server := dns_server;
          c_udp_associate_enabled := udp |}.

Definition ServerConfig_deserialize (ms : Members) : option ServerConfig :=
  socks_bind ← optional "socks_bind" default_socks_bind de_addr ms;
  http_bind ← optional "http_bind" default_http_bind de_addr ms;
  max_connections ← optional "max_connections" default_max_connections (de_uint (2 ^ 64 - 1)) ms;
  Some {| s_socks_bind := socks_bind; s_http_bind := http_bind; s_max_connections := max_connections |}.

(** The tag is taken out; the rest goes to the variant. *)
Definition EngineConfig_deserialize (ms : Members) : option EngineConfig :=
  tag ← required "mode" Some ms;
  let rest := filter (λ m, m.1 ≠ str "mode") ms in
  match tag with
  | JString s =>
      if bool_decide (s = str "Client") then ConfigClient <$> ClientConfig_deserialize rest
      else if bool_decide (s = str "Server") then ConfigServer <$> ServerConfig_deserialize rest
      else None
  | _ => None
  end.

(** [serde_json::from_str::<EngineConfig>] on objects. *)
Definition from_str (read_object : list Z → option Members) (json : list Z) : option EngineConfig :=
  read_object json ≫= EngineConfig_deserialize.

(** The defaults of a missing field are those of [Default]. *)
Example server_defaults : ServerConfig_deserialize [] = Some ServerConfig_default.
Proof. reflexivity. Qed.
Example client_defaults :
  ClientConfig_deserialize [(str "proxy_addr", JString (str "192.168.43.1:1080"))] = Some ClientConfig_default.
Proof. reflexivity. Qed.
Example no_proxy : ClientConfig_deserialize [(str "mtu", JNumber 1280)] = None.
Proof. reflexivity. Qed.
Example unknown_field_ignored :
  EngineConfig_deserialize [(str "extra", JOther); (str "mode", JString (str "Server"))] =
    Some (ConfigServer ServerConfig_default).
Proof. reflexivity. Qed.
Example repeated_field :
  EngineConfig_deserialize [(str "mode", JString (str "Server")); (str "mode", JString (str "Server"))] = None.
Proof. reflexivity. Qed.

(** ** The text of an object

    What a reader must do: read back members whose strings need no escapes,
    however long the object is, and reject the empty text. *)
Definition json_value (v : Json) : list Z :=
  match v with JString s => quoted s | JNumber n => int_str n | _ => [] end.
Definition json_member (m : list Z * Json) : list Z := str "  " ++ quoted m.1 ++ str ": " ++ json_value m.2.
Definition member_ok (m : list Z * Json) : Prop :=
  forallb plain m.1 = true ∧
  match m.2 with
  | JString s => forallb plain s = true
  | JNumber n => 0 ≤ n < 2 ^ 64
  | _ => False
  end.
Definition reads_objects (read_object : list Z → option Members) : Prop :=
  (∀ ms, ms ≠ [] → Forall member_ok ms → read_object (json_object (json_member <$> ms)) = Some ms) ∧
  read_object [] = None.

(** The members that the application writes. *)
Definition client_members (proxyAddr : list Z) (mtu : Z) (dnsServer : list Z) : Members :=
  [(str "mode", JString (str "Client")); (str "proxy_addr", JString proxyAddr);
   (str "mtu", JNumber mtu); (str "dns_server", JString dnsServer)].
Definition server_members (socksAddr httpAddr : list Z) : Members :=
  [(str "mode", JString (str "Server")); (str "socks_bind", JString socksAddr);
   (str "http_bind", JString httpAddr)].

Lemma client_config_members p mtu d : client_config p mtu d = json_object (json_member <$> client_members p mtu d).
Proof. done. Qed.
Lemma server_config_members a b : server_config a b = json_object (json_member <$> server_members a b).
Proof. done. Qed.

Lemma display_ip_plain a : ip_ok a → forallb plain (display_ip a) = true.
Proof.
  destruct a as [ip|ip]; intros Hip.
  - pose proof (display_addr_plain (SockV4 ip 0)) as H. cbn [display_addr] in H. rewrite !forallb_app in H.
    apply andb_true_iff in H as [H _]; [done|]. split; [done|split; lia].
  - pose proof (display_addr_plain (SockV6 ip 0 0 0)) as H. cbn [display_addr] in H. rewrite !forallb_app in H.
    apply andb_true_iff in H as [_ H]; [|by split_and!]. by apply andb_true_iff in H as [H _].
Qed.

(** What the derived implementations make of them. *)
Lemma client_members_read p mtu d :
  EngineConfig_deserialize (client_members p mtu d) =
    (proxy_addr ← SocketAddr_from_str p;
     mtu ← de_uint 65535 (JNumber mtu);
     dns_server ← IpAddr_from_str d;
     Some (ConfigClient {| c_proxy_addr := proxy_addr; c_mtu := mtu; c_dns_server := dns_server;
                           c_udp_associate_enabled := true |})).
Proof.
  change (EngineConfig_deserialize (client_members p mtu d)) with
    (ConfigClient <$> ClientConfig_deserialize
       [(str "proxy_addr", JString p); (str "mtu", JNumber mtu); (str "dns_server", JString d)]).
  unfold ClientConfig_deserialize.
  change (required "proxy_addr" de_addr _) with (SocketAddr_from_str p).
  change (optional "mtu" default_mtu (de_uint 65535) _) with (de_uint 65535 (JNumber mtu)).
  change (optional "dns_server" default_dns de_ip _) with (IpAddr_from_str d).
  change (optional "udp_associate_enabled" default_true de_bool _) with (Some true).
  destruct (SocketAddr_from_str p); [|done]. cbn [mbind option_bind].
  destruct (de_uint 65535 (JNumber mtu)); [|done]. cbn [mbind option_bind].
  by destruct (IpAddr_from_str d).
Qed.

Lemma server_members_read a b :
  EngineConfig_deserialize (server_members a b) =
    (socks_bind ← SocketAddr_from_str a;
     http_bind ← SocketAddr_from_str b;
     Some (ConfigServer {| s_socks_bind := socks_bind; s_http_bind := http_bind; s_max_connections := 512 |})).
Proof.
  change (EngineConfig_deserialize (server_members a b)) with
    (ConfigServer <$> ServerConfig_deserialize [(str "socks_bind", JString a); (str "http_bind", JString b)]).
  unfold ServerConfig_deserialize.
  change (optional "socks_bind" default_socks_bind de_addr _) with (SocketAddr_from_str a).
  change (optional "http_bind" default_http_bind de_addr _) with (SocketAddr_from_str b).
  change (optional "max_connections" default_max_connections _ _) with (Some 512).
  destruct (SocketAddr_from_str a); [|done]. cbn [mbind option_bind]. by destruct (SocketAddr_from_str b).
Qed.

Section configured.
Context {GlobalRef JString' : Type}.
Variable attach_current_thread : Process GlobalRef → bool.
Variable new_string : Process GlobalRef → list Z → option JString'.
Variable build_runtime : Process GlobalRef → Outcome IoErrorKind unit.
Variable read_object : list Z → option Members.

(** The engine of a process is started with this configuration. *)
Definition starts_client (fd : Z) (text : list Z) (cfg : ClientConfig) : Prop :=
  ∀ (p : Process GlobalRef) e, instance p = Some e →
    ∃ e', start_client fd cfg e = Ok e' ∧
      EngineBridge_startClient attach_current_thread new_string build_runtime (from_str read_object) fd (Some text) p
        = (ffi_code.OK, set_engine attach_current_thread new_string e' p).
Definition starts_server (text : list Z) (cfg : ServerConfig) : Prop :=
  ∀ (p : Process GlobalRef) e, instance p = Some e →
    ∃ e', start_server cfg e = Ok e' ∧
      EngineBridge_startServer attach_current_thread new_string build_runtime (from_str read_object) (Some text) p
        = (ffi_code.OK, set_engine attach_current_thread new_string e' p).

Lemma starts_client_with fd text cfg :
  0 ≤ fd →
  match from_str read_object text with Some (ConfigClient c) => c | _ => ClientConfig_default end = cfg →
  starts_client fd text cfg.
Proof.
  intros Hfd Hc p e Hi. destruct (start_client_total fd cfg e Hfd) as [e' He']. exists e'. split; [done|].
  unfold EngineBridge_startClient. destruct (Z.ltb_spec fd 0); [lia|]. cbv zeta. change (default [] (Some text)) with text. rewrite Hc.
  unfold get_or_init, Engine_get. rewrite Hi, He'. done.
Qed.
Lemma starts_server_with text cfg :
  match from_str read_object text with Some (ConfigServer c) => c | _ => ServerConfig_default end = cfg →
  starts_server text cfg.
Proof.
  intros Hc p e Hi. destruct (start_server_total cfg e) as [e' He']. exists e'. split; [done|].
  unfold EngineBridge_startServer. cbv zeta. change (default [] (Some text)) with text. rewrite Hc. unfold get_or_init, Engine_get. by rewrite Hi, He'.
Qed.

(** C18. A configuration arrives as it was meant, or not at all. The text that
    the application writes for a client, from the printed proxy address, the
    MTU and the printed resolver address, and the one for a server, from its
    two addresses, start the engine with exactly those values, IPv4 or IPv6
    (the flow label, which is not printed, becomes 0), and with the documented
    defaults for the rest. A proxy that is not the text of an address, such as
    a host name, or an MTU above 65535 makes the engine start all the same, with
    code OK and the default configuration. *)
Theorem config_arrives (fd mtu : Z) (a b : SocketAddr) (d : IpAddr)
    (Hread : reads_objects read_object) (Hfd : 0 ≤ fd)
    (Ha : sockaddr_ok a) (Hb : sockaddr_ok b) (Hd : ip_ok d) (Hmtu : u16 mtu) :
  starts_client fd (client_config (display_addr a) mtu (display_ip d))
    {| c_proxy_addr := printed a; c_mtu := mtu; c_dns_server := d; c_udp_associate_enabled := true |} ∧
  starts_server (server_config (display_addr a) (display_addr b))
    {| s_socks_bind := printed a; s_http_bind := printed b; s_max_connections := 512 |} ∧
  ∀ proxy n, forallb plain proxy = true → 0 ≤ n < 2 ^ 31 →
    SocketAddr_from_str proxy = None ∨ 65535 < n →
    starts_client fd (client_config proxy n (display_ip d)) ClientConfig_default.
Proof.
  destruct Hread as [Hread _]. destruct Hmtu as [Hm1 Hm2]. change (2 ^ 16) with 65536 in Hm2.
  assert (∀ proxy n, forallb plain proxy = true → 0 ≤ n < 2 ^ 31 →
    from_str read_object (client_config proxy n (display_ip d)) =
      EngineConfig_deserialize (client_members proxy n (display_ip d))) as Hclient.
  { intros proxy n Hp Hn. unfold from_str. rewrite client_config_members, Hread; [done|done|].
    repeat constructor; cbn [fst snd]; try done; [lia|cbn; lia|by apply display_ip_plain]. }
  split; [|split].
  - apply starts_client_with; [done|]. rewrite Hclient by (by apply display_addr_plain || lia).
    rewrite client_members_read, SocketAddr_from_display, IpAddr_from_display by done. cbn.
    by destruct (Z.leb_spec 0 mtu), (Z.leb_spec mtu 65535); try lia.
  - apply starts_server_with. unfold from_str. rewrite server_config_members, Hread; [|done|].
    + cbn [mbind option_bind]. by rewrite server_members_read, !SocketAddr_from_display.
    + repeat constructor; cbn [fst snd]; try done; by apply display_addr_plain.
  - intros proxy n Hp Hn Hbad. apply starts_client_with; [done|]. rewrite Hclient by done.
    rewrite client_members_read. destruct (SocketAddr_from_str proxy); [|done]. cbn.
    destruct Hbad as [|Hbad]; [done|]. by destruct (Z.leb_spec 0 n), (Z.leb_spec n 65535); try lia.
Qed.
End configured.

(** ** A reader of objects

    Strings without escapes and integers, with white space between the
    tokens. *)
Definition token (c : Z) (l : list Z) : option (list Z) :=
  match skip_spaces l with d :: r => if d =? c then Some r else None | [] => None end.
Definition mini_value (l : list Z) : option (Json * list Z) :=
  match json_str l with
  | Some (s, r) => Some (JString s, r)
  | None => '(n, r) ← read_number 10 (2 ^ 64 - 1) None true l; Some (JNumber n, r)
  end.
Fixpoint mini_members (fuel : nat) (l : list Z) : option Members :=
  match fuel with
  | O => None
  | S fuel =>
      '(k, l) ← json_str (skip_spaces l);
      l ← token 58 l;
      '(v, l) ← mini_value (skip_spaces l);
      match skip_spaces l with
      | c :: r =>
          if c =? 44 then ms ← mini_members fuel r; Some ((k, v) :: ms)
          else if (c =? 125) && bool_decide (skip_spaces r = []) then Some [(k, v)] else None
      | [] => None
      end
  end.
Definition mini_read (l : list Z) : option Members := l ← token 123 l; mini_members (length l) l.

Lemma skip_dec n l : 0 ≤ n < 2 ^ 64 → skip_spaces (dec n ++ l) = dec n ++ l.
Proof.
  intros Hn. destruct (dec_facts n Hn) as (Hd & _ & Hne). destruct (dec n) as [|c ds]; [done|].
  cbn [app skip_spaces forallb] in *. apply andb_true_iff in Hd as [Hc _]. unfold is_digit in Hc.
  apply andb_true_iff in Hc as [H1 H2]. apply Z.leb_le in H1, H2. unfold regex_space. cbn [existsb].
  repeat match goal with |- context [c =? ?k] => destruct (Z.eqb_spec c k); [lia|] end. done.
Qed.

Lemma mini_value_read v l :
  member_ok ([], v) → stops 10 l → mini_value (skip_spaces (json_value v ++ l)) = Some (v, l).
Proof.
  intros [_ Hv] Hl. destruct v as [s|n|b|]; [| |done|done]; cbn [json_value snd] in *.
  - change (skip_spaces (quoted s ++ l)) with (quoted s ++ l). unfold mini_value.
    by rewrite json_str_quoted.
  - unfold int_str. destruct (Z.ltb_spec n 0); [lia|]. rewrite skip_dec by done. unfold mini_value.
    destruct (dec_facts n Hv) as (Hd & _ & Hne).
    assert (json_str (dec n ++ l) = None) as ->.
    { destruct (dec n) as [|c ds]; [done|]. cbn [app json_str forallb] in *. apply andb_true_iff in Hd as [Hc _].
      unfold is_digit in Hc. apply andb_true_iff in Hc as [H1 H2]. apply Z.leb_le in H1, H2.
      by destruct (Z.eqb_spec c 34); [lia|]. }
    by rewrite read_dec by (done || lia).
Qed.

Lemma mini_members_read ms fuel :
  ms ≠ [] → Forall member_ok ms → (length ms ≤ fuel)%nat →
  mini_members fuel (nl ++ join_with (str "," ++ nl) (json_member <$> ms) ++ nl ++ str "}") = Some ms.
Proof.
  revert fuel. induction ms as [|[k v] ms IH]; intros fuel Hne Hok Hf; [done|].
  apply Forall_cons in Hok as [[Hk Hv] Hok]. destruct fuel as [|fuel]; [cbn in Hf; lia|].
  assert (∀ r, stops 10 r → mini_members (S fuel) (nl ++ json_member (k, v) ++ r) =
    match skip_spaces r with
    | c :: l => if c =? 44 then ms ← mini_members fuel l; Some ((k, v) :: ms)
                else if (c =? 125) && bool_decide (skip_spaces l = []) then Some [(k, v)] else None
    | [] => None
    end) as Hstep.
  { intros r Hr. unfold json_member. cbn [fst snd]. rewrite <- !app_assoc. cbn [mini_members].
    change (skip_spaces (nl ++ str "  " ++ quoted k ++ ?l)) with (quoted k ++ l).
    rewrite json_str_quoted by done. cbn [mbind option_bind].
    change (token 58 (str ": " ++ ?l)) with (Some (32 :: l)). cbn [mbind option_bind].
    change (skip_spaces (32 :: ?l)) with (skip_spaces l). by rewrite mini_value_read. }
  destruct ms as [|m ms]; cbn [fmap list_fmap join_with] in *; rewrite <- ?app_assoc.
  - rewrite Hstep by done. done.
  - rewrite Hstep by done. change (skip_spaces (str "," ++ nl ++ ?l)) with (44 :: nl ++ l). cbn iota.
    change (44 =? 44) with true. cbn iota. rewrite IH; [done|done|done|cbn in *; lia].
Qed.

Lemma mini_read_objects : reads_objects mini_read.
Proof.
  split; [|done]. intros ms Hne Hok. unfold mini_read, json_object.
  change (token 123 (str "{" ++ ?l)) with (Some l). cbn [mbind option_bind].
  apply mini_members_read; [done|done|]. rewrite !length_app. clear Hok Hne.
  induction ms as [|m ms IH]; [cbn; lia|]. destruct ms as [|m' ms]; [cbn; lia|].
  cbn [fmap list_fmap join_with] in *. rewrite !length_app. change (length (str ",")) with 1%nat.
  cbn [length] in *. lia.
Qed.

(** A client for a proxy on IPv6, and a host name that leads to the default
    proxy. *)
Lemma config_arrives_witness :
  let a := SockV6 (254 :: 128 :: replicate 13 0 ++ [1]) 1080 0 3 in
  display_addr a = str "[fe80::1%3]:1080" ∧
  starts_client Demo.attach Demo.mk_string Demo.build mini_read 5
    (client_config (str "[fe80::1%3]:1080") 1280 (str "1.1.1.1"))
    {| c_proxy_addr := a; c_mtu := 1280; c_dns_server := IpV4 [1; 1; 1; 1]; c_udp_associate_enabled := true |} ∧
  starts_client Demo.attach Demo.mk_string Demo.build mini_read 5
    (client_config (str "gravital.local:1080") 1280 (str "1.1.1.1")) ClientConfig_default.
Proof.
  cbv zeta. split; [reflexivity|].
  destruct (config_arrives Demo.attach Demo.mk_string Demo.build mini_read 5 1280
    (SockV6 (254 :: 128 :: replicate 13 0 ++ [1]) 1080 0 3) (SockV4 [0; 0; 0; 0] 8080) (IpV4 [1; 1; 1; 1]))
    as (Hc & _ & Hbad).
  - exact mini_read_objects.
  - lia.
  - split; [split; [reflexivity|repeat constructor; lia]|]. split; [split; lia|]. split; split; lia.
  - split; [split; [reflexivity|repeat constructor; lia]|split; lia].
  - split; [reflexivity|repeat constructor; lia].
  - split; lia.
  - split; [exact Hc|]. apply (Hbad (str "gravital.local:1080") 1280); [reflexivity|lia|left; reflexivity].
Defined.
