(* ===== verification/Mcp.v ===== *)
(** * gravital-obs/src/mcp.rs: the local diagnostic endpoint

    serde_json's printer of a flat object is a parameter, and so are the hashes
    of the clock that the session token is made of. *)

From Stdlib Require Import ZArith Lia.
From Stdlib Require Import String.
From stdpp Require Import sets.
From S2P Require Import Prelude Bytes Net Io Utf8 Text Display SocksServer.
Local Open Scope list_scope.
Local Open Scope Z_scope.

Definition MCP_PORT : Z := 7423.
Definition MCP_BIND : list Z := [127; 0; 0; 1].

(** [IpAddr::is_loopback]. *)
Definition is_loopback (ip : IpAddr) : bool :=
  match ip with
  | IpV4 o => o !!! 0%nat =? 127
  | IpV6 o => bool_decide (o = replicate 15 0 ++ [1])
  end.

(** ** The session token

    [hashes] are the values of [DefaultHasher::finish] on the clock, one for
    each call. *)
Definition rand_byte (hash_now : Z) : Z := cast 8 hash_now.
Record McpEndpoint := { token : list Z }.
Definition McpEndpoint_new (hashes : nat → Z) : McpEndpoint :=
  {| token := concat ((λ i, hex_pad 2 (rand_byte (hashes i))) <$> seq 0 32) |}.

(** ** The accept loop

    The branch of [select!] takes only successful accepts: after a failed one
    the turn goes on waiting for the other branch alone ([stalled]). *)
Fixpoint mcp_loop {S} (stalled : bool) (events : list (AcceptEvent S)) : bool * list S :=
  match events with
  | [] => (false, [])
  | Accepted stream peer :: events =>
      if stalled then mcp_loop stalled events
      else
        let '(ended, tasks) := mcp_loop stalled events in
        (ended, if is_loopback (SocketAddr_ip peer) then stream :: tasks else tasks)
  | AcceptErr _ :: events => mcp_loop true events
  | ShutdownChanged value :: events => if value then (true, []) else mcp_loop false events
  end.

(** The connections that are served, and whether the loop has ended. *)
Definition mcp_serve {S} (bind : Outcome IoErrorKind unit) (events : list (AcceptEvent S))
    : bool * list S :=
  match bind with
  | Ok _ => mcp_loop false events
  | _ => (true, [])
  end.

(** ** Requests *)
Definition extract_path (req : list Z) : list Z :=
  match first_line req with
  | Some l => default (str "/") (split_whitespace l !! 1%nat)
  | None => str "/"
  end.

Inductive Json := JStr (s : list Z) | JNum (n : Z).

Definition UNAUTHORIZED : list Z :=
  str "HTTP/1.1 401 Unauthorized" ++ CRLF ++ str "Content-Length: 0" ++ CRLF ++ CRLF.
Definition bearer (tok : list Z) : list Z := str "Authorization: Bearer " ++ tok.

Definition NOT_FOUND_JSON : list Z :=
  str "{" ++ [34] ++ str "error" ++ [34] ++ str ":" ++ [34] ++ str "not found" ++ [34] ++ str "}".

Section requests.
Context {S : Type} `{AsyncIo S}.
Variable json_to_string : list (list Z * Json) → list Z.

Definition get_state_json : list Z :=
  json_to_string [(str "schema", JStr (str "gs.event.v1")); (str "state", JStr (str "Idle"));
                  (str "note", JStr (str "engine not started"))].
Definition get_metrics_json : list Z :=
  json_to_string [(str "bytes_in", JNum 0); (str "bytes_out", JNum 0);
                  (str "active_tcp_sessions", JNum 0); (str "active_udp_assocs", JNum 0)].
Definition get_dns_check_json : list Z :=
  json_to_string [(str "status", JStr (str "not_running"))].

Definition mcp_body (path : list Z) : list Z :=
  if bool_decide (path = str "/state") then get_state_json
  else if bool_decide (path = str "/metrics") then get_metrics_json
  else if bool_decide (path = str "/dns/check") then get_dns_check_json
  else NOT_FOUND_JSON.

Definition mcp_status (path : list Z) : list Z :=
  if bool_decide (path = str "/state") || bool_decide (path = str "/metrics")
     || bool_decide (path = str "/dns/check")
  then str "200 OK" else str "404 Not Found".

Definition mcp_response (path : list Z) : list Z :=
  let body := mcp_body path in
  str "HTTP/1.1 " ++ mcp_status path ++ CRLF ++ str "Content-Type: application/json" ++ CRLF ++
  str "Content-Length: " ++ dec (Z.of_nat (length body)) ++ CRLF ++ CRLF ++ body.

Definition handle_mcp_request (tok : list Z) : IO S IoErrorKind unit :=
  let? bytes := io_read 4096 in
  let req := if is_utf8 bytes then bytes else [] in
  if negb (contains (bearer tok) req) then
    let? _ := write_all UNAUTHORIZED in iret tt
  else
    let path := extract_path req in
    write_all (mcp_response path).
End requests.

(** ** Properties *)

(** The token is 64 hexadecimal digits, and they spell the 32 bytes drawn. *)
Lemma McpEndpoint_new_ok (hashes : nat → Z) :
  let t := token (McpEndpoint_new hashes) in
  length t = 64%nat ∧ forallb is_hex t = true ∧
  ∀ i, (i < 32)%nat → hex_value (take 2 (drop (2 * i) t)) 0 = rand_byte (hashes i).
Proof.
  assert (∀ x, length (hex_pad 2 (rand_byte x)) = 2%nat ∧ forallb is_hex (hex_pad 2 (rand_byte x)) = true ∧
    hex_value (hex_pad 2 (rand_byte x)) 0 = rand_byte x) as Hx.
  { intros x. apply hex_pad_spec; [lia|]. unfold rand_byte, cast. apply Z.mod_pos_bound. lia. }
  assert (∀ k n, let t := concat ((λ i, hex_pad 2 (rand_byte (hashes i))) <$> seq k n) in
    length t = (2 * n)%nat ∧ forallb is_hex t = true ∧
    ∀ i, (i < n)%nat → hex_value (take 2 (drop (2 * i) t)) 0 = rand_byte (hashes (k + i)%nat)) as Hgen.
  { intros k n. revert k. induction n as [|n IH]; intros k; [split_and!; [done|done|lia]|].
    destruct (IH (S k)) as (Hl & Hh & Hv), (Hx (hashes k)) as (H1 & H2 & H3).
    cbn [seq fmap list_fmap concat]. split; [|split].
    - rewrite length_app, Hl. lia.
    - by rewrite forallb_app, H2, Hh.
    - intros [|i] Hi.
      + rewrite Nat.mul_0_r, drop_0, take_app_length', Nat.add_0_r; done.
      + replace (2 * S i)%nat with (2 + 2 * i)%nat by lia. rewrite <- drop_drop, drop_app_length' by done.
        rewrite Hv by lia. f_equal. f_equal. lia. }
  destruct (Hgen 0%nat 32%nat) as (H1 & H2 & H3). done.
Qed.

(** A request as an HTTP client writes it, with a request line of printable
    words and the rest of the message. *)
Definition http_request (method path version rest : list Z) : list Z :=
  (method ++ 32 :: path ++ 32 :: version) ++ CRLF ++ rest.

Lemma graph_no_newline w : forallb is_graph w = true → 10 ∉ w.
Proof.
  intros Hg Hin. apply List.forallb_forall with (x := 10) in Hg; [done|]. by apply list_elem_of_In.
Qed.

Lemma extract_path_request method path version rest :
  forallb is_graph method = true → forallb is_graph path = true → forallb is_graph version = true →
  method ≠ [] → path ≠ [] → extract_path (http_request method path version rest) = path.
Proof.
  intros Hm Hp Hv Hnm Hnp. unfold extract_path, http_request. rewrite first_line_crlf.
  - by destruct (split_request_line method path version Hm Hp Hnm Hnp) as [ws ->].
  - apply graph_no_newline in Hm, Hp, Hv. rewrite not_elem_of_app, not_elem_of_cons,
      not_elem_of_app, not_elem_of_cons. done.
Qed.

(** ASCII is UTF-8. *)
Lemma ascii_is_utf8 l : Forall (λ b, 0 ≤ b < 128) l → is_utf8 l = true.
Proof.
  unfold is_utf8. induction 1 as [|b l Hb _ IH]; [done|]. cbn [length utf8_loop].
  assert (utf8_step (b :: l) = (true, 1%nat)) as ->; [|done].
  unfold utf8_step. change (safe_get (b :: l) 0) with b. unfold utf8_seq, utf8_char_width, within.
  destruct (Z.leb_spec 0 b); [|lia]. destruct (Z.leb_spec b 127); [done|lia].
Qed.

Section mcp.
Context {S : Type} `{AsyncIoLaws S} (json_to_string : list (list Z * Json) → list Z).

Lemma mcp_run tok (s : S) bytes s1 rest :
  io_read 4096 s = (Ok bytes, s1) → feeding rest (view s1) →
  ∃ s2, handle_mcp_request json_to_string tok s = (Ok tt, s2) ∧
    tx (view s2) = tx (view s1) ++
      (let req := if is_utf8 bytes then bytes else [] in
       if contains (bearer tok) req then mcp_response json_to_string (extract_path req)
       else UNAUTHORIZED).
Proof.
  intros Hr Hf. unfold handle_mcp_request. rewrite (ibind_step _ _ _ _ _ Hr). cbv zeta.
  assert (∀ l, ∃ s2, write_all l s1 = (Ok tt, s2) ∧ view s2 = mk rest (view s1) l) as Hw.
  { intros l. eapply sim_run; [apply sim_write_all|]. rewrite (feeding_mk _ _ Hf) at 1. apply write_all_mk. }
  destruct (contains _ _); cbn [negb].
  - destruct (Hw (mcp_response json_to_string (extract_path (if is_utf8 bytes then bytes else []))))
      as (s2 & -> & Hv). exists s2. by rewrite Hv.
  - destruct (Hw UNAUTHORIZED) as (s2 & Hw2 & Hv). exists s2.
    rewrite (ibind_step _ _ _ _ _ Hw2), Hv. done.
Qed.

(** C40. The diagnostic endpoint answers only who holds the token and is
    local: connections from other than loopback addresses are never served; a
    request without the bearer token gets exactly the bodiless 401 response,
    whatever it asks for; and an ASCII request with it gets the answer for the
    path of its request line, 200 for the three routes and 404 otherwise, with
    a Content-Length that is the length of the body. *)
Theorem mcp_spec (tok : list Z) (events : list (AcceptEvent S)) (s s1 : S) (rest : list Z)
    (method path version more : list Z) (bytes : list Z)
    (Hread : io_read 4096 s = (Ok bytes, s1)) (Hf : feeding rest (view s1)) :
  (∀ st, st ∈ (mcp_loop false events).2 →
     ∃ peer, Accepted st peer ∈ events ∧ is_loopback (SocketAddr_ip peer) = true) ∧
  (contains (bearer tok) (if is_utf8 bytes then bytes else []) = false →
     ∃ s2, handle_mcp_request json_to_string tok s = (Ok tt, s2) ∧
       tx (view s2) = tx (view s1) ++ UNAUTHORIZED) ∧
  (bytes = http_request method path version more → Forall (λ b, 0 ≤ b < 128) bytes →
   forallb is_graph method = true → forallb is_graph path = true → forallb is_graph version = true →
   method ≠ [] → path ≠ [] → contains (bearer tok) bytes = true →
     ∃ s2, handle_mcp_request json_to_string tok s = (Ok tt, s2) ∧
       tx (view s2) = tx (view s1) ++
         str "HTTP/1.1 " ++
         (if bool_decide (path ∈ [str "/state"; str "/metrics"; str "/dns/check"])
          then str "200 OK" else str "404 Not Found") ++ CRLF ++
         str "Content-Type: application/json" ++ CRLF ++
         str "Content-Length: " ++ dec (Z.of_nat (length (mcp_body json_to_string path))) ++
         CRLF ++ CRLF ++ mcp_body json_to_string path).
Proof.
  split; [|split].
  - generalize false. induction events as [|[st peer|e|v] events IH]; intros stalled st'; cbn.
    + by intros ?%not_elem_of_nil.
    + destruct stalled.
      * intros (p & Hp & Hl)%IH. exists p. split; [by right|done].
      * specialize (IH false st'). destruct (mcp_loop false events) as [ended tasks].
        destruct (is_loopback (SocketAddr_ip peer)) eqn:Hl; cbn.
        -- intros [->|Hin]%elem_of_cons; [exists peer; split; [by left|done]|].
           destruct (IH Hin) as (p & Hp & Hpl). exists p. split; [by right|done].
        -- intros (p & Hp & Hpl)%IH. exists p. split; [by right|done].
    + intros (p & Hp & Hl)%IH. exists p. split; [by right|done].
    + destruct v; [by intros ?%not_elem_of_nil|].
      intros (p & Hp & Hl)%IH. exists p. split; [by right|done].
  - intros Hc. destruct (mcp_run tok s bytes s1 rest Hread Hf) as (s2 & Hr & Ht).
    exists s2. split; [done|]. rewrite Ht. cbv zeta. by rewrite Hc.
  - intros Hb Ha Hm Hp Hv Hnm Hnp Hc.
    destruct (mcp_run tok s bytes s1 rest Hread Hf) as (s2 & Hr & Ht). exists s2. split; [done|].
    rewrite Ht. cbv zeta. rewrite ascii_is_utf8, Hc by done. rewrite Hb, extract_path_request by done.
    unfold mcp_response. f_equal. f_equal. f_equal. unfold mcp_status.
    assert (∀ a b c : list Z, bool_decide (path ∈ [a; b; c]) =
      bool_decide (path = a) || bool_decide (path = b) || bool_decide (path = c)) as ->; [|done].
    intros a b c. repeat case_bool_decide; set_solver.
Qed.
End mcp.

(** An unauthorised request for the metrics, from loopback. *)
Definition demo_request : list Z :=
  http_request (str "GET") (str "/metrics") (str "HTTP/1.1") CRLF.
Definition demo_stream : Stream :=
  {| rx := demo_request; rx_end := None; chunks := []; tx := []; tx_room := None |}.

Lemma mcp_spec_witness :
  ∃ s2, handle_mcp_request (S := Stream) (λ _, []) (str "secret") demo_stream = (Ok tt, s2) ∧
    tx s2 = UNAUTHORIZED.
Proof.
  refine (proj1 (proj2 (mcp_spec (S := Stream) (λ _, []) (str "secret") [] demo_stream
    (stream_read 4096 demo_stream).2 [] [] [] [] [] demo_request _ _)) _).
  - vm_compute. reflexivity.
  - split; vm_compute; reflexivity.
  - vm_compute. reflexivity.
Defined.
